(* ===== verification/_CoqProject ===== *)
-Q . S2P
Prelude.v
JsNum.v
Color.v
Dom.v
Markup.v
Position.v
Timers.v
Typing.v
Cursor.v
Cookie.v
Json.v
JsonText.v
Channel.v
Editor.v
Session.v
Converge.v
Relay.v
Wire.v
Net.v
Export.v
Page.v
Notices.v
