(* ===== verification/Prelude.v ===== *)
(** * Verification of the collaborative editor's browser client

    The program is the browser side of a collaborative text editor:
    [src/hello/static/hello/editor.js] (one closure per open document) and
    [src/hello/static/hello/scripts.js] (page-wide helpers).  The client keeps
    an editable surface (the [#editor] element), relays every local edit as
    a whole-document snapshot over a WebSocket, applies the snapshots of
    other users, shows one cursor marker and one "is typing" badge per
    remote user, and saves the document on two timers.

    ** Files, in dependency order

    - [Prelude] (this file): the outcome type of JavaScript code that may
      throw ([outcome], with the monad notation of stdpp), [try]/[catch]
      ([try_catch]), the class of the regular expression engine
      ([RegExp]), the loop that runs the tasks that are ready
      ([iterate]), array indexing by a JavaScript number ([lookupZ],
      written [l.[i]] in scope [js_scope]), [Array.prototype.indexOf]
      ([indexOf]), strings as lists of characters ([chars], [text],
      [span], [strip]), the development's tactics and the hint
      database [js].
    - [JsNum]: the number operations [getColorForUser] uses: [ToInt32]
      ([to_int32]), the shift [<<] ([shl32]), the remainder [%] ([js_rem]),
      and the range in which a double holds an integer exactly
      ([safe_integer]).
    - [Color]: [getColorForUser] (editor.js 8-14): the hash loop
      ([hash_loop]), the hue ([hue]), the [hsl(...)] string.
    - [Dom]: the part of the browser's document the closure touches, as a
      store of nodes ([dom]) with [parentNode] pointers and [childNodes]
      lists: [createElement], [appendChild], [removeChild], the
      assignments to [className] and [style], and the replacement of the
      children of a node by a parsed fragment ([replace_children], what
      the setter of [innerHTML] does); the well-formedness invariant
      [dom_wf]; the frame relation [extends] and the equivalence
      [same_shape] of stores that differ in payloads only.
    - [Markup]: a serialiser ([markup]) and a parser ([parse_markup])
      for a part of HTML, elements with a class and text with the
      entities of the characters that are escaped; the trees of the
      children of a node as the serialiser reads them from the store
      ([read_children]), and the getter of [innerHTML] on them
      ([serialize_children]).  It is the codec the scenarios run on.
    - [Position]: the position codec: [getNodePath], [getNodeFromPath],
      [getCursorPosition] (editor.js 119-153), the specification of paths
      ([resolve]) and the round trips between the two functions.
    - [Timers]: the browser's timer table: [setTimeout], [clearTimeout],
      [setInterval], and the firing of the timer that is due first
      ([fire_next]); the callbacks editor.js arms ([callback]).
    - [Typing]: the typing indicator: [showUserTypingIndicator] and its
      expiry callback (editor.js 94-116) on the list of badges and the
      timer table; time passing ([advance]); the invariant [typing_inv].
    - [Cursor]: the cursor overlay: [updateCursor] (editor.js 156-182) on
      the document and the object [cursors] ([overlay]); the invariant
      [overlay_inv]; the class [Layout] of the geometry.
    - [Cookie]: [getCSRFToken] (editor.js 206-215, scripts.js 58-67) and
      the string functions it calls: [split], [trim] and
      [decodeURIComponent], on strings of bytes; the cookie jar that
      specifies the lookup ([document_cookie], [jar_lookup]).
    - [Json]: the values [JSON.parse] returns ([json]) and what the
      scripts do with a value they have not built: reading a property
      ([get]), testing it for truth ([truthy]), comparing it with a
      string ([is_string]), [v || d] ([or_else]) and the conversion to a
      string of the setter of [innerHTML] ([to_string]); the answer to a
      [fetch] ([answer]).
    - [JsonText]: the texts of those values: [JSON.stringify]
      ([JSON_stringify], with the escapes of [QuoteJSONString]) and
      [JSON.parse] ([JSON_parse], a parser of the grammar of JSON with
      the exception [SyntaxError]); the values a text of the writer is
      read back from ([json_wf]).
    - [Channel]: the socket of editor.js (36-37): its address
      ([socket_url]), its state ([ready_state]) and [socket.send] in each
      state ([send]); the object the [input] listener sends
      ([edit_message], 84-89) and the reading of a received value
      ([decode], 49 and the uses of the three variables); the shapes of
      section 6 of the specification as types of JSON values ([ty],
      [has_type], [message_ty]).
    - [Editor]: the state of the closure and of its socket ([state]) and
      the handlers: [socket.onopen], [onerror] and [onclose] (40-42,
      69-77), [socket.onmessage] from the parsed value on ([receive],
      45-49, and [onmessage], 45-66, for the message read in it), the two
      [input] listeners ([send_edit], 80-91, and [debounce], 280-283),
      [loadDocumentContent] for every answer to its fetch (17-33),
      [setupAutosave] and [autosaveDocument] (250-284),
      [searchAndReplace] (193-203), [duplicateLine] (245-247), composed
      into one function over events ([handle]) with the states reachable
      from the start ([reachable]); time passing ([elapse]: the due
      timers fire); the class [Html] of the parser and the serialiser;
      the two scenarios of the specification.
    - [Session]: the editor along a run of events ([steps]): the socket
      from connecting to closed, the fetch and the autosave that depends
      on it, the badges from the last message on, the values handed to
      the socket and their reading by the editor of a peer;
      [formatText] (188-190), the call of [document.execCommand], as
      the edit the command makes, with the class [Commands] of what a
      command does.
    - [Converge]: the editor of an author and the editor of a peer:
      what the peer shows after it has handled the message of an edit,
      under the laws [HtmlLaws] of the serialiser and the parser of the
      browser, which the codec of [Markup] satisfies.
    - [Relay]: the editors of the users of a document and the relay
      the specification assumes between them ([sys_handle]): every
      value an editor hands to its socket is put at the end of the
      inbox of every other editor whose socket is open ([relay]), and
      the frames of an inbox are delivered in order; runs of the system
      ([sys_run]) and its reachable states ([sys_reachable]).
    - [Wire]: the texts the network carries: [socket.onmessage] from
      the data of the event on ([socket_onmessage], 45-46), the frames
      the input listener has sent ([frames], 84-89), the body of the
      autosave request ([save_body], 260), the reading of the response
      of the fetch ([response], 20-23), and the document store of
      section 6 of the specification ([store], [document_body]).
    - [Net]: the system of [Relay] with the texts: what an editor
      sends is the text of its frame ([new_texts]), the relay puts
      texts on the wires of the others ([broadcast]), and a delivery
      is [Wire.socket_onmessage] on the first text of a wire
      ([net_handle]); the states it reaches ([net_reachable]) and the
      image of a system of values ([on_wire]).
    - [Export]: the two export functions, [downloadFile] (editor.js
      218-242) and [downloadFileAs] (scripts.js 134-169) with the
      listener of the download button (172-180), as functions from the
      content of the editor and the chosen format to what the call does:
      the link it clicks, with the blob and the file name, an alert, or
      a line on the console.
    - [Page]: the page-wide code of scripts.js: the theme switch (2-42)
      on the class lists of [body] and of the icon, the title of the
      button and the stored item ([onload], [onclick],
      [updateToggleIcon]); [sendRequest] and [deleteDocument] (70-102) as
      functions of the answer of the server and of the user, and the
      listeners of [setupDeleteButtons] (105-116);
      [searchAndReplace] of scripts.js (123-131).
    - [Notices]: the timers of the page: [setupAlertTimeout] (scripts.js
      45-55), which fades the alerts out and removes them, and the banner
      of [showTypingIndicator] (182-191), on the alerts, the text of the
      banner and a timer table of their own; time passing ([pass]).

    ** How the model corresponds to the code

    JavaScript numbers are doubles.  Every number the modelled code
    computes is an integer, and [Color.hash_exact] shows the hash stays
    below [2^53] in absolute value for every string of at most [2^21] code
    units, so the integers of [Z] are the values the doubles hold; [<<]
    wraps to 32 bits as [ToInt32] prescribes and [%] is the truncated
    remainder [Z.rem].

    JavaScript strings are sequences of 16-bit code units.  Strings are
    modelled by [string]; [charCodeAt] is the character's code.  The hash
    is defined over lists of code units, and its theorems are stated for
    units in [0, 65535], so they cover all strings.

    Mutable objects shared by reference (DOM nodes, the [cursors] object)
    are modelled by a store ([Dom.dom]) indexed by node identifiers, so
    that a node held in [cursors] and detached from the document by a
    later [innerHTML] assignment is the same node.  Code that may throw
    returns an [outcome]; where the state changes before the exception,
    the function returns the outcome and the state.  A [try]/[catch] is
    [try_catch].

    One event is handled at a time: a handler is a function from the
    state before the event to the state after it, and the flag
    [isUpdating] is part of the state.  Time is a parameter of the
    handlers that arm timers; timers fire as events, the one due first
    before the others.

    The network is the environment of the model.  It speaks through
    events: the socket opens ([SocketOpen]), closes with or without an
    error ([SocketClose]), delivers a frame ([Receive], with the result
    of [JSON.parse] on its text), and the fetch of the document is
    answered ([Loaded], with the [answer]).  What the editor gives the
    network is recorded in the state: the values handed to
    [socket.send] ([sent]) and the requests of the autosave ([saves]).
    A value of JSON is a [json]: a number is an integer.  The
    handlers of [Editor] start at the value, with the exception
    [SyntaxError] in its place for a frame that is not JSON; [Wire]
    puts the texts under them: [Wire.socket_onmessage] parses the
    data of the event with [JsonText.JSON_parse] and hands the result
    to [Editor.receive], and [Wire.frames] are the texts of what was
    sent; [Net] is the system of [Relay] on these texts.  The handler of a
    message is followed on the values [Channel.decode] reads: content and
    user are strings, the position is absent, falsy, or an object with a
    path of numbers and a number as offset ([Channel.understood]); the
    messages of other editors are of this kind
    ([Session.receive_peer]).  In [Relay] the frames are no longer
    events of the environment: they are the values the editors have
    sent, and the assumption on them is a theorem
    ([Relay.relay_inv]).  The server itself is not part of the
    sources: the relay is modelled from section 5 of the
    specification, and sends an editor no frame of its own.

    ** Fuel

    [getNodePath] climbs parent pointers; its model
    [Position.getNodePath_fuel] takes fuel, [Position.getNodePath] gives it
    the number of nodes of the store, and [Position.getNodePath_fuel_enough]
    shows that this is enough in every well-formed store: the nodes of a
    parent chain are distinct.  [Markup.parse_nodes] reads a character
    or a tag in each call and is given the length of the string and
    one, which [Markup.parse_nodes_show] shows to be enough for what
    the serialiser wrote; [Markup.read_tree] is given the number of
    identifiers the store has given out, which bounds the depth of a
    tree and is shown to be enough for the nodes an assignment to
    [innerHTML] has built ([Markup.read_children_built]).
    [JsonText.parse_json] reads a token in each call and is given
    twice the length of the text and two, which
    [JsonText.parse_json_fuel] shows to be enough for every text: each
    call leaves less of the text, or moves from a value to the items
    it opens, and more fuel changes no result.
    [Typing.advance], [Editor.elapse] and
    [Notices.pass] fire the due timers with the number of pending
    timers as fuel, which [Typing.advance_settles],
    [Editor.elapse_expires] and [Notices.pass_done] show to be enough
    when the periods of the repeating timers are positive, as the
    invariant of the editor says they are: a timer that has fired has
    left the table or is due a period later, and a callback arms no
    timer that is due at once.  Running out of fuel
    is a result ([None]) distinct from every result of the code, and
    [Editor.handle_total] shows no handler runs out.

    ** Parameters of the model

    What the browser computes and the sources only call is a class:
    [Editor.Html] (the parser behind the setter of [innerHTML] and the
    serialiser behind its getter), [Cursor.Layout] (the rectangles of
    [getBoundingClientRect]), [RegExp] (the regular expression engine
    behind [searchAndReplace]) and [Session.Commands] (the editing
    commands of [document.execCommand]).  The theorems hold for every
    instance; the instances [Editor.sample_html], which is the codec of
    [Markup], [Cursor.grid_layout], [Editor.sample_regexp] and
    [Session.sample_commands] serve the examples.  The theorems of
    [Converge] ask more of the browser than the others: that the
    markup of a node is a function of the trees of its children, the
    markup of one child after the other, and that markup the
    serialiser wrote is parsed into a fragment with the same markup
    ([Converge.HtmlLaws]).  HTML does not promise the second
    of every tree (a paragraph that holds a division is written and
    read back as two paragraphs around it), so the theorems are about
    the documents whose markup the parser reads back; the codec of
    [Markup] has the law for every tree.  The string
    [document.cookie] is a parameter of the handlers of [Editor] and of
    [Page.sendRequest], and the server that answers [fetch] is a
    function parameter of [Page.sendRequest]; the body of its request
    is the text [JsonText.JSON_stringify] writes.  The server of the
    document is not part of the sources: [Wire.store] and
    [Wire.document_body] are what section 6 of the specification says
    of the save resource and of the document resource.

    ** What the theorems show

    - [Color]: the doubles of the hash loop are exact; the hash is
      congruent modulo [2^32] to the polynomial hash with multiplier 31,
      and equal to it while no shift overflows; the hue lies between -360
      and 360 and may be negative; equal colours are equal hues.
    - [Dom]: every operation preserves [dom_wf]; replacing the children
      of a node gives a well-formed store in which the old children are
      detached.
    - [Markup]: the parser reads what the serialiser wrote, as the
      fragment in normal form (adjacent text nodes are one, tags are
      clean), which has the same markup; an escaped string is read
      back; the nodes an assignment to [innerHTML] builds are read
      back from the store as the fragment, also after the payloads of
      older nodes have changed.
    - [Position]: [getNodePath] terminates; on a well-formed document
      [getNodePath] and [getNodeFromPath] are inverse to each other;
      [getNodeFromPath] implements [resolve] and never throws;
      [getNodePath] throws exactly for the nodes outside the editor.
    - [Typing]: [showUserTypingIndicator] and the firing of timers keep
      [typing_inv]; every badge expires by its deadline; a badge stays
      while no timer of its user is due; the badge is refreshed when it
      records the only timer of its user, and is not after the second
      event of a user, whose first timer is recorded nowhere.
    - [Cursor]: [updateCursor] keeps [overlay_inv] and the paths of the
      document; it creates the marker before it resolves the path; it
      places the marker when the position resolves, leaves the state
      alone when the path does not, and throws when the offset is out of
      range or the username names a property of [Object.prototype].
    - [Editor]: the invariants of the reachable states (the flag is down
      between events, the overlay, the autosave timer, the badges); no
      handler runs out of fuel; only a local edit sends, and it sends one
      message; every badge expires while the autosave interval keeps
      firing, and the badge of a message stays 2000 ms when the user has
      no older timer; what a message does to the content; new content
      detaches the markers; an exception of [updateCursor] skips the
      badge; search and replace changes the document without sending
      or saving; the autosave is debounced and its request carries the
      token of the cookie jar.
    - [JsonText]: [JSON.parse] reads what [JSON.stringify] wrote of a
      value of [json_wf], and the text determines the value; what
      [JSON.parse] returns is such a value; the fuel of the parser is
      enough for every text.
    - [Channel]: what is sent has the type of a message and is read
      back as it was built; every value of that type is read.
    - [Session]: in every reachable state what was sent is typed and
      names the user; the editor of a peer handles it as the message it
      holds; the socket only moves forward, nothing is sent before it
      opens or after it has closed, and an edit made meanwhile is lost,
      with an exception while the socket is connecting; the answer to
      the fetch, case by case; after a failed fetch nothing is ever
      saved; 2000 ms after the last message of a session no badge is
      left; a formatting command is an edit or nothing, keeps the
      invariants and sends at most the markup it left.
    - [Converge]: the peer shows the markup of the author after a
      message without position and after a message of a user whose
      marker it has; after the first message with a position of a
      user the children of the editor of the peer are the fragment of
      the message followed by the marker of the user, and its markup
      the markup of the author followed by that of the marker
      ([Converge.edit_first_sighting]); an edit the peer makes next
      sends that markup, and the author, who had the document without
      it, then shows its own marker in the content
      ([Converge.marker_returns]).
    - [Relay]: in every reachable state of the system each editor
      satisfies the invariants of [Editor] and [Session] and every
      frame in flight is an edit of another user that the handler
      reads; a frame in flight is always delivered; once the relay
      has delivered the message of an edit without selection, the last
      of its inbox, the peer shows what the author shows; two edits
      that cross leave each editor with the document of the other.
    - [Wire]: the text an edit puts on the socket is parsed by the
      peer into the value that was sent, and the handler on the text
      is the handler of [Editor] on the message of the edit, for
      documents and offsets below [2^53]; the content an autosave
      sends is what the store keeps, and an editor that loads it shows
      the markup of the one that saved.
    - [Net]: the network of texts implements the system of values:
      every state it reaches is the image of a state [Relay] reaches
      and every step from it is the step of the system
      ([Net.net_refines]); the first text of a wire is parsed as an
      edit of another user and handled, so no text between editors
      is refused ([Net.net_deliver_total]).
    - [Cookie]: on the string of a jar without separators, escapes and
      white space in names and values, [getCSRFToken] returns the value
      of the first cookie named [csrftoken]; a value is cut at its first
      equals sign; malformed escapes throw.
    - [Export]: each function produces a file named after the format
      exactly for the three formats; the two functions agree on [html]
      only; the wrapper of the [doc] format is injective in the content.
    - [Page]: the load applies the stored theme and throws on a page
      without the button; a click flips the theme and keeps the button,
      the class of [body] and the stored item consistent; the choice
      survives a reload; a deletion reloads the page exactly when the
      server confirms it, shows one notification when the token can be
      read and none when it cannot; the answers that confirm are the
      objects whose [status] is [success].
    - [Notices]: the alerts are untouched for 5000 ms, fade when their
      timers run and are removed when the timers run 500 ms later; the
      banner is cleared by the timer of the first of two calls.

    ** Not modelled

    The transport of the socket and of [fetch] (the server: the relay
    of [Relay] is the one the specification assumes, and frames that
    are lost, reordered or sent by the server itself are outside it),
    the layout engine, the regular
    expression engine, what a command of [document.execCommand] does to
    the document and the object URLs of the export are not part of the
    model.  Of the HTML parser and serialiser the model has the part
    [Markup] describes: attributes other than the class, the inline
    style, comments and the error recovery of the parser (a string that
    is not markup of the language is the empty fragment) are not
    modelled.  Of JSON the model has the values with integers as
    numbers: a text with a fraction, an exponent or a number beyond
    [2^53], an escape [\u] above 007F and an object with a property
    named by digits are outside it ([JsonText.JSON_parse] gives
    [None] for them, a result distinct from a value and from the
    exception), and so is the handler of a message on values
    [Channel.decode] does not read (a user that is no string, a
    position that is truthy and no object of numbers).  Of the server
    of the document the model has what the specification says of a
    request that succeeds: the check of the token, the status of the
    response and the database are not modelled.  The console is not
    modelled: a handler that only logs leaves the state as it is.
    The response of the server to an autosave is logged only.  Strings are
    sequences of bytes in [Cookie], [Export] and [JsonText]: [trim] removes the
    ASCII white space, and [decodeURIComponent] returns the UTF-8
    encoding of the string the browser returns.  Coordinates are whole
    pixels.  The typing badges are modelled as the
    list of children of [#typing-indicator]: usernames are assumed free
    of the characters that would change the meaning of the attribute
    selector built from them (double quote, backslash, line break), and
    no element outside the typing indicator is assumed to match that
    selector. *)

From Stdlib Require Import Ascii String.
From stdpp Require Import base option list numbers strings.

Declare Scope js_scope.
Delimit Scope js_scope with js.

(** ** Outcomes of code that may throw *)

Inductive js_error : Set :=
| TypeError
| IndexSizeError
| SyntaxError
| URIError
| InvalidStateError.

Inductive outcome (A : Type) : Type :=
| Ok (a : A)
| Throw (e : js_error).
Arguments Ok {A} a.
Arguments Throw {A} e.

#[export] Instance js_error_eq_dec : EqDecision js_error.
Proof. solve_decision. Defined.

#[export] Instance outcome_eq_dec `{EqDecision A} : EqDecision (outcome A).
Proof. solve_decision. Defined.

#[export] Instance outcome_ret : MRet outcome := λ A a, Ok a.
#[export] Instance outcome_bind : MBind outcome := λ A B k m,
  match m with
  | Ok a => k a
  | Throw e => Throw e
  end.
#[export] Instance outcome_fmap : FMap outcome := λ A B f m,
  match m with
  | Ok a => Ok (f a)
  | Throw e => Throw e
  end.

Definition is_Ok {A} (m : outcome A) : Prop := ∃ a, m = Ok a.

(** [try { m } catch { h }] *)
Definition try_catch {A} (m : outcome A) (h : js_error → A) : A :=
  match m with
  | Ok a => a
  | Throw e => h e
  end.

(** ** The browser's regular expressions *)

(** [replace_all pattern replacement content] is
    [content.replace(new RegExp(pattern, 'g'), replacement)]; the
    constructor throws a [SyntaxError] when the pattern is not a regular
    expression. *)
Class RegExp : Type := {
  replace_all : string → string → string → outcome string;
}.

(** ** The event loop

    [iterate step fuel s] runs [step] until it has nothing to do, [fuel]
    times at most: the browser running the tasks that are ready, one
    after the other. *)
Fixpoint iterate {S : Type} (step : S → option S) (fuel : nat) (s : S) : S :=
  match fuel with
  | 0%nat => s
  | S fuel' =>
      match step s with
      | Some s' => iterate step fuel' s'
      | None => s
      end
  end.

(** ** Arrays indexed by a JavaScript number *)

(** [l[i]], written [l.[i]] in the scope [js_scope]: [None] stands for
    [undefined], the value of an index that is negative or past the end. *)
Definition lookupZ {A} (l : list A) (i : Z) : option A :=
  if decide (0 ≤ i)%Z then l !! Z.to_nat i else None.

Notation "l .[ i ]" := (lookupZ l i)
  (at level 1, format "l .[ i ]") : js_scope.

(** [Array.prototype.indexOf.call(l, x)]: the first index holding [x], or
    [-1]. *)
Definition indexOf `{EqDecision A} (l : list A) (x : A) : Z :=
  match list_find (λ y, y = x) l with
  | Some (i, _) => Z.of_nat i
  | None => (-1)%Z
  end.

(** ** Strings as lists of characters

    The serialisers and the parsers of [Markup] and [JsonText] work on
    the list of the characters of a string. *)

Definition chars : string → list ascii := list_ascii_of_string.
Definition text : list ascii → string := string_of_list_ascii.

Definition c_quot : ascii := ascii_of_nat 34.

(** The longest prefix of characters that satisfy [p], and the rest. *)
Fixpoint span (p : ascii → bool) (l : list ascii) : list ascii * list ascii :=
  match l with
  | [] => ([], [])
  | c :: l' => if p c then let '(a, b) := span p l' in (c :: a, b) else ([], l)
  end.

(** The input after the token [p], when it starts with it. *)
Fixpoint strip (p l : list ascii) : option (list ascii) :=
  match p, l with
  | [], _ => Some l
  | a :: p, b :: l => if decide (a = b) then strip p l else None
  | _ :: _, [] => None
  end.

(** ** Tactics *)

(** Case analysis on the outcome or option a goal or hypothesis matches on. *)
Ltac case_outcome :=
  match goal with
  | |- context [match ?m with Ok _ => _ | Throw _ => _ end] =>
      let E := fresh "E" in destruct m eqn:E
  | H : context [match ?m with Ok _ => _ | Throw _ => _ end] |- _ =>
      let E := fresh "E" in destruct m eqn:E
  end.

Ltac inverts H := inversion H; subst; clear H.

Create HintDb js discriminated.
Create Rewrite HintDb js.

(** ** Lemmas on outcomes *)

(** ** [iterate] *)

Section iterate.
Context {S : Type} (step : S → option S).

(** What every step keeps holds at the end. *)
Lemma iterate_ind (P : S → Prop) :
  (∀ s s', P s → step s = Some s' → P s') →
  ∀ fuel s, P s → P (iterate step fuel s).
Proof.
  intros Hstep fuel. induction fuel as [|fuel IH]; intros s Hs; simpl; [done|].
  destruct (step s) as [s'|] eqn:Hs'; eauto.
Qed.

(** With fuel for a measure that every step decreases, nothing is left
    to do at the end. *)
Lemma iterate_done (P : S → Prop) (measure : S → nat) :
  (∀ s s', P s → step s = Some s' → P s' ∧ (measure s' < measure s)%nat) →
  ∀ fuel s, P s → (measure s ≤ fuel)%nat → step (iterate step fuel s) = None.
Proof.
  intros Hstep fuel. induction fuel as [|fuel IH]; intros s Hs Hm; simpl.
  - destruct (step s) as [s'|] eqn:Hs'; [|done].
    destruct (Hstep s s' Hs Hs'). lia.
  - destruct (step s) as [s'|] eqn:Hs'; [|done].
    destruct (Hstep s s' Hs Hs'). apply IH; [done|lia].
Qed.

Lemma iterate_None fuel s : step s = None → iterate step fuel s = s.
Proof. intros Hs. destruct fuel; simpl; [done|]. by rewrite Hs. Qed.

Lemma iterate_Some fuel s s' :
  step s = Some s' → iterate step (Datatypes.S fuel) s = iterate step fuel s'.
Proof. intros Hs. simpl. by rewrite Hs. Qed.
End iterate.

(** A projection that commutes with the steps commutes with the loop. *)
Lemma iterate_fmap {S T : Type} (step : S → option S) (step' : T → option T) (f : S → T) :
  (∀ s, step' (f s) = f <$> step s) →
  ∀ fuel s, f (iterate step fuel s) = iterate step' fuel (f s).
Proof.
  intros Hf fuel. induction fuel as [|fuel IH]; intros s; simpl; [done|].
  rewrite Hf. destruct (step s) as [s'|]; simpl; [apply IH|done].
Qed.

Lemma bind_Ok {A B} (m : outcome A) (k : A → outcome B) b :
  m ≫= k = Ok b ↔ ∃ a, m = Ok a ∧ k a = Ok b.
Proof. destruct m; simpl; naive_solver. Qed.

Lemma bind_Throw {A B} (m : outcome A) (k : A → outcome B) e :
  m ≫= k = Throw e ↔ m = Throw e ∨ ∃ a, m = Ok a ∧ k a = Throw e.
Proof. destruct m; simpl; naive_solver. Qed.

Lemma try_catch_Ok {A} (a : A) h : try_catch (Ok a) h = a.
Proof. done. Qed.

(** ** Lemmas on [lookupZ] and [indexOf] *)

Section arrays.
Context {A : Type} `{EqDecision A}.
Implicit Types (l : list A) (x : A) (i : Z).

Lemma lookupZ_Some l i x :
  lookupZ l i = Some x ↔ (0 ≤ i)%Z ∧ l !! Z.to_nat i = Some x.
Proof. unfold lookupZ. case_decide; naive_solver. Qed.

Lemma lookupZ_of_nat l (n : nat) : lookupZ l (Z.of_nat n) = l !! n.
Proof. unfold lookupZ. case_decide; [by rewrite Nat2Z.id | lia]. Qed.

Lemma lookupZ_None l i :
  lookupZ l i = None ↔ (i < 0 ∨ Z.of_nat (length l) ≤ i)%Z.
Proof.
  unfold lookupZ. case_decide; [rewrite lookup_ge_None; lia|].
  split; [intros _; lia | done].
Qed.

Lemma lookupZ_neg l i : (i < 0)%Z → lookupZ l i = None.
Proof. rewrite lookupZ_None. auto. Qed.

Lemma lookupZ_app_l l1 l2 i :
  (i < Z.of_nat (length l1))%Z → lookupZ (l1 ++ l2) i = lookupZ l1 i.
Proof.
  intros. unfold lookupZ. case_decide; [|done]. apply lookup_app_l. lia.
Qed.

Lemma lookupZ_app_Some l1 l2 i x : lookupZ l1 i = Some x → lookupZ (l1 ++ l2) i = Some x.
Proof.
  rewrite !lookupZ_Some. intros [? Hi]. split; [done|]. by apply lookup_app_l_Some.
Qed.

Lemma lookupZ_app_length l1 l2 x :
  lookupZ (l1 ++ x :: l2) (Z.of_nat (length l1)) = Some x.
Proof. rewrite lookupZ_of_nat. by apply list_lookup_middle. Qed.

Lemma indexOf_elem l x :
  x ∈ l → (0 ≤ indexOf l x)%Z ∧ l !! Z.to_nat (indexOf l x) = Some x.
Proof.
  intros Hx. unfold indexOf.
  destruct (list_find_elem_of (λ y, y = x) l x Hx eq_refl) as [[i y] Hf].
  rewrite Hf. apply list_find_Some in Hf as (Hi & -> & _).
  rewrite Nat2Z.id. split; [lia | done].
Qed.

Lemma indexOf_not_elem l x : x ∉ l → indexOf l x = (-1)%Z.
Proof.
  intros Hx. unfold indexOf.
  destruct (list_find _ l) as [[i y]|] eqn:Hf; [|done].
  apply list_find_Some in Hf as (Hi & -> & _).
  by apply list_elem_of_lookup_2 in Hi.
Qed.

Lemma indexOf_range l x : (-1 ≤ indexOf l x < Z.of_nat (length l))%Z.
Proof.
  unfold indexOf. destruct (list_find _ l) as [[i y]|] eqn:Hf; [|lia].
  apply list_find_Some in Hf as (Hi%lookup_lt_Some & _). lia.
Qed.

Lemma indexOf_lookupZ l x : x ∈ l → lookupZ l (indexOf l x) = Some x.
Proof. intros Hx. apply lookupZ_Some. by apply indexOf_elem. Qed.

(** In an array without duplicates, [indexOf] inverts indexing. *)
Lemma indexOf_lookup l (n : nat) x :
  NoDup l → l !! n = Some x → indexOf l x = Z.of_nat n.
Proof.
  intros Hnd Hn.
  destruct (indexOf_elem l x) as [H0 Hi]; [by eapply list_elem_of_lookup_2|].
  pose proof (NoDup_lookup _ _ _ _ Hnd Hi Hn). lia.
Qed.

Lemma indexOf_of_lookupZ l i x :
  NoDup l → lookupZ l i = Some x → indexOf l x = i.
Proof.
  intros Hnd [Hi Hl]%lookupZ_Some.
  rewrite (indexOf_lookup _ _ _ Hnd Hl). lia.
Qed.

Lemma indexOf_app_fresh l x : x ∉ l → indexOf (l ++ [x]) x = Z.of_nat (length l).
Proof.
  intros Hx. unfold indexOf.
  destruct (list_find _ (l ++ [x])) as [[i y]|] eqn:Hf.
  - apply list_find_Some in Hf as (Hi & -> & _).
    apply lookup_app_Some in Hi as [Hi|[Hlen Hi]].
    + by apply list_elem_of_lookup_2 in Hi.
    + apply lookup_lt_Some in Hi as Hlt. simpl in Hlt. f_equal. lia.
  - apply list_find_None in Hf. rewrite Forall_app, Forall_singleton in Hf.
    naive_solver.
Qed.
(** ** Assignment to an index: [l[n] = x] for [n] in range *)

Lemma elem_of_insert_inv (n : nat) l x y : y ∈ <[n:=x]> l → y = x ∨ y ∈ l.
Proof.
  intros [j Hj]%list_elem_of_lookup.
  apply list_lookup_insert_Some in Hj as [(_ & -> & _)|[_ Hj]]; [by left|].
  right. by apply list_elem_of_lookup_2 in Hj.
Qed.

Lemma elem_of_insert_ne (n : nat) l x b y :
  l !! n = Some b → y ∈ l → y ≠ b → y ∈ <[n:=x]> l.
Proof.
  intros Hb [j Hj]%list_elem_of_lookup Hne.
  apply list_elem_of_lookup. exists j. rewrite list_lookup_insert_ne; [done|].
  intros ->. congruence.
Qed.
End arrays.

(** ** Lemmas on strings *)

Lemma string_length_app (s t : string) :
  String.length (s +:+ t) = String.length s + String.length t.
Proof. induction s as [|a s IH]; simpl; [done | by rewrite IH]. Qed.

(** Concatenation cancels on the right as it does on the left. *)
Lemma string_app_inj_r (s t r : string) : s +:+ r = t +:+ r → s = t.
Proof.
  revert t. induction s as [|a s IH]; intros [|b t] H; simpl in *.
  - done.
  - apply (f_equal String.length) in H.
    rewrite !string_length_app in H. simpl in H. lia.
  - apply (f_equal String.length) in H.
    rewrite !string_length_app in H. simpl in H. lia.
  - injection H as -> H. f_equal. by apply IH.
Qed.

(** ** Characters *)

Lemma chars_text l : chars (text l) = l.
Proof. apply list_ascii_of_string_of_list_ascii. Qed.

Lemma text_chars s : text (chars s) = s.
Proof. apply string_of_list_ascii_of_string. Qed.

Lemma text_app l k : text (l ++ k) = text l +:+ text k.
Proof. induction l as [|c l IH]; [done|]. simpl. by rewrite IH. Qed.

Lemma chars_app s t : chars (s +:+ t) = chars s ++ chars t.
Proof. induction s as [|c s IH]; [done|]. simpl. by rewrite IH. Qed.

Lemma chars_length s : length (chars s) = String.length s.
Proof. induction s as [|c s IH]; [done|]. simpl. by rewrite IH. Qed.

Lemma strip_app p w : strip p (p ++ w) = Some w.
Proof. induction p as [|a p IH]; simpl; [done|]. by rewrite decide_True. Qed.

Lemma span_app p a w :
  Forall (λ c, p c = true) a → (∀ c w', w = c :: w' → p c = false) →
  span p (a ++ w) = (a, w).
Proof.
  intros Ha Hw. induction Ha as [|c a Hc _ IH]; simpl.
  - destruct w as [|c w']; simpl; [done|]. by rewrite (Hw c w').
  - by rewrite Hc, IH.
Qed.

#[export] Hint Resolve indexOf_lookupZ indexOf_of_lookupZ : js.
#[export] Hint Rewrite @lookupZ_of_nat @try_catch_Ok : js.
