(* ===== verification/JsNum.v ===== *)
(** * The number operations of the client

    JavaScript numbers are doubles; the bit operators convert their
    operands to 32-bit integers first.  This file models, on [Z], the
    operations [getColorForUser] applies to the hash: [ToInt32], the left
    shift [<<], the remainder [%], and states when an integer is held by a
    double exactly. *)

From stdpp Require Import base numbers.
From S2P Require Import Prelude.

Local Open Scope Z_scope.

(** [ToInt32]: the integer congruent to [x] modulo [2^32] in
    [-2^31, 2^31). *)
Definition to_int32 (x : Z) : Z := (x + 2 ^ 31) `mod` 2 ^ 32 - 2 ^ 31.

(** [x << n]: both operands to 32 bits, the count masked to five bits, the
    result wrapped to 32 bits. *)
Definition shl32 (x n : Z) : Z :=
  to_int32 (Z.shiftl (to_int32 x) (Z.land n 31)).

(** [a % b] on integers, [b] not zero: the remainder takes the sign of the
    dividend. *)
Definition js_rem (a b : Z) : Z := Z.rem a b.

(** The integers a double represents exactly, whatever the operation that
    produced them: those below [2^53] in absolute value. *)
Definition safe_integer (x : Z) : Prop := Z.abs x < 2 ^ 53.

#[export] Instance safe_integer_dec x : Decision (safe_integer x).
Proof. unfold safe_integer. apply _. Defined.

Section to_int32.
Implicit Types x y : Z.

Lemma to_int32_range x : - 2 ^ 31 ≤ to_int32 x < 2 ^ 31.
Proof. unfold to_int32. pose proof (Z.mod_pos_bound (x + 2 ^ 31) (2 ^ 32)). lia. Qed.

Lemma to_int32_small x : - 2 ^ 31 ≤ x < 2 ^ 31 → to_int32 x = x.
Proof. intros. unfold to_int32. rewrite Z.mod_small; lia. Qed.

Lemma to_int32_idemp x : to_int32 (to_int32 x) = to_int32 x.
Proof. apply to_int32_small, to_int32_range. Qed.

(** [to_int32 x] differs from [x] by a multiple of [2^32]. *)
Lemma to_int32_wrap x : ∃ k, to_int32 x = x + k * 2 ^ 32.
Proof.
  exists (- ((x + 2 ^ 31) `div` 2 ^ 32)). unfold to_int32.
  pose proof (Z.div_mod (x + 2 ^ 31) (2 ^ 32)). lia.
Qed.

Lemma to_int32_add_mul x k : to_int32 (x + k * 2 ^ 32) = to_int32 x.
Proof.
  unfold to_int32. f_equal.
  replace (x + k * 2 ^ 32 + 2 ^ 31) with (x + 2 ^ 31 + k * 2 ^ 32) by lia.
  apply Z_mod_plus_full.
Qed.

Lemma to_int32_eq_iff x y :
  to_int32 x = to_int32 y ↔ x `mod` 2 ^ 32 = y `mod` 2 ^ 32.
Proof.
  split.
  - intros H. destruct (to_int32_wrap x) as [k Hk], (to_int32_wrap y) as [j Hj].
    replace x with (y + (j - k) * 2 ^ 32) by lia. apply Z_mod_plus_full.
  - intros H. pose proof (Z.div_mod x (2 ^ 32)). pose proof (Z.div_mod y (2 ^ 32)).
    replace x with (y + (x `div` 2 ^ 32 - y `div` 2 ^ 32) * 2 ^ 32) by lia.
    apply to_int32_add_mul.
Qed.

(** A wrapped operand may be replaced by the operand in a sum or a
    product that is wrapped afterwards. *)
Lemma to_int32_mul_l x y : to_int32 (to_int32 x * y) = to_int32 (x * y).
Proof.
  destruct (to_int32_wrap x) as [k ->].
  replace ((x + k * 2 ^ 32) * y) with (x * y + (k * y) * 2 ^ 32) by lia.
  apply to_int32_add_mul.
Qed.

Lemma to_int32_add_l x y : to_int32 (to_int32 x + y) = to_int32 (x + y).
Proof.
  destruct (to_int32_wrap x) as [k ->].
  replace (x + k * 2 ^ 32 + y) with (x + y + k * 2 ^ 32) by lia.
  apply to_int32_add_mul.
Qed.

(** The low 32 bits of [to_int32 x] are those of [x]. *)
Lemma to_int32_testbit x i : 0 ≤ i < 32 → Z.testbit (to_int32 x) i = Z.testbit x i.
Proof.
  intros Hi. destruct (to_int32_wrap x) as [k ->].
  rewrite <- (Z.mod_pow2_bits_low (x + k * 2 ^ 32) 32 i) by lia.
  rewrite Z_mod_plus_full. apply Z.mod_pow2_bits_low. lia.
Qed.

Lemma shl32_mul x n : 0 ≤ n < 32 → shl32 x n = to_int32 (x * 2 ^ n).
Proof.
  intros Hn. unfold shl32.
  replace (Z.land n 31) with n.
  - rewrite Z.shiftl_mul_pow2 by lia. apply to_int32_mul_l.
  - change 31 with (Z.ones 5). rewrite Z.land_ones by lia.
    symmetry. apply Z.mod_small. lia.
Qed.

Lemma shl32_exact x n :
  0 ≤ n < 32 → - 2 ^ 31 ≤ x * 2 ^ n < 2 ^ 31 → shl32 x n = x * 2 ^ n.
Proof. intros. rewrite shl32_mul by done. by apply to_int32_small. Qed.

Lemma shl32_range x n : - 2 ^ 31 ≤ shl32 x n < 2 ^ 31.
Proof. apply to_int32_range. Qed.
End to_int32.

Section js_rem.
Implicit Types a b : Z.

Lemma js_rem_bound a b : 0 < b → - b < js_rem a b < b.
Proof.
  intros Hb. unfold js_rem. pose proof (Z.rem_bound_abs a b). lia.
Qed.

Lemma js_rem_nonneg a b : 0 ≤ a → 0 < b → js_rem a b = a `mod` b.
Proof. intros. by apply Z.rem_mod_nonneg. Qed.

Lemma js_rem_sign a b : 0 < b → a ≤ 0 → js_rem a b ≤ 0.
Proof. intros. unfold js_rem. pose proof (Z.rem_bound_pos_neg a b). lia. Qed.

(** The remainder is a hue in [0, 360) only up to a turn: adding a turn
    to a negative remainder gives the modulus. *)
Lemma js_rem_mod a b :
  0 < b → a `mod` b = if decide (js_rem a b < 0) then js_rem a b + b else js_rem a b.
Proof.
  intros Hb. unfold js_rem.
  pose proof (Z.rem_bound_abs a b). pose proof (Z.quot_rem a b).
  pose proof (Z.rem_sign_nz a b).
  case_decide.
  - symmetry. apply (Z.mod_unique_pos _ _ (a ÷ b - 1)); lia.
  - symmetry. apply (Z.mod_unique_pos _ _ (a ÷ b)); [|lia].
    destruct (decide (a `rem` b = 0)); [lia|].
    assert (0 ≤ a `rem` b) by lia. lia.
Qed.
End js_rem.

#[export] Hint Resolve to_int32_range shl32_range : js.
#[export] Hint Rewrite to_int32_idemp to_int32_mul_l to_int32_add_l : js.
