(* ===== verification/Color.v ===== *)
(** * The colour of a user's cursor marker

    [getColorForUser] (editor.js 8-14) folds the code units of the username
    into a hash with [hash = c + ((hash << 5) - hash)] and returns
    [hsl(hash % 360, 75%, 50%)].  Only the shift wraps to 32 bits: the
    subtraction and the addition are done on doubles, so the hash is not a
    32-bit value.  This file defines the loop on lists of code units, the
    hue and the string, and proves the bounds that make [Z] a faithful
    model of the doubles, the relation to the polynomial hash with
    multiplier 31, and the range of the hue. *)

From stdpp Require Import base numbers list strings pretty.
From S2P Require Import Prelude JsNum.

Local Open Scope Z_scope.

(** A UTF-16 code unit, the result of [charCodeAt]. *)
Definition code_unit (c : Z) : Prop := 0 ≤ c < 65536.

#[export] Instance code_unit_dec c : Decision (code_unit c).
Proof. unfold code_unit. apply _. Defined.

(** [username.charCodeAt(i)] for every [i] below [username.length]. *)
Fixpoint charCodes (s : string) : list Z :=
  match s with
  | EmptyString => []
  | String a s' => Z.of_N (Ascii.N_of_ascii a) :: charCodes s'
  end.

(** The loop body: [hash = username.charCodeAt(i) + ((hash << 5) - hash)]. *)
Definition hash_step (hash c : Z) : Z := c + (shl32 hash 5 - hash).

(** The loop from a given value of [hash], and from [let hash = 0]. *)
Definition hash_from (hash : Z) (cs : list Z) : Z := fold_left hash_step cs hash.
Definition hash_loop (cs : list Z) : Z := hash_from 0 cs.

(** [hash % 360] *)
Definition hue (username : string) : Z := js_rem (hash_loop (charCodes username)) 360.

Definition getColorForUser (username : string) : string :=
  "hsl(" +:+ pretty (hue username) +:+ ", 75%, 50%)".

(** The reference: the polynomial hash with multiplier 31, on unbounded
    integers. *)
Definition poly31_from (h : Z) (cs : list Z) : Z := fold_left (λ h c, 31 * h + c) cs h.
Definition poly31 (cs : list Z) : Z := poly31_from 0 cs.

(** The largest step the hash takes in absolute value. *)
Definition hash_growth : Z := 2 ^ 31 + 65535.

(** ** Bounds *)

Lemma charCodes_code_unit s : Forall code_unit (charCodes s).
Proof.
  induction s as [|a s IH]; constructor; [|done].
  unfold code_unit. pose proof (Ascii.N_ascii_bounded a). lia.
Qed.

Lemma length_charCodes s : length (charCodes s) = String.length s.
Proof. induction s; simpl; congruence. Qed.

Lemma hash_step_bound h c :
  code_unit c → Z.abs (hash_step h c) ≤ Z.abs h + hash_growth.
Proof.
  unfold code_unit, hash_step, hash_growth. intros Hc.
  pose proof (shl32_range h 5). lia.
Qed.

Lemma hash_from_snoc h cs c : hash_from h (cs ++ [c]) = hash_step (hash_from h cs) c.
Proof. unfold hash_from. by rewrite fold_left_app. Qed.

Lemma hash_from_bound h cs :
  Forall code_unit cs →
  Z.abs (hash_from h cs) ≤ Z.abs h + Z.of_nat (length cs) * hash_growth.
Proof.
  induction cs as [|c cs IH] using rev_ind; intros Hcs; [simpl; lia|].
  apply Forall_app in Hcs as [Hcs Hc]. rewrite Forall_singleton in Hc.
  rewrite hash_from_snoc, length_app. simpl.
  pose proof (hash_step_bound (hash_from h cs) c Hc). specialize (IH Hcs). lia.
Qed.

Lemma hash_loop_bound cs :
  Forall code_unit cs → Z.abs (hash_loop cs) ≤ Z.of_nat (length cs) * hash_growth.
Proof. intros H. pose proof (hash_from_bound 0 cs H). unfold hash_loop. lia. Qed.

(** C39: the doubles of the loop are exact.  For a string of at most [2^21]
    code units, the hash after every prefix, and the difference
    [(hash << 5) - hash] computed from it, are below [2^53] in absolute
    value, so no addition or subtraction of the loop rounds. *)
Theorem hash_exact (cs pre : list Z) :
  Forall code_unit cs → Z.of_nat (length cs) ≤ 2 ^ 21 → pre `prefix_of` cs →
  safe_integer (hash_loop pre) ∧
  safe_integer (shl32 (hash_loop pre) 5 - hash_loop pre).
Proof.
  intros Hcs Hlen [suf ->]. apply Forall_app in Hcs as [Hpre _].
  rewrite length_app in Hlen.
  pose proof (hash_loop_bound pre Hpre) as Hb.
  pose proof (shl32_range (hash_loop pre) 5).
  unfold safe_integer, hash_growth in *. nia.
Qed.

Lemma hash_exact_witness :
  safe_integer (hash_loop (charCodes "al")) ∧
  safe_integer (shl32 (hash_loop (charCodes "al")) 5 - hash_loop (charCodes "al")).
Proof.
  apply (hash_exact (charCodes "alice") (charCodes "al")).
  - apply charCodes_code_unit.
  - by vm_compute.
  - by exists (charCodes "ice").
Defined.

(** ** The hash and the polynomial hash *)

Lemma hash_step_mod h h' c :
  to_int32 h = to_int32 h' → to_int32 (hash_step h c) = to_int32 (31 * h' + c).
Proof.
  intros Hh. unfold hash_step. rewrite shl32_mul by lia.
  destruct (to_int32_wrap (h * 2 ^ 5)) as [k ->].
  apply to_int32_eq_iff in Hh. apply to_int32_eq_iff.
  replace (c + (h * 2 ^ 5 + k * 2 ^ 32 - h)) with (31 * h + c + k * 2 ^ 32) by lia.
  rewrite Z_mod_plus_full.
  rewrite <- (Zplus_mod_idemp_l (31 * h)), <- (Zplus_mod_idemp_l (31 * h')).
  rewrite <- (Zmult_mod_idemp_r h), <- (Zmult_mod_idemp_r h'). by rewrite Hh.
Qed.

Lemma hash_from_mod h h' cs :
  to_int32 h = to_int32 h' →
  to_int32 (hash_from h cs) = to_int32 (poly31_from h' cs).
Proof.
  revert h h'. induction cs as [|c cs IH]; intros h h' Hh; [done|].
  simpl. apply IH. by apply hash_step_mod.
Qed.

(** C40: the hash is congruent modulo [2^32] to the polynomial hash with
    multiplier 31 (the 32-bit string hash the loop is patterned on): both
    wrap to the same 32-bit integer, for every list of code units. *)
Theorem hash_loop_poly31 (cs : list Z) :
  to_int32 (hash_loop cs) = to_int32 (poly31 cs).
Proof. by apply hash_from_mod. Qed.

Lemma hash_step_small h c :
  - 2 ^ 26 ≤ h < 2 ^ 26 → hash_step h c = 31 * h + c.
Proof. intros. unfold hash_step. rewrite shl32_exact; lia. Qed.

Lemma hash_from_cons_small h c cs :
  - 2 ^ 26 ≤ h < 2 ^ 26 → hash_from h (c :: cs) = hash_from (31 * h + c) cs.
Proof. intros. unfold hash_from. simpl. by rewrite hash_step_small. Qed.

(** While no shift overflows the hash is the polynomial hash itself:
    for at most five code units below 128 (a short ASCII name) the two are
    equal as integers. *)
Theorem hash_loop_short (cs : list Z) :
  Forall (λ c, 0 ≤ c < 128) cs → (length cs ≤ 5)%nat → hash_loop cs = poly31 cs.
Proof.
  intros Hcs Hlen. unfold hash_loop, poly31.
  destruct cs as [|c1 [|c2 [|c3 [|c4 [|c5 [|c6 cs]]]]]]; simpl in Hlen; try lia;
    repeat match goal with
      | H : Forall _ (_ :: _) |- _ => apply Forall_cons in H as [? H]
      end;
    repeat (rewrite hash_from_cons_small by lia); reflexivity.
Qed.

Lemma hash_loop_short_witness : hash_loop (charCodes "alice") = poly31 (charCodes "alice").
Proof.
  apply hash_loop_short; [|simpl; lia].
  repeat constructor; vm_compute; done.
Defined.

(** The hash is not a 32-bit integer: the subtraction after the shift is
    not wrapped. *)
Example hash_loop_student : hash_loop (charCodes "student") = 2415821371.
Proof. reflexivity. Qed.

Example hash_loop_student_int32 : to_int32 (poly31 (charCodes "student")) = -1879145925.
Proof. reflexivity. Qed.

(** ** The hue *)

(** The hue lies strictly between -360 and 360, for every username. *)
Theorem hue_range (username : string) : -360 < hue username < 360.
Proof. pose proof (js_rem_bound (hash_loop (charCodes username)) 360). unfold hue. lia. Qed.

(** The hue is not reduced to [0, 360): [%] keeps the sign of the
    hash, and the hash of "olivia" is negative, so her colour is
    [hsl(-182, 75%, 50%)]. *)
Theorem hue_negative :
  hue "olivia" = -182 ∧ getColorForUser "olivia" = "hsl(-182, 75%, 50%)"%string.
Proof. split; reflexivity. Qed.

(** The hue as an angle in [0, 360): what the remainder stands for once a
    turn is added to a negative value. *)
Lemma hue_mod username :
  hash_loop (charCodes username) `mod` 360 =
  if decide (hue username < 0) then hue username + 360 else hue username.
Proof. apply js_rem_mod. lia. Qed.

Lemma getColorForUser_hue u v : getColorForUser u = getColorForUser v → hue u = hue v.
Proof.
  unfold getColorForUser. intros H. apply String.app_inj in H.
  by apply string_app_inj_r, pretty_Z_inj in H.
Qed.

(** The colour is a function of the hue alone, and an injective one:
    two users get the same colour exactly when their hues are equal. *)
Theorem getColorForUser_eq_iff (u v : string) :
  getColorForUser u = getColorForUser v ↔ hue u = hue v.
Proof.
  split; [apply getColorForUser_hue|].
  unfold getColorForUser. by intros ->.
Qed.

Example getColorForUser_alice : getColorForUser "alice" = "hsl(0, 75%, 50%)"%string.
Proof. reflexivity. Qed.

Example getColorForUser_bob : getColorForUser "bob" = "hsl(157, 75%, 50%)"%string.
Proof. reflexivity. Qed.

(** Distinct usernames may share a colour: the hue only has 719 values. *)
Example getColorForUser_collision : getColorForUser "alice" = getColorForUser "".
Proof. reflexivity. Qed.

#[export] Hint Resolve charCodes_code_unit hash_loop_bound : js.
