(* ===== verification/Dom.v ===== *)
(** * The document as a store of nodes

    The closure of editor.js reads and writes the browser's document
    through node objects: it follows [parentNode] and [childNodes]
    (editor.js 131-153), creates elements and appends them (159-163), and
    replaces the children of the editor by assigning [innerHTML] (26, 54,
    202).  Nodes are shared by reference: the marker kept in [cursors] is
    the very node that was appended to the editor.

    The model is a store from node identifiers to nodes.  A node records
    its parent, the list of its children and its payload.  The operations
    are those the sources call; the invariant [dom_wf] states that the
    parent pointers and the child lists describe the same forest, and
    every operation preserves it. *)

From stdpp Require Import base option list numbers strings gmap.
From S2P Require Import Prelude.

(** ** Data *)

(** An element's tag, class, attributes and inline style; a text node's
    data. *)
Record element : Type := {
  tagName : string;
  className : string;
  attributes : list (string * string);
  style : gmap string string;
}.

Inductive payload : Type :=
| PElement (e : element)
| PText (data : string).

(** A node object.  [parentNode = None] is JavaScript's [null]. *)
Record node : Type := {
  parentNode : option nat;
  childNodes : list nat;
  content : payload;
}.

(** The store: the node objects that exist, by identifier, and the next
    identifier to give out. *)
Record dom : Type := {
  nodes : gmap nat node;
  next_id : nat;
}.

(** A parsed HTML fragment: the trees [innerHTML] builds nodes from. *)
Inductive tree : Type :=
| TNode (p : payload) (children : list tree).

#[export] Instance element_eq_dec : EqDecision element.
Proof. solve_decision. Defined.
#[export] Instance payload_eq_dec : EqDecision payload.
Proof. solve_decision. Defined.
#[export] Instance node_eq_dec : EqDecision node.
Proof. solve_decision. Defined.

(** ** Reading the store *)

(** [i.parentNode] and [i.childNodes]; a missing node has neither. *)
Definition parent_of (d : dom) (i : nat) : option nat :=
  n ← nodes d !! i; parentNode n.

Definition children_of (d : dom) (i : nat) : list nat :=
  default [] (childNodes <$> nodes d !! i).

Definition content_of (d : dom) (i : nat) : option payload :=
  content <$> nodes d !! i.

(** The number of positions a range may start at inside a node: the
    length of a text node's data, the number of children of an element. *)
Definition node_length (d : dom) (i : nat) : nat :=
  match nodes d !! i with
  | Some {| content := PText data |} => String.length data
  | Some n => length (childNodes n)
  | None => 0
  end.

(** ** Writing the store *)

Definition with_parent (p : option nat) (n : node) : node :=
  {| parentNode := p; childNodes := childNodes n; content := content n |}.

Definition with_children (cs : list nat) (n : node) : node :=
  {| parentNode := parentNode n; childNodes := cs; content := content n |}.

Definition with_content (c : payload) (n : node) : node :=
  {| parentNode := parentNode n; childNodes := childNodes n; content := c |}.

Definition set_parent (i : nat) (p : option nat) (d : dom) : dom :=
  {| nodes := alter (with_parent p) i (nodes d); next_id := next_id d |}.

Definition set_children (i : nat) (cs : list nat) (d : dom) : dom :=
  {| nodes := alter (with_children cs) i (nodes d); next_id := next_id d |}.

Definition set_content (i : nat) (c : payload) (d : dom) : dom :=
  {| nodes := alter (with_content c) i (nodes d); next_id := next_id d |}.

(** Assignments to the properties of an element: [i.className = cls] and
    [i.style.prop = val].  They change the payload only. *)
Definition with_element (f : element → element) (n : node) : node :=
  match content n with
  | PElement e => with_content (PElement (f e)) n
  | PText _ => n
  end.

Definition map_element (f : element → element) (i : nat) (d : dom) : dom :=
  {| nodes := alter (with_element f) i (nodes d); next_id := next_id d |}.

Definition set_className (i : nat) (cls : string) : dom → dom :=
  map_element (λ e, {| tagName := tagName e; className := cls;
                       attributes := attributes e; style := style e |}) i.

Definition set_style (i : nat) (prop val : string) : dom → dom :=
  map_element (λ e, {| tagName := tagName e; className := className e;
                       attributes := attributes e; style := <[prop := val]> (style e) |}) i.

(** [i.style.prop], when [i] is an element and the property is set. *)
Definition style_of (d : dom) (i : nat) (prop : string) : option string :=
  match content_of d i with
  | Some (PElement e) => style e !! prop
  | _ => None
  end.

(** A new node object, attached to nothing. *)
Definition alloc (c : payload) (d : dom) : nat * dom :=
  (next_id d,
   {| nodes := <[next_id d := {| parentNode := None; childNodes := []; content := c |}]> (nodes d);
      next_id := S (next_id d) |}).

(** [document.createElement(tag)] *)
Definition createElement (tag : string) (d : dom) : nat * dom :=
  alloc (PElement {| tagName := tag; className := ""; attributes := []; style := ∅ |}) d.

(** Removing [child] from the children of its parent, if it has one. *)
Definition detach (child : nat) (d : dom) : dom :=
  match parent_of d child with
  | None => d
  | Some p =>
      set_parent child None
        (set_children p (filter (λ c, c ≠ child) (children_of d p)) d)
  end.

(** [parent.appendChild(child)]: [child] leaves its former parent and
    becomes the last child of [parent].  The browser first checks that
    [child] is not an ancestor of [parent]; the sources only append nodes
    they have just created, and the check is not modelled. *)
Definition appendChild (parent child : nat) (d : dom) : dom :=
  let d1 := detach child d in
  set_parent child (Some parent)
    (set_children parent (children_of d1 parent ++ [child]) d1).

(** [parent.removeChild(child)] for a child of [parent]. *)
Definition removeChild (parent child : nat) (d : dom) : outcome dom :=
  if decide (parent_of d child = Some parent) then Ok (detach child d)
  else Throw TypeError.

(** Every child of [parent] loses its parent and [parent] its children:
    the removals that precede the insertion of a fragment. *)
Definition clear_children (parent : nat) (d : dom) : dom :=
  set_children parent []
    (foldr (λ c, set_parent c None) d (children_of d parent)).

(** A tree of a fragment becomes new nodes under [parent]: the node is
    created and appended, then its children are built under it, so that
    identifiers follow document order. *)
Fixpoint build_tree (parent : nat) (t : tree) (d : dom) : dom :=
  match t with
  | TNode c ts =>
      let '(i, d1) := alloc c d in
      foldl (λ d t, build_tree i t d) (appendChild parent i d1) ts
  end.

Definition build_forest (parent : nat) (ts : list tree) (d : dom) : dom :=
  foldl (λ d t, build_tree parent t d) d ts.

(** The assignment [parent.innerHTML = ...] once the string is parsed:
    the former children are removed (they stay in the store, with no
    parent), and the fragment's nodes take their place. *)
Definition replace_children (parent : nat) (ts : list tree) (d : dom) : dom :=
  build_forest parent ts (clear_children parent d).

(** The store with no node. *)
Definition empty_dom : dom := {| nodes := ∅; next_id := 0 |}.

(** ** Well-formedness *)

Record dom_wf (d : dom) : Prop := {
  wf_fresh : ∀ i, is_Some (nodes d !! i) → i < next_id d;
  wf_parent : ∀ i p, parent_of d i = Some p → i ∈ children_of d p;
  wf_child : ∀ p c, c ∈ children_of d p → parent_of d c = Some p;
  wf_nodup : ∀ p, NoDup (children_of d p);
  wf_acyclic : ∃ rank : nat → nat, ∀ i p, parent_of d i = Some p → rank p < rank i;
}.

(** Two stores have the same shape when they have the same nodes with
    the same parents and children: they differ in payloads only. *)
Record same_shape (d d' : dom) : Prop := {
  ss_next : next_id d = next_id d';
  ss_nodes : ∀ j, is_Some (nodes d !! j) ↔ is_Some (nodes d' !! j);
  ss_parent : ∀ j, parent_of d j = parent_of d' j;
  ss_children : ∀ j, children_of d j = children_of d' j;
}.

(** [a] is [i] or an ancestor of [i]. *)
Inductive ancestor (d : dom) (a : nat) : nat → Prop :=
| ancestor_refl : ancestor d a a
| ancestor_step i p : parent_of d i = Some p → ancestor d a p → ancestor d a i.

(** ** The store after each write *)

Section views.
Implicit Types (d : dom) (i j q c : nat) (p : option nat) (cs : list nat).

Lemma parent_of_Some d i q :
  parent_of d i = Some q ↔ ∃ n, nodes d !! i = Some n ∧ parentNode n = Some q.
Proof. unfold parent_of. destruct (nodes d !! i); simpl; naive_solver. Qed.

Lemma parent_of_node d i q : parent_of d i = Some q → is_Some (nodes d !! i).
Proof. intros (n & ? & _)%parent_of_Some. eauto. Qed.

Lemma parent_of_missing d i : nodes d !! i = None → parent_of d i = None.
Proof. unfold parent_of. by intros ->. Qed.

Lemma children_of_node d q c : c ∈ children_of d q → is_Some (nodes d !! q).
Proof.
  unfold children_of. destruct (nodes d !! q); simpl; [eauto|].
  by intros ?%elem_of_nil.
Qed.

Lemma children_of_missing d i : nodes d !! i = None → children_of d i = [].
Proof. unfold children_of. by intros ->. Qed.

Lemma nodes_set_parent d i p j :
  is_Some (nodes (set_parent i p d) !! j) ↔ is_Some (nodes d !! j).
Proof.
  unfold set_parent; simpl. rewrite lookup_alter.
  case_decide; subst; by rewrite ?fmap_is_Some.
Qed.

Lemma nodes_set_children d i cs j :
  is_Some (nodes (set_children i cs d) !! j) ↔ is_Some (nodes d !! j).
Proof.
  unfold set_children; simpl. rewrite lookup_alter.
  case_decide; subst; by rewrite ?fmap_is_Some.
Qed.

Lemma parent_of_set_parent_eq d i p :
  is_Some (nodes d !! i) → parent_of (set_parent i p d) i = p.
Proof.
  intros [n Hn]. unfold parent_of, set_parent; simpl.
  by rewrite lookup_alter_eq, Hn.
Qed.

Lemma parent_of_set_parent_ne d i p j :
  i ≠ j → parent_of (set_parent i p d) j = parent_of d j.
Proof. intros. unfold parent_of, set_parent; simpl. by rewrite lookup_alter_ne. Qed.

Lemma parent_of_set_parent d i p j q :
  parent_of (set_parent i p d) j = Some q →
  (i = j ∧ p = Some q) ∨ (i ≠ j ∧ parent_of d j = Some q).
Proof.
  destruct (decide (i = j)) as [->|Hne].
  - intros H. left. split; [done|].
    pose proof (parent_of_node _ _ _ H) as Hn%nodes_set_parent.
    by rewrite parent_of_set_parent_eq in H.
  - rewrite parent_of_set_parent_ne by done. auto.
Qed.

Lemma children_of_set_parent d i p j :
  children_of (set_parent i p d) j = children_of d j.
Proof.
  unfold children_of, set_parent; simpl. rewrite lookup_alter.
  case_decide; subst; [|done]. by destruct (nodes d !! j).
Qed.

Lemma parent_of_set_children d i cs j :
  parent_of (set_children i cs d) j = parent_of d j.
Proof.
  unfold parent_of, set_children; simpl. rewrite lookup_alter.
  case_decide; subst; [|done]. by destruct (nodes d !! j).
Qed.

Lemma children_of_set_children_eq d i cs :
  is_Some (nodes d !! i) → children_of (set_children i cs d) i = cs.
Proof.
  intros [n Hn]. unfold children_of, set_children; simpl.
  by rewrite lookup_alter_eq, Hn.
Qed.

Lemma children_of_set_children_ne d i cs j :
  i ≠ j → children_of (set_children i cs d) j = children_of d j.
Proof. intros. unfold children_of, set_children; simpl. by rewrite lookup_alter_ne. Qed.

Lemma elem_of_children_set_children d i cs j c :
  c ∈ children_of (set_children i cs d) j →
  (i = j ∧ c ∈ cs) ∨ (i ≠ j ∧ c ∈ children_of d j).
Proof.
  destruct (decide (i = j)) as [->|Hne].
  - intros H. left. split; [done|].
    pose proof (children_of_node _ _ _ H) as Hn%nodes_set_children.
    by rewrite children_of_set_children_eq in H.
  - rewrite children_of_set_children_ne by done. auto.
Qed.

Lemma content_of_set_parent d i p j : content_of (set_parent i p d) j = content_of d j.
Proof.
  unfold content_of, set_parent; simpl. rewrite lookup_alter.
  case_decide; subst; [|done]. by destruct (nodes d !! j).
Qed.

Lemma content_of_set_children d i cs j :
  content_of (set_children i cs d) j = content_of d j.
Proof.
  unfold content_of, set_children; simpl. rewrite lookup_alter.
  case_decide; subst; [|done]. by destruct (nodes d !! j).
Qed.

Lemma nodes_alloc (c : payload) d j :
  is_Some (nodes (alloc c d).2 !! j) ↔ j = next_id d ∨ is_Some (nodes d !! j).
Proof.
  simpl. rewrite lookup_insert. case_decide; subst.
  - split; eauto.
  - split; [auto | intros [?|?]; done].
Qed.

Lemma parent_of_alloc_new (c : payload) d : parent_of (alloc c d).2 (next_id d) = None.
Proof. unfold parent_of; simpl. by rewrite lookup_insert_eq. Qed.

Lemma children_of_alloc_new (c : payload) d : children_of (alloc c d).2 (next_id d) = [].
Proof. unfold children_of; simpl. by rewrite lookup_insert_eq. Qed.

Lemma parent_of_alloc_old (c : payload) d j :
  j ≠ next_id d → parent_of (alloc c d).2 j = parent_of d j.
Proof. intros. unfold parent_of; simpl. by rewrite lookup_insert_ne. Qed.

Lemma children_of_alloc_old (c : payload) d j :
  j ≠ next_id d → children_of (alloc c d).2 j = children_of d j.
Proof. intros. unfold children_of; simpl. by rewrite lookup_insert_ne. Qed.
End views.

(** ** Preservation of well-formedness *)

Lemma empty_dom_wf : dom_wf empty_dom.
Proof.
  split; unfold parent_of, children_of; simpl.
  - intros i [? H]. by rewrite lookup_empty in H.
  - intros i q. by rewrite lookup_empty.
  - intros q c. rewrite lookup_empty. by intros ?%elem_of_nil.
  - intros q. rewrite lookup_empty. constructor.
  - exists (λ _, 0). intros i q. by rewrite lookup_empty.
Qed.

Lemma next_id_detach child d : next_id (detach child d) = next_id d.
Proof. unfold detach. by destruct (parent_of d child). Qed.

Lemma next_id_appendChild parent child d :
  next_id (appendChild parent child d) = next_id d.
Proof. unfold appendChild. simpl. apply next_id_detach. Qed.

Lemma alloc_wf c d : dom_wf d → dom_wf (alloc c d).2.
Proof.
  intros [Hf Hpa Hch Hnd [rank Hr]].
  assert (nodes d !! next_id d = None) as Hnew.
  { apply eq_None_not_Some. intros H%Hf. lia. }
  assert (∀ j q, parent_of d j = Some q → j ≠ next_id d ∧ q ≠ next_id d) as Hold.
  { intros j q H. split; intros ->.
    - by rewrite parent_of_missing in H.
    - apply Hpa in H. by rewrite children_of_missing in H; [apply elem_of_nil in H|]. }
  assert (∀ j q, parent_of (alloc c d).2 j = Some q → parent_of d j = Some q) as Hpo.
  { intros j q. destruct (decide (j = next_id d)) as [->|];
      [by rewrite parent_of_alloc_new | by rewrite parent_of_alloc_old]. }
  assert (∀ q, children_of (alloc c d).2 q = children_of d q) as Hco.
  { intros q. destruct (decide (q = next_id d)) as [->|];
      [by rewrite children_of_alloc_new, children_of_missing
      | by rewrite children_of_alloc_old]. }
  split.
  - intros i [->|H%Hf]%nodes_alloc; simpl; lia.
  - intros i q H%Hpo. rewrite Hco. auto.
  - intros q j. rewrite Hco. intros H%Hch.
    destruct (Hold _ _ H). by rewrite parent_of_alloc_old.
  - intros q. rewrite Hco. auto.
  - exists rank. intros i q H%Hpo. auto.
Qed.

Lemma appendChild_detached d parent child :
  parent_of d child = None →
  appendChild parent child d =
  set_parent child (Some parent)
    (set_children parent (children_of d parent ++ [child]) d).
Proof. intros H. unfold appendChild, detach. by rewrite H. Qed.

Section append.
Context (d : dom) (parent child : nat).
Context (Hwf : dom_wf d).
Context (Hp : is_Some (nodes d !! parent)) (Hc : is_Some (nodes d !! child)).
Context (Hdet : parent_of d child = None) (Hleaf : children_of d child = []).
Context (Hne : parent ≠ child).

Lemma parent_of_append j :
  parent_of (appendChild parent child d) j =
  if decide (j = child) then Some parent else parent_of d j.
Proof using Hc Hdet.
  rewrite appendChild_detached by done. case_decide; subst.
  - apply parent_of_set_parent_eq. by apply nodes_set_children.
  - rewrite parent_of_set_parent_ne by done. apply parent_of_set_children.
Qed.

Lemma children_of_append j :
  children_of (appendChild parent child d) j =
  if decide (j = parent) then children_of d parent ++ [child] else children_of d j.
Proof using Hp Hdet.
  rewrite appendChild_detached by done. rewrite children_of_set_parent.
  case_decide; subst.
  - by apply children_of_set_children_eq.
  - by apply children_of_set_children_ne.
Qed.

Lemma nodes_append j :
  is_Some (nodes (appendChild parent child d) !! j) ↔ is_Some (nodes d !! j).
Proof using Hdet.
  rewrite appendChild_detached by done.
  by rewrite nodes_set_parent, nodes_set_children.
Qed.

Lemma append_detached_wf : dom_wf (appendChild parent child d).
Proof using All.
  destruct Hwf as [Hf Hpa Hch Hnd [rank Hr]].
  assert (child ∉ children_of d parent) as Hnin.
  { intros Hin%Hch. congruence. }
  assert (∀ i, parent_of d i ≠ Some child) as Hnp.
  { intros i H%Hpa. rewrite Hleaf in H. by apply elem_of_nil in H. }
  split.
  - intros i. rewrite nodes_append, next_id_appendChild. apply Hf.
  - intros i q. rewrite parent_of_append, children_of_append.
    repeat case_decide; intros Hi; simplify_eq; set_solver.
  - intros q c. rewrite parent_of_append, children_of_append.
    repeat case_decide; subst; rewrite ?elem_of_app, ?list_elem_of_singleton;
      intros Hi; try done; try (by apply Hch).
    + destruct Hi as [Hi|Hi]; [by apply Hch | done].
    + apply Hch in Hi. congruence.
  - intros q. rewrite children_of_append. case_decide; subst; [|done].
    apply NoDup_app. split_and!; [done| |apply NoDup_singleton].
    intros x Hx ->%list_elem_of_singleton. done.
  - exists (λ i, if decide (i = child) then S (rank parent) else rank i).
    intros i q. rewrite parent_of_append.
    repeat case_decide; intros Hi; simplify_eq; try lia.
    + by apply Hnp in Hi.
    + by apply Hr.
Qed.
End append.

Lemma children_of_set_children_nil d i j :
  children_of (set_children i [] d) j = if decide (i = j) then [] else children_of d j.
Proof.
  case_decide; subst; [|by apply children_of_set_children_ne].
  unfold children_of, set_children; simpl. rewrite lookup_alter_eq.
  by destruct (nodes d !! j).
Qed.

Lemma parent_of_set_parent_None d i j q :
  parent_of (set_parent i None d) j = Some q ↔ i ≠ j ∧ parent_of d j = Some q.
Proof.
  split.
  - intros [[_ ?]|?]%parent_of_set_parent; done.
  - intros [? ?]. by rewrite parent_of_set_parent_ne.
Qed.

Section detach.
Context (d : dom) (child p : nat).
Context (Hwf : dom_wf d) (Hpc : parent_of d child = Some p).

Lemma detach_attached :
  detach child d =
  set_parent child None
    (set_children p (filter (λ c, c ≠ child) (children_of d p)) d).
Proof using Hpc. unfold detach. by rewrite Hpc. Qed.

Lemma parent_of_detach j q :
  parent_of (detach child d) j = Some q ↔ j ≠ child ∧ parent_of d j = Some q.
Proof using Hpc.
  rewrite detach_attached, parent_of_set_parent_None, parent_of_set_children.
  naive_solver.
Qed.

Lemma children_of_detach j :
  children_of (detach child d) j =
  if decide (j = p) then filter (λ c, c ≠ child) (children_of d p) else children_of d j.
Proof using Hwf Hpc.
  rewrite detach_attached, children_of_set_parent. case_decide; subst.
  - apply children_of_set_children_eq. eapply children_of_node, wf_parent; eauto.
  - by apply children_of_set_children_ne.
Qed.

Lemma nodes_detach j :
  is_Some (nodes (detach child d) !! j) ↔ is_Some (nodes d !! j).
Proof using Hpc. by rewrite detach_attached, nodes_set_parent, nodes_set_children. Qed.

Lemma detach_attached_wf : dom_wf (detach child d).
Proof using All.
  destruct Hwf as [Hf Hpa Hch Hnd [rank Hr]]. split.
  - intros i. rewrite nodes_detach, next_id_detach. apply Hf.
  - intros i q [Hi Hq]%parent_of_detach. rewrite children_of_detach.
    case_decide; subst; [apply list_elem_of_filter|]; auto.
  - intros q c. rewrite children_of_detach, parent_of_detach.
    case_decide; subst.
    + intros [? ?]%list_elem_of_filter. auto.
    + intros Hc. split; [|auto]. intros ->. apply Hch in Hc. congruence.
  - intros q. rewrite children_of_detach. case_decide; [apply NoDup_filter|]; auto.
  - exists rank. intros i q [_ ?]%parent_of_detach. auto.
Qed.
End detach.

Lemma detach_wf child d : dom_wf d → dom_wf (detach child d).
Proof.
  intros Hwf. destruct (parent_of d child) as [p|] eqn:Hp.
  - by eapply detach_attached_wf.
  - unfold detach. by rewrite Hp.
Qed.

Lemma parent_of_detach_self child d : parent_of (detach child d) child = None.
Proof.
  destruct (parent_of d child) as [p|] eqn:Hp.
  - apply eq_None_not_Some. intros [q Hq].
    by apply (parent_of_detach _ _ _ Hp) in Hq as [? _].
  - unfold detach. by rewrite Hp.
Qed.

(** [removeChild] of a child of [parent] succeeds and keeps the store
    well formed. *)
Lemma removeChild_wf parent child d d' :
  dom_wf d → removeChild parent child d = Ok d' → dom_wf d'.
Proof.
  unfold removeChild. intros Hwf. case_decide; [|done].
  intros [= <-]. by apply detach_wf.
Qed.

(** ** Fragments *)

Lemma tree_ind' (P : tree → Prop) :
  (∀ c ts, Forall P ts → P (TNode c ts)) → ∀ t, P t.
Proof.
  intros H. fix IH 1. intros [c ts]. apply H.
  induction ts as [|t ts IHts]; constructor; [apply IH | apply IHts].
Qed.

Section unparent.
Context (d : dom).

Lemma parent_of_unparent cs j q :
  parent_of (foldr (λ c, set_parent c None) d cs) j = Some q ↔
  j ∉ cs ∧ parent_of d j = Some q.
Proof.
  induction cs as [|c cs IH]; cbn [foldr].
  - rewrite elem_of_nil. naive_solver.
  - rewrite parent_of_set_parent_None, IH, not_elem_of_cons. naive_solver.
Qed.

Lemma children_of_unparent cs j :
  children_of (foldr (λ c, set_parent c None) d cs) j = children_of d j.
Proof.
  induction cs as [|c cs IH]; cbn [foldr]; [done|]. by rewrite children_of_set_parent.
Qed.

Lemma nodes_unparent cs j :
  is_Some (nodes (foldr (λ c, set_parent c None) d cs) !! j) ↔ is_Some (nodes d !! j).
Proof.
  induction cs as [|c cs IH]; cbn [foldr]; [done|]. by rewrite nodes_set_parent.
Qed.

Lemma content_of_unparent cs j :
  content_of (foldr (λ c, set_parent c None) d cs) j = content_of d j.
Proof.
  induction cs as [|c cs IH]; cbn [foldr]; [done|]. by rewrite content_of_set_parent.
Qed.

Lemma next_id_unparent cs :
  next_id (foldr (λ c, set_parent c None) d cs) = next_id d.
Proof. induction cs as [|c cs IH]; cbn [foldr]; done. Qed.
End unparent.

Section clear.
Context (d : dom) (parent : nat).

Lemma parent_of_clear j q :
  parent_of (clear_children parent d) j = Some q ↔
  j ∉ children_of d parent ∧ parent_of d j = Some q.
Proof. unfold clear_children. by rewrite parent_of_set_children, parent_of_unparent. Qed.

Lemma children_of_clear j :
  children_of (clear_children parent d) j =
  if decide (parent = j) then [] else children_of d j.
Proof.
  unfold clear_children. rewrite children_of_set_children_nil.
  case_decide; [done|]. apply children_of_unparent.
Qed.

Lemma nodes_clear j :
  is_Some (nodes (clear_children parent d) !! j) ↔ is_Some (nodes d !! j).
Proof. unfold clear_children. by rewrite nodes_set_children, nodes_unparent. Qed.

Lemma content_of_clear j : content_of (clear_children parent d) j = content_of d j.
Proof. unfold clear_children. by rewrite content_of_set_children, content_of_unparent. Qed.

Lemma clear_children_wf : dom_wf d → dom_wf (clear_children parent d).
Proof.
  intros [Hf Hpa Hch Hnd [rank Hr]]. split.
  - intros i. rewrite nodes_clear. unfold clear_children; simpl.
    rewrite next_id_unparent. apply Hf.
  - intros i q [Hi Hq]%parent_of_clear. rewrite children_of_clear.
    case_decide; subst; [by apply Hpa in Hq | auto].
  - intros q c. rewrite children_of_clear, parent_of_clear.
    case_decide; [by intros ?%elem_of_nil|].
    intros Hc. split; [|auto]. intros Hc'%Hch. apply Hch in Hc. congruence.
  - intros q. rewrite children_of_clear. case_decide; [constructor | auto].
  - exists rank. intros i q [_ ?]%parent_of_clear. auto.
Qed.
End clear.

(** The number of nodes of a fragment, and the identifiers its roots get
    when it is built from identifier [n] on. *)
Fixpoint tree_size (t : tree) : nat :=
  match t with
  | TNode _ ts => S (sum_list (tree_size <$> ts))
  end.

Definition forest_size (ts : list tree) : nat := sum_list (tree_size <$> ts).

Fixpoint roots_from (n : nat) (ts : list tree) : list nat :=
  match ts with
  | [] => []
  | t :: ts => n :: roots_from (n + tree_size t) ts
  end.

(** [d'] has the nodes of [d], with the same parents, contents and
    children, except for the children of [parent]. *)
Record extends (parent : nat) (d d' : dom) : Prop := {
  ext_next : next_id d ≤ next_id d';
  ext_nodes : ∀ j, is_Some (nodes d !! j) → is_Some (nodes d' !! j);
  ext_parent : ∀ j, j < next_id d → parent_of d' j = parent_of d j;
  ext_children : ∀ j, j < next_id d → j ≠ parent → children_of d' j = children_of d j;
  ext_content : ∀ j, j < next_id d → content_of d' j = content_of d j;
}.

Lemma extends_refl parent d : extends parent d d.
Proof. by split. Qed.

Lemma extends_trans parent d1 d2 d3 :
  extends parent d1 d2 → extends parent d2 d3 → extends parent d1 d3.
Proof.
  intros [] []. split; intros.
  - lia.
  - auto.
  - rewrite ext_parent1, ext_parent0 by lia. done.
  - rewrite ext_children1, ext_children0 by (done || lia). done.
  - rewrite ext_content1, ext_content0 by lia. done.
Qed.

(** Growth under a node that [d1] does not have leaves every child list
    of [d1] alone. *)
Lemma extends_under_new parent i d1 d2 d3 :
  extends parent d1 d2 → next_id d1 ≤ i → extends i d2 d3 → extends parent d1 d3.
Proof.
  intros [] Hi []. split; intros.
  - lia.
  - auto.
  - rewrite ext_parent1, ext_parent0 by lia. done.
  - rewrite ext_children1, ext_children0 by (done || lia). done.
  - rewrite ext_content1, ext_content0 by lia. done.
Qed.

Lemma content_of_alloc_old (c : payload) d j :
  j ≠ next_id d → content_of (alloc c d).2 j = content_of d j.
Proof. intros. unfold content_of; simpl. by rewrite lookup_insert_ne. Qed.

(** Creating a node and appending it to [parent]. *)
Lemma alloc_append_spec c parent d :
  dom_wf d → is_Some (nodes d !! parent) →
  let d' := appendChild parent (next_id d) (alloc c d).2 in
  dom_wf d' ∧ extends parent d d' ∧ next_id d' = S (next_id d) ∧
  is_Some (nodes d' !! next_id d) ∧
  children_of d' parent = children_of d parent ++ [next_id d] ∧
  children_of d' (next_id d) = [].
Proof.
  intros Hwf Hp. pose proof (wf_fresh _ Hwf _ Hp) as Hlt.
  pose proof (alloc_wf c d Hwf) as Hwf1.
  assert (is_Some (nodes (alloc c d).2 !! parent)) as Hp1 by (apply nodes_alloc; auto).
  assert (is_Some (nodes (alloc c d).2 !! next_id d)) as Hi1 by (apply nodes_alloc; auto).
  pose proof (parent_of_alloc_new c d) as Hdet.
  pose proof (children_of_alloc_new c d) as Hleaf.
  assert (parent ≠ next_id d) as Hne by lia.
  split_and!.
  - by apply append_detached_wf.
  - split.
    + rewrite next_id_appendChild. simpl. lia.
    + intros j Hj. apply nodes_append; [done|]. apply nodes_alloc. auto.
    + intros j Hj. rewrite parent_of_append by done.
      case_decide; [lia|]. apply parent_of_alloc_old. lia.
    + intros j Hj Hjp. rewrite children_of_append by done.
      case_decide; [done|]. apply children_of_alloc_old. lia.
    + intros j Hj. rewrite appendChild_detached by done.
      rewrite content_of_set_parent, content_of_set_children.
      apply content_of_alloc_old. lia.
  - by rewrite next_id_appendChild.
  - by apply nodes_append.
  - rewrite children_of_append by done. rewrite decide_True by done.
    by rewrite children_of_alloc_old.
  - rewrite children_of_append by done. by rewrite decide_False.
Qed.

(** What building a tree under [parent] does to a well-formed store. *)
Definition build_tree_ok (t : tree) : Prop :=
  ∀ parent d, dom_wf d → is_Some (nodes d !! parent) →
  let d' := build_tree parent t d in
  dom_wf d' ∧ extends parent d d' ∧ next_id d' = next_id d + tree_size t ∧
  children_of d' parent = children_of d parent ++ [next_id d].

Lemma forest_size_cons t ts : forest_size (t :: ts) = tree_size t + forest_size ts.
Proof. done. Qed.

Lemma tree_size_node c ts : tree_size (TNode c ts) = S (forest_size ts).
Proof. done. Qed.

Lemma build_tree_node parent c ts d :
  build_tree parent (TNode c ts) d =
  build_forest (next_id d) ts (appendChild parent (next_id d) (alloc c d).2).
Proof. done. Qed.

Lemma build_forest_cons parent t ts d :
  build_forest parent (t :: ts) d = build_forest parent ts (build_tree parent t d).
Proof. done. Qed.

Lemma build_forest_spec ts :
  Forall build_tree_ok ts →
  ∀ parent d, dom_wf d → is_Some (nodes d !! parent) →
  let d' := build_forest parent ts d in
  dom_wf d' ∧ extends parent d d' ∧ next_id d' = next_id d + forest_size ts ∧
  children_of d' parent = children_of d parent ++ roots_from (next_id d) ts.
Proof.
  induction 1 as [|t ts Ht _ IH]; intros parent d Hwf Hp; cbv zeta.
  - split_and!; [done|apply extends_refl|unfold forest_size; simpl; lia|].
    by rewrite app_nil_r.
  - destruct (Ht parent d Hwf Hp) as (Hwf1 & Hext1 & Hn1 & Hc1).
    destruct (IH parent (build_tree parent t d) Hwf1) as (Hwf2 & Hext2 & Hn2 & Hc2).
    { by apply Hext1. }
    rewrite build_forest_cons.
    split_and!; [done|by eapply extends_trans| |].
    + rewrite Hn2, Hn1, forest_size_cons. lia.
    + rewrite Hc2, Hc1, Hn1, <- app_assoc. done.
Qed.

Lemma build_tree_spec t : build_tree_ok t.
Proof.
  induction t as [c ts IH] using tree_ind'. intros parent d Hwf Hp.
  destruct (alloc_append_spec c parent d Hwf Hp) as (Hwf2 & Hext2 & Hn2 & Hi2 & Hc2 & _).
  destruct (build_forest_spec ts IH (next_id d) _ Hwf2 Hi2) as (Hwf3 & Hext3 & Hn3 & _).
  pose proof (wf_fresh _ Hwf _ Hp) as Hlt.
  cbv zeta. rewrite build_tree_node.
  split_and!.
  - done.
  - by eapply extends_under_new.
  - rewrite Hn3, Hn2, tree_size_node. lia.
  - rewrite (ext_children _ _ _ Hext3), Hc2; [done|lia|lia].
Qed.

Lemma next_id_clear parent d : next_id (clear_children parent d) = next_id d.
Proof. exact (next_id_unparent d (children_of d parent)). Qed.

(** What assigning a fragment to the children of a node does. *)
Lemma replace_children_spec parent ts d :
  dom_wf d → is_Some (nodes d !! parent) →
  let d' := replace_children parent ts d in
  dom_wf d' ∧ extends parent (clear_children parent d) d' ∧
  next_id d' = next_id d + forest_size ts ∧
  children_of d' parent = roots_from (next_id d) ts.
Proof.
  intros Hwf Hp. unfold replace_children.
  destruct (build_forest_spec ts) with (parent := parent) (d := clear_children parent d)
    as (Hwf' & Hext & Hn & Hc).
  - apply Forall_forall. intros t _. apply build_tree_spec.
  - by apply clear_children_wf.
  - by apply nodes_clear.
  - rewrite next_id_clear in Hn, Hc. split_and!; [done..|].
    rewrite Hc, children_of_clear, decide_True by done. done.
Qed.

(** The nodes the store had are still there, with their payloads. *)
Lemma replace_children_frame parent ts d j :
  dom_wf d → is_Some (nodes d !! parent) → is_Some (nodes d !! j) →
  is_Some (nodes (replace_children parent ts d) !! j) ∧
  content_of (replace_children parent ts d) j = content_of d j.
Proof.
  intros Hwf Hp Hj.
  destruct (replace_children_spec parent ts d Hwf Hp) as (_ & Hext & _).
  split.
  - by apply (ext_nodes _ _ _ Hext), nodes_clear.
  - rewrite (ext_content _ _ _ Hext), content_of_clear; [done|].
    rewrite next_id_clear. by apply wf_fresh.
Qed.

(** The children the node had are detached. *)
Lemma replace_children_detaches parent ts d c :
  dom_wf d → is_Some (nodes d !! parent) → c ∈ children_of d parent →
  parent_of (replace_children parent ts d) c = None.
Proof.
  intros Hwf Hp Hin.
  destruct (replace_children_spec parent ts d Hwf Hp) as (_ & Hext & _).
  assert (is_Some (nodes d !! c)) as Hn
    by (eapply parent_of_node, wf_child; eauto).
  rewrite (ext_parent _ _ _ Hext) by (rewrite next_id_clear; by apply wf_fresh).
  apply eq_None_not_Some. intros [q Hq]. apply parent_of_clear in Hq. tauto.
Qed.

Lemma replace_children_dom_wf parent ts d :
  dom_wf d → is_Some (nodes d !! parent) → dom_wf (replace_children parent ts d).
Proof. intros Hwf Hp. by apply replace_children_spec. Qed.

(** C15: assigning a fragment to the children of a node of a well-formed
    store gives a well-formed store, in which the children of the node
    are the roots of the fragment, all of them new nodes, and the
    children the node had are detached: they have no parent. *)
Theorem replace_children_wf (parent : nat) (ts : list tree) (d : dom) :
  dom_wf d → is_Some (nodes d !! parent) →
  let d' := replace_children parent ts d in
  dom_wf d' ∧
  children_of d' parent = roots_from (next_id d) ts ∧
  ∀ c, c ∈ children_of d parent → parent_of d' c = None.
Proof.
  intros Hwf Hp d'.
  destruct (replace_children_spec parent ts d Hwf Hp) as (Hwf' & _ & _ & Hc).
  split_and!; [done..|]. intros c Hin. by apply replace_children_detaches.
Qed.

(** Moving nodes does not change payloads. *)
Lemma content_of_detach child d j : content_of (detach child d) j = content_of d j.
Proof.
  unfold detach. destruct (parent_of d child); [|done].
  by rewrite content_of_set_parent, content_of_set_children.
Qed.

Lemma content_of_appendChild parent child d j :
  content_of (appendChild parent child d) j = content_of d j.
Proof.
  unfold appendChild.
  by rewrite content_of_set_parent, content_of_set_children, content_of_detach.
Qed.

Lemma content_of_alloc_new (c : payload) d : content_of (alloc c d).2 (next_id d) = Some c.
Proof. unfold content_of; simpl. by rewrite lookup_insert_eq. Qed.

(** ** Stores of the same shape *)

#[export] Instance same_shape_equiv : Equivalence same_shape.
Proof.
  split.
  - by intros d.
  - intros d d' [? Hn Hp Hc]. split; intros; by rewrite ?Hn, ?Hp, ?Hc.
  - intros d1 d2 d3 [? Hn Hp Hc] [? Hn' Hp' Hc'].
    split; intros; [congruence|by rewrite Hn|by rewrite Hp|by rewrite Hc].
Qed.

#[export] Instance parent_of_shape : Proper (same_shape ==> (=) ==> (=)) parent_of.
Proof. intros d d' H j ? <-. apply H. Qed.

#[export] Instance children_of_shape : Proper (same_shape ==> (=) ==> (=)) children_of.
Proof. intros d d' H j ? <-. apply H. Qed.

Lemma same_shape_wf d d' : same_shape d d' → dom_wf d → dom_wf d'.
Proof.
  intros [Hx Hn Hp Hc] [Hf Hpa Hch Hnd [rank Hr]]. split.
  - intros i Hi. rewrite <- Hx. by apply Hf, Hn.
  - intros i p. rewrite <- Hp, <- Hc. auto.
  - intros p c. rewrite <- Hp, <- Hc. auto.
  - intros p. rewrite <- Hc. auto.
  - exists rank. intros i p. rewrite <- Hp. auto.
Qed.

#[export] Instance dom_wf_shape : Proper (same_shape ==> iff) dom_wf.
Proof. intros d d' H. split; apply same_shape_wf; [done|by symmetry]. Qed.

Lemma map_element_shape f i d : same_shape d (map_element f i d).
Proof.
  split; [done|..]; intros j; unfold parent_of, children_of, map_element; simpl;
    destruct (decide (i = j)) as [->|];
    rewrite ?lookup_alter_eq, ?lookup_alter_ne by done; try done;
    destruct (nodes d !! j) as [[q cs [e|t]]|]; simpl; by rewrite ?fmap_is_Some.
Qed.

(** Growth followed by a change of the payloads of the new nodes is
    growth. *)
Lemma extends_shape parent d d1 d2 :
  extends parent d d1 → same_shape d1 d2 →
  (∀ j, j < next_id d → content_of d2 j = content_of d1 j) → extends parent d d2.
Proof.
  intros [Hn Hnodes Hp Hch Hc] Hs Hcont. split.
  - by rewrite <- (ss_next _ _ Hs).
  - intros j Hj. by apply Hs, Hnodes.
  - intros j Hj. by rewrite <- (ss_parent _ _ Hs), Hp.
  - intros j Hj Hne. by rewrite <- (ss_children _ _ Hs), Hch.
  - intros j Hj. by rewrite Hcont, Hc.
Qed.

Lemma content_of_map_element f i d j :
  content_of (map_element f i d) j =
  if decide (i = j)
  then match content_of d j with
       | Some (PElement e) => Some (PElement (f e))
       | c => c
       end
  else content_of d j.
Proof.
  unfold content_of, map_element; simpl. case_decide as Hij; [subst|].
  - rewrite lookup_alter_eq. by destruct (nodes d !! j) as [[q cs [e|t]]|].
  - by rewrite lookup_alter_ne.
Qed.

(** Reading a style property after a write. *)
Lemma style_of_set_style_eq d i prop val e :
  content_of d i = Some (PElement e) → style_of (set_style i prop val d) i prop = Some val.
Proof.
  intros He. unfold style_of, set_style.
  rewrite content_of_map_element, decide_True, He by done. apply lookup_insert_eq.
Qed.

Lemma style_of_set_style_ne d i prop val j prop' :
  i ≠ j ∨ prop ≠ prop' →
  style_of (set_style i prop val d) j prop' = style_of d j prop'.
Proof.
  intros Hne. unfold style_of, set_style. rewrite content_of_map_element.
  destruct (decide (i = j)) as [->|]; [|done].
  destruct (content_of d j) as [[e|t]|]; simpl; [|done..].
  apply lookup_insert_ne. tauto.
Qed.

(** ** A sample document *)

(** An element with no class, attribute or style. *)
Definition elem (tag : string) : payload :=
  PElement {| tagName := tag; className := ""; attributes := []; style := ∅ |}.

(** The page once the [#editor] element exists: node 0, with no child. *)
Definition editor_dom : dom := (alloc (elem "div") empty_dom).2.

(** The fragment [<p>hi</p>]. *)
Definition hi_forest : list tree := [TNode (elem "p") [TNode (PText "hi") []]].

Lemma editor_dom_wf : dom_wf editor_dom.
Proof. apply alloc_wf, empty_dom_wf. Qed.

Lemma editor_dom_node : is_Some (nodes editor_dom !! 0).
Proof. apply nodes_alloc. by left. Qed.

Lemma replace_children_wf_witness :
  let d' := replace_children 0 hi_forest editor_dom in
  dom_wf d' ∧
  children_of d' 0 = roots_from (next_id editor_dom) hi_forest ∧
  ∀ c, c ∈ children_of editor_dom 0 → parent_of d' c = None.
Proof.
  apply replace_children_wf; [apply editor_dom_wf | apply editor_dom_node].
Defined.

(** The editor showing [<p>hi</p>]: the editor is node 0, the paragraph
    node 1 and its text node 2. *)
Definition hi_dom : dom := replace_children 0 hi_forest editor_dom.

Lemma hi_dom_wf : dom_wf hi_dom.
Proof. apply replace_children_dom_wf; [apply editor_dom_wf | apply editor_dom_node]. Qed.

Example replace_children_hi :
  children_of hi_dom 0 = [1] ∧ children_of hi_dom 1 = [2] ∧
  parent_of hi_dom 2 = Some 1 ∧ content_of hi_dom 2 = Some (PText "hi").
Proof. by vm_compute. Qed.

#[export] Hint Resolve empty_dom_wf alloc_wf detach_wf clear_children_wf
  editor_dom_wf editor_dom_node hi_dom_wf : js.
