(* ===== verification/Markup.v ===== *)
(** * The markup of a fragment

    [editor.innerHTML] is read and assigned by the scripts (editor.js,
    54 and 82); the browser writes the children of the editor as markup
    and parses markup into a fragment.  This file holds a codec for a
    part of HTML: elements with a class, text, and the entities of the
    characters the serialiser escapes.  It is the instance of the
    parameter [Editor.Html] the scenarios run on, and it shows that the
    laws [Converge] asks of the browser hold of a serialiser and a
    parser: what the serialiser wrote is parsed and written as the same
    markup, and the nodes an assignment builds are read back as the
    fragment.

    Attributes other than the class and the inline style are not
    written; a tag is written with its letters and digits. *)

From Stdlib Require Import Ascii String.
From stdpp Require Import base option list numbers strings gmap.
From S2P Require Import Prelude Dom.

(** ** Characters *)

Definition c_lt : ascii := "<"%char.
Definition c_gt : ascii := ">"%char.
Definition c_amp : ascii := "&"%char.
Definition c_slash : ascii := "/"%char.

(** The characters of a tag: small letters and digits. *)
Definition is_name_char (c : ascii) : bool :=
  let n := nat_of_ascii c in
  (97 <=? n) && (n <=? 122) || (48 <=? n) && (n <=? 57).

(** ** Entities *)

Definition entities : list (ascii * list ascii) :=
  [(c_amp, chars "amp;"); (c_lt, chars "lt;"); (c_gt, chars "gt;"); (c_quot, chars "quot;")].

Definition entity (c : ascii) : option (list ascii) :=
  (λ e, e.2.2) <$> list_find (λ e, e.1 = c) entities.

(** The characters the serialiser escapes: in the value of an attribute
    the ampersand and the quote, in text the ampersand and the angle
    brackets. *)
Definition special (attr : bool) (c : ascii) : bool :=
  bool_decide (c = c_amp) ||
  (if attr then bool_decide (c = c_quot)
   else bool_decide (c = c_lt) || bool_decide (c = c_gt)).

Definition escape_char (attr : bool) (c : ascii) : list ascii :=
  match entity c with
  | Some name => if special attr c then c_amp :: name else [c]
  | None => [c]
  end.

Definition escape (attr : bool) (l : list ascii) : list ascii := l ≫= escape_char attr.

(** The entity the input starts with after an ampersand: its character
    and its length. *)
Definition decode_entity (l : list ascii) : option (ascii * nat) :=
  e ← (list_find (λ e, is_Some (strip e.2 l)) entities); Some (e.2.1, length e.2.2).

(** The text of a run of characters: an entity is its character, and
    [skip] counts the characters of an entity that are still to be
    passed over. *)
Fixpoint unescape (skip : nat) (l : list ascii) : list ascii :=
  match l with
  | [] => []
  | c :: l' =>
      match skip with
      | S skip => unescape skip l'
      | 0 =>
          if decide (c = c_amp) then
            match decode_entity l' with
            | Some (c', n) => c' :: unescape n l'
            | None => c :: unescape 0 l'
            end
          else c :: unescape 0 l'
      end
  end.

Lemma unescape_skip x w : unescape (length x) (x ++ w) = unescape 0 w.
Proof. induction x as [|c x IH]; simpl; [by destruct w|done]. Qed.

(** The four characters that have an entity, and the others. *)
Ltac entity_cases x :=
  destruct (decide (x = c_amp)) as [->|?];
    [|destruct (decide (x = c_lt)) as [->|?];
      [|destruct (decide (x = c_gt)) as [->|?];
        [|destruct (decide (x = c_quot)) as [->|?]]]].

Lemma entity_other x :
  x ≠ c_amp → x ≠ c_lt → x ≠ c_gt → x ≠ c_quot →
  entity x = None ∧ ∀ attr, special attr x = false.
Proof.
  intros. split.
  - unfold entity. cbn. by rewrite !decide_False by done.
  - intros attr. unfold special. rewrite !bool_decide_eq_false_2 by done. by destruct attr.
Qed.

Lemma decode_entity_entity c name w :
  entity c = Some name → decode_entity (name ++ w) = Some (c, length name).
Proof.
  intros Hc. entity_cases c; try by injection Hc as <-.
  by destruct (entity_other c) as [Hn _]; [..|rewrite Hn in Hc].
Qed.

(** An escaped character is read back as the character. *)
Lemma unescape_escape_char attr c w :
  unescape 0 (escape_char attr c ++ w) = c :: unescape 0 w.
Proof.
  unfold escape_char. destruct (entity c) as [name|] eqn:Hc.
  - destruct (special attr c) eqn:Hs; simpl.
    + by rewrite (decode_entity_entity c name w Hc), unescape_skip.
    + rewrite decide_False; [done|]. by intros ->.
  - simpl. rewrite decide_False; [done|]. by intros ->.
Qed.

Lemma escape_app attr a b : escape attr (a ++ b) = escape attr a ++ escape attr b.
Proof. apply bind_app. Qed.

Lemma unescape_escape_app attr a w : unescape 0 (escape attr a ++ w) = a ++ unescape 0 w.
Proof.
  induction a as [|c a IH]; [done|]. unfold escape. rewrite bind_cons, <- app_assoc.
  rewrite unescape_escape_char. simpl. f_equal. apply IH.
Qed.

Lemma unescape_escape attr a : unescape 0 (escape attr a) = a.
Proof.
  rewrite <- (app_nil_r (escape attr a)), unescape_escape_app. simpl. apply app_nil_r.
Qed.

(** An escaped run holds the ampersand and characters that are not
    special: none of the characters that end the run. *)
Lemma escape_char_plain attr x :
  Forall (λ y, y = c_amp ∨ special attr y = false) (escape_char attr x).
Proof.
  entity_cases x; try (destruct attr; apply (bool_decide_unpack _); by vm_compute).
  destruct (entity_other x) as [Hn Hs]; [done..|].
  unfold escape_char. rewrite Hn. constructor; [right; apply Hs|constructor].
Qed.

Lemma escape_plain attr a c :
  special attr c = true → c ≠ c_amp → Forall (λ y, y ≠ c) (escape attr a).
Proof.
  intros Hs Hne. apply Forall_forall. intros y (x & Hin & _)%list_elem_of_bind ->.
  pose proof (escape_char_plain attr x) as Hall. rewrite Forall_forall in Hall.
  destruct (Hall c Hin); congruence.
Qed.

(** ** Writing a fragment *)

(** The tag as it is written: its letters and digits, and [div] when it
    has none. *)
Definition clean_name (tag : string) : list ascii :=
  match filter (λ c, is_name_char c = true) (chars tag) with
  | [] => chars "div"
  | name => name
  end.

Definition class_open : list ascii := chars " class=" ++ [c_quot].

Definition class_attr (cls : string) : list ascii :=
  if decide (cls = ""%string) then []
  else class_open ++ escape true (chars cls) ++ [c_quot].

(** The start tag after its angle bracket, and the end tag. *)
Definition open_tag (e : element) : list ascii :=
  clean_name (tagName e) ++ class_attr (className e) ++ [c_gt].

Definition close_tag (e : element) : list ascii :=
  c_lt :: c_slash :: clean_name (tagName e) ++ [c_gt].

Global Arguments open_tag : simpl never.
Global Arguments close_tag : simpl never.

Fixpoint show_tree (t : tree) : list ascii :=
  match t with
  | TNode (PText data) _ => escape false (chars data)
  | TNode (PElement e) ts => c_lt :: open_tag e ++ (ts ≫= show_tree) ++ close_tag e
  end.

Definition show_forest (ts : list tree) : list ascii := ts ≫= show_tree.

Definition markup (ts : list tree) : string := text (show_forest ts).

(** ** Parsing markup *)

(** The element of a start tag. *)
Definition element_of (name : list ascii) (cls : string) : element :=
  {| tagName := text name; className := cls; attributes := []; style := ∅ |}.

(** The class of a start tag, after the name, up to the angle bracket
    that ends the tag. *)
Definition parse_class (input : list ascii) : option (string * list ascii) :=
  match strip class_open input with
  | Some rest =>
      let '(raw, rest) := span (λ c, negb (bool_decide (c = c_quot))) rest in
      rest ← strip [c_quot; c_gt] rest;
      Some (text (unescape 0 raw), rest)
  | None => rest ← strip [c_gt] input; Some (""%string, rest)
  end.

Definition parse_open (input : list ascii) : option (element * list ascii) :=
  let '(name, rest) := span is_name_char input in
  if decide (name = []) then None
  else '(cls, rest) ← parse_class rest; Some (element_of name cls, rest).

(** The text node of the run [acc], when there is one, before the nodes
    [ts]. *)
Definition flush (acc : list ascii) (ts : list tree) : list tree :=
  if decide (acc = []) then ts else TNode (PText (text (unescape 0 acc))) [] :: ts.

(** The nodes the input starts with, up to its end or to an end tag,
    and the rest.  [acc] is the run of text read so far; a call reads a
    character or a tag, so the length of the input bounds the fuel. *)
Fixpoint parse_nodes (fuel : nat) (acc input : list ascii) : option (list tree * list ascii) :=
  match fuel with
  | 0 => None
  | S fuel =>
      match input with
      | [] => Some (flush acc [], [])
      | c :: rest =>
          if decide (c = c_lt) then
            if decide (head rest = Some c_slash) then Some (flush acc [], input)
            else
              '(e, rest) ← parse_open rest;
              '(children, rest) ← parse_nodes fuel [] rest;
              rest ← strip (close_tag e) rest;
              '(siblings, rest) ← parse_nodes fuel [] rest;
              Some (flush acc (TNode (PElement e) children :: siblings), rest)
          else parse_nodes fuel (acc ++ [c]) rest
      end
  end.

(** The fragment of a string; a string that is not markup of this
    language has none. *)
Definition parse_markup (content : string) : list tree :=
  match parse_nodes (S (String.length content)) [] (chars content) with
  | Some (ts, []) => ts
  | _ => []
  end.

(** ** The fragment that is read back *)

Definition clean_element (e : element) : element :=
  element_of (clean_name (tagName e)) (className e).

(** Adjacent text nodes are one text node, and an empty text node is
    none. *)
Fixpoint merge (acc : list ascii) (ts : list tree) : list tree :=
  match ts with
  | [] => flush acc []
  | TNode (PText data) _ :: ts => merge (acc ++ escape false (chars data)) ts
  | t :: ts => flush acc (t :: merge [] ts)
  end.

Fixpoint clean_tree (t : tree) : tree :=
  match t with
  | TNode (PText data) _ => TNode (PText data) []
  | TNode (PElement e) ts => TNode (PElement (clean_element e)) (merge [] (clean_tree <$> ts))
  end.

Definition normal (ts : list tree) : list tree := merge [] (clean_tree <$> ts).

Example markup_hi : markup hi_forest = "<p>hi</p>"%string.
Proof. by vm_compute. Qed.

Example parse_hi : parse_markup "<p>hi</p>" = hi_forest.
Proof. by vm_compute. Qed.

(** ** The parser reads what the serialiser wrote *)

Lemma length_text l : String.length (text l) = length l.
Proof. induction l as [|c l IH]; simpl; [done|]. by rewrite IH. Qed.

(** Induction on a fragment: on its first tree, the children of it and
    the trees after it. *)
Lemma forest_ind (P : list tree → Prop) :
  P [] →
  (∀ data cs ts, P ts → P (TNode (PText data) cs :: ts)) →
  (∀ e cs ts, P cs → P ts → P (TNode (PElement e) cs :: ts)) →
  ∀ ts, P ts.
Proof.
  intros Hnil Htext Helem.
  assert (∀ ts, Forall (λ t, ∀ ts, P ts → P (t :: ts)) ts → P ts) as Hforest.
  { induction 1; auto. }
  assert (∀ t ts, P ts → P (t :: ts)) as Htree.
  { induction t as [c cs IH] using tree_ind'. destruct c; auto. }
  intros ts. apply Hforest, Forall_forall. intros t _. apply Htree.
Qed.

Lemma clean_name_chars tag : Forall (λ c, is_name_char c = true) (clean_name tag).
Proof.
  unfold clean_name.
  destruct (filter _ (chars tag)) as [|c name] eqn:Hf; [by repeat constructor|].
  rewrite <- Hf. apply Forall_forall. by intros c' [? _]%list_elem_of_filter.
Qed.

Lemma clean_name_cons tag : ∃ c name, clean_name tag = c :: name ∧ is_name_char c = true.
Proof.
  pose proof (clean_name_chars tag) as Hall. unfold clean_name in *.
  destruct (filter _ (chars tag)) as [|c name]; inversion Hall; eauto.
Qed.

Lemma clean_name_text tag : clean_name (text (clean_name tag)) = clean_name tag.
Proof.
  assert (filter (λ c, is_name_char c = true) (clean_name tag) = clean_name tag) as Hf.
  { generalize (clean_name_chars tag). generalize (clean_name tag).
    induction 1 as [|x l Hx _ IH]; [done|]. by rewrite filter_cons_True, IH. }
  destruct (clean_name_cons tag) as (c & name & Hn & _).
  unfold clean_name at 1. rewrite chars_text, Hf. by rewrite Hn.
Qed.

Lemma open_tag_clean e : open_tag (clean_element e) = open_tag e.
Proof. unfold open_tag; simpl. by rewrite clean_name_text. Qed.

Lemma close_tag_clean e : close_tag (clean_element e) = close_tag e.
Proof. unfold close_tag; simpl. by rewrite clean_name_text. Qed.

(** The character after the name of a start tag is no character of a
    name. *)
Lemma class_attr_head cls w c w' :
  class_attr cls ++ c_gt :: w = c :: w' → is_name_char c = false.
Proof. unfold class_attr. case_decide; by intros [= <- _]. Qed.

Lemma parse_class_attr cls w : parse_class (class_attr cls ++ c_gt :: w) = Some (cls, w).
Proof.
  unfold parse_class, class_attr. case_decide as Hc; [by subst|].
  rewrite <- !app_assoc, strip_app.
  rewrite (span_app _ (escape true (chars cls)) ([c_quot] ++ c_gt :: w)).
  - simpl. rewrite ?decide_True by done. by rewrite unescape_escape, text_chars.
  - eapply Forall_impl; [by apply (escape_plain true _ c_quot)|].
    intros c Hne. by rewrite bool_decide_eq_false_2.
  - by intros c w' [= <- _].
Qed.

Lemma parse_open_tag e w : parse_open (open_tag e ++ w) = Some (clean_element e, w).
Proof.
  unfold parse_open, open_tag. rewrite <- !app_assoc.
  rewrite (span_app _ (clean_name (tagName e))); [|apply clean_name_chars|apply class_attr_head].
  destruct (clean_name_cons (tagName e)) as (c & name & Hn & _).
  rewrite decide_False by (by rewrite Hn). simpl. by rewrite parse_class_attr.
Qed.

Lemma open_tag_head e w : head (open_tag e ++ w) ≠ Some c_slash.
Proof.
  unfold open_tag. destruct (clean_name_cons (tagName e)) as (c & name & -> & Hc).
  simpl. by intros [= ->].
Qed.

(** A run of text is read into the accumulator. *)
Lemma parse_nodes_text x fuel acc w :
  Forall (λ c, c ≠ c_lt) x →
  parse_nodes (length x + fuel) acc (x ++ w) = parse_nodes fuel (acc ++ x) w.
Proof.
  intros Hx. revert acc. induction Hx as [|c x Hc _ IH]; intros acc; simpl.
  - by rewrite app_nil_r.
  - rewrite decide_False by done. by rewrite IH, <- app_assoc.
Qed.

(** The input after a fragment: nothing, or an end tag. *)
Definition closing (rest : list ascii) : Prop :=
  rest = [] ∨ ∃ w, rest = c_lt :: c_slash :: w.

Lemma parse_nodes_closing fuel acc rest :
  closing rest → parse_nodes (S fuel) acc rest = Some (flush acc [], rest).
Proof. by intros [->|[w ->]]. Qed.

Lemma show_forest_cons t ts : show_forest (t :: ts) = show_tree t ++ show_forest ts.
Proof. done. Qed.

Lemma show_forest_elem e cs ts rest :
  show_forest (TNode (PElement e) cs :: ts) ++ rest
  = c_lt :: open_tag e ++ show_forest cs ++ close_tag e ++ show_forest ts ++ rest.
Proof.
  rewrite show_forest_cons. simpl. f_equal.
  by rewrite <- (app_assoc _ (show_forest ts) rest), <- (app_assoc (open_tag e)),
    <- (app_assoc (cs ≫= show_tree)).
Qed.

(** An element: its start tag, its children, its end tag, and the nodes
    after it. *)
Lemma parse_nodes_elem fuel acc e w :
  parse_nodes (S fuel) acc (c_lt :: open_tag e ++ w) =
  '(children, rest) ← parse_nodes fuel [] w;
  rest ← strip (close_tag (clean_element e)) rest;
  '(siblings, rest) ← parse_nodes fuel [] rest;
  Some (flush acc (TNode (PElement (clean_element e)) children :: siblings), rest).
Proof.
  cbn [parse_nodes]. rewrite decide_True by done.
  rewrite decide_False by apply open_tag_head. by rewrite parse_open_tag.
Qed.

Lemma parse_nodes_show ts :
  ∀ fuel acc rest, closing rest → length (show_forest ts ++ rest) < fuel →
  parse_nodes fuel acc (show_forest ts ++ rest) = Some (merge acc (clean_tree <$> ts), rest).
Proof.
  induction ts as [|data cs ts IH|e cs ts IHcs IH] using forest_ind;
    intros fuel acc rest Hrest Hlen.
  - destruct fuel; [lia|]. by apply parse_nodes_closing.
  - rewrite show_forest_cons, <- app_assoc in *. simpl show_tree in *.
    rewrite length_app in Hlen.
    replace fuel with (length (escape false (chars data)) +
                       (fuel - length (escape false (chars data)))) by lia.
    rewrite parse_nodes_text by (by apply (escape_plain false _ c_lt)).
    rewrite IH by (done || lia). done.
  - rewrite show_forest_elem in *. destruct fuel as [|fuel]; [lia|].
    cbn [length] in Hlen. rewrite !length_app in Hlen.
    rewrite parse_nodes_elem, IHcs; [|right; by eexists|rewrite !length_app; lia].
    cbn [mbind option_bind]. rewrite close_tag_clean, strip_app. cbn [mbind option_bind].
    rewrite IH by (done || (rewrite length_app; lia)). done.
Qed.

Lemma show_flush x ts :
  show_forest (flush (escape false x) ts) = escape false x ++ show_forest ts.
Proof.
  unfold flush. case_decide as Hx; [by rewrite Hx|].
  rewrite show_forest_cons. simpl. by rewrite unescape_escape, chars_text.
Qed.

Lemma show_tree_elem e cs :
  show_tree (TNode (PElement e) cs) = c_lt :: open_tag e ++ show_forest cs ++ close_tag e.
Proof. done. Qed.

Lemma merge_elem acc e cs ts :
  merge acc (clean_tree <$> TNode (PElement e) cs :: ts)
  = flush acc (TNode (PElement (clean_element e)) (normal cs) :: normal ts).
Proof. done. Qed.

Lemma merge_text acc data cs ts :
  merge acc (clean_tree <$> TNode (PText data) cs :: ts)
  = merge (acc ++ escape false (chars data)) (clean_tree <$> ts).
Proof. done. Qed.

Lemma show_merge ts :
  ∀ x, show_forest (merge (escape false x) (clean_tree <$> ts))
       = escape false x ++ show_forest ts.
Proof.
  induction ts as [|data cs ts IH|e cs ts IHcs IH] using forest_ind; intros x.
  - apply show_flush.
  - rewrite merge_text, <- escape_app, IH, escape_app, show_forest_cons, <- app_assoc. done.
  - pose proof (IHcs []) as Hcs. pose proof (IH []) as Hts.
    change (escape false []) with (@nil ascii) in Hcs, Hts.
    rewrite merge_elem, show_flush, !show_forest_cons, !show_tree_elem.
    unfold normal. by rewrite open_tag_clean, close_tag_clean, Hcs, Hts.
Qed.

(** The fragment of the markup of a fragment is its normal form, and
    has the same markup. *)
Lemma parse_markup_markup ts : parse_markup (markup ts) = normal ts.
Proof.
  unfold parse_markup, markup. rewrite chars_text, length_text.
  rewrite <- (app_nil_r (show_forest ts)) at 2.
  rewrite parse_nodes_show; [done|by left|]. rewrite app_nil_r. lia.
Qed.

(** The markup of a fragment is the markup of its trees, one after
    the other. *)
Lemma markup_app ts us : markup (ts ++ us) = markup ts +:+ markup us.
Proof. unfold markup, show_forest. by rewrite bind_app, text_app. Qed.

Lemma markup_normal ts : markup (normal ts) = markup ts.
Proof. unfold markup, normal. f_equal. apply (show_merge ts []). Qed.

Lemma markup_parse_markup ts : markup (parse_markup (markup ts)) = markup ts.
Proof. by rewrite parse_markup_markup, markup_normal. Qed.

(** ** Reading the store *)

(** The tree of a node of the store.  A child has its parent above it,
    so the number of identifiers given out bounds the depth of a tree:
    that is the fuel of [read_children]. *)
Fixpoint read_tree (fuel : nat) (d : dom) (i : nat) : tree :=
  match fuel with
  | 0 => TNode (PText "") []
  | S fuel =>
      match nodes d !! i with
      | Some n => TNode (content n) (read_tree fuel d <$> childNodes n)
      | None => TNode (PText "") []
      end
  end.

Definition read_children (d : dom) (i : nat) : list tree :=
  read_tree (next_id d) d <$> children_of d i.

(** [i.innerHTML] *)
Definition serialize_children (d : dom) (i : nat) : string := markup (read_children d i).

(** The tree [t] sits at [i]: its nodes have the identifiers from [i]
    on, in document order, as [build_tree] gives them out. *)
Inductive sits (d : dom) : nat → tree → Prop :=
| sits_node i c ts :
    content_of d i = Some c → children_of d i = roots_from (S i) ts →
    Forall2 (sits d) (roots_from (S i) ts) ts → sits d i (TNode c ts).

Definition sits_forest (d : dom) (n : nat) (ts : list tree) : Prop :=
  Forall2 (sits d) (roots_from n ts) ts.

Lemma sits_forest_cons d n t ts :
  sits_forest d n (t :: ts) ↔ sits d n t ∧ sits_forest d (n + tree_size t) ts.
Proof. unfold sits_forest. simpl. apply Forall2_cons. Qed.

(** Two stores agree on the nodes from [lo] to [hi], which have the
    same payloads and children in both; a tree that sits there in one
    sits there in the other. *)
Definition agree (lo hi : nat) (d d' : dom) : Prop :=
  ∀ j, lo ≤ j < hi → content_of d' j = content_of d j ∧ children_of d' j = children_of d j.

Definition sits_stays (lo hi : nat) (d d' : dom) (t : tree) : Prop :=
  ∀ i, sits d i t → lo ≤ i → i + tree_size t ≤ hi → sits d' i t.

Lemma sits_forest_stays lo hi d d' ts :
  Forall (sits_stays lo hi d d') ts →
  ∀ n, sits_forest d n ts → lo ≤ n → n + forest_size ts ≤ hi → sits_forest d' n ts.
Proof.
  induction 1 as [|t ts Ht _ IH]; intros n; [constructor|].
  rewrite !sits_forest_cons, forest_size_cons. intros [H1 H2] Hq Hn.
  split; [apply Ht; [done|lia..]|apply IH; [done|lia..]].
Qed.

Lemma sits_agree lo hi d d' t : agree lo hi d d' → sits_stays lo hi d d' t.
Proof.
  intros Hag. induction t as [c ts IH] using tree_ind'. intros i Hs Hp Hi.
  inversion Hs as [? ? ? Hc Hch Hts]; subst. rewrite tree_size_node in Hi.
  destruct (Hag i) as [Hc' Hch']; [lia|]. constructor; [congruence..|].
  apply (sits_forest_stays lo hi d d' ts IH); [done|lia..].
Qed.

Lemma sits_forest_agree lo hi d d' ts n :
  agree lo hi d d' → sits_forest d n ts → lo ≤ n → n + forest_size ts ≤ hi →
  sits_forest d' n ts.
Proof.
  intros Hag. apply sits_forest_stays, Forall_forall. intros t _. by apply sits_agree.
Qed.

(** Growth under [parent] leaves the nodes after [parent] as they are,
    and so does a change of the payloads of other nodes. *)
Lemma extends_agree parent d d' : extends parent d d' → agree (S parent) (next_id d) d d'.
Proof.
  intros Hext j Hj. by rewrite (ext_content _ _ _ Hext), (ext_children _ _ _ Hext) by lia.
Qed.

Lemma same_shape_agree lo hi d d' :
  same_shape d d' → (∀ j, lo ≤ j → content_of d' j = content_of d j) → agree lo hi d d'.
Proof. intros Hs Hc j Hj. split; [apply Hc; lia|symmetry; apply Hs]. Qed.

(** What [build_tree] builds is the tree, at the next identifier. *)
Definition build_tree_sits (t : tree) : Prop :=
  ∀ parent d, dom_wf d → is_Some (nodes d !! parent) →
  sits (build_tree parent t d) (next_id d) t.

Lemma build_forest_sits ts :
  Forall build_tree_sits ts →
  ∀ parent d, dom_wf d → is_Some (nodes d !! parent) →
  sits_forest (build_forest parent ts d) (next_id d) ts.
Proof.
  induction 1 as [|t ts Ht _ IH]; intros parent d Hwf Hp; [constructor|].
  destruct (build_tree_spec t parent d Hwf Hp) as (Hwf1 & Hext1 & Hn1 & _).
  assert (is_Some (nodes (build_tree parent t d) !! parent)) as Hp1 by by apply Hext1.
  destruct (build_forest_spec ts) with (parent := parent) (d := build_tree parent t d)
    as (_ & Hext2 & _); [apply Forall_forall; intros; apply build_tree_spec|done..|].
  rewrite build_forest_cons. apply sits_forest_cons. split.
  - eapply sits_agree; [by apply extends_agree|by apply Ht|by apply wf_fresh|lia].
  - rewrite <- Hn1. by apply IH.
Qed.

Lemma build_tree_sits_all t : build_tree_sits t.
Proof.
  induction t as [c ts IH] using tree_ind'. intros parent d Hwf Hp.
  destruct (alloc_append_spec c parent d Hwf Hp) as (Hwf2 & _ & Hn2 & Hi2 & _ & Hc2).
  destruct (build_forest_spec ts) with (parent := next_id d)
    (d := appendChild parent (next_id d) (alloc c d).2)
    as (_ & Hext3 & _ & Hc3); [apply Forall_forall; intros; apply build_tree_spec|done..|].
  pose proof (build_forest_sits ts IH (next_id d) _ Hwf2 Hi2) as Hts.
  rewrite build_tree_node. rewrite Hn2 in *. constructor; [|by rewrite Hc3, Hc2|done].
  rewrite (ext_content _ _ _ Hext3) by lia.
  by rewrite content_of_appendChild, content_of_alloc_new.
Qed.

(** A tree that sits in the store is read back. *)
Definition sits_read (d : dom) (t : tree) : Prop :=
  ∀ i fuel, sits d i t → tree_size t ≤ fuel → read_tree fuel d i = t.

Lemma read_sits_forest d ts :
  Forall (sits_read d) ts →
  ∀ n fuel, sits_forest d n ts → forest_size ts ≤ fuel →
  read_tree fuel d <$> roots_from n ts = ts.
Proof.
  induction 1 as [|t ts Ht _ IH]; intros n fuel; [done|].
  rewrite sits_forest_cons, forest_size_cons. intros [H1 H2] Hn. simpl.
  f_equal; [apply Ht; [done|lia]|apply IH; [done|lia]].
Qed.

Lemma read_sits d t : sits_read d t.
Proof.
  induction t as [c ts IH] using tree_ind'. intros i fuel Hs Hf.
  inversion Hs as [? ? ? Hc Hch Hts]; subst. rewrite tree_size_node in Hf.
  destruct fuel as [|fuel]; [lia|]. simpl.
  unfold content_of, children_of in *. destruct (nodes d !! i) as [n|]; [|done].
  simpl in Hc, Hch. injection Hc as ->. rewrite Hch. f_equal.
  apply (read_sits_forest d ts IH); [done|lia].
Qed.

(** The children of a node are read back as the fragment that sits
    there. *)
Lemma read_children_sits d parent n ts :
  children_of d parent = roots_from n ts → sits_forest d n ts →
  forest_size ts ≤ next_id d → read_children d parent = ts.
Proof.
  intros Hc Hs Hn. unfold read_children. rewrite Hc. apply read_sits_forest; [|done..].
  apply Forall_forall. intros t _. apply read_sits.
Qed.

(** The children an assignment to [innerHTML] builds are the fragment. *)
Lemma replace_children_sits parent ts d :
  dom_wf d → is_Some (nodes d !! parent) →
  sits_forest (replace_children parent ts d) (next_id d) ts.
Proof.
  intros Hwf Hp. rewrite <- (next_id_clear parent). apply build_forest_sits.
  - apply Forall_forall. intros t _. apply build_tree_sits_all.
  - by apply clear_children_wf.
  - by apply nodes_clear.
Qed.

(** They are read back as the fragment, also after the payloads of
    other nodes have changed. *)
Lemma read_children_built parent ts d d' :
  dom_wf d → is_Some (nodes d !! parent) →
  same_shape (replace_children parent ts d) d' →
  (∀ j, next_id d ≤ j → content_of d' j = content_of (replace_children parent ts d) j) →
  read_children d' parent = ts.
Proof.
  intros Hwf Hp Hs Hc.
  destruct (replace_children_spec parent ts d Hwf Hp) as (_ & _ & Hn & Hch).
  apply (read_children_sits _ _ (next_id d)).
  - by rewrite <- (ss_children _ _ Hs).
  - apply (sits_forest_agree (next_id d) (next_id d + forest_size ts)
             (replace_children parent ts d)); [|by apply replace_children_sits|lia..].
    by apply same_shape_agree.
  - rewrite <- (ss_next _ _ Hs). lia.
Qed.

(** A fragment followed by another: the identifiers of the second
    follow those of the first. *)
Lemma forest_size_app ts us : forest_size (ts ++ us) = forest_size ts + forest_size us.
Proof.
  induction ts as [|t ts IH]; [done|]. simpl. rewrite !forest_size_cons, IH. lia.
Qed.

Lemma roots_from_app n ts us :
  roots_from n (ts ++ us) = roots_from n ts ++ roots_from (n + forest_size ts) us.
Proof.
  revert n. induction ts as [|t ts IH]; intros n; simpl.
  - by rewrite Nat.add_0_r.
  - by rewrite IH, forest_size_cons, Nat.add_assoc.
Qed.

Lemma sits_forest_app d n ts us :
  sits_forest d n ts → sits_forest d (n + forest_size ts) us → sits_forest d n (ts ++ us).
Proof.
  unfold sits_forest. rewrite roots_from_app. apply Forall2_app.
Qed.

Lemma sits_leaf d i c :
  content_of d i = Some c → children_of d i = [] → sits d i (TNode c []).
Proof. intros Hc Hch. by constructor; [..|constructor]. Qed.

(** A node without children that is appended to the children an
    assignment has built is read back after the fragment. *)
Lemma read_children_appended parent ts c d d' :
  dom_wf d → is_Some (nodes d !! parent) →
  let d0 := replace_children parent ts d in
  extends parent d0 d' → next_id d0 < next_id d' →
  children_of d' parent = children_of d0 parent ++ [next_id d0] →
  content_of d' (next_id d0) = Some c → children_of d' (next_id d0) = [] →
  read_children d' parent = ts ++ [TNode c []].
Proof.
  intros Hwf Hp d0 Hext Hlt Hch Hc Hleaf. subst d0.
  destruct (replace_children_spec parent ts d Hwf Hp) as (_ & _ & Hn & Hch0).
  pose proof (wf_fresh _ Hwf _ Hp) as Hfresh. rewrite Hn in *.
  apply (read_children_sits _ _ (next_id d)).
  - by rewrite Hch, Hch0, roots_from_app.
  - apply sits_forest_app.
    + apply (sits_forest_agree (S parent) (next_id d + forest_size ts)
               (replace_children parent ts d));
        [rewrite <- Hn; by apply extends_agree|by apply replace_children_sits|lia..].
    + apply sits_forest_cons. split; [by apply sits_leaf|constructor].
  - rewrite forest_size_app, forest_size_cons, tree_size_node.
    change (forest_size []) with 0. lia.
Qed.

(** C16: the nodes an assignment to [innerHTML] builds are the fragment.
    On a well-formed document that has the node, after the children of
    the node have been replaced by a fragment, reading the children
    back from the store gives the trees of the fragment, with their
    payloads and their children in order, and the markup of the node is
    the markup of the fragment. *)
Theorem read_children_replace (parent : nat) (ts : list tree) (d : dom) :
  dom_wf d → is_Some (nodes d !! parent) →
  read_children (replace_children parent ts d) parent = ts ∧
  serialize_children (replace_children parent ts d) parent = markup ts.
Proof.
  intros Hwf Hp. unfold serialize_children.
  by rewrite (read_children_built parent ts d (replace_children parent ts d)).
Qed.

(** ** Examples *)

(** A marker with a class around text with an angle bracket and a
    second text node: the markup has the entity, and is read back with
    one text node. *)
Definition marked_forest : list tree :=
  [TNode (PElement (element_of (chars "div") "user-cursor"))
     [TNode (PText "a<b") []; TNode (PText "&c") []]].

Example markup_marked :
  markup marked_forest
  = ("<div class=" +:+ text [c_quot] +:+ "user-cursor" +:+ text [c_quot]
       +:+ ">a&lt;b&amp;c</div>")%string.
Proof. by vm_compute. Qed.

Example parse_marked :
  parse_markup (markup marked_forest)
  = [TNode (PElement (element_of (chars "div") "user-cursor")) [TNode (PText "a<b&c") []]].
Proof. by vm_compute. Qed.

(** A string that is no markup of the language *)
Example parse_unclosed : parse_markup "<p>hi" = [].
Proof. by vm_compute. Qed.

Lemma read_children_replace_witness :
  read_children (replace_children 0 marked_forest editor_dom) 0 = marked_forest ∧
  serialize_children (replace_children 0 marked_forest editor_dom) 0 = markup marked_forest.
Proof. apply read_children_replace; [apply editor_dom_wf|apply editor_dom_node]. Defined.
