(* ===== verification/Position.v ===== *)
(** * The position codec

    A cursor position travels between clients as a path: the index of each
    node among its parent's children, from the editor down to the node that
    holds the cursor, and an offset inside that node.

    [getNodePath] (editor.js 131-139) climbs the [parentNode] pointers from
    a node to the editor and collects the indices; [getNodeFromPath]
    (142-153) descends from the editor along a path, inside a [try] that
    turns any exception into [null]; [getCursorPosition] (119-128) applies
    the first to the start of the selection.

    The abstract specification of a path is [resolve], a plain descent
    through the child lists.  The theorems show that the two functions of
    the code implement it, that they are inverse to each other on a
    well-formed document, that the climb terminates, and what happens on
    the error paths. *)

From stdpp Require Import base option list numbers strings gmap.
From S2P Require Import Prelude Dom.

Local Open Scope js_scope.

(** ** Data *)

(** The value of a variable that holds a node, [undefined] or [null]. *)
Inductive js_node : Set :=
| JNode (i : nat)
| JUndefined
| JNull.

#[export] Instance js_node_eq_dec : EqDecision js_node.
Proof. solve_decision. Defined.

(** [{ path, offset }] *)
Record position : Set := {
  path : list Z;
  offset : Z;
}.

#[export] Instance position_eq_dec : EqDecision position.
Proof. solve_decision. Defined.

(** The first range of the selection: [range.startContainer] and
    [range.startOffset]. *)
Record range : Set := {
  startContainer : nat;
  startOffset : Z;
}.

(** ** [getNodePath] *)

(** The loop [while (node && node !== editor)].  Reading [childNodes] of a
    [null] parent throws a [TypeError].  [None] is the model running out
    of fuel, which no run of the code corresponds to. *)
Fixpoint getNodePath_fuel (fuel : nat) (d : dom) (editor node : nat)
    (path : list Z) : option (outcome (list Z)) :=
  if decide (node = editor) then Some (Ok path)
  else
    match fuel with
    | 0 => None
    | S fuel' =>
        match parent_of d node with
        | None => Some (Throw TypeError)
        | Some parent =>
            let index := indexOf (children_of d parent) node in
            getNodePath_fuel fuel' d editor parent (index :: path)
        end
    end.

Definition getNodePath (d : dom) (editor node : nat) : option (outcome (list Z)) :=
  getNodePath_fuel (size (nodes d)) d editor node [].

(** ** [getNodeFromPath] *)

(** [node.childNodes[index]] *)
Definition child_at (d : dom) (node : nat) (index : Z) : js_node :=
  match (children_of d node).[index] with
  | Some c => JNode c
  | None => JUndefined
  end.

(** The loop [for (const index of path) node = node.childNodes[index]]:
    reading [childNodes] of [undefined] throws. *)
Fixpoint descend (d : dom) (node : js_node) (path : list Z) : outcome js_node :=
  match path with
  | [] => Ok node
  | index :: path' =>
      match node with
      | JNode n => descend d (child_at d n index) path'
      | JUndefined | JNull => Throw TypeError
      end
  end.

Definition getNodeFromPath (d : dom) (editor : nat) (path : list Z) : js_node :=
  try_catch (descend d (JNode editor) path) (λ _, JNull).

(** ** [getCursorPosition] *)

(** [selection] is [None] when [selection.rangeCount] is zero. *)
Definition getCursorPosition (d : dom) (editor : nat) (selection : option range)
    : option (outcome (option position)) :=
  match selection with
  | None => Some (Ok None)
  | Some r =>
      p ← getNodePath d editor (startContainer r);
      Some (path ← p; Ok (Some {| path := path; offset := startOffset r |}))
  end.

(** ** The specification of paths *)

(** The node a path leads to from [node], if every index on the way is
    the index of a child. *)
Fixpoint resolve (d : dom) (node : nat) (path : list Z) : option nat :=
  match path with
  | [] => Some node
  | index :: path' => c ← (children_of d node).[index]; resolve d c path'
  end.

(** A parent chain: each node of the list is the parent of the one before
    it. *)
Fixpoint is_chain (d : dom) (l : list nat) : Prop :=
  match l with
  | i :: (j :: _) as l' => parent_of d i = Some j ∧ is_chain d l'
  | _ => True
  end.

(** ** [resolve] *)

Section resolve.
Context (d : dom).
Implicit Types (n m e : nat) (path pre : list Z).

Lemma resolve_app n pre path :
  resolve d n (pre ++ path) = m ← resolve d n pre; resolve d m path.
Proof.
  revert n. induction pre as [|i pre IH]; intros n; simpl; [done|].
  destruct ((children_of d n).[i]); simpl; auto.
Qed.

Lemma resolve_snoc n pre i m :
  resolve d n (pre ++ [i]) = Some m ↔
  ∃ p, resolve d n pre = Some p ∧ (children_of d p).[i] = Some m.
Proof.
  rewrite resolve_app. destruct (resolve d n pre) as [p|]; simpl.
  - destruct ((children_of d p).[i]) as [c|] eqn:Hc; simpl; split.
    + intros ?. simplify_eq. eauto.
    + intros (p' & Hp & Hm). by simplify_eq.
    + done.
    + intros (p' & Hp & Hm). by simplify_eq.
  - split; [done|]. by intros (? & ? & _).
Qed.

Lemma resolve_nonneg n path m :
  resolve d n path = Some m → Forall (λ i, 0 ≤ i)%Z path.
Proof.
  revert n. induction path as [|i path IH]; intros n; simpl; [constructor|].
  destruct ((children_of d n).[i]) as [c|] eqn:Hc; simpl; [|done].
  apply lookupZ_Some in Hc as [? _]. intros ?%IH. by constructor.
Qed.

Lemma child_elem n i m : (children_of d n).[i] = Some m → m ∈ children_of d n.
Proof. intros [_ H]%lookupZ_Some. by eapply list_elem_of_lookup_2. Qed.

(** In a well-formed document a path leads to a descendant. *)
Lemma resolve_ancestor e path n :
  dom_wf d → resolve d e path = Some n → ancestor d e n.
Proof.
  intros Hwf. revert n. induction path as [|i pre IH] using rev_ind; intros n.
  - intros [= <-]. constructor.
  - intros (p & Hp & Hi%child_elem)%resolve_snoc.
    eapply ancestor_step; [by apply wf_child | by apply IH].
Qed.

Lemma ancestor_rank (rank : nat → nat) e n :
  (∀ i p, parent_of d i = Some p → rank p < rank i) →
  ancestor d e n → rank e ≤ rank n.
Proof. intros Hr. induction 1 as [|i p Hp _ IH]; [done|]. apply Hr in Hp. lia. Qed.

(** A proper descendant of a node differs from it. *)
Lemma ancestor_parent_ne e n p :
  dom_wf d → parent_of d n = Some p → ancestor d e p → n ≠ e.
Proof.
  intros [_ _ _ _ [rank Hr]] Hp Ha ->.
  pose proof (ancestor_rank rank _ _ Hr Ha). apply Hr in Hp. lia.
Qed.

(** Every descendant is reached by a path. *)
Lemma ancestor_resolve e n :
  dom_wf d → ancestor d e n → ∃ path, resolve d e path = Some n.
Proof.
  intros Hwf. induction 1 as [|i p Hp _ [pre Hpre]]; [by exists []|].
  exists (pre ++ [indexOf (children_of d p) i]). apply resolve_snoc.
  exists p. split; [done|]. apply indexOf_lookupZ. by apply wf_parent.
Qed.
End resolve.

(** ** [getNodeFromPath] implements [resolve] *)

Section descend.
Context (d : dom).
Implicit Types (n m e : nat) (path : list Z) (v : js_node).

Lemma descend_not_node v path m :
  (∀ n, v ≠ JNode n) → descend d v path ≠ Ok (JNode m).
Proof. destruct path, v; naive_solver. Qed.

Lemma descend_resolve n path m :
  descend d (JNode n) path = Ok (JNode m) ↔ resolve d n path = Some m.
Proof.
  revert n. induction path as [|i path IH]; intros n; simpl; [naive_solver|].
  unfold child_at. destruct ((children_of d n).[i]) as [c|]; simpl; [apply IH|].
  split; [|done]. intros H. by apply descend_not_node in H.
Qed.

Lemma getNodeFromPath_JNode e path n :
  getNodeFromPath d e path = JNode n ↔ resolve d e path = Some n.
Proof.
  rewrite <- descend_resolve. unfold getNodeFromPath.
  destruct (descend d (JNode e) path) as [v|err]; simpl; naive_solver.
Qed.

Lemma getNodeFromPath_falsy e path :
  resolve d e path = None ↔
  getNodeFromPath d e path = JUndefined ∨ getNodeFromPath d e path = JNull.
Proof.
  rewrite eq_None_not_Some. unfold is_Some.
  setoid_rewrite <- getNodeFromPath_JNode.
  destruct (getNodeFromPath d e path); naive_solver.
Qed.

(** [getNodeFromPath] implements [resolve].  It returns a node
    exactly when every index of the path is the index of a child, and
    then the node [resolve] specifies; on a path that does not resolve
    it returns [undefined] or [null], never a node, and does not throw:
    a stale path is answered by a falsy value. *)
Theorem getNodeFromPath_resolve (e : nat) (path : list Z) :
  match resolve d e path with
  | Some n => getNodeFromPath d e path = JNode n
  | None => getNodeFromPath d e path = JUndefined ∨ getNodeFromPath d e path = JNull
  end.
Proof.
  destruct (resolve d e path) as [n|] eqn:Hr.
  - by apply getNodeFromPath_JNode.
  - by apply getNodeFromPath_falsy.
Qed.

(** The last index out of range gives [undefined]; an earlier one makes
    the next access throw, which the [catch] turns into [null]. *)
Lemma getNodeFromPath_undefined e pre i p :
  resolve d e pre = Some p → (children_of d p).[i] = None →
  getNodeFromPath d e (pre ++ [i]) = JUndefined.
Proof.
  unfold getNodeFromPath. revert e.
  induction pre as [|j pre IH]; intros e; simpl.
  - intros [= ->] Hi. unfold child_at. by rewrite Hi.
  - unfold child_at. destruct ((children_of d e).[j]); simpl; [apply IH|done].
Qed.

Lemma getNodeFromPath_null e pre i p j rest :
  resolve d e pre = Some p → (children_of d p).[i] = None →
  getNodeFromPath d e (pre ++ i :: j :: rest) = JNull.
Proof.
  unfold getNodeFromPath. revert e.
  induction pre as [|k pre IH]; intros e; simpl.
  - intros [= ->] Hi. unfold child_at. by rewrite Hi.
  - unfold child_at. destruct ((children_of d e).[k]); simpl; [apply IH|done].
Qed.
End descend.

(** ** [getNodePath]: termination *)

Section chains.
Context (d : dom) (Hwf : dom_wf d).

Lemma is_chain_tail i l : is_chain d (i :: l) → is_chain d l.
Proof. destruct l; simpl; [done|]. by intros [_ ?]. Qed.

Lemma chain_rank (rank : nat → nat) i l :
  (∀ i p, parent_of d i = Some p → rank p < rank i) →
  is_chain d (i :: l) → Forall (λ x, rank x < rank i) l.
Proof.
  intros Hr. revert i. induction l as [|j l IH]; intros i; [constructor|].
  intros [Hp Hc]. apply Hr in Hp. constructor; [done|].
  eapply Forall_impl; [by apply IH|]. simpl. lia.
Qed.

Lemma chain_NoDup l : is_chain d l → NoDup l.
Proof using Hwf.
  destruct Hwf as [_ _ _ _ [rank Hr]].
  induction l as [|i l IH]; intros Hc; constructor.
  - intros Hi. pose proof (chain_rank rank i l Hr Hc) as Hlt.
    rewrite Forall_forall in Hlt. apply Hlt in Hi. lia.
  - by eapply IH, is_chain_tail.
Qed.

(** Every node of a chain that starts in the store is in the store. *)
Lemma chain_nodes i l :
  is_Some (nodes d !! i) → is_chain d (i :: l) →
  Forall (λ x, is_Some (nodes d !! x)) (i :: l).
Proof using Hwf.
  revert i. induction l as [|j l IH]; intros i Hi Hc; (constructor; [done|]).
  - constructor.
  - destruct Hc as [Hp Hc]. apply IH; [|done].
    eapply children_of_node, wf_parent; eauto.
Qed.

(** A chain is no longer than the store is large. *)
Lemma chain_length i l :
  is_Some (nodes d !! i) → is_chain d (i :: l) → length (i :: l) ≤ size (nodes d).
Proof using Hwf.
  intros Hi Hc. pose proof (chain_NoDup _ Hc) as Hnd.
  pose proof (chain_nodes _ _ Hi Hc) as Hin. rewrite Forall_forall in Hin.
  rewrite <- (size_dom (D := gset nat)), <- (size_list_to_set (C := gset nat)) by done.
  apply subseteq_size. intros x Hx%elem_of_list_to_set. by apply elem_of_dom, Hin.
Qed.

(** Running out of fuel leaves a chain as long as the fuel. *)
Lemma getNodePath_fuel_None fuel e n acc :
  getNodePath_fuel fuel d e n acc = None →
  ∃ l, length l = fuel ∧ is_chain d (n :: l).
Proof.
  revert n acc. induction fuel as [|fuel IH]; intros n acc; simpl;
    case_decide; try done.
  - intros _. by exists [].
  - destruct (parent_of d n) as [p|] eqn:Hp; [|done].
    intros (l & Hl & Hc)%IH. exists (p :: l). simpl. auto.
Qed.

(** More fuel does not change a result. *)
Lemma getNodePath_fuel_mono fuel fuel' e n acc r :
  getNodePath_fuel fuel d e n acc = Some r → fuel ≤ fuel' →
  getNodePath_fuel fuel' d e n acc = Some r.
Proof.
  revert fuel' n acc. induction fuel as [|fuel IH]; intros fuel' n acc; simpl.
  - case_decide; [|done]. intros [= <-] _. destruct fuel'; simpl; by rewrite decide_True.
  - intros H Hle. destruct fuel' as [|fuel']; [lia|]. simpl.
    case_decide; [done|]. destruct (parent_of d n); [|done]. apply IH; [done|lia].
Qed.

(** In a well-formed store the number of nodes is fuel enough. *)
Lemma getNodePath_total e n : is_Some (nodes d !! n) → is_Some (getNodePath d e n).
Proof using Hwf.
  intros Hn. apply not_eq_None_Some. intros (l & Hl & Hc)%getNodePath_fuel_None.
  pose proof (chain_length _ _ Hn Hc) as Hlen. simpl in Hlen. lia.
Qed.

(** C20: the climb of [getNodePath] terminates: in a well-formed store
    the number of nodes is enough fuel for every node of the store, so
    the function returns a path or throws, and more fuel gives the same
    result. *)
Theorem getNodePath_fuel_enough (e n : nat) (fuel : nat) :
  is_Some (nodes d !! n) → size (nodes d) ≤ fuel →
  is_Some (getNodePath d e n) ∧ getNodePath_fuel fuel d e n [] = getNodePath d e n.
Proof using Hwf.
  intros Hn Hfuel. destruct (getNodePath_total e n Hn) as [r Hr].
  rewrite Hr. split; [done|]. by eapply getNodePath_fuel_mono.
Qed.

(** The only exception of the climb is the [TypeError] of reading
    [childNodes] of [null]. *)
Lemma getNodePath_fuel_Throw fuel e n acc err :
  getNodePath_fuel fuel d e n acc = Some (Throw err) → err = TypeError.
Proof.
  revert n acc. induction fuel as [|fuel IH]; intros n acc; simpl;
    case_decide; try done.
  destruct (parent_of d n); [apply IH | by intros [= <-]].
Qed.
End chains.

(** ** The round trips *)

Section roundtrip.
Context (d : dom) (Hwf : dom_wf d).
Implicit Types (e n : nat) (acc pre : list Z).

(** What the climb has collected is the path from the editor to the node
    it started from, in front of what it was given. *)
Lemma getNodePath_fuel_Ok fuel e n acc p :
  getNodePath_fuel fuel d e n acc = Some (Ok p) →
  ∃ pre, p = pre ++ acc ∧ resolve d e pre = Some n.
Proof using Hwf.
  revert n acc. induction fuel as [|fuel IH]; intros n acc; simpl;
    case_decide; subst; try done; try (intros [= <-]; by exists []).
  destruct (parent_of d n) as [q|] eqn:Hq; [|done].
  intros (pre & -> & Hpre)%IH. exists (pre ++ [indexOf (children_of d q) n]).
  split; [by rewrite <- app_assoc|]. apply resolve_snoc. exists q.
  split; [done|]. apply indexOf_lookupZ. by apply wf_parent.
Qed.

(** From the node a path leads to, the climb collects that path, with
    one unit of fuel per index. *)
Lemma getNodePath_fuel_resolve e pre n acc :
  resolve d e pre = Some n →
  getNodePath_fuel (length pre) d e n acc = Some (Ok (pre ++ acc)).
Proof using Hwf.
  revert n acc. induction pre as [|i pre IH] using rev_ind; intros n acc.
  - intros [= <-]. simpl. by rewrite decide_True.
  - intros (q & Hq & Hi)%resolve_snoc.
    pose proof (child_elem _ _ _ _ Hi) as Hin.
    pose proof (wf_child _ Hwf _ _ Hin) as Hpar.
    rewrite length_app, Nat.add_1_r. simpl.
    rewrite decide_False
      by (eapply ancestor_parent_ne; eauto using resolve_ancestor).
    rewrite Hpar, (indexOf_of_lookupZ _ _ _ (wf_nodup _ Hwf q) Hi).
    rewrite <- app_assoc. by apply IH.
Qed.

(** The path the climb returns resolves to the node, and the path that
    resolves to a node is the one the climb returns. *)
Lemma getNodePath_sound e n p :
  getNodePath d e n = Some (Ok p) → resolve d e p = Some n.
Proof using Hwf. intros (pre & -> & Hpre)%getNodePath_fuel_Ok. by rewrite app_nil_r. Qed.

Lemma getNodePath_complete e n p :
  is_Some (nodes d !! n) → resolve d e p = Some n → getNodePath d e n = Some (Ok p).
Proof using Hwf.
  intros Hn Hp. destruct (getNodePath_total d Hwf e n Hn) as [r Hr].
  pose proof (getNodePath_fuel_resolve e p n [] Hp) as Hf.
  rewrite app_nil_r in Hf. unfold getNodePath in *.
  destruct (decide (length p ≤ size (nodes d))).
  - by eapply getNodePath_fuel_mono.
  - rewrite Hr. f_equal.
    eapply (getNodePath_fuel_mono _ _ (length p)) in Hr; [|lia]. congruence.
Qed.

(** C7: capture then resolve.  On a well-formed document the path
    [getNodePath] returns for a node leads [getNodeFromPath] back to that
    node. *)
Theorem getNodePath_getNodeFromPath (e n : nat) (p : list Z) :
  getNodePath d e n = Some (Ok p) → getNodeFromPath d e p = JNode n.
Proof using Hwf. intros Hp%getNodePath_sound. by apply getNodeFromPath_JNode. Qed.

(** C12: resolve then capture.  On a well-formed document, if
    [getNodeFromPath] returns a node for a path then [getNodePath]
    returns that path for the node: paths to a node are unique. *)
Theorem getNodeFromPath_getNodePath (e n : nat) (p : list Z) :
  is_Some (nodes d !! n) →
  getNodeFromPath d e p = JNode n → getNodePath d e n = Some (Ok p).
Proof using Hwf. intros Hn Hp%getNodeFromPath_JNode. by apply getNodePath_complete. Qed.

(** The path of a node has no negative index. *)
Lemma getNodePath_nonneg e n p :
  getNodePath d e n = Some (Ok p) → Forall (λ i, 0 ≤ i)%Z p.
Proof using Hwf.
  intros (pre & -> & Hpre)%getNodePath_fuel_Ok.
  rewrite app_nil_r. by eapply resolve_nonneg.
Qed.

(** The children of a node are distinct nodes of the store: there are
    no more of them than identifiers given out, which bounds the
    indices of a path. *)
Lemma children_of_length p : (length (children_of d p) ≤ next_id d)%nat.
Proof using Hwf.
  rewrite <- (length_seq (next_id d) 0%nat). apply submseteq_length, NoDup_submseteq.
  - apply (wf_nodup _ Hwf).
  - intros c Hc%(wf_child _ Hwf). apply elem_of_seq. split; [lia|]. simpl.
    apply (wf_fresh _ Hwf). unfold parent_of in Hc. by destruct (nodes d !! c).
Qed.

Lemma resolve_small e p n :
  resolve d e p = Some n → Forall (λ i, 0 ≤ i < Z.of_nat (next_id d))%Z p.
Proof using Hwf.
  revert e. induction p as [|i p IH]; intros e; simpl; [constructor|].
  destruct ((children_of d e).[i]) as [c|] eqn:Hc; simpl; [|done].
  apply lookupZ_Some in Hc as [? Hc%lookup_lt_Some]. intros ?%IH.
  pose proof (children_of_length e). constructor; [lia|done].
Qed.

Lemma getNodePath_small e n p :
  getNodePath d e n = Some (Ok p) → Forall (λ i, 0 ≤ i < Z.of_nat (next_id d))%Z p.
Proof using Hwf.
  intros (pre & -> & Hpre)%getNodePath_fuel_Ok. rewrite app_nil_r. by eapply resolve_small.
Qed.

(** A node outside the editor makes the climb reach a node without
    parent. *)
Lemma getNodePath_not_ancestor e n :
  is_Some (nodes d !! n) → ¬ ancestor d e n →
  getNodePath d e n = Some (Throw TypeError).
Proof using Hwf.
  intros Hn Hout. destruct (getNodePath_total d Hwf e n Hn) as [[p|err] Hr].
  - apply getNodePath_fuel_Ok in Hr as (pre & _ & Hpre).
    by apply resolve_ancestor in Hpre.
  - by rewrite Hr, (getNodePath_fuel_Throw _ _ _ _ _ _ Hr).
Qed.

(** The capture succeeds on the editor and its descendants. *)
Lemma getNodePath_inside e n :
  is_Some (nodes d !! n) → ancestor d e n → ∃ p, getNodePath d e n = Some (Ok p).
Proof using Hwf.
  intros Hn [p Hp]%ancestor_resolve; [|done]. exists p.
  by apply getNodePath_complete.
Qed.

(** [getNodePath] throws exactly outside the editor.  On a
    well-formed document it throws a [TypeError] for a node of the store
    if and only if the node is not the editor or one of its descendants:
    the climb reaches a node without parent. *)
Theorem getNodePath_outside (e n : nat) :
  is_Some (nodes d !! n) →
  getNodePath d e n = Some (Throw TypeError) ↔ ¬ ancestor d e n.
Proof using Hwf.
  intros Hn. split; [|by apply getNodePath_not_ancestor].
  intros Hthrow [p Hp]%getNodePath_inside; [|done]. congruence.
Qed.
End roundtrip.

(** ** Paths and changes of the store *)

(** Paths depend on the shape of the store only. *)
Section shape.
Context (d d' : dom) (Hs : same_shape d d').

Lemma resolve_shape e p : resolve d e p = resolve d' e p.
Proof using Hs.
  revert e. induction p as [|i p IH]; intros e; simpl; [done|].
  rewrite (ss_children _ _ Hs). destruct ((children_of d' e).[i]); simpl; auto.
Qed.

Lemma descend_shape v p : descend d v p = descend d' v p.
Proof using Hs.
  revert v. induction p as [|i p IH]; intros v; simpl; [done|].
  destruct v; [|done..]. unfold child_at. by rewrite (ss_children _ _ Hs), IH.
Qed.

Lemma getNodeFromPath_shape e p : getNodeFromPath d e p = getNodeFromPath d' e p.
Proof using Hs. unfold getNodeFromPath. by rewrite descend_shape. Qed.
End shape.

(** A store that extends another at the end of the children of [parent]
    resolves the paths the other resolves, to the same nodes. *)
Lemma resolve_extends parent d d' l e p n :
  dom_wf d → extends parent d d' →
  children_of d' parent = children_of d parent ++ l →
  is_Some (nodes d !! e) →
  resolve d e p = Some n → resolve d' e p = Some n.
Proof.
  intros Hwf Hext Hc. revert e. induction p as [|i p IH]; intros e He; simpl; [done|].
  destruct ((children_of d e).[i]) as [c|] eqn:Hi; simpl; [|done].
  assert ((children_of d' e).[i] = Some c) as ->.
  { destruct (decide (e = parent)) as [->|Hne].
    - rewrite Hc. by apply lookupZ_app_Some.
    - rewrite (ext_children _ _ _ Hext); [done| |done]. by apply wf_fresh. }
  simpl. apply IH. eapply parent_of_node, wf_child, child_elem; eauto.
Qed.

Lemma getNodeFromPath_extends parent d d' l e p n :
  dom_wf d → extends parent d d' →
  children_of d' parent = children_of d parent ++ l →
  is_Some (nodes d !! e) →
  getNodeFromPath d e p = JNode n → getNodeFromPath d' e p = JNode n.
Proof. rewrite !getNodeFromPath_JNode. apply resolve_extends. Qed.

(** ** [getCursorPosition] *)

(** The position [getCursorPosition] captures on a well-formed
    document resolves to the node the selection starts in, and carries
    the selection's offset. *)
Theorem getCursorPosition_roundtrip (d : dom) (e : nat) (r : range) (pos : position) :
  dom_wf d → getCursorPosition d e (Some r) = Some (Ok (Some pos)) →
  getNodeFromPath d e (path pos) = JNode (startContainer r) ∧
  offset pos = startOffset r.
Proof.
  intros Hwf. unfold getCursorPosition.
  destruct (getNodePath d e (startContainer r)) as [[p|err]|] eqn:Hp; simpl; try done.
  intros [= <-]. simpl. split; [|done].
  by apply getNodeFromPath_JNode, getNodePath_sound.
Qed.

(** The capture returns or throws when the selection starts at a node of
    a well-formed store. *)
Lemma getCursorPosition_total d e sel :
  dom_wf d → (∀ r, sel = Some r → is_Some (nodes d !! startContainer r)) →
  is_Some (getCursorPosition d e sel).
Proof.
  intros Hwf Hsel. destruct sel as [r|]; simpl; [|done].
  destruct (getNodePath_total d Hwf e (startContainer r)) as [p ->]; by eauto.
Qed.

(** With no selection the position is [null]; a selection outside the
    editor makes the capture throw. *)
Lemma getCursorPosition_no_selection d e : getCursorPosition d e None = Some (Ok None).
Proof. done. Qed.

(** With a selection the position that is returned is an object. *)
Lemma getCursorPosition_selection d e r pos :
  getCursorPosition d e (Some r) = Some (Ok pos) → is_Some pos.
Proof.
  simpl. destruct (getNodePath d e (startContainer r)) as [[p|err]|]; [|done..].
  intros [= <-]. by eexists.
Qed.

Lemma getCursorPosition_outside d e r :
  dom_wf d → is_Some (nodes d !! startContainer r) → ¬ ancestor d e (startContainer r) →
  getCursorPosition d e (Some r) = Some (Throw TypeError).
Proof.
  intros Hwf Hn Hout. unfold getCursorPosition.
  by rewrite (getNodePath_not_ancestor d Hwf e _ Hn Hout).
Qed.

(** ** The sample document *)

Example getNodePath_hi : getNodePath hi_dom 0 2 = Some (Ok [0; 0]%Z).
Proof. by vm_compute. Qed.

Example getNodeFromPath_hi :
  getNodeFromPath hi_dom 0 [0; 0]%Z = JNode 2 ∧
  getNodeFromPath hi_dom 0 [0; 1]%Z = JUndefined ∧
  getNodeFromPath hi_dom 0 [1; 0]%Z = JNull ∧
  getNodeFromPath hi_dom 0 [-1]%Z = JUndefined.
Proof. by vm_compute. Qed.

Lemma hi_dom_node n : n < 3 → is_Some (nodes hi_dom !! n).
Proof.
  intros Hn. destruct n as [|[|[|n]]]; [by vm_compute; eauto..|lia].
Qed.

Lemma hi_dom_outside : ¬ ancestor hi_dom 1 0.
Proof. inversion 1 as [|i p Hp]. by vm_compute in Hp. Qed.

Lemma getNodePath_fuel_enough_witness :
  is_Some (getNodePath hi_dom 0 2) ∧
  getNodePath_fuel 10 hi_dom 0 2 [] = getNodePath hi_dom 0 2.
Proof.
  apply (getNodePath_fuel_enough hi_dom hi_dom_wf 0 2 10).
  - apply hi_dom_node. lia.
  - vm_compute. lia.
Defined.

Lemma getNodePath_getNodeFromPath_witness : getNodeFromPath hi_dom 0 [0; 0]%Z = JNode 2.
Proof. apply (getNodePath_getNodeFromPath hi_dom hi_dom_wf 0 2). by vm_compute. Defined.

Lemma getNodeFromPath_getNodePath_witness : getNodePath hi_dom 0 2 = Some (Ok [0; 0]%Z).
Proof.
  apply (getNodeFromPath_getNodePath hi_dom hi_dom_wf 0 2).
  - apply hi_dom_node. lia.
  - by vm_compute.
Defined.

Lemma getNodePath_outside_witness :
  getNodePath hi_dom 1 0 = Some (Throw TypeError) ↔ ¬ ancestor hi_dom 1 0.
Proof. apply (getNodePath_outside hi_dom hi_dom_wf 1 0), hi_dom_node. lia. Defined.

Lemma getCursorPosition_roundtrip_witness :
  getNodeFromPath hi_dom 0 [0; 0]%Z = JNode 2 ∧ 1%Z = 1%Z.
Proof.
  apply (getCursorPosition_roundtrip hi_dom 0
           {| startContainer := 2; startOffset := 1 |}
           {| path := [0; 0]%Z; offset := 1 |}).
  - apply hi_dom_wf.
  - by vm_compute.
Defined.

#[export] Hint Resolve getNodePath_sound getNodePath_complete resolve_ancestor : js.
