(* ===== verification/Timers.v ===== *)
(** * The browser's timers

    The client arms timers with [setTimeout] (editor.js 106, 282;
    scripts.js 48, 51, 187) and [setInterval] (editor.js 277) and cancels
    them with [clearTimeout] (editor.js 97, 281).  The browser keeps the
    table of pending timers and runs the callback of a timer once its time
    has come, the earliest first and, among timers due at the same time,
    the oldest first.

    The table is modelled as the list of pending timers in the order they
    were armed, each with its identifier, the time it is due, its period
    when it repeats, and the callback as a value of a type [A] that each
    client of this file chooses.  A timer that repeats is armed again
    when its callback has run, a period after that time (the timer
    initialisation steps of the HTML Standard): it fires once however
    late the browser runs it. *)

From stdpp Require Import base option list numbers sets strings.
From S2P Require Import Prelude.

Local Open Scope Z_scope.

(** ** Data *)

Record timer (A : Type) : Type := Timer {
  due : Z;
  period : option Z;
  action : A;
}.
Arguments Timer {A} due period action.
Arguments due {A} t.
Arguments period {A} t.
Arguments action {A} t.

Record timers (A : Type) : Type := Timers {
  pending : list (nat * timer A);
  next_timer : nat;
}.
Arguments Timers {A} pending next_timer.
Arguments pending {A} t.
Arguments next_timer {A} t.

(** No timer pending; the first identifier a browser gives out is 1. *)
Definition no_timers {A} : timers A := Timers [] 1.

Section timers.
Context {A : Type}.
Implicit Types (ts : timers A) (e : nat * timer A) (l : list (nat * timer A)).

(** ** Operations *)

(** [setTimeout(a, delay)] at time [now]: the identifier and the table. *)
Definition setTimeout (a : A) (delay now : Z) ts : nat * timers A :=
  (next_timer ts,
   Timers (pending ts ++ [(next_timer ts, Timer (now + delay) None a)])
          (S (next_timer ts))).

(** [setInterval(a, every)] at time [now]. *)
Definition setInterval (a : A) (every now : Z) ts : nat * timers A :=
  (next_timer ts,
   Timers (pending ts ++ [(next_timer ts, Timer (now + every) (Some every) a)])
          (S (next_timer ts))).

(** What both do to the table: the timer is pending under the next
    identifier. *)
Definition arm (t : timer A) ts : timers A :=
  Timers (pending ts ++ [(next_timer ts, t)]) (S (next_timer ts)).

(** [clearTimeout(id)]; [None] is [undefined], which cancels nothing. *)
Definition clearTimeout (id : option nat) ts : timers A :=
  match id with
  | None => ts
  | Some i => Timers (filter (λ e, e.1 ≠ i) (pending ts)) (next_timer ts)
  end.

(** The pending timer that is due first; the older one on a tie. *)
Fixpoint earliest_of l : option (nat * timer A) :=
  match l with
  | [] => None
  | e :: l' =>
      match earliest_of l' with
      | Some e' => if decide (due e'.2 < due e.2) then Some e' else Some e
      | None => Some e
      end
  end.

(** A timer that has fired at time [now] leaves the table, unless it
    repeats: then it is armed again under its identifier when its
    callback has run, and is due one period after that time. *)
Definition rearm (now : Z) e l : list (nat * timer A) :=
  match period e.2 with
  | None => filter (λ e', e'.1 ≠ e.1) l
  | Some every =>
      (λ e', if decide (e'.1 = e.1)
             then (e'.1, Timer (now + every) (period e'.2) (action e'.2))
             else e') <$> l
  end.

(** The timer the browser runs next at time [now], if one is due, and the
    table once it has fired. *)
Definition fire_next (now : Z) ts : option (nat * timer A * timers A) :=
  match earliest_of (pending ts) with
  | Some e =>
      if decide (due e.2 ≤ now)
      then Some (e.1, e.2, Timers (rearm now e (pending ts)) (next_timer ts))
      else None
  | None => None
  end.

(** The identifiers of the pending timers, and the invariant of the
    table: identifiers are distinct and below the next one. *)
Definition timer_ids ts : list nat := (pending ts).*1.

Record timers_wf ts : Prop := {
  twf_nodup : NoDup (timer_ids ts);
  twf_fresh : Forall (λ i, (i < next_timer ts)%nat) (timer_ids ts);
}.

(** The timers that repeat have a positive period. *)
Definition steady l : Prop :=
  ∀ e every, e ∈ l → period e.2 = Some every → 0 < every.

(** The number of timers that are due at time [now]. *)
Definition due_at (now : Z) l : nat := length (filter (λ e, due e.2 ≤ now) l).

(** ** [earliest_of] *)

Lemma earliest_of_None l : earliest_of l = None ↔ l = [].
Proof.
  destruct l as [|e l]; simpl; [done|]. split; [|done].
  destruct (earliest_of l); [case_decide|]; done.
Qed.

Lemma earliest_of_elem l e : earliest_of l = Some e → e ∈ l.
Proof.
  revert e. induction l as [|e0 l IH]; intros e; simpl; [done|].
  destruct (earliest_of l) as [e'|]; [case_decide|]; intros [= <-];
    set_solver.
Qed.

Lemma earliest_of_le l e e' :
  earliest_of l = Some e → e' ∈ l → due e.2 ≤ due e'.2.
Proof.
  revert e. induction l as [|e0 l IH]; intros e; simpl; [done|].
  intros He [->|Hin]%elem_of_cons.
  - destruct (earliest_of l) as [e1|]; [case_decide|]; simplify_eq; lia.
  - destruct (earliest_of l) as [e1|] eqn:H1.
    + specialize (IH e1 eq_refl Hin). case_decide; simplify_eq; lia.
    + apply earliest_of_None in H1. subst. by apply elem_of_nil in Hin.
Qed.

(** ** The invariant *)

Lemma no_timers_wf : timers_wf (@no_timers A).
Proof. split; unfold timer_ids; simpl; constructor. Qed.

Lemma timer_ids_arm ts t :
  timer_ids (Timers (pending ts ++ [(next_timer ts, t)]) (S (next_timer ts))) =
  timer_ids ts ++ [next_timer ts].
Proof. unfold timer_ids; simpl. by rewrite fmap_app. Qed.

Lemma arm_wf ts t :
  timers_wf ts →
  timers_wf (Timers (pending ts ++ [(next_timer ts, t)]) (S (next_timer ts))).
Proof.
  intros [Hnd Hf]. split; rewrite timer_ids_arm; simpl.
  - apply NoDup_app. split_and!; [done| |apply NoDup_singleton].
    intros i Hi ->%list_elem_of_singleton.
    rewrite Forall_forall in Hf. apply Hf in Hi. lia.
  - apply Forall_app. split; [|by repeat constructor].
    eapply Forall_impl; [done|]. simpl. lia.
Qed.

Lemma setTimeout_arm a delay now ts :
  (setTimeout a delay now ts).2 = arm (Timer (now + delay) None a) ts.
Proof. done. Qed.

Lemma setInterval_arm a every now ts :
  (setInterval a every now ts).2 = arm (Timer (now + every) (Some every) a) ts.
Proof. done. Qed.

Lemma pending_arm t ts e : e ∈ pending (arm t ts) ↔ e ∈ pending ts ∨ e = (next_timer ts, t).
Proof. unfold arm; simpl. by rewrite elem_of_app, list_elem_of_singleton. Qed.

Lemma setTimeout_wf a delay now ts : timers_wf ts → timers_wf (setTimeout a delay now ts).2.
Proof. apply arm_wf. Qed.

Lemma setInterval_wf a every now ts : timers_wf ts → timers_wf (setInterval a every now ts).2.
Proof. apply arm_wf. Qed.

Lemma timer_ids_filter (P : nat → Prop) `{∀ i, Decision (P i)} l :
  (filter (λ e, P e.1) l).*1 = filter P l.*1.
Proof.
  induction l as [|e l IH]; [done|].
  rewrite fmap_cons, !filter_cons. destruct (decide (P e.1)); csimpl; by rewrite IH.
Qed.

Lemma timer_ids_filter_ne (i : nat) l :
  (filter (λ e, e.1 ≠ i) l).*1 = filter (λ j, j ≠ i) l.*1.
Proof. exact (timer_ids_filter (λ j, j ≠ i) l). Qed.

Lemma timer_ids_clear i ts :
  timer_ids (clearTimeout (Some i) ts) = filter (λ j, j ≠ i) (timer_ids ts).
Proof. apply timer_ids_filter_ne. Qed.

Lemma clearTimeout_wf id ts : timers_wf ts → timers_wf (clearTimeout id ts).
Proof.
  intros [Hnd Hf]. destruct id as [i|]; [|done].
  split; rewrite timer_ids_clear.
  - by apply NoDup_filter.
  - rewrite Forall_forall in *. intros j [_ Hj]%list_elem_of_filter. auto.
Qed.

(** A cancelled timer is no longer pending, and the others still are. *)
Lemma clearTimeout_ids i ts j :
  j ∈ timer_ids (clearTimeout (Some i) ts) ↔ j ≠ i ∧ j ∈ timer_ids ts.
Proof. by rewrite timer_ids_clear, list_elem_of_filter. Qed.

Lemma clearTimeout_pending i ts e :
  e ∈ pending (clearTimeout (Some i) ts) ↔ e.1 ≠ i ∧ e ∈ pending ts.
Proof. simpl. by rewrite list_elem_of_filter. Qed.

Lemma next_timer_clearTimeout id ts : next_timer (clearTimeout id ts) = next_timer ts.
Proof. by destruct id. Qed.

Lemma clearTimeout_elem id ts e :
  e ∈ pending (clearTimeout id ts) ↔ e ∈ pending ts ∧ id ≠ Some e.1.
Proof.
  destruct id as [i|]; [|naive_solver].
  rewrite clearTimeout_pending. naive_solver.
Qed.

Lemma timer_ids_rearm now e l : (rearm now e l).*1 ⊆ l.*1.
Proof.
  unfold rearm. destruct (period e.2) as [every|].
  - intros i. rewrite <- list_fmap_compose.
    rewrite !list_elem_of_fmap. intros (e' & -> & He'). exists e'.
    split; [|done]. simpl. by case_decide.
  - rewrite timer_ids_filter_ne. intros i.
    rewrite list_elem_of_filter. naive_solver.
Qed.

(** ** Membership in the table *)

Lemma pending_setTimeout a delay now ts e :
  e ∈ pending (setTimeout a delay now ts).2 ↔
  e ∈ pending ts ∨ e = (next_timer ts, Timer (now + delay) None a).
Proof. simpl. rewrite elem_of_app, list_elem_of_singleton. done. Qed.

Lemma pending_fresh ts e : timers_wf ts → e ∈ pending ts → (e.1 < next_timer ts)%nat.
Proof.
  intros [_ Hf] He. rewrite Forall_forall in Hf. apply Hf.
  unfold timer_ids. apply list_elem_of_fmap. eauto.
Qed.

(** A pending timer is determined by its identifier. *)
Lemma NoDup_fst_inj l e e' : NoDup l.*1 → e ∈ l → e' ∈ l → e.1 = e'.1 → e = e'.
Proof.
  induction l as [|e0 l IH]; [by intros _ ?%elem_of_nil|].
  rewrite fmap_cons, NoDup_cons. intros [Hnin Hnd].
  intros [->|He]%elem_of_cons [->|He']%elem_of_cons Heq; auto.
  - destruct Hnin. rewrite Heq. apply list_elem_of_fmap. eauto.
  - destruct Hnin. rewrite <- Heq. apply list_elem_of_fmap. eauto.
Qed.

Lemma pending_inj ts e e' :
  timers_wf ts → e ∈ pending ts → e' ∈ pending ts → e.1 = e'.1 → e = e'.
Proof. intros [Hnd _]. by apply NoDup_fst_inj. Qed.

(** ** [rearm] *)

Lemma rearm_other now e l e' : e' ∈ l → e'.1 ≠ e.1 → e' ∈ rearm now e l.
Proof.
  intros He' Hne. unfold rearm. destruct (period e.2) as [every|].
  - apply list_elem_of_fmap. exists e'. by rewrite decide_False.
  - by apply list_elem_of_filter.
Qed.

(** Firing changes neither the identifier nor the callback of a timer
    that stays in the table. *)
Lemma rearm_elem now e l e' :
  e' ∈ rearm now e l →
  ∃ e0, e0 ∈ l ∧ e0.1 = e'.1 ∧ action e0.2 = action e'.2 ∧ period e0.2 = period e'.2.
Proof.
  unfold rearm. destruct (period e.2) as [every|].
  - intros (e0 & -> & He0)%list_elem_of_fmap. exists e0. by case_decide.
  - intros [_ ?]%list_elem_of_filter. eauto.
Qed.

(** A timer of the table after the firing was there before, or it is
    the timer that fired, due after [now]. *)
Lemma rearm_due now e l e' :
  steady l → e ∈ l → e' ∈ rearm now e l → e' ∈ l ∨ now < due e'.2.
Proof.
  intros Hst He. unfold rearm. destruct (period e.2) as [every|] eqn:Hp.
  - intros (e0 & -> & He0)%list_elem_of_fmap. case_decide; [|by left].
    right. simpl. specialize (Hst e every He Hp). lia.
  - intros [_ ?]%list_elem_of_filter. by left.
Qed.

Lemma rearm_steady now e l : steady l → steady (rearm now e l).
Proof.
  intros Hst e' every (e0 & He0 & _ & _ & Hp)%rearm_elem Hp'.
  apply (Hst e0 every He0). congruence.
Qed.

(** The timer that fired is not due any more, and no other timer
    becomes due. *)
Lemma due_at_rearm_le now e l :
  (∀ every, period e.2 = Some every → 0 < every) →
  (due_at now (rearm now e l) ≤ due_at now l)%nat.
Proof.
  intros Hpos. unfold due_at, rearm. destruct (period e.2) as [every|].
  - specialize (Hpos every eq_refl).
    induction l as [|e0 l IH]; [done|]. rewrite fmap_cons, !filter_cons.
    repeat case_decide; simpl in *; lia.
  - induction l as [|e0 l IH]; [done|]. rewrite !filter_cons.
    repeat case_decide; rewrite ?filter_cons; repeat case_decide; simpl; lia.
Qed.

Lemma due_at_rearm_lt now e l :
  (∀ every, period e.2 = Some every → 0 < every) → e ∈ l → due e.2 ≤ now →
  (due_at now (rearm now e l) < due_at now l)%nat.
Proof.
  intros Hpos He Hd. induction l as [|e0 l IH]; [by apply elem_of_nil in He|].
  pose proof (due_at_rearm_le now e l Hpos) as Hle.
  apply elem_of_cons in He as [<-|He]; [clear IH|specialize (IH He)];
    unfold due_at, rearm in *; destruct (period e.2) as [every|];
    try specialize (Hpos every eq_refl);
    rewrite ?fmap_cons, !filter_cons; repeat case_decide;
    rewrite ?filter_cons; repeat case_decide; simpl in *; try done; lia.
Qed.

Lemma due_at_length now l : (due_at now l ≤ length l)%nat.
Proof. apply length_filter. Qed.

Lemma due_at_0 now l : due_at now l = 0%nat → ∀ e, e ∈ l → now < due e.2.
Proof.
  unfold due_at. intros Hnil%length_zero_iff_nil e He.
  destruct (decide (due e.2 ≤ now)) as [Hd|]; [|lia].
  assert (e ∈ filter (λ e, due e.2 ≤ now) l) as Hin by (by apply list_elem_of_filter).
  rewrite Hnil in Hin. by apply elem_of_nil in Hin.
Qed.

Lemma rearm_wf now e ts :
  timers_wf ts → timers_wf (Timers (rearm now e (pending ts)) (next_timer ts)).
Proof.
  intros [Hnd Hf]. unfold rearm. destruct (period e.2) as [every|].
  - assert (∀ l : list (nat * timer A),
      ((λ e', if decide (e'.1 = e.1)
              then (e'.1, Timer (now + every) (period e'.2) (action e'.2))
              else e') <$> l).*1 = l.*1) as Hids.
    { intros l. rewrite <- list_fmap_compose. apply list_fmap_ext.
      intros ? e' _. simpl. by case_decide. }
    split; unfold timer_ids; simpl; by rewrite Hids.
  - apply (clearTimeout_wf (Some e.1) ts). by split.
Qed.

(** ** [fire_next] *)

(** The timer that fires is pending and due, and no pending timer is due
    before it. *)
Lemma fire_next_Some now ts i t ts' :
  fire_next now ts = Some (i, t, ts') →
  (i, t) ∈ pending ts ∧ due t ≤ now ∧
  (∀ e, e ∈ pending ts → due t ≤ due e.2) ∧
  ts' = Timers (rearm now (i, t) (pending ts)) (next_timer ts).
Proof.
  unfold fire_next. destruct (earliest_of (pending ts)) as [[i' t']|] eqn:He; [|done].
  case_decide; [|done]. intros [= -> -> <-]. split_and!; try done.
  - by apply earliest_of_elem.
  - intros e He'. by apply (earliest_of_le _ _ _ He He').
Qed.

(** Nothing fires exactly when no pending timer is due. *)
Lemma fire_next_None now ts :
  fire_next now ts = None ↔ ∀ e, e ∈ pending ts → now < due e.2.
Proof.
  unfold fire_next. destruct (earliest_of (pending ts)) as [e0|] eqn:He.
  - case_decide as Hd; split; try done.
    + intros Hall. apply earliest_of_elem in He. apply Hall in He. lia.
    + intros _ e Hin. pose proof (earliest_of_le _ _ _ He Hin). lia.
  - apply earliest_of_None in He. rewrite He. split; [|done].
    intros _ e Hin. by apply elem_of_nil in Hin.
Qed.
End timers.

(** ** The callbacks of editor.js

    The closure arms two kinds of callback: the removal of a user's typing
    badge (editor.js 106-111) and [autosaveDocument] (277, 282). *)
Inductive callback : Set :=
| RemoveIndicator (username : string)
| AutosaveDocument.

#[export] Instance callback_eq_dec : EqDecision callback.
Proof. solve_decision. Defined.

#[export] Hint Resolve no_timers_wf setTimeout_wf setInterval_wf clearTimeout_wf : js.
