(* ===== verification/Typing.v ===== *)
(** * The typing indicator

    [showUserTypingIndicator] (editor.js 94-116) shows a badge
    "<user> is typing..." for the author of every remote edit and arms a
    timer that removes the badge 2000 ms later.  When the badge exists
    already, the timer recorded in its [data-timeout-id] attribute is
    cancelled first and the new timer is recorded.  The identifier of the
    timer armed when the badge is created is recorded nowhere.

    The badges are the children of the [#typing-indicator] element, in
    document order; [document.querySelector] returns the first one whose
    [data-user] attribute is the username. *)

From stdpp Require Import base option list numbers strings sets.
From S2P Require Import Prelude Timers.

Local Open Scope Z_scope.

(** ** Data *)

(** A [div.typing-notification]: its [data-user], its text, and its
    [data-timeout-id] ([None] while the attribute is not set). *)
Record badge : Set := {
  data_user : string;
  innerText : string;
  data_timeoutId : option nat;
}.

#[export] Instance badge_eq_dec : EqDecision badge.
Proof. solve_decision. Defined.

(** The children of [#typing-indicator] and the timer table. *)
Record typing : Set := {
  indicators : list badge;
  typing_timers : timers callback;
}.

Definition typing_init : typing :=
  {| indicators := []; typing_timers := no_timers |}.

(** ** Operations *)

(** [document.querySelector('.typing-notification[data-user="..."]')]:
    the first badge of the user, with its index. *)
Definition querySelector (username : string) (bs : list badge) : option (nat * badge) :=
  list_find (λ b, data_user b = username) bs.

Definition with_timeoutId (id : nat) (b : badge) : badge :=
  {| data_user := data_user b; innerText := innerText b; data_timeoutId := Some id |}.

Definition new_badge (username : string) : badge :=
  {| data_user := username;
     innerText := username +:+ " is typing...";
     data_timeoutId := None |}.

(** The delay of the expiry timer. *)
Definition typing_delay : Z := 2000.

Definition showUserTypingIndicator (username : string) (now : Z) (s : typing) : typing :=
  let existingIndicator := querySelector username (indicators s) in
  let '(bs, ts) :=
    match existingIndicator with
    | Some (_, b) => (indicators s, clearTimeout (data_timeoutId b) (typing_timers s))
    | None => (indicators s ++ [new_badge username], typing_timers s)
    end in
  let '(timeoutId, ts') := setTimeout (RemoveIndicator username) typing_delay now ts in
  match existingIndicator with
  | Some (i, b) =>
      {| indicators := <[i := with_timeoutId timeoutId b]> bs; typing_timers := ts' |}
  | None => {| indicators := bs; typing_timers := ts' |}
  end.

(** The identifier [showUserTypingIndicator] passes to [clearTimeout]:
    the [data-timeout-id] of the user's badge, if there is a badge and it
    has the attribute. *)
Definition recorded (username : string) (s : typing) : option nat :=
  match querySelector username (indicators s) with
  | Some (_, b) => data_timeoutId b
  | None => None
  end.

(** The callback of the timer: the user's badge, if there is one, is
    removed from [#typing-indicator].  The element the selector finds is
    a badge, so the test [typingIndicator.contains(indicator)] holds. *)
Definition removeIndicator (username : string) (bs : list badge) : list badge :=
  match querySelector username bs with
  | Some (i, _) => delete i bs
  | None => bs
  end.

Definition run_callback (c : callback) (s : typing) : typing :=
  match c with
  | RemoveIndicator username =>
      {| indicators := removeIndicator username (indicators s);
         typing_timers := typing_timers s |}
  | AutosaveDocument => s
  end.

(** The browser running the next timer that is due at time [t]; [None]
    when no timer is due. *)
Definition fire (t : Z) (s : typing) : option typing :=
  match fire_next t (typing_timers s) with
  | Some (_, tm, ts) =>
      Some (run_callback (action tm) {| indicators := indicators s; typing_timers := ts |})
  | None => None
  end.

(** The timers that are due at time [t] fire one after the other.  A
    timer that has fired has left the table or is due a period later, so
    the number of pending timers is fuel enough when the periods are
    positive. *)
Definition fire_due (fuel : nat) (t : Z) (s : typing) : typing :=
  iterate (fire t) fuel s.

Definition advance (t : Z) (s : typing) : typing :=
  fire_due (length (pending (typing_timers s))) t s.

(** The first two events of a user: the badge is created at time 0, and
    the user types again [gap] ms later. *)
Definition show_twice (username : string) (gap : Z) : typing :=
  showUserTypingIndicator username gap
    (advance gap (showUserTypingIndicator username 0 typing_init)).

(** ** The invariant

    The timer table is well formed; there is one badge per user at most;
    every badge has a pending timer that will remove it by [deadline];
    the identifier a badge records is that of a timer of its user, armed
    in the past. *)
Definition users_of (s : typing) : list string := data_user <$> indicators s.

Record typing_inv (deadline : Z) (s : typing) : Prop := {
  ti_timers : timers_wf (typing_timers s);
  ti_nodup : NoDup (users_of s);
  ti_armed : ∀ b, b ∈ indicators s →
    ∃ e, e ∈ pending (typing_timers s) ∧
         action e.2 = RemoveIndicator (data_user b) ∧ due e.2 ≤ deadline;
  ti_owner : ∀ b i e, b ∈ indicators s → data_timeoutId b = Some i →
    e ∈ pending (typing_timers s) → e.1 = i →
    action e.2 = RemoveIndicator (data_user b);
  ti_ids : ∀ b i, b ∈ indicators s → data_timeoutId b = Some i →
    (i < next_timer (typing_timers s))%nat;
}.

(** The pending timers that repeat have a positive period. *)
Definition steady_timers (s : typing) : Prop := steady (pending (typing_timers s)).

(** The pending timers of a user are due after [t]; no pending timer is
    due at [t]. *)
Definition quiet (u : string) (t : Z) (s : typing) : Prop :=
  ∀ e, e ∈ pending (typing_timers s) → action e.2 = RemoveIndicator u → t < due e.2.

Definition quiet_all (t : Z) (s : typing) : Prop :=
  ∀ e, e ∈ pending (typing_timers s) → t < due e.2.

(** ** [querySelector] *)

Lemma querySelector_Some u bs i b :
  querySelector u bs = Some (i, b) → bs !! i = Some b ∧ data_user b = u.
Proof. intros (? & ? & _)%list_find_Some. done. Qed.

Lemma querySelector_None u bs : querySelector u bs = None ↔ u ∉ data_user <$> bs.
Proof.
  unfold querySelector. rewrite list_find_None, Forall_forall, list_elem_of_fmap.
  naive_solver.
Qed.

(** One badge per user: the badge of a user is the one the selector
    finds. *)
Lemma NoDup_users_inj bs b b' :
  NoDup (data_user <$> bs) → b ∈ bs → b' ∈ bs → data_user b = data_user b' → b = b'.
Proof.
  intros Hnd [i Hi]%list_elem_of_lookup [j Hj]%list_elem_of_lookup Heq.
  assert (i = j) as ->; [|congruence].
  apply (NoDup_lookup _ _ _ (data_user b) Hnd); rewrite list_lookup_fmap.
  - by rewrite Hi.
  - by rewrite Hj, Heq.
Qed.

Lemma querySelector_elem u bs b :
  NoDup (data_user <$> bs) → b ∈ bs → data_user b = u →
  ∃ i, querySelector u bs = Some (i, b).
Proof.
  intros Hnd Hb Hu.
  destruct (list_find_elem_of (λ b, data_user b = u) bs b Hb Hu) as [[i b'] Hq].
  exists i. unfold querySelector. rewrite Hq. apply querySelector_Some in Hq as [Hi Hu']. do 2 f_equal.
  apply (NoDup_users_inj bs); eauto using list_elem_of_lookup_2. congruence.
Qed.

(** Assigning to the badge of a user leaves the badges of the others. *)
Lemma insert_badge_elem bs (i : nat) b0 x b :
  NoDup (data_user <$> bs) → bs !! i = Some b0 → b ∈ <[i:=x]> bs →
  b = x ∨ (b ∈ bs ∧ data_user b ≠ data_user b0).
Proof.
  intros Hnd Hi [j Hj]%list_elem_of_lookup.
  apply list_lookup_insert_Some in Hj as [(_ & -> & _)|[Hne Hj]]; [by left|].
  right. split; [by eapply list_elem_of_lookup_2|]. intros Heq. apply Hne.
  apply (NoDup_lookup _ _ _ (data_user b0) Hnd); rewrite list_lookup_fmap.
  - by rewrite Hi.
  - rewrite Hj. simpl. by rewrite Heq.
Qed.

(** ** [removeIndicator] *)

Lemma removeIndicator_sublist u bs : removeIndicator u bs `sublist_of` bs.
Proof.
  unfold removeIndicator. destruct (querySelector u bs) as [[i b]|]; [|done].
  apply sublist_delete.
Qed.

Lemma removeIndicator_elem u bs b : b ∈ removeIndicator u bs → b ∈ bs.
Proof. intros Hb. eapply elem_of_sublist, removeIndicator_sublist. done. Qed.

Lemma removeIndicator_NoDup u bs :
  NoDup (data_user <$> bs) → NoDup (data_user <$> removeIndicator u bs).
Proof. intros Hnd. eapply sublist_NoDup, fmap_sublist, removeIndicator_sublist. done. Qed.

(** The badges of the other users stay. *)
Lemma removeIndicator_other u bs b :
  b ∈ bs → data_user b ≠ u → b ∈ removeIndicator u bs.
Proof.
  intros Hb Hne. unfold removeIndicator.
  destruct (querySelector u bs) as [[i b']|] eqn:Hq; [|done].
  apply querySelector_Some in Hq as [Hi Hu].
  apply list_elem_of_lookup in Hb as [j Hj].
  assert (j ≠ i) by (intros ->; congruence).
  apply list_elem_of_lookup. destruct (decide (j < i)%nat).
  - exists j. by rewrite list_lookup_delete_lt.
  - exists (pred j). rewrite list_lookup_delete_ge by lia. by replace (S (pred j)) with j by lia.
Qed.

(** With one badge per user, the user has no badge left. *)
Lemma removeIndicator_gone u bs :
  NoDup (data_user <$> bs) → u ∉ data_user <$> removeIndicator u bs.
Proof.
  intros Hnd. unfold removeIndicator.
  destruct (querySelector u bs) as [[i b]|] eqn:Hq; [|by apply querySelector_None].
  apply querySelector_Some in Hq as [Hi Hu].
  rewrite list_fmap_delete.
  assert ((data_user <$> bs) !! i = Some u) as Hi'
    by (rewrite list_lookup_fmap, Hi; simpl; congruence).
  rewrite <- (take_drop_middle _ _ _ Hi') in Hnd.
  rewrite delete_take_drop. apply NoDup_app in Hnd as (_ & Hdis & Hnd).
  apply NoDup_cons in Hnd as [Hnin _]. rewrite elem_of_app. intros [Hin|Hin]; [|done].
  apply (Hdis _ Hin). by left.
Qed.

(** ** [showUserTypingIndicator]: the state it returns *)

Section show.
Context (u : string) (now : Z) (s : typing).
Implicit Types (b : badge) (e : nat * timer callback).

Lemma recorded_Some i :
  recorded u s = Some i →
  ∃ b, b ∈ indicators s ∧ data_user b = u ∧ data_timeoutId b = Some i.
Proof.
  unfold recorded. destruct (querySelector u (indicators s)) as [[j b]|] eqn:Hq; [|done].
  apply querySelector_Some in Hq as [Hj Hu]. eauto using list_elem_of_lookup_2.
Qed.

(** The table: the recorded timer is cancelled, the new one armed. *)
Lemma typing_timers_show :
  typing_timers (showUserTypingIndicator u now s) =
  (setTimeout (RemoveIndicator u) typing_delay now
     (clearTimeout (recorded u s) (typing_timers s))).2.
Proof.
  unfold showUserTypingIndicator, recorded.
  by destruct (querySelector u (indicators s)) as [[i b]|].
Qed.

Lemma next_timer_show :
  next_timer (typing_timers (showUserTypingIndicator u now s)) =
  S (next_timer (typing_timers s)).
Proof. rewrite typing_timers_show. simpl. by rewrite next_timer_clearTimeout. Qed.

Lemma pending_show e :
  e ∈ pending (typing_timers (showUserTypingIndicator u now s)) ↔
  (e ∈ pending (typing_timers s) ∧ recorded u s ≠ Some e.1) ∨
  e = (next_timer (typing_timers s), Timer (now + typing_delay) None (RemoveIndicator u)).
Proof.
  rewrite typing_timers_show, pending_setTimeout, clearTimeout_elem.
  by rewrite next_timer_clearTimeout.
Qed.

(** The badges: the users are those of before and [u]. *)
Lemma users_of_show :
  users_of (showUserTypingIndicator u now s) =
  if decide (u ∈ users_of s) then users_of s else users_of s ++ [u].
Proof.
  unfold showUserTypingIndicator, users_of.
  destruct (querySelector u (indicators s)) as [[i b]|] eqn:Hq; simpl.
  - apply querySelector_Some in Hq as [Hi Hu].
    rewrite decide_True by (apply list_elem_of_fmap; eauto using list_elem_of_lookup_2).
    rewrite list_fmap_insert. apply list_insert_id. by rewrite list_lookup_fmap, Hi.
  - apply querySelector_None in Hq. by rewrite decide_False, fmap_app.
Qed.

Lemma users_of_show_elem v :
  v ∈ users_of (showUserTypingIndicator u now s) ↔ v = u ∨ v ∈ users_of s.
Proof. rewrite users_of_show. case_decide; set_solver. Qed.

Lemma show_NoDup :
  NoDup (users_of s) → NoDup (users_of (showUserTypingIndicator u now s)).
Proof.
  intros Hnd. rewrite users_of_show. case_decide; [done|].
  apply NoDup_app. split_and!; [done|set_solver|apply NoDup_singleton].
Qed.

(** A badge of the new state is the badge of [u], which records the new
    timer unless it has just been created, or a badge of another user,
    unchanged. *)
Lemma show_elem b :
  NoDup (users_of s) → b ∈ indicators (showUserTypingIndicator u now s) →
  (data_user b = u ∧
   (data_timeoutId b = None ∨ data_timeoutId b = Some (next_timer (typing_timers s)))) ∨
  (b ∈ indicators s ∧ data_user b ≠ u).
Proof.
  intros Hnd. unfold showUserTypingIndicator.
  destruct (querySelector u (indicators s)) as [[i b0]|] eqn:Hq; simpl.
  - apply querySelector_Some in Hq as [Hi Hu]. intros Hb.
    destruct (insert_badge_elem _ _ _ _ _ Hnd Hi Hb) as [->|[? ?]].
    + left. split; [done|]. right. simpl. by rewrite next_timer_clearTimeout.
    + right. split; congruence.
  - apply querySelector_None in Hq.
    intros [Hb| ->%list_elem_of_singleton]%elem_of_app; [right|left; split; [done|by left]].
    split; [done|]. intros <-. apply Hq, list_elem_of_fmap. eauto.
Qed.
End show.

(** The invariant is kept, with the deadline moved to 2000 ms after the
    call when that is later. *)
Lemma show_inv (u : string) (now : Z) (s : typing) (deadline : Z) :
  typing_inv deadline s →
  typing_inv (Z.max deadline (now + typing_delay)) (showUserTypingIndicator u now s).
Proof.
  intros [Ht Hnd Harm Hown Hids]. split.
  - rewrite typing_timers_show. auto with js.
  - by apply show_NoDup.
  - intros b [[Hu _]|[Hb Hne]]%show_elem; [| |done].
    + eexists. rewrite pending_show. split_and!; [by right|simpl; by rewrite Hu|simpl; lia].
    + destruct (Harm b Hb) as (e & He & Ha & Hd). exists e. rewrite pending_show.
      split_and!; [left; split; [done|]|done|lia].
      intros (b0 & Hb0 & Hu0 & Hid)%recorded_Some.
      specialize (Hown b0 _ e Hb0 Hid He eq_refl). congruence.
  - intros b i e [[Hu Hcase]|[Hb Hne]]%show_elem Hid; [| |done].
    + intros [[He _]| ->]%pending_show Hei; [|simpl; by rewrite Hu].
      apply (pending_fresh _ _ Ht) in He. destruct Hcase; simplify_eq; lia.
    + intros [[He _]| ->]%pending_show Hei; [by eapply Hown|].
      specialize (Hids b i Hb Hid). simpl in Hei. lia.
  - intros b i [[Hu Hcase]|[Hb Hne]]%show_elem Hid; [| |done]; rewrite next_timer_show.
    + destruct Hcase; simplify_eq; lia.
    + specialize (Hids b i Hb Hid). lia.
Qed.

(** A later deadline will do. *)
Lemma typing_inv_mono deadline deadline' s :
  deadline ≤ deadline' → typing_inv deadline s → typing_inv deadline' s.
Proof.
  intros Hle [Ht Hnd Harm Hown Hids]. split; [done..| |done|done].
  intros b (e & He & Ha & Hd)%Harm. exists e. split_and!; [done..|lia].
Qed.

Lemma typing_init_inv deadline : typing_inv deadline typing_init.
Proof.
  split; simpl;
    [apply no_timers_wf|apply NoDup_nil_2|intros b ?%elem_of_nil
    |intros b i e ?%elem_of_nil|intros b i ?%elem_of_nil]; done.
Qed.

Lemma show_steady u now s :
  steady_timers s → steady_timers (showUserTypingIndicator u now s).
Proof. intros Hst e every [[He _]| ->]%pending_show; [by apply Hst|done]. Qed.

Lemma typing_init_steady : steady_timers typing_init.
Proof. by intros e every ?%elem_of_nil. Qed.

(** C14: [showUserTypingIndicator] keeps the invariant of the badges and
    their timers: one badge per user, each with a pending timer of its
    user that is due by the deadline, which moves to 2000 ms after the
    call at most; the periods of the timers that repeat stay positive;
    and the user has a badge after the call. *)
Theorem showUserTypingIndicator_inv (u : string) (now : Z) (s : typing) (deadline : Z) :
  typing_inv deadline s → steady_timers s →
  typing_inv (Z.max deadline (now + typing_delay)) (showUserTypingIndicator u now s) ∧
  steady_timers (showUserTypingIndicator u now s) ∧
  u ∈ users_of (showUserTypingIndicator u now s).
Proof.
  intros Hinv Hone. split_and!; [by apply show_inv|by apply show_steady|].
  apply users_of_show_elem. by left.
Qed.

Lemma showUserTypingIndicator_inv_witness :
  typing_inv (Z.max 0 (0 + typing_delay)) (showUserTypingIndicator "alice" 0 typing_init) ∧
  steady_timers (showUserTypingIndicator "alice" 0 typing_init) ∧
  "alice"%string ∈ users_of (showUserTypingIndicator "alice" 0 typing_init).
Proof.
  apply showUserTypingIndicator_inv; [apply typing_init_inv|apply typing_init_steady].
Defined.

(** ** Timers of other clients of the table

    The invariant is kept when another client arms a timer, and when it
    cancels a timer that is not the removal of a badge. *)

Lemma typing_inv_arm deadline s tm :
  typing_inv deadline s →
  typing_inv deadline
    {| indicators := indicators s; typing_timers := arm tm (typing_timers s) |}.
Proof.
  intros [Ht Hnd Harm Hown Hids]. split; cbn [indicators typing_timers].
  - by apply arm_wf.
  - done.
  - intros b (e & He & Ha & Hd)%Harm. exists e. rewrite pending_arm. auto.
  - intros b i e Hb Hid [He| ->]%pending_arm Hei; [by eapply Hown|].
    specialize (Hids b i Hb Hid). simpl in Hei. lia.
  - intros b i Hb Hid. specialize (Hids b i Hb Hid). simpl. lia.
Qed.

Lemma typing_inv_clear deadline s id :
  typing_inv deadline s →
  (∀ e u, e ∈ pending (typing_timers s) → id = Some e.1 →
          action e.2 ≠ RemoveIndicator u) →
  typing_inv deadline
    {| indicators := indicators s; typing_timers := clearTimeout id (typing_timers s) |}.
Proof.
  intros [Ht Hnd Harm Hown Hids] Hother. split; cbn [indicators typing_timers].
  - by apply clearTimeout_wf.
  - done.
  - intros b (e & He & Ha & Hd)%Harm. exists e. rewrite clearTimeout_elem.
    split_and!; [done| |done..]. intros Hid. by eapply Hother.
  - intros b i e Hb Hid [He _]%clearTimeout_elem Hei. by eapply Hown.
  - intros b i Hb Hid. rewrite next_timer_clearTimeout. by eapply Hids.
Qed.

(** ** A timer fires *)

Section callback.
Context (c : callback) (s : typing).
Implicit Types (b : badge).

Lemma typing_timers_run_callback : typing_timers (run_callback c s) = typing_timers s.
Proof. by destruct c. Qed.

Lemma run_callback_elem b : b ∈ indicators (run_callback c s) → b ∈ indicators s.
Proof. destruct c; [apply removeIndicator_elem|done]. Qed.

Lemma run_callback_other b :
  b ∈ indicators s → c ≠ RemoveIndicator (data_user b) → b ∈ indicators (run_callback c s).
Proof.
  intros Hb Hne. destruct c as [v|]; [|done].
  apply removeIndicator_other; [done|congruence].
Qed.

Lemma run_callback_NoDup : NoDup (users_of s) → NoDup (users_of (run_callback c s)).
Proof. destruct c; [apply removeIndicator_NoDup|done]. Qed.

Lemma run_callback_gone b :
  NoDup (users_of s) → b ∈ indicators (run_callback c s) → c ≠ RemoveIndicator (data_user b).
Proof.
  intros Hnd Hb ->. apply (removeIndicator_gone (data_user b) _ Hnd).
  apply list_elem_of_fmap. eauto.
Qed.
End callback.

(** The timer that fires is pending, due, and the first that is due; it
    leaves the table and its callback runs. *)
Lemma fire_Some t s s' :
  fire t s = Some s' →
  ∃ e, e ∈ pending (typing_timers s) ∧ due e.2 ≤ t ∧
       (∀ e', e' ∈ pending (typing_timers s) → due e.2 ≤ due e'.2) ∧
       s' = run_callback (action e.2)
              {| indicators := indicators s;
                 typing_timers := Timers (rearm t e (pending (typing_timers s)))
                                         (next_timer (typing_timers s)) |}.
Proof.
  unfold fire. destruct (fire_next t (typing_timers s)) as [[[i tm] ts]|] eqn:Hf; [|done].
  apply fire_next_Some in Hf as (He & Hd & Hmin & ->). intros [= <-].
  by exists (i, tm).
Qed.

Lemma fire_None t s :
  fire t s = None ↔ ∀ e, e ∈ pending (typing_timers s) → t < due e.2.
Proof.
  rewrite <- fire_next_None. unfold fire.
  by destruct (fire_next t (typing_timers s)) as [[[i tm] ts]|].
Qed.

(** A timer firing keeps the invariant: the badges that stay are those
    of the other users, and their timers are still pending. *)
Lemma fire_inv (t : Z) (s s' : typing) (deadline : Z) :
  typing_inv deadline s → fire t s = Some s' → typing_inv deadline s'.
Proof.
  intros [Ht Hnd Harm Hown Hids] (e & He & _ & _ & ->)%fire_Some.
  split; rewrite ?typing_timers_run_callback; simpl.
  - by apply rearm_wf.
  - by apply run_callback_NoDup.
  - intros b Hb. assert (Hne := Hb). apply run_callback_gone in Hne; [|exact Hnd].
    apply run_callback_elem in Hb. destruct (Harm b Hb) as (e' & He' & Ha' & Hd').
    exists e'. split_and!; [|done..]. apply rearm_other; [done|].
    intros Heq. apply (pending_inj _ _ _ Ht He' He) in Heq. congruence.
  - intros b i e' Hb%run_callback_elem Hid (e0 & He0 & Hi0 & <- & _)%rearm_elem Hei.
    apply (Hown b i e0); [done..|congruence].
  - intros b i Hb%run_callback_elem Hid. by apply (Hids b).
Qed.

Lemma fire_steady t s s' : steady_timers s → fire t s = Some s' → steady_timers s'.
Proof.
  intros Hst (e & He & _ & _ & ->)%fire_Some. unfold steady_timers.
  rewrite typing_timers_run_callback. by apply rearm_steady.
Qed.

(** A timer that fires is not due any more: it has left the table, or
    it is due one period later. *)
Lemma fire_due_at t s s' :
  steady_timers s → fire t s = Some s' →
  (due_at t (pending (typing_timers s')) < due_at t (pending (typing_timers s)))%nat.
Proof.
  intros Hst (e & He & Hd & _ & ->)%fire_Some.
  rewrite typing_timers_run_callback. simpl.
  apply due_at_rearm_lt; [|done..]. intros every. by apply Hst.
Qed.

(** ** Time passes *)

(** With fuel for every timer that is due, no timer is due at the end:
    a timer fires once at a given time. *)
Lemma fire_due_done fuel t s :
  steady_timers s → (due_at t (pending (typing_timers s)) ≤ fuel)%nat →
  fire t (fire_due fuel t s) = None.
Proof.
  apply (iterate_done (fire t) steady_timers (λ s, due_at t (pending (typing_timers s)))).
  eauto using fire_steady, fire_due_at.
Qed.

Lemma advance_inv t s deadline : typing_inv deadline s → typing_inv deadline (advance t s).
Proof. apply (iterate_ind (fire t)). intros ? ?. apply fire_inv. Qed.

(** The number of pending timers is fuel enough. *)
Lemma advance_done t s : steady_timers s → fire t (advance t s) = None.
Proof. intros Hst. apply fire_due_done; [done|apply due_at_length]. Qed.

Lemma advance_steady t s : steady_timers s → steady_timers (advance t s).
Proof. apply (iterate_ind (fire t)). intros ? ?. apply fire_steady. Qed.

(** The due timers fire until none is due: the number of pending
    timers is fuel enough for [advance], and the state it returns
    satisfies the invariant and has no timer left that is due. *)
Theorem advance_settles (t : Z) (s : typing) (deadline : Z) :
  typing_inv deadline s → steady_timers s →
  typing_inv deadline (advance t s) ∧ steady_timers (advance t s) ∧
  ∀ e, e ∈ pending (typing_timers (advance t s)) → t < due e.2.
Proof.
  intros Hinv Hone. split_and!; [by apply advance_inv|by apply advance_steady|].
  by apply fire_None, advance_done.
Qed.

Lemma advance_settles_witness :
  let s := showUserTypingIndicator "bob" 500 (showUserTypingIndicator "alice" 0 typing_init) in
  typing_inv 2500 (advance 2000 s) ∧ steady_timers (advance 2000 s) ∧
  ∀ e, e ∈ pending (typing_timers (advance 2000 s)) → 2000 < due e.2.
Proof.
  apply advance_settles.
  - apply (show_inv "bob" 500 _ 2000), (show_inv "alice" 0 _ 0), typing_init_inv.
  - do 2 apply show_steady. apply typing_init_steady.
Defined.

(** Every badge expires: once the deadline of the invariant has
    passed and the due timers have fired, no badge is left. *)
Theorem advance_expires (t : Z) (s : typing) (deadline : Z) :
  typing_inv deadline s → steady_timers s → deadline ≤ t → indicators (advance t s) = [].
Proof.
  intros Hinv Hone Hle.
  pose proof (advance_done t s Hone) as Hdone.
  apply (advance_inv t) in Hinv as [_ _ Harm _ _].
  destruct (indicators (advance t s)) as [|b bs] eqn:Hbs; [done|].
  destruct (Harm b) as (e & He & _ & Hd); [by left|].
  pose proof (proj1 (fire_None _ _) Hdone e He). lia.
Qed.

Lemma advance_expires_witness :
  indicators (advance 2000 (showUserTypingIndicator "alice" 0 typing_init)) = [].
Proof.
  apply (advance_expires 2000 _ (Z.max 0 (0 + typing_delay))); [| |by vm_compute].
  - apply show_inv, typing_init_inv.
  - apply show_steady, typing_init_steady.
Defined.

(** ** How long a badge stays *)

Lemma fire_quiet u t s s' :
  steady_timers s → quiet u t s → fire t s = Some s' → quiet u t s'.
Proof.
  intros Hst Hq (e & He & _ & _ & ->)%fire_Some e'.
  rewrite typing_timers_run_callback. simpl. intros He' Ha.
  destruct (rearm_due t e _ e' Hst He He') as [Hin|Hlt]; [by apply Hq|done].
Qed.

Lemma fire_keeps u t s s' :
  quiet u t s → fire t s = Some s' → u ∈ users_of s → u ∈ users_of s'.
Proof.
  intros Hq (e & He & Hd & _ & ->)%fire_Some (b & -> & Hb)%list_elem_of_fmap.
  apply list_elem_of_fmap. exists b. split; [done|].
  apply run_callback_other; [done|]. intros Ha. specialize (Hq e He Ha). lia.
Qed.

Lemma fire_due_keeps u fuel t s :
  steady_timers s → quiet u t s → u ∈ users_of s → u ∈ users_of (fire_due fuel t s).
Proof.
  intros Hone Hq Hu.
  destruct (iterate_ind (fire t) (λ s, steady_timers s ∧ quiet u t s ∧ u ∈ users_of s))
    with (fuel := fuel) (s := s) as (_ & _ & Hin); [|done..].
  intros s0 s' (? & ? & ?) Hf.
  split_and!; eauto using fire_steady, fire_quiet, fire_keeps.
Qed.

(** A badge stays as long as no timer of its user is due: timers of
    other users do not remove it. *)
Theorem advance_keeps (u : string) (t : Z) (s : typing) :
  steady_timers s → quiet u t s → u ∈ users_of s → u ∈ users_of (advance t s).
Proof. apply fire_due_keeps. Qed.

Lemma advance_keeps_witness :
  "bob"%string ∈ users_of (advance 2000
    (showUserTypingIndicator "bob" 500 (showUserTypingIndicator "alice" 0 typing_init))).
Proof.
  apply advance_keeps.
  - do 2 apply show_steady. apply typing_init_steady.
  - intros e He Ha. vm_compute in He.
    apply elem_of_cons in He as [->|He]; [done|].
    apply list_elem_of_singleton in He as ->. done.
  - apply users_of_show_elem. by left.
Defined.

(** Badges are only removed when timers fire. *)
Lemma fire_absent u t s s' : u ∉ users_of s → fire t s = Some s' → u ∉ users_of s'.
Proof.
  intros Hu (e & _ & _ & _ & ->)%fire_Some (b & -> & Hb)%list_elem_of_fmap.
  apply Hu, list_elem_of_fmap. exists b. split; [done|]. by apply run_callback_elem in Hb.
Qed.

Lemma fire_due_absent u fuel t s : u ∉ users_of s → u ∉ users_of (fire_due fuel t s).
Proof. apply (iterate_ind (fire t) (λ s, u ∉ users_of s)). intros ? ?. apply fire_absent. Qed.

(** A timer of a user stays in the table until it fires, and then the
    user has no badge. *)
Lemma fire_pending u e t s s' :
  action e.2 = RemoveIndicator u →
  timers_wf (typing_timers s) ∧ NoDup (users_of s) ∧
    (u ∉ users_of s ∨ e ∈ pending (typing_timers s)) →
  fire t s = Some s' →
  timers_wf (typing_timers s') ∧ NoDup (users_of s') ∧
    (u ∉ users_of s' ∨ e ∈ pending (typing_timers s')).
Proof.
  intros Ha (Hwf & Hnd & Hor) Hf.
  destruct Hor as [Hu|He]; [pose proof (fire_absent _ _ _ _ Hu Hf)|];
    apply fire_Some in Hf as (e0 & He0 & _ & _ & ->);
    rewrite typing_timers_run_callback; simpl;
    (split_and!; [by apply rearm_wf|by apply run_callback_NoDup|]); [by left|].
  destruct (decide (e0.1 = e.1)) as [Heq|Hne].
  - apply (pending_inj _ _ _ Hwf He0 He) in Heq as ->.
    left. rewrite Ha. by apply removeIndicator_gone.
  - right. apply rearm_other; [done|congruence].
Qed.

(** A timer of a user that is due removes the badge of the user. *)
Lemma fire_due_removes u e fuel t s :
  timers_wf (typing_timers s) → NoDup (users_of s) → steady_timers s →
  (due_at t (pending (typing_timers s)) ≤ fuel)%nat →
  e ∈ pending (typing_timers s) → action e.2 = RemoveIndicator u → due e.2 ≤ t →
  u ∉ users_of (fire_due fuel t s).
Proof.
  intros Hwf Hnd Hst Hlen He Ha Hd.
  pose proof (fire_due_done fuel t s Hst Hlen) as Hdone.
  destruct (iterate_ind (fire t)
              (λ s, timers_wf (typing_timers s) ∧ NoDup (users_of s) ∧
                    (u ∉ users_of s ∨ e ∈ pending (typing_timers s))))
    with (fuel := fuel) (s := s) as (_ & _ & [Hu|He']); [|by auto|done|].
  - intros s0 s'. by apply fire_pending.
  - pose proof (proj1 (fire_None _ _) Hdone e He'). lia.
Qed.

Lemma advance_removes u e t s :
  timers_wf (typing_timers s) → NoDup (users_of s) → steady_timers s →
  e ∈ pending (typing_timers s) → action e.2 = RemoveIndicator u → due e.2 ≤ t →
  u ∉ users_of (advance t s).
Proof. intros. apply (fire_due_removes u e); auto using due_at_length. Qed.

(** The badge is refreshed when the badge records the only timer of
    the user: that timer is cancelled, and the badge stays until 2000 ms
    after the call. *)
Theorem show_refreshes (u : string) (now t : Z) (s : typing) :
  steady_timers s →
  (∀ e, e ∈ pending (typing_timers s) → action e.2 = RemoveIndicator u →
        recorded u s = Some e.1) →
  t < now + typing_delay →
  u ∈ users_of (advance t (showUserTypingIndicator u now s)).
Proof.
  intros Hone Honly Ht. apply fire_due_keeps.
  - by apply show_steady.
  - intros e [[He Hrec]| ->]%pending_show Ha; [|simpl; lia].
    destruct Hrec. by apply Honly.
  - apply users_of_show_elem. by left.
Qed.

Lemma show_refreshes_witness :
  "alice"%string ∈ users_of (advance 1999 (showUserTypingIndicator "alice" 0 typing_init)).
Proof.
  apply show_refreshes; [apply typing_init_steady| |by vm_compute].
  by intros e ?%elem_of_nil.
Defined.

(** A timer of the user that the badge does not record survives the
    call: it is not cancelled, and removes the badge when it is due,
    however recent the call. *)
Theorem show_stale_timer (u : string) (now t : Z) (s : typing) (deadline : Z)
    (e : nat * timer callback) :
  typing_inv deadline s → steady_timers s →
  e ∈ pending (typing_timers s) → action e.2 = RemoveIndicator u →
  recorded u s ≠ Some e.1 → due e.2 ≤ t →
  u ∉ users_of (advance t (showUserTypingIndicator u now s)).
Proof.
  intros Hinv Hone He Ha Hrec Hd.
  destruct (show_inv u now s deadline Hinv) as [Hwf Hnd _ _ _].
  apply (advance_removes u e); auto using show_steady.
  apply pending_show. by left.
Qed.

Lemma show_stale_timer_witness :
  "alice"%string ∉ users_of (advance 2000
     (showUserTypingIndicator "alice" 1000 (showUserTypingIndicator "alice" 0 typing_init))).
Proof.
  apply (show_stale_timer "alice" 1000 2000 _ 2000 (1%nat, Timer 2000 None (RemoveIndicator "alice"))).
  - apply (show_inv "alice" 0 _ 0), typing_init_inv.
  - apply show_steady, typing_init_steady.
  - vm_compute. left.
  - done.
  - done.
  - done.
Defined.

(** ** Examples: the badge of one user *)

(** Nothing changes while no timer is due. *)
Lemma advance_idle t s : quiet_all t s → advance t s = s.
Proof.
  intros Hq. by apply iterate_None, fire_None.
Qed.

(** C34: the second event does not refresh the badge.  When a user's
    badge is created at time 0 and the user types again [gap] ms later,
    before the badge has expired, the timer of the first event is still
    armed (the new badge did not record it), and the badge is gone 2000
    ms after the first event, not after the second. *)
Theorem show_twice_early (u : string) (gap t : Z) :
  gap < typing_delay → typing_delay ≤ t →
  u ∉ users_of (advance t (show_twice u gap)).
Proof.
  intros Hgap Ht. unfold show_twice.
  rewrite (advance_idle gap).
  2:{ intros e ->%list_elem_of_singleton. simpl. unfold typing_delay in *. lia. }
  pose proof (show_inv u 0 _ 0 (typing_init_inv 0)) as Hinv.
  destruct (show_inv u gap _ _ Hinv) as [Hwf Hnd _ _ _].
  apply (advance_removes u (1%nat, Timer (0 + typing_delay) None (RemoveIndicator u)));
    auto using show_steady, typing_init_steady.
  apply pending_show. left. split; [by left|].
  intros (b & ->%list_elem_of_singleton & _ & Hid)%recorded_Some. done.
Qed.

Lemma show_twice_early_witness :
  "alice"%string ∉ users_of (advance 2500 (show_twice "alice" 1000)).
Proof. apply show_twice_early; by vm_compute. Defined.


Example show_once :
  users_of (showUserTypingIndicator "alice" 0 typing_init) = ["alice"%string] ∧
  users_of (advance 1999 (showUserTypingIndicator "alice" 0 typing_init)) = ["alice"%string] ∧
  users_of (advance 2000 (showUserTypingIndicator "alice" 0 typing_init)) = [].
Proof. by vm_compute. Qed.


Example show_twice_1000 :
  users_of (advance 1999 (show_twice "alice" 1000)) = ["alice"%string] ∧
  users_of (advance 2500 (show_twice "alice" 1000)) = [] ∧
  (pending (typing_timers (advance 2500 (show_twice "alice" 1000)))).*1 = [2%nat].
Proof. by vm_compute. Qed.
