(* ===== verification/Cursor.v ===== *)
(** * The cursor overlay

    [updateCursor] (editor.js 156-182) keeps one marker element per remote
    user in the object [cursors].  On the first message of a user it
    creates the marker, gives it the user's colour and appends it to the
    editor; then it resolves the path of the position, starts a range at
    the node and offset, and moves the marker to where the range is,
    relative to the editor.

    The marker is created before the path is resolved, and it becomes a
    child of the editor, after the children the editor has.  The range is
    started with [range.setStart], which throws an [IndexSizeError] when
    the offset is larger than the length of the node.  [cursors] is a
    plain object: a username that is the name of a property of
    [Object.prototype] finds that property.

    The geometry of the page is not part of the model: the rectangles the
    browser reports are the methods of the class [Layout], and every
    theorem holds for every layout.  Coordinates are whole CSS pixels. *)

From stdpp Require Import base option list numbers strings gmap pretty.
From S2P Require Import Prelude Color Dom Position.

Local Open Scope Z_scope.

(** ** The browser's geometry *)

(** The part of a [DOMRect] the code reads. *)
Record rect : Set := {
  rect_left : Z;
  rect_top : Z;
}.

(** [range.getBoundingClientRect()] and [element.getBoundingClientRect()]
    in a given document. *)
Class Layout : Type := {
  range_rect : dom → range → rect;
  element_rect : dom → nat → rect;
}.

(** ** Data *)

(** The document and the object [cursors]: the marker of each user that
    has one. *)
Record overlay : Type := {
  doc : dom;
  cursors : gmap string nat;
}.

(** The value of [cursors[username]]: a marker the object holds, a
    property it inherits from [Object.prototype], or [undefined]. *)
Inductive property : Set :=
| Own (cursor : nat)
| Inherited
| Missing.

(** The names of the properties of [Object.prototype]; each is a function
    or, for [__proto__], the prototype object: a truthy value that has no
    [style]. *)
Definition object_prototype : list string :=
  ["constructor"; "hasOwnProperty"; "isPrototypeOf"; "propertyIsEnumerable";
   "toLocaleString"; "toString"; "valueOf"; "__proto__";
   "__defineGetter__"; "__defineSetter__"; "__lookupGetter__"; "__lookupSetter__"]%string.

(** ** Operations *)

(** [cursors[username]] *)
Definition get_cursor (cs : gmap string nat) (username : string) : property :=
  match cs !! username with
  | Some cursor => Own cursor
  | None => if decide (username ∈ object_prototype) then Inherited else Missing
  end.

(** [range.setStart(node, offset)]: the offset is converted to an
    unsigned 32-bit integer, and an offset beyond the length of the node
    is an [IndexSizeError]. *)
Definition setStart (d : dom) (node : nat) (offset : Z) : outcome range :=
  let offset := offset `mod` 2 ^ 32 in
  if decide (offset ≤ Z.of_nat (node_length d node))
  then Ok {| startContainer := node; startOffset := offset |}
  else Throw IndexSizeError.

(** The template [`${x}px`] *)
Definition px (x : Z) : string := pretty x +:+ "px".

(** The body of [if (!cursor)]: the marker is created, coloured, appended
    to the editor and recorded. *)
Definition create_cursor (editor : nat) (username : string) (s : overlay) : nat * overlay :=
  let '(cursor, d) := createElement "div" (doc s) in
  let d := set_className cursor "user-cursor" d in
  let d := set_style cursor "backgroundColor" (getColorForUser username) d in
  let d := appendChild editor cursor d in
  (cursor, {| doc := d; cursors := <[username := cursor]> (cursors s) |}).

(** The seven assignments to [cursor.style]. *)
Definition place_cursor (cursor : nat) (username : string) (r editorRect : rect)
    (d : dom) : dom :=
  let d := set_style cursor "position" "absolute" d in
  let d := set_style cursor "left" (px (rect_left r - rect_left editorRect)) d in
  let d := set_style cursor "top" (px (rect_top r - rect_top editorRect)) d in
  let d := set_style cursor "width" "2px" d in
  let d := set_style cursor "height" "1em" d in
  let d := set_style cursor "backgroundColor" (getColorForUser username) d in
  set_style cursor "zIndex" "1000" d.

(** [let cursor = cursors[username]; if (!cursor) { ... }]: the marker,
    or [None] for an inherited property, which is truthy and not a
    marker. *)
Definition find_cursor (editor : nat) (username : string) (s : overlay)
    : option nat * overlay :=
  match get_cursor (cursors s) username with
  | Missing => let '(c, s') := create_cursor editor username s in (Some c, s')
  | Own c => (Some c, s)
  | Inherited => (None, s)
  end.

(** [updateCursor(username, position)]: the outcome of the call and the
    state it leaves, which an exception does not undo. *)
Definition updateCursor `{Layout} (editor : nat) (username : string) (pos : position)
    (s : overlay) : outcome unit * overlay :=
  let '(cursor, s1) := find_cursor editor username s in
  match getNodeFromPath (doc s1) editor (path pos) with
  | JNode node =>
      match setStart (doc s1) node (offset pos) with
      | Ok range =>
          let r := range_rect (doc s1) range in
          let editorRect := element_rect (doc s1) editor in
          match cursor with
          | Some c =>
              (Ok (), {| doc := place_cursor c username r editorRect (doc s1);
                         cursors := cursors s1 |})
          | None => (Throw TypeError, s1)
          end
      | Throw err => (Throw err, s1)
      end
  | JUndefined | JNull => (Ok (), s1)
  end.

(** ** The invariant

    The document is well formed and has the editor; every marker is an
    element of the document other than the editor, and no two users share
    a marker. *)
Record overlay_inv (editor : nat) (s : overlay) : Prop := {
  oi_wf : dom_wf (doc s);
  oi_editor : is_Some (nodes (doc s) !! editor);
  oi_marker : ∀ u c, cursors s !! u = Some c →
    c ≠ editor ∧ ∃ el, content_of (doc s) c = Some (PElement el);
  oi_inj : ∀ u v c, cursors s !! u = Some c → cursors s !! v = Some c → u = v;
}.

(** The element a new marker is. *)
Definition marker_element (username : string) : element :=
  {| tagName := "div"; className := "user-cursor"; attributes := [];
     style := <["backgroundColor"%string := getColorForUser username]> ∅ |}.

(** The element a marker is once it has been placed. *)
Definition placed (username : string) (r editorRect : rect) (el : element) : element :=
  {| tagName := tagName el; className := className el; attributes := attributes el;
     style :=
       <["zIndex"%string := "1000"%string]>
       (<["backgroundColor"%string := getColorForUser username]>
       (<["height"%string := "1em"%string]>
       (<["width"%string := "2px"%string]>
       (<["top"%string := px (rect_top r - rect_top editorRect)]>
       (<["left"%string := px (rect_left r - rect_left editorRect)]>
       (<["position"%string := "absolute"%string]> (style el))))))) |}.

(** The element of the marker of a user, created or placed. *)
Definition is_marker (username : string) (el : element) : Prop :=
  el = marker_element username ∨
  ∃ r editorRect, el = placed username r editorRect (marker_element username).

(** A layout for the examples: every character is 8 pixels wide, lines
    are 16 pixels high, and the editor is at (10, 20). *)
Definition grid_layout : Layout :=
  {| range_rect := λ _ r, {| rect_left := 10 + 8 * startOffset r; rect_top := 20 |};
     element_rect := λ _ _, {| rect_left := 10; rect_top := 20 |} |}.

(** The editor showing [<p>hi</p>], no marker yet; and the same once bob's
    cursor has been placed after the [h]. *)
Definition hi_overlay : overlay := {| doc := hi_dom; cursors := ∅ |}.

Definition bob_overlay : overlay :=
  (@updateCursor grid_layout 0 "bob" {| path := [0; 0]; offset := 1 |} hi_overlay).2.

(** ** [get_cursor] and [setStart] *)

Lemma get_cursor_Own cs u c : get_cursor cs u = Own c ↔ cs !! u = Some c.
Proof. unfold get_cursor. destruct (cs !! u); [|case_decide]; naive_solver. Qed.

Lemma get_cursor_Missing cs u :
  get_cursor cs u = Missing ↔ cs !! u = None ∧ u ∉ object_prototype.
Proof. unfold get_cursor. destruct (cs !! u); [|case_decide]; naive_solver. Qed.

Lemma get_cursor_Inherited cs u :
  get_cursor cs u = Inherited ↔ cs !! u = None ∧ u ∈ object_prototype.
Proof. unfold get_cursor. destruct (cs !! u); [|case_decide]; naive_solver. Qed.

Lemma setStart_Ok d node off r :
  setStart d node off = Ok r ↔
  off `mod` 2 ^ 32 ≤ Z.of_nat (node_length d node) ∧
  r = {| startContainer := node; startOffset := off `mod` 2 ^ 32 |}.
Proof. unfold setStart. cbv zeta. case_decide; naive_solver. Qed.

Lemma setStart_Throw d node off err :
  setStart d node off = Throw err ↔
  Z.of_nat (node_length d node) < off `mod` 2 ^ 32 ∧ err = IndexSizeError.
Proof. unfold setStart. cbv zeta. case_decide; naive_solver lia. Qed.

(** A marker is a [div] of the class [user-cursor] in the colour of
    its user. *)
Lemma is_marker_spec u el :
  is_marker u el →
  tagName el = "div"%string ∧ className el = "user-cursor"%string ∧
  style el !! "backgroundColor"%string = Some (getColorForUser u).
Proof.
  intros [->|(r & er & ->)]; (split_and!; [done..|]); simpl; [apply lookup_insert_eq|].
  rewrite lookup_insert_ne by done. apply lookup_insert_eq.
Qed.

(** ** [create_cursor] *)

(** Creating the marker and setting its class and colour is allocating
    the finished element. *)
Lemma create_cursor_doc editor u s :
  create_cursor editor u s =
  (next_id (doc s),
   {| doc := appendChild editor (next_id (doc s))
               (alloc (PElement (marker_element u)) (doc s)).2;
      cursors := <[u := next_id (doc s)]> (cursors s) |}).
Proof.
  unfold create_cursor, createElement, set_style, set_className, map_element, alloc.
  simpl. do 3 f_equal. by rewrite !alter_insert_eq.
Qed.

Section create.
Context (editor : nat) (u : string) (s : overlay).
Context (Hwf : dom_wf (doc s)) (He : is_Some (nodes (doc s) !! editor)).

(** The marker is a new node, the last child of the editor; the rest of
    the document is as before. *)
Lemma create_cursor_spec :
  let s' := (create_cursor editor u s).2 in
  (create_cursor editor u s).1 = next_id (doc s) ∧
  dom_wf (doc s') ∧ extends editor (doc s) (doc s') ∧
  children_of (doc s') editor = children_of (doc s) editor ++ [next_id (doc s)] ∧
  is_Some (nodes (doc s') !! next_id (doc s)) ∧
  content_of (doc s') (next_id (doc s)) = Some (PElement (marker_element u)) ∧
  cursors s' = <[u := next_id (doc s)]> (cursors s).
Proof using Hwf He.
  rewrite create_cursor_doc. cbv zeta. cbn [fst snd doc cursors].
  destruct (alloc_append_spec (PElement (marker_element u)) editor (doc s) Hwf He)
    as (Hwf' & Hext & _ & Hn & Hc & _).
  split_and!; try done.
  by rewrite content_of_appendChild, content_of_alloc_new.
Qed.
End create.

(** ** The invariant *)

Lemma content_of_node d i c : content_of d i = Some c → is_Some (nodes d !! i).
Proof. unfold content_of. destruct (nodes d !! i); naive_solver. Qed.

Lemma overlay_inv_create editor u s :
  overlay_inv editor s → cursors s !! u = None →
  overlay_inv editor (create_cursor editor u s).2.
Proof.
  intros [Hwf He Hm Hinj] Hu.
  destruct (create_cursor_spec editor u s Hwf He) as (_ & Hwf' & Hext & _ & Hn & Hc & Hcs).
  pose proof (wf_fresh _ Hwf _ He) as Hlt.
  assert (∀ v c, cursors s !! v = Some c → (c < next_id (doc s))%nat) as Hold.
  { intros v c [_ [el Hel%content_of_node]]%Hm. by apply wf_fresh. }
  split; [done|by apply (ext_nodes _ _ _ Hext)|..]; rewrite Hcs.
  - intros v c [[<- <-]|[Hne Hv]]%lookup_insert_Some; [split; [lia|eauto]|].
    destruct (Hm v c Hv) as [? [el Hel]]. split; [done|]. exists el.
    rewrite (ext_content _ _ _ Hext); eauto.
  - intros v w c [[<- <-]|[? Hv]]%lookup_insert_Some [[<- ?]|[? Hw]]%lookup_insert_Some;
      try done; subst; [apply Hold in Hw|apply Hold in Hv|by eapply Hinj]; lia.
Qed.

(** The invariant depends on the shape of the document and on which
    nodes are elements. *)
Lemma overlay_inv_restyle editor s c f :
  overlay_inv editor s →
  overlay_inv editor {| doc := map_element f c (doc s); cursors := cursors s |}.
Proof.
  intros [Hwf He Hm Hinj]. pose proof (map_element_shape f c (doc s)) as Hs.
  split; simpl; [by rewrite <- Hs|by apply Hs| |done].
  intros v m [? [el Hel]]%Hm. split; [done|].
  rewrite content_of_map_element, Hel. case_decide; eauto.
Qed.

Lemma overlay_inv_place editor s c u r er :
  overlay_inv editor s →
  overlay_inv editor {| doc := place_cursor c u r er (doc s); cursors := cursors s |}.
Proof.
  intros Hinv. unfold place_cursor, set_style.
  do 7 apply (overlay_inv_restyle editor {| doc := _; cursors := cursors s |}).
  by destruct s.
Qed.

Lemma place_cursor_shape c u r er d : same_shape d (place_cursor c u r er d).
Proof.
  unfold place_cursor, set_style.
  repeat (etransitivity; [|apply map_element_shape]). done.
Qed.

(** ** [find_cursor] *)

Section find.
Context (editor : nat) (u : string) (s : overlay) (Hinv : overlay_inv editor s).

Lemma find_cursor_inv : overlay_inv editor (find_cursor editor u s).2.
Proof using Hinv.
  unfold find_cursor. destruct (get_cursor (cursors s) u) eqn:Hg; [done..|].
  apply get_cursor_Missing in Hg as [Hu _].
  pose proof (overlay_inv_create editor u s Hinv Hu). by destruct (create_cursor _ _ _).
Qed.

(** The marker the function returns is the one recorded for the user. *)
Lemma find_cursor_Some c :
  (find_cursor editor u s).1 = Some c → cursors (find_cursor editor u s).2 !! u = Some c.
Proof using Hinv.
  unfold find_cursor. rewrite create_cursor_doc.
  destruct (get_cursor (cursors s) u) eqn:Hg; simpl; [|done|].
  - intros [= <-]. by apply get_cursor_Own.
  - intros [= <-]. apply lookup_insert_eq.
Qed.

(** The nodes and the markers stay. *)
Lemma find_cursor_nodes j :
  is_Some (nodes (doc s) !! j) → is_Some (nodes (doc (find_cursor editor u s).2) !! j).
Proof using Hinv.
  unfold find_cursor. destruct (get_cursor (cursors s) u) eqn:Hg; [done..|].
  destruct Hinv as [Hwf He _ _].
  destruct (create_cursor_spec editor u s Hwf He) as (_ & _ & Hext & _).
  destruct (create_cursor editor u s) as [c s']. by apply (ext_nodes _ _ _ Hext).
Qed.

Lemma find_cursor_cursors v c :
  cursors s !! v = Some c → cursors (find_cursor editor u s).2 !! v = Some c.
Proof.
  unfold find_cursor. rewrite create_cursor_doc.
  destruct (get_cursor (cursors s) u) eqn:Hg; simpl; [done..|].
  apply get_cursor_Missing in Hg as [Hu _]. intros Hv.
  rewrite lookup_insert_ne; [done|]. congruence.
Qed.

Lemma find_cursor_parent j :
  is_Some (nodes (doc s) !! j) →
  parent_of (doc (find_cursor editor u s).2) j = parent_of (doc s) j.
Proof using Hinv.
  unfold find_cursor. destruct (get_cursor (cursors s) u) eqn:Hg; [done..|].
  destruct Hinv as [Hwf He _ _]. intros Hj%(wf_fresh _ Hwf).
  destruct (create_cursor_spec editor u s Hwf He) as (_ & _ & Hext & _).
  destruct (create_cursor editor u s) as [c s']. by apply (ext_parent _ _ _ Hext).
Qed.

(** The paths of the document lead where they led. *)
Lemma find_cursor_resolve p n :
  resolve (doc s) editor p = Some n → resolve (doc (find_cursor editor u s).2) editor p = Some n.
Proof using Hinv.
  unfold find_cursor. destruct (get_cursor (cursors s) u) eqn:Hg; [done..|].
  destruct Hinv as [Hwf He _ _].
  destruct (create_cursor_spec editor u s Hwf He) as (_ & _ & Hext & Hc & _).
  destruct (create_cursor editor u s) as [c s']. simpl in *.
  by apply (resolve_extends editor _ _ [next_id (doc s)]).
Qed.
End find.

(** ** [place_cursor] *)

Lemma place_cursor_content c u r er d el :
  content_of d c = Some (PElement el) →
  content_of (place_cursor c u r er d) c = Some (PElement (placed u r er el)).
Proof.
  intros Hel. unfold place_cursor, set_style.
  repeat rewrite content_of_map_element, decide_True by done. by rewrite Hel.
Qed.

Lemma place_cursor_content_ne c u r er d j :
  j ≠ c → content_of (place_cursor c u r er d) j = content_of d j.
Proof.
  intros Hne. unfold place_cursor, set_style.
  by repeat rewrite content_of_map_element, decide_False by done.
Qed.

(** ** [updateCursor] *)

Section updateCursor.
Context `{Layout} (editor : nat) (u : string) (pos : position) (s : overlay).

(** The state after the call is the state after [find_cursor], with the
    marker placed when the call succeeds with a node. *)
Lemma updateCursor_state :
  let s1 := (find_cursor editor u s).2 in
  (updateCursor editor u pos s).2 = s1 ∨
  ∃ c r er, (find_cursor editor u s).1 = Some c ∧
            (updateCursor editor u pos s).2 =
            {| doc := place_cursor c u r er (doc s1); cursors := cursors s1 |}.
Proof.
  unfold updateCursor. destruct (find_cursor editor u s) as [cursor s1]. simpl.
  destruct (getNodeFromPath _ _ _); [|by left..].
  destruct (setStart _ _ _); [|by left]. destruct cursor; [right; eauto|by left].
Qed.

Lemma updateCursor_overlay :
  overlay_inv editor s → overlay_inv editor (updateCursor editor u pos s).2.
Proof.
  intros Hinv%(find_cursor_inv editor u).
  destruct updateCursor_state as [->|(c & r & er & _ & ->)]; [done|].
  by apply overlay_inv_place.
Qed.

(** The nodes of the document stay, and so do the markers. *)
Lemma updateCursor_nodes j :
  overlay_inv editor s → is_Some (nodes (doc s) !! j) →
  is_Some (nodes (doc (updateCursor editor u pos s).2) !! j).
Proof.
  intros Hinv Hj%(find_cursor_nodes editor u s Hinv).
  destruct updateCursor_state as [->|(c & r & er & _ & ->)]; [done|].
  simpl. by apply (ss_nodes _ _ (place_cursor_shape c u r er _)).
Qed.

(** The nodes the document had keep their parents: a marker is appended
    when it is created, and never again. *)
Lemma updateCursor_parent j :
  overlay_inv editor s → is_Some (nodes (doc s) !! j) →
  parent_of (doc (updateCursor editor u pos s).2) j = parent_of (doc s) j.
Proof.
  intros Hinv Hj%(find_cursor_parent editor u s Hinv).
  destruct updateCursor_state as [Hs|(c & r & er & _ & Hs)]; rewrite Hs; [done|].
  simpl. by rewrite <- (ss_parent _ _ (place_cursor_shape c u r er _)).
Qed.

Lemma updateCursor_cursors v c :
  cursors s !! v = Some c → cursors (updateCursor editor u pos s).2 !! v = Some c.
Proof.
  intros Hv%(find_cursor_cursors editor u s).
  destruct updateCursor_state as [Hs|(c' & r & er & _ & Hs)]; by rewrite Hs.
Qed.

(** For a user whose marker exists the call changes the style of the
    marker and nothing else: the document keeps its shape, and the other
    nodes their payloads. *)
Lemma updateCursor_known c :
  cursors s !! u = Some c →
  let s' := (updateCursor editor u pos s).2 in
  same_shape (doc s) (doc s') ∧ ∀ j, j ≠ c → content_of (doc s') j = content_of (doc s) j.
Proof.
  intros Hc%get_cursor_Own. cbv zeta.
  assert (find_cursor editor u s = (Some c, s)) as Hf by (unfold find_cursor; by rewrite Hc).
  destruct updateCursor_state as [Hs|(c' & r & er & Hc' & Hs)]; rewrite Hs, Hf in *; [done|].
  injection Hc' as ->. simpl. split; [apply place_cursor_shape|].
  intros j Hj. by apply place_cursor_content_ne.
Qed.

(** C11: [updateCursor] keeps the invariant of the overlay, whatever
    the position and whether it returns or throws: the document stays
    well formed and keeps its nodes, the markers are distinct elements
    of it, and no user loses its marker. *)
Theorem updateCursor_inv :
  overlay_inv editor s →
  let s' := (updateCursor editor u pos s).2 in
  overlay_inv editor s' ∧
  (∀ j, is_Some (nodes (doc s) !! j) → is_Some (nodes (doc s') !! j)) ∧
  (∀ v c, cursors s !! v = Some c → cursors s' !! v = Some c).
Proof.
  intros Hinv. split_and!;
    auto using updateCursor_overlay, updateCursor_nodes, updateCursor_cursors.
Qed.

(** A marker does not disturb the paths of the document.  It is
    appended after the children the editor has, so every path that led
    to a node before the call leads to the same node after it. *)
Theorem updateCursor_keeps_paths (p : list Z) (n : nat) :
  overlay_inv editor s →
  getNodeFromPath (doc s) editor p = JNode n →
  getNodeFromPath (doc (updateCursor editor u pos s).2) editor p = JNode n.
Proof.
  intros Hinv Hp%getNodeFromPath_JNode%(find_cursor_resolve editor u s Hinv).
  apply getNodeFromPath_JNode.
  destruct updateCursor_state as [->|(c & r & er & _ & ->)]; [done|]. simpl.
  by rewrite <- (resolve_shape _ _ (place_cursor_shape c u r er _)).
Qed.

(** The first message of a user: the marker is a new node without
    children, the last child of the editor, a [div] of the class
    [user-cursor] as it was created or as it was placed; the document
    has grown under the editor by this node. *)
Lemma updateCursor_created :
  overlay_inv editor s → get_cursor (cursors s) u = Missing →
  let s' := (updateCursor editor u pos s).2 in
  let c := next_id (doc s) in
  cursors s' !! u = Some c ∧ extends editor (doc s) (doc s') ∧
  next_id (doc s') = S c ∧
  children_of (doc s') editor = children_of (doc s) editor ++ [c] ∧
  children_of (doc s') c = [] ∧
  ∃ el, content_of (doc s') c = Some (PElement el) ∧ is_marker u el.
Proof.
  intros [Hwf He _ _] Hg. cbv zeta.
  assert (find_cursor editor u s = (Some (next_id (doc s)), (create_cursor editor u s).2))
    as Hf by (unfold find_cursor; rewrite Hg; by rewrite create_cursor_doc).
  revert Hf. rewrite create_cursor_doc. cbn [snd]. intros Hf.
  destruct (alloc_append_spec (PElement (marker_element u)) editor (doc s) Hwf He)
    as (_ & Hext & Hn & _ & Hc & Hleaf).
  assert (content_of (appendChild editor (next_id (doc s))
            (alloc (PElement (marker_element u)) (doc s)).2) (next_id (doc s)) =
          Some (PElement (marker_element u))) as Hel
    by by rewrite content_of_appendChild, content_of_alloc_new.
  destruct updateCursor_state as [Hs|(c & r & er & Hc' & Hs)];
    rewrite Hf in Hs; cbn [fst snd] in Hs; rewrite Hs; clear Hs; cbn [doc cursors].
  { split_and!; [apply lookup_insert_eq|done..|]. eexists. split; [done|by left]. }
  rewrite Hf in Hc'. injection Hc' as <-.
  pose proof (place_cursor_shape (next_id (doc s)) u r er
    (appendChild editor (next_id (doc s)) (alloc (PElement (marker_element u)) (doc s)).2)) as Hsh.
  split_and!; [apply lookup_insert_eq| |by rewrite <- (ss_next _ _ Hsh)|
               by rewrite <- (ss_children _ _ Hsh)..|].
  - apply (extends_shape _ _ _ _ Hext Hsh). intros j Hj. apply place_cursor_content_ne. lia.
  - eexists. split; [by apply place_cursor_content|right; eauto].
Qed.

(** The marker is created on the first message of a user, whatever
    the position: before the path is resolved, so also when it does not
    resolve.  The marker is a new node, the last child of the editor,
    with the colour of the user. *)
Theorem updateCursor_first_sighting :
  overlay_inv editor s → get_cursor (cursors s) u = Missing →
  let s' := (updateCursor editor u pos s).2 in
  cursors s' !! u = Some (next_id (doc s)) ∧
  children_of (doc s') editor = children_of (doc s) editor ++ [next_id (doc s)] ∧
  style_of (doc s') (next_id (doc s)) "backgroundColor" = Some (getColorForUser u).
Proof.
  intros Hinv Hg.
  destruct (updateCursor_created Hinv Hg) as (Hc & _ & _ & Hch & _ & el & Hel & Hm).
  split_and!; [done..|]. unfold style_of. rewrite Hel. by apply is_marker_spec.
Qed.

(** An offset beyond the length of the node makes the call throw.
    When the path resolves to a node and the offset, as an unsigned
    32-bit integer, is larger than the length of the node,
    [range.setStart] throws an [IndexSizeError], which [updateCursor]
    does not catch; the marker, if it was created, stays. *)
Theorem updateCursor_stale_offset (n : nat) :
  let s1 := (find_cursor editor u s).2 in
  getNodeFromPath (doc s1) editor (path pos) = JNode n →
  Z.of_nat (node_length (doc s1) n) < offset pos `mod` 2 ^ 32 →
  updateCursor editor u pos s = (Throw IndexSizeError, s1).
Proof.
  unfold updateCursor. destruct (find_cursor editor u s) as [cursor s1]. simpl.
  intros -> Hlen. by rewrite (proj2 (setStart_Throw _ _ _ IndexSizeError)).
Qed.

(** A path that does not resolve leaves the marker of a known user
    where it is: the call returns and the state is unchanged. *)
Theorem updateCursor_stale_path (c : nat) :
  cursors s !! u = Some c → resolve (doc s) editor (path pos) = None →
  updateCursor editor u pos s = (Ok (), s).
Proof.
  intros Hc%get_cursor_Own Hp%getNodeFromPath_falsy.
  unfold updateCursor, find_cursor. rewrite Hc. by destruct Hp as [-> | ->].
Qed.

(** When the path resolves and the offset is in range, the marker
    of the user is placed: it is positioned absolutely, at the distance
    of the range from the editor, two pixels wide and one line high, in
    the colour of the user. *)
Theorem updateCursor_placed (c n : nat) (s1 : overlay) :
  overlay_inv editor s →
  find_cursor editor u s = (Some c, s1) →
  getNodeFromPath (doc s1) editor (path pos) = JNode n →
  offset pos `mod` 2 ^ 32 ≤ Z.of_nat (node_length (doc s1) n) →
  let r := range_rect (doc s1)
             {| startContainer := n; startOffset := offset pos `mod` 2 ^ 32 |} in
  let er := element_rect (doc s1) editor in
  ∃ el, content_of (doc s1) c = Some (PElement el) ∧
        updateCursor editor u pos s =
        (Ok (), {| doc := place_cursor c u r er (doc s1); cursors := cursors s1 |}) ∧
        content_of (place_cursor c u r er (doc s1)) c = Some (PElement (placed u r er el)).
Proof.
  intros Hinv Hf Hp Hoff r er.
  pose proof (find_cursor_inv editor u s Hinv) as [_ _ Hm _].
  pose proof (find_cursor_Some editor u s Hinv c) as Hc.
  rewrite Hf in Hm, Hc. destruct (Hm u c (Hc eq_refl)) as [_ [el Hel]].
  exists el. split_and!; [done| |by apply place_cursor_content].
  unfold updateCursor. rewrite Hf, Hp.
  by rewrite (proj2 (setStart_Ok _ _ _ _) (conj Hoff eq_refl)).
Qed.

(** C35: a user whose name is a property of [Object.prototype] has no
    marker and cannot get one: [cursors[username]] is the inherited
    property, no marker is created, and when the path resolves the
    assignment to [cursor.style.position] throws a [TypeError]. *)
Theorem updateCursor_inherited (n : nat) :
  cursors s !! u = None → u ∈ object_prototype →
  getNodeFromPath (doc s) editor (path pos) = JNode n →
  offset pos `mod` 2 ^ 32 ≤ Z.of_nat (node_length (doc s) n) →
  updateCursor editor u pos s = (Throw TypeError, s).
Proof.
  intros Hu Hin Hp Hoff.
  unfold updateCursor, find_cursor.
  rewrite (proj2 (get_cursor_Inherited _ _) (conj Hu Hin)), Hp.
  by rewrite (proj2 (setStart_Ok _ _ _ _) (conj Hoff eq_refl)).
Qed.
End updateCursor.

(** ** The sample document *)

Lemma hi_overlay_inv : overlay_inv 0 hi_overlay.
Proof. split; [apply hi_dom_wf|by vm_compute; eauto|done..]. Qed.

Lemma bob_overlay_inv : overlay_inv 0 bob_overlay.
Proof.
  pose proof (find_cursor_inv 0 "bob" _ hi_overlay_inv) as Hinv.
  by apply (overlay_inv_place _ _ 3 "bob" {| rect_left := 18; rect_top := 20 |}
              {| rect_left := 10; rect_top := 20 |}) in Hinv.
Qed.

Lemma updateCursor_inv_witness :
  let s' := (@updateCursor grid_layout 0 "bob" {| path := [0; 0]; offset := 1 |} hi_overlay).2 in
  overlay_inv 0 s' ∧
  (∀ j, is_Some (nodes (doc hi_overlay) !! j) → is_Some (nodes (doc s') !! j)) ∧
  (∀ v c, cursors hi_overlay !! v = Some c → cursors s' !! v = Some c).
Proof. apply updateCursor_inv, hi_overlay_inv. Defined.

Lemma updateCursor_keeps_paths_witness :
  getNodeFromPath
    (doc (@updateCursor grid_layout 0 "bob" {| path := [0; 0]; offset := 1 |} hi_overlay).2)
    0 [0; 0] = JNode 2.
Proof. apply updateCursor_keeps_paths; [apply hi_overlay_inv|by vm_compute]. Defined.

Lemma updateCursor_first_sighting_witness :
  let s' := (@updateCursor grid_layout 0 "bob" {| path := [7]; offset := 0 |} hi_overlay).2 in
  cursors s' !! "bob"%string = Some (next_id (doc hi_overlay)) ∧
  children_of (doc s') 0 = children_of (doc hi_overlay) 0 ++ [next_id (doc hi_overlay)] ∧
  style_of (doc s') (next_id (doc hi_overlay)) "backgroundColor" =
    Some (getColorForUser "bob").
Proof. apply updateCursor_first_sighting; [apply hi_overlay_inv|by vm_compute]. Defined.

(** The position of the second scenario, on the document of the first:
    offset 3 in a text of two characters. *)
Lemma updateCursor_stale_offset_witness :
  @updateCursor grid_layout 0 "bob" {| path := [0; 0]; offset := 3 |} hi_overlay =
  (Throw IndexSizeError, (find_cursor 0 "bob" hi_overlay).2).
Proof. apply (updateCursor_stale_offset _ _ _ _ 2); by vm_compute. Defined.

Lemma updateCursor_stale_path_witness :
  @updateCursor grid_layout 0 "bob" {| path := [5; 0]; offset := 0 |} bob_overlay =
  (Ok (), bob_overlay).
Proof. apply (updateCursor_stale_path _ _ _ _ 3); by vm_compute. Defined.

Lemma updateCursor_placed_witness :
  let s1 := (find_cursor 0 "bob" hi_overlay).2 in
  let r := {| rect_left := 18; rect_top := 20 |} in
  let er := {| rect_left := 10; rect_top := 20 |} in
  ∃ el, content_of (doc s1) 3 = Some (PElement el) ∧
        @updateCursor grid_layout 0 "bob" {| path := [0; 0]; offset := 1 |} hi_overlay =
        (Ok (), {| doc := place_cursor 3 "bob" r er (doc s1); cursors := cursors s1 |}) ∧
        content_of (place_cursor 3 "bob" r er (doc s1)) 3 =
        Some (PElement (placed "bob" r er el)).
Proof.
  apply (@updateCursor_placed grid_layout 0 "bob" {| path := [0; 0]; offset := 1 |}
           hi_overlay 3 2 (find_cursor 0 "bob" hi_overlay).2);
    [apply hi_overlay_inv|by vm_compute..].
Defined.

Lemma updateCursor_inherited_witness :
  @updateCursor grid_layout 0 "constructor" {| path := [0; 0]; offset := 1 |} hi_overlay =
  (Throw TypeError, hi_overlay).
Proof.
  apply (updateCursor_inherited _ _ _ _ 2); [done| |by vm_compute..].
  unfold object_prototype. set_solver.
Defined.

(** Bob's marker is node 3, the second child of the editor, 8 pixels to
    the right of the editor's corner. *)
Example bob_overlay_marker :
  cursors bob_overlay !! "bob"%string = Some 3%nat ∧
  children_of (doc bob_overlay) 0 = [1; 3]%nat ∧
  style_of (doc bob_overlay) 3 "left" = Some "8px"%string ∧
  style_of (doc bob_overlay) 3 "top" = Some "0px"%string ∧
  style_of (doc bob_overlay) 3 "backgroundColor" = Some "hsl(157, 75%, 50%)"%string.
Proof. by vm_compute. Qed.

#[export] Hint Resolve overlay_inv_place find_cursor_inv updateCursor_overlay
  hi_overlay_inv : js.
