(* ===== verification/Cookie.v ===== *)
(** * The CSRF token

    [getCSRFToken] (editor.js 206-215, scripts.js 58-67; the two are the
    same) looks the cookie [csrftoken] up in [document.cookie]: it splits
    the string at semicolons, trims each piece, splits the piece at [=]
    and, for the first piece whose name is [csrftoken], returns
    [decodeURIComponent] of what follows the first [=].

    This file defines the string functions the lookup uses ([split],
    [trim], [decodeURIComponent]) and the lookup.  Strings are sequences
    of bytes here: [decodeURIComponent] returns the UTF-8 encoding of the
    string the browser returns, and throws a [URIError] where the
    browser does.  [trim] removes the ASCII white space; cookies are
    ASCII. *)

From Stdlib Require Import Ascii.
From stdpp Require Import base option list numbers strings sets.
From S2P Require Import Prelude.

Local Open Scope N_scope.

(** ** [String.prototype.split] for a separator of one character *)

Fixpoint split (sep : ascii) (s : string) : list string :=
  match s with
  | EmptyString => [EmptyString]
  | String a s' =>
      if decide (a = sep) then EmptyString :: split sep s'
      else match split sep s' with
           | piece :: pieces => String a piece :: pieces
           | [] => [String a EmptyString]
           end
  end.

(** ** [String.prototype.trim] *)

(** Tab, line feed, vertical tab, form feed, carriage return, space. *)
Definition is_space (a : ascii) : bool :=
  let n := Ascii.N_of_ascii a in
  bool_decide (9 ≤ n ≤ 13 ∨ n = 32).

Fixpoint trim_start (s : string) : string :=
  match s with
  | EmptyString => EmptyString
  | String a s' => if is_space a then trim_start s' else s
  end.

Fixpoint trim_end (s : string) : string :=
  match s with
  | EmptyString => EmptyString
  | String a s' =>
      match trim_end s' with
      | EmptyString => if is_space a then EmptyString else String a EmptyString
      | t => String a t
      end
  end.

Definition trim (s : string) : string := trim_end (trim_start s).

(** ** [decodeURIComponent] *)

(** The value of a hexadecimal digit. *)
Definition hex_digit (a : ascii) : option N :=
  let n := Ascii.N_of_ascii a in
  if bool_decide (48 ≤ n ≤ 57) then Some (n - 48)
  else if bool_decide (65 ≤ n ≤ 70) then Some (n - 55)
  else if bool_decide (97 ≤ n ≤ 102) then Some (n - 87)
  else None.

(** A character of the string, or the byte of an escape [%XX]. *)
Inductive token : Set :=
| Raw (a : ascii)
| Esc (b : N).

(** The escapes of a string; a [%] that is not followed by two
    hexadecimal digits is a [URIError]. *)
Fixpoint unescape (s : string) : outcome (list token) :=
  match s with
  | EmptyString => Ok []
  | String a rest =>
      if decide (a = "%"%char) then
        match rest with
        | String h1 (String h2 rest') =>
            match hex_digit h1, hex_digit h2 with
            | Some x, Some y => ts ← unescape rest'; Ok (Esc (16 * x + y) :: ts)
            | _, _ => Throw URIError
            end
        | _ => Throw URIError
        end
      else ts ← unescape rest; Ok (Raw a :: ts)
  end.

(** A continuation byte of UTF-8 in the range [lo, hi]. *)
Definition continuation (lo hi : N) (t : token) : option ascii :=
  match t with
  | Esc b => if bool_decide (lo ≤ b ≤ hi) then Some (Ascii.ascii_of_N b) else None
  | Raw _ => None
  end.

(** The range of the second byte after the lead byte [b] of a sequence
    of three or four bytes: no overlong form, no surrogate, nothing
    above U+10FFFF. *)
Definition second_range (b : N) : N * N :=
  if bool_decide (b = 224) then (160, 191)
  else if bool_decide (b = 237) then (128, 159)
  else if bool_decide (b = 240) then (144, 191)
  else if bool_decide (b = 244) then (128, 143)
  else (128, 191).

(** The bytes of the decoded string.  An escaped byte below 128 is a
    character; an escaped lead byte must be followed by the escaped
    continuation bytes of a well-formed UTF-8 sequence. *)
Fixpoint utf8 (ts : list token) : outcome string :=
  match ts with
  | [] => Ok EmptyString
  | Raw a :: ts' => s ← utf8 ts'; Ok (String a s)
  | Esc b :: ts' =>
      let lead := Ascii.ascii_of_N b in
      let '(lo, hi) := second_range b in
      if bool_decide (b < 128) then s ← utf8 ts'; Ok (String lead s)
      else if bool_decide (194 ≤ b ≤ 223) then
        match ts' with
        | t1 :: ts'' =>
            match continuation 128 191 t1 with
            | Some c1 => s ← utf8 ts''; Ok (String lead (String c1 s))
            | None => Throw URIError
            end
        | _ => Throw URIError
        end
      else if bool_decide (224 ≤ b ≤ 239) then
        match ts' with
        | t1 :: t2 :: ts'' =>
            match continuation lo hi t1, continuation 128 191 t2 with
            | Some c1, Some c2 =>
                s ← utf8 ts''; Ok (String lead (String c1 (String c2 s)))
            | _, _ => Throw URIError
            end
        | _ => Throw URIError
        end
      else if bool_decide (240 ≤ b ≤ 244) then
        match ts' with
        | t1 :: t2 :: t3 :: ts'' =>
            match continuation lo hi t1, continuation 128 191 t2,
                  continuation 128 191 t3 with
            | Some c1, Some c2, Some c3 =>
                s ← utf8 ts''; Ok (String lead (String c1 (String c2 (String c3 s))))
            | _, _, _ => Throw URIError
            end
        | _ => Throw URIError
        end
      else Throw URIError
  end.

(** [decodeURIComponent(value)]; [None] is [undefined], which is
    converted to the string [undefined]. *)
Definition decodeURIComponent (value : option string) : outcome string :=
  ts ← unescape (default "undefined"%string value); utf8 ts.

(** ** [getCSRFToken] *)

(** The loop over the pieces of [document.cookie]. *)
Fixpoint find_token (cookies : list string) : outcome (option string) :=
  match cookies with
  | [] => Ok None
  | cookie :: cookies' =>
      let pieces := split "="%char (trim cookie) in
      let name := hd EmptyString pieces in
      let value := pieces !! 1%nat in
      if decide (name = "csrftoken"%string)
      then token ← decodeURIComponent value; Ok (Some token)
      else find_token cookies'
  end.

Definition getCSRFToken (cookie : string) : outcome (option string) :=
  find_token (split ";"%char cookie).

(** ** Specification: the cookie jar *)

(** The string [document.cookie] of a jar: [name=value] pairs joined by
    a semicolon and a space. *)
Definition pair_string (c : string * string) : string := c.1 +:+ "=" +:+ c.2.

Fixpoint document_cookie (jar : list (string * string)) : string :=
  match jar with
  | [] => EmptyString
  | [c] => pair_string c
  | c :: jar' => pair_string c +:+ "; " +:+ document_cookie jar'
  end.

(** The value of the first cookie of the name. *)
Fixpoint jar_lookup (name : string) (jar : list (string * string)) : option string :=
  match jar with
  | [] => None
  | c :: jar' => if decide (c.1 = name) then Some c.2 else jar_lookup name jar'
  end.

(** A name or a value that passes through the lookup unchanged: it has
    no separator, no escape, and no white space. *)
Definition plain (s : string) : Prop :=
  Forall (λ a, a ≠ ";"%char ∧ a ≠ "="%char ∧ a ≠ "%"%char ∧ is_space a = false) (chars s).

#[export] Instance plain_dec s : Decision (plain s).
Proof. unfold plain. apply _. Defined.

Definition plain_jar (jar : list (string * string)) : Prop :=
  Forall (λ c, plain c.1 ∧ plain c.2) jar.

#[export] Instance plain_jar_dec jar : Decision (plain_jar jar).
Proof. unfold plain_jar. apply _. Defined.

(** ** Strings and their characters *)

Lemma plain_app s1 s2 : plain s1 → plain s2 → plain (s1 +:+ s2).
Proof. unfold plain. rewrite chars_app, Forall_app. auto. Qed.

Lemma plain_notin s (a : ascii) :
  plain s → a = ";"%char ∨ a = "="%char ∨ a = "%"%char ∨ is_space a = true → a ∉ chars s.
Proof.
  unfold plain. rewrite Forall_forall. intros Hs Ha Hin.
  destruct (Hs a Hin) as (? & ? & ? & Hsp). rewrite Hsp in Ha. naive_solver.
Qed.

(** ** [split] *)

Lemma split_plain sep s : sep ∉ chars s → split sep s = [s].
Proof.
  induction s as [|a s IH]; simpl; [done|]. rewrite not_elem_of_cons.
  intros [Hne Hs]. rewrite decide_False by done. by rewrite IH.
Qed.

Lemma split_app sep s1 s2 :
  sep ∉ chars s1 → split sep (s1 +:+ String sep s2) = s1 :: split sep s2.
Proof.
  induction s1 as [|a s1 IH]; simpl.
  - intros _. by rewrite decide_True.
  - rewrite not_elem_of_cons. intros [Hne Hs]. rewrite decide_False by done.
    by rewrite IH.
Qed.

(** ** [trim] *)

Lemma trim_end_nospace s :
  Forall (λ a, is_space a = false) (chars s) → trim_end s = s.
Proof.
  induction s as [|a s IH]; simpl; [done|]. intros [Ha Hs]%Forall_cons.
  rewrite IH by done. destruct s; [by rewrite Ha|done].
Qed.

Lemma trim_nospace s : Forall (λ a, is_space a = false) (chars s) → trim s = s.
Proof.
  intros Hs. unfold trim. destruct s as [|a s]; [done|].
  apply Forall_cons in Hs as Hs'. destruct Hs' as [Ha _]. simpl. rewrite Ha.
  by apply trim_end_nospace.
Qed.

Lemma trim_space s : trim (String " " s) = trim s.
Proof. done. Qed.

(** ** [decodeURIComponent] *)

Fixpoint string_of (l : list ascii) : string :=
  match l with
  | [] => EmptyString
  | a :: l' => String a (string_of l')
  end.

Lemma string_of_chars s : string_of (chars s) = s.
Proof. induction s; simpl; congruence. Qed.

Lemma unescape_plain s : "%"%char ∉ chars s → unescape s = Ok (Raw <$> chars s).
Proof.
  induction s as [|a s IH]; simpl; [done|]. rewrite not_elem_of_cons.
  intros [Hne Hs]. rewrite decide_False by done. by rewrite IH.
Qed.

Lemma utf8_raw l : utf8 (Raw <$> l) = Ok (string_of l).
Proof. induction l as [|a l IH]; [done|]. rewrite fmap_cons. cbn [utf8]. by rewrite IH. Qed.

(** A string without escapes decodes to itself. *)
Lemma decodeURIComponent_plain s :
  "%"%char ∉ chars s → decodeURIComponent (Some s) = Ok s.
Proof.
  intros Hs. unfold decodeURIComponent. cbn [default].
  rewrite unescape_plain by done.
  change (utf8 (Raw <$> chars s) = Ok s). by rewrite utf8_raw, string_of_chars.
Qed.

(** ** The lookup *)

Section lookup.
Implicit Types (c : string * string) (jar : list (string * string)).

Lemma pair_string_nospace c :
  plain c.1 → plain c.2 → Forall (λ a, is_space a = false) (chars (pair_string c)).
Proof.
  unfold pair_string, plain. rewrite !chars_app, !Forall_app. intros H1 H2.
  split_and!; [|by repeat constructor|]; eapply Forall_impl; eauto; naive_solver.
Qed.

Lemma pair_string_nosemi c : plain c.1 → plain c.2 → ";"%char ∉ chars (pair_string c).
Proof.
  intros H1 H2. unfold pair_string. rewrite !chars_app, !elem_of_app.
  intros [Hin|[Hin|Hin]].
  - by apply (plain_notin _ _ H1) in Hin; auto.
  - by apply list_elem_of_singleton in Hin.
  - by apply (plain_notin _ _ H2) in Hin; auto.
Qed.

Lemma trim_pair c : plain c.1 → plain c.2 → trim (pair_string c) = pair_string c.
Proof. intros H1 H2. by apply trim_nospace, pair_string_nospace. Qed.

(** What the loop does with a piece that is one cookie of the jar. *)
Lemma find_token_piece piece c cookies :
  trim piece = pair_string c → plain c.1 → plain c.2 →
  find_token (piece :: cookies) =
  if decide (c.1 = "csrftoken"%string) then Ok (Some c.2) else find_token cookies.
Proof.
  intros Ht H1 H2. cbn [find_token]. rewrite Ht. unfold pair_string.
  change (c.1 +:+ "=" +:+ c.2) with (c.1 +:+ String "=" c.2).
  rewrite split_app, split_plain by (by apply plain_notin; auto).
  cbn [hd]. case_decide; [|done].
  change ([c.1; c.2] !! 1%nat) with (Some c.2).
  rewrite decodeURIComponent_plain; [done|]. by apply plain_notin; auto.
Qed.

(** The pieces of [document.cookie]. *)
Definition cookie_pieces jar : list string :=
  match jar with
  | [] => [EmptyString]
  | c :: jar' => pair_string c :: ((λ c', String " " (pair_string c')) <$> jar')
  end.

Lemma split_document_cookie jar :
  plain_jar jar → split ";"%char (document_cookie jar) = cookie_pieces jar.
Proof.
  induction jar as [|c jar IH]; [done|]. intros [[H1 H2] Hjar]%Forall_cons.
  pose proof (pair_string_nosemi c H1 H2) as Hns.
  destruct jar as [|c' jar]; [by apply split_plain|].
  change (document_cookie (c :: c' :: jar))
    with (pair_string c +:+ String ";" (String " " (document_cookie (c' :: jar)))).
  rewrite split_app by done. cbn [cookie_pieces fmap list_fmap]. f_equal.
  cbn [split]. rewrite decide_False by done. by rewrite (IH Hjar).
Qed.

Lemma find_token_spaced jar :
  plain_jar jar →
  find_token ((λ c', String " " (pair_string c')) <$> jar) = Ok (jar_lookup "csrftoken" jar).
Proof.
  induction jar as [|c jar IH]; [done|]. intros [[H1 H2] Hjar]%Forall_cons.
  rewrite fmap_cons, (find_token_piece _ c);
    [|by rewrite trim_space; apply trim_pair|done..].
  cbn [jar_lookup]. case_decide; [done|]. by apply IH.
Qed.
End lookup.

(** A string without semicolon and white space is one piece, which
    [trim] leaves as it is. *)
Definition flat (a : ascii) : Prop := a ≠ ";"%char ∧ is_space a = false.

#[export] Instance flat_dec a : Decision (flat a).
Proof. unfold flat. apply _. Defined.

Lemma plain_flat s : plain s → Forall flat (chars s).
Proof. intros Hs. eapply Forall_impl; [exact Hs|]. unfold flat. naive_solver. Qed.

Lemma getCSRFToken_single piece :
  Forall flat (chars piece) → getCSRFToken piece = find_token [piece] ∧ trim piece = piece.
Proof.
  intros Hp. unfold getCSRFToken. split.
  - rewrite split_plain; [done|]. rewrite Forall_forall in Hp. intros Hin.
    by destruct (Hp _ Hin).
  - apply trim_nospace. eapply Forall_impl; [exact Hp|]. by intros ? [].
Qed.

Lemma getCSRFToken_roundtrip_jar (jar : list (string * string)) :
  plain_jar jar → getCSRFToken (document_cookie jar) = Ok (jar_lookup "csrftoken" jar).
Proof.
  intros Hjar. unfold getCSRFToken. rewrite split_document_cookie by done.
  destruct jar as [|c jar]; [done|]. apply Forall_cons in Hjar as [[H1 H2] Hjar].
  unfold cookie_pieces. rewrite (find_token_piece _ c); [|by apply trim_pair|done..].
  cbn [jar_lookup].
  case_decide; [done|]. by apply find_token_spaced.
Qed.

(** The lookup returns the cookie.  For a jar of cookies whose
    names and values have no separator, no escape and no white space,
    [getCSRFToken] applied to the string [document.cookie] of the jar
    returns the value of the first cookie named [csrftoken], and [null]
    exactly when the jar has no cookie of that name. *)
Theorem getCSRFToken_roundtrip (jar : list (string * string)) :
  plain_jar jar →
  getCSRFToken (document_cookie jar) = Ok (jar_lookup "csrftoken" jar) ∧
  (getCSRFToken (document_cookie jar) = Ok None ↔ "csrftoken"%string ∉ jar.*1).
Proof.
  intros Hjar. rewrite getCSRFToken_roundtrip_jar by done. split; [done|].
  clear Hjar. induction jar as [|c jar IH]; cbn [jar_lookup fmap list_fmap].
  - split; [set_solver|done].
  - rewrite not_elem_of_cons. case_decide; [naive_solver|]. rewrite IH. naive_solver.
Qed.

Lemma getCSRFToken_roundtrip_witness :
  getCSRFToken (document_cookie [("sessionid", "abc"); ("csrftoken", "t0k3n")]%string) =
  Ok (jar_lookup "csrftoken" [("sessionid", "abc"); ("csrftoken", "t0k3n")]%string) ∧
  (getCSRFToken (document_cookie [("sessionid", "abc"); ("csrftoken", "t0k3n")]%string) =
   Ok None ↔
   "csrftoken"%string ∉ [("sessionid", "abc"); ("csrftoken", "t0k3n")]%string.*1).
Proof. apply getCSRFToken_roundtrip. apply (bool_decide_unpack _). by vm_compute. Defined.

(** A value is cut at its first [=].  The piece is split at every
    [=] and only the second part is read, so of a token [a=b] the lookup
    returns [a]. *)
Theorem getCSRFToken_truncates (a b : string) :
  plain a → plain b →
  getCSRFToken ("csrftoken=" +:+ a +:+ "=" +:+ b) = Ok (Some a).
Proof.
  intros Ha Hb. destruct (getCSRFToken_single ("csrftoken=" +:+ a +:+ "=" +:+ b)) as [-> Ht].
  { rewrite !chars_app, !Forall_app.
    split_and!; [by apply (bool_decide_unpack _)|by apply plain_flat
                |by apply (bool_decide_unpack _)|by apply plain_flat]. }
  cbn [find_token]. rewrite Ht.
  change ("csrftoken=" +:+ a +:+ "=" +:+ b)
    with ("csrftoken" +:+ String "=" (a +:+ String "=" b)).
  rewrite split_app by (apply (bool_decide_unpack _); by vm_compute).
  rewrite split_app, split_plain by (by apply plain_notin; auto).
  cbn [hd]. rewrite decide_True by done.
  change (["csrftoken"%string; a; b] !! 1%nat) with (Some a).
  rewrite decodeURIComponent_plain; [done|]. by apply plain_notin; auto.
Qed.

Lemma getCSRFToken_truncates_witness :
  getCSRFToken ("csrftoken=" +:+ "abc" +:+ "=" +:+ "def") = Ok (Some "abc"%string).
Proof. apply getCSRFToken_truncates; apply (bool_decide_unpack _); by vm_compute. Defined.

(** A cookie without [=] gives the string [undefined]; an escape that is
    not two hexadecimal digits, or not UTF-8, throws; an escaped token is
    decoded. *)
Example getCSRFToken_cases :
  getCSRFToken "csrftoken" = Ok (Some "undefined"%string) ∧
  getCSRFToken "a=1; csrftoken=%zz" = Throw URIError ∧
  getCSRFToken "a=1; csrftoken=%C3%28" = Throw URIError ∧
  getCSRFToken "a=1; csrftoken=x%2Fy%3D" = Ok (Some "x/y="%string) ∧
  getCSRFToken "a=1;  CSRFTOKEN=x" = Ok None ∧
  getCSRFToken "" = Ok None.
Proof. by vm_compute. Qed.
