(* ===== verification/Json.v ===== *)
(** * JSON values and what the scripts do with them

    [JSON.parse] gives the scripts a value they have not built: the
    message of a peer (editor.js, 46), the document of the server (25),
    the answer to a request (scripts.js, 85).  The scripts read
    properties of it, test it for truth, compare it with a string and
    assign it to [innerHTML].  This file holds the values and those
    operations, as ECMAScript defines them on the values JSON has.

    A number is an integer: the positions of the editor hold indices and
    offsets, and the decimal text of a fraction is not modelled.  The
    operations start at the value: the text that [JSON.parse] refuses
    is a [SyntaxError] where the value is expected.  The texts are in
    [JsonText]. *)

From stdpp Require Import base option list numbers strings pretty.
From S2P Require Import Prelude.

Local Open Scope Z_scope.

(** ** Values *)

(** The properties of an object are in the order [JSON.parse] found
    them; a name occurs once. *)
Inductive json : Set :=
| JNull
| JBool (b : bool)
| JNumber (n : Z)
| JString (s : string)
| JArray (items : list json)
| JObject (fields : list (string * json)).

(** The own property [key] of an object; [None] is [undefined]. *)
Fixpoint field (key : string) (fields : list (string * json)) : option json :=
  match fields with
  | [] => None
  | (k, v) :: fields => if String.eqb k key then Some v else field key fields
  end.

(** [v.key], for the names the scripts read ([action], [content],
    [user], [cursorPosition], [path], [offset], [status]): none is a
    property of the prototype of a string, a number, a boolean or an
    array, so only an object may have it; reading a property of [null]
    is a [TypeError]. *)
Definition get (v : json) (key : string) : outcome (option json) :=
  match v with
  | JNull => Throw TypeError
  | JObject fields => Ok (field key fields)
  | _ => Ok None
  end.

(** [ToBoolean] *)
Definition truthy (v : json) : bool :=
  match v with
  | JNull => false
  | JBool b => b
  | JNumber n => negb (n =? 0)
  | JString s => negb (bool_decide (s = ""%string))
  | JArray _ | JObject _ => true
  end.

(** [v === 'literal'] *)
Definition is_string (v : option json) (literal : string) : bool :=
  match v with
  | Some (JString s) => bool_decide (s = literal)
  | _ => false
  end.

(** [v || d] *)
Definition or_else (v : option json) (d : json) : json :=
  match v with
  | Some j => if truthy j then j else d
  | None => d
  end.

(** [ToString]: an array is its items joined by commas, [null] among
    them as the empty string; an object that is no array is
    [[object Object]]. *)
Fixpoint to_string (v : json) : string :=
  match v with
  | JNull => "null"
  | JBool true => "true"
  | JBool false => "false"
  | JNumber n => pretty n
  | JString s => s
  | JArray items =>
      String.concat ","
        (map (λ x, match x with JNull => ""%string | _ => to_string x end) items)
  | JObject _ => "[object Object]"
  end.

(** The answer to a [fetch]: the promise is rejected, or it resolves to
    a response with its flag [ok] and its body, [None] when the body is
    not JSON. *)
Inductive answer : Set :=
| Rejected
| Response (ok : bool) (body : option json).

(** ** Equality *)

Fixpoint json_eqb (a b : json) : bool :=
  match a, b with
  | JNull, JNull => true
  | JBool x, JBool y => bool_decide (x = y)
  | JNumber x, JNumber y => bool_decide (x = y)
  | JString x, JString y => bool_decide (x = y)
  | JArray l, JArray l' =>
      (fix go l l' :=
         match l, l' with
         | [], [] => true
         | x :: l, y :: l' => json_eqb x y && go l l'
         | _, _ => false
         end) l l'
  | JObject fs, JObject fs' =>
      (fix go fs fs' :=
         match fs, fs' with
         | [], [] => true
         | (k, x) :: fs, (k', y) :: fs' =>
             bool_decide (k = k') && json_eqb x y && go fs fs'
         | _, _ => false
         end) fs fs'
  | _, _ => false
  end.

(** ** Induction *)

Section json_ind.
Context (P : json → Prop).
Context (Hnull : P JNull) (Hbool : ∀ b, P (JBool b)) (Hnumber : ∀ n, P (JNumber n)).
Context (Hstring : ∀ s, P (JString s)).
Context (Harray : ∀ items, Forall P items → P (JArray items)).
Context (Hobject : ∀ fields, Forall (λ f, P f.2) fields → P (JObject fields)).

Fixpoint json_ind' (v : json) : P v :=
  match v with
  | JNull => Hnull
  | JBool b => Hbool b
  | JNumber n => Hnumber n
  | JString s => Hstring s
  | JArray items =>
      Harray items
        ((fix go items : Forall P items :=
            match items with
            | [] => Forall_nil_2 P
            | x :: items => Forall_cons_2 P x items (json_ind' x) (go items)
            end) items)
  | JObject fields =>
      Hobject fields
        ((fix go fields : Forall (λ f, P f.2) fields :=
            match fields with
            | [] => Forall_nil_2 _
            | (k, x) :: fields =>
                Forall_cons_2 (λ f, P f.2) (k, x) fields (json_ind' x) (go fields)
            end) fields)
  end.
End json_ind.

Lemma json_eqb_eq a b : json_eqb a b = true ↔ a = b.
Proof.
  revert b. induction a as [|x|x|x|l IH|fs IH] using json_ind'; intros [|y|y|y|l'|fs'];
    simpl; try (split; [done|intros; congruence]);
    try (rewrite bool_decide_eq_true; split; congruence).
  - revert l'. induction IH as [|x l Hx _ IHl]; intros [|y l']; try (split; [done|congruence]).
    rewrite andb_true_iff, Hx. specialize (IHl l'). split.
    + intros [-> Hl]. apply IHl in Hl. congruence.
    + intros [= -> ->]. split; [done|]. by apply IHl.
  - revert fs'. induction IH as [|[k x] fs Hx _ IHfs]; intros [|[k' y] fs'];
      try (split; [done|congruence]).
    rewrite !andb_true_iff, bool_decide_eq_true. simpl in Hx. rewrite Hx.
    specialize (IHfs fs'). split.
    + intros [[-> ->] Hfs]. apply IHfs in Hfs. congruence.
    + intros [= -> -> ->]. split_and!; [done..|]. by apply IHfs.
Qed.

#[export] Instance json_eq_dec : EqDecision json.
Proof.
  intros a b. refine (cast_if (decide (json_eqb a b = true))); by rewrite <- json_eqb_eq.
Defined.

#[export] Instance answer_eq_dec : EqDecision answer.
Proof. solve_decision. Defined.

(** ** Reading properties *)

Lemma get_Throw v key err : get v key = Throw err ↔ v = JNull ∧ err = TypeError.
Proof. destruct v; simpl; split; (intros [= <-] || intros [[=] ->] || intros [_ ->]); done. Qed.

Lemma is_string_true v literal : is_string v literal = true ↔ v = Some (JString literal).
Proof.
  destruct v as [[]|]; simpl; rewrite ?bool_decide_eq_true; naive_solver.
Qed.

