(* ===== verification/JsonText.v ===== *)
(** * The text of JSON values

    The scripts hand values to [JSON.stringify] (editor.js 84 and 260,
    scripts.js 77) and read the text of a peer or of the server with
    [JSON.parse] (editor.js 46) and [response.json()] (editor.js 23,
    scripts.js 85).  This file holds the two functions on the values of
    [Json], as ECMAScript defines them, and shows that what the first
    writes the second reads.

    - [JSON_stringify] writes a value without white space: the
      properties of an object in their order, a string between quotes
      with the escapes of [QuoteJSONString], an integer in decimal.
    - [JSON_parse] reads the grammar of JSON with white space between
      the tokens.  A property that occurs twice keeps its place and
      takes the later value.  The result is a value, the exception
      [SyntaxError], or [None] for a text whose value [Json] does not
      have: a number with a fraction or an exponent or beyond 2^53, an
      escape [\u] above 007F, and an object with a property whose name
      is a sequence of digits, which the object would list before the
      others.

    Strings are sequences of bytes, as in [Cookie]: a character outside
    ASCII is the bytes of its UTF-8 encoding, which both functions pass
    on as they are.  Minus zero is zero. *)

From Stdlib Require Import Ascii String.
From stdpp Require Import base option list numbers strings pretty sets.
From S2P Require Import Prelude Json.

(** ** Characters *)

Definition c_backslash : ascii := ascii_of_nat 92.
Definition c_slash : ascii := "/"%char.

(** The characters [QuoteJSONString] writes as a backslash and a
    letter, with the letter. *)
Definition short_escapes : list (ascii * ascii) :=
  [(ascii_of_nat 8, "b"%char); (ascii_of_nat 9, "t"%char); (ascii_of_nat 10, "n"%char);
   (ascii_of_nat 12, "f"%char); (ascii_of_nat 13, "r"%char);
   (c_quot, c_quot); (c_backslash, c_backslash)].

Definition short_escape (c : ascii) : option ascii :=
  (λ e, e.2.2) <$> list_find (λ e, e.1 = c) short_escapes.

(** The character a backslash and the letter [e] stand for; the slash
    may be escaped and never is by the writer. *)
Definition escaped_char (e : ascii) : option ascii :=
  (λ p, p.2.1) <$> list_find (λ p, p.2 = e) ((c_slash, c_slash) :: short_escapes).

Definition hex_char (n : nat) : ascii :=
  nth n (chars "0123456789abcdef") "0"%char.

Definition hex_value (c : ascii) : option nat :=
  let n := nat_of_ascii c in
  if (48 <=? n) && (n <=? 57) then Some (n - 48)
  else if (97 <=? n) && (n <=? 102) then Some (n - 87)
  else if (65 <=? n) && (n <=? 70) then Some (n - 55)
  else None.

Definition is_ws (c : ascii) : bool :=
  bool_decide (nat_of_ascii c ∈ [32; 9; 10; 13]).

Definition digit_value (c : ascii) : option N :=
  let n := nat_of_ascii c in
  if (48 <=? n) && (n <=? 57) then Some (N.of_nat (n - 48)) else None.

(** ** Writing *)

Definition escape_json_char (c : ascii) : list ascii :=
  match short_escape c with
  | Some e => [c_backslash; e]
  | None =>
      let n := nat_of_ascii c in
      if n <? 32
      then [c_backslash; "u"; "0"; "0"; hex_char (n / 16); hex_char (n mod 16)]%char
      else [c]
  end.

(** [QuoteJSONString] *)
Definition quote (s : string) : list ascii :=
  c_quot :: (chars s ≫= escape_json_char) ++ [c_quot].

Fixpoint commas (ls : list (list ascii)) : list ascii :=
  match ls with
  | [] => []
  | l :: ls' =>
      match ls' with
      | [] => l
      | _ :: _ => l ++ ","%char :: commas ls'
      end
  end.

(** [SerializeJSONProperty] with no gap. *)
Fixpoint write (v : json) : list ascii :=
  match v with
  | JNull => chars "null"
  | JBool b => chars (if b then "true" else "false")
  | JNumber n => chars (pretty n)
  | JString s => quote s
  | JArray items => "["%char :: commas (map write items) ++ ["]"%char]
  | JObject fields =>
      "{"%char ::
        commas (map (λ '(k, x), quote k ++ ":"%char :: write x) fields) ++ ["}"%char]
  end.

(** [JSON.stringify(v)] *)
Definition JSON_stringify (v : json) : string := text (write v).

(** ** Reading *)

(** What a parser returns: a value and the input after it, the
    exception [SyntaxError], a text whose value the model does not
    have, or that it ran out of fuel. *)
Inductive parsed (A : Type) : Type :=
| Done (a : A) (rest : list ascii)
| Syntax
| Outside
| Fuel.
Global Arguments Done {_} _ _.
Global Arguments Syntax {_}.
Global Arguments Outside {_}.
Global Arguments Fuel {_}.

Definition pmap {A B} (f : A → B) (r : parsed A) : parsed B :=
  match r with
  | Done a rest => Done (f a) rest
  | Syntax => Syntax
  | Outside => Outside
  | Fuel => Fuel
  end.

Fixpoint skip_ws (l : list ascii) : list ascii :=
  match l with
  | c :: l' => if is_ws c then skip_ws l' else l
  | [] => []
  end.

(** The digits the input starts with, added to [acc], and the rest. *)
Fixpoint read_digits (acc : N) (l : list ascii) : N * list ascii :=
  match l with
  | c :: l' =>
      match digit_value c with
      | Some d => read_digits (acc * 10 + d) l'
      | None => (acc, l)
      end
  | [] => (acc, [])
  end.

(** The input goes on with a fraction or an exponent. *)
Definition starts_fraction (l : list ascii) : bool :=
  match l with
  | c :: _ => bool_decide (c ∈ ["."; "e"; "E"]%char)
  | [] => false
  end.

(** The integers a number holds exactly. *)
Definition max_safe : N := 2 ^ 53.

(** The digits of a number after its sign: a zero, or digits that
    start with another digit. *)
Definition parse_digits (sign : Z) (l : list ascii) : parsed json :=
  match l with
  | [] => Syntax
  | c :: l' =>
      match digit_value c with
      | None => Syntax
      | Some d =>
          let '(n, rest) := if decide (d = 0%N) then (0%N, l') else read_digits d l' in
          if starts_fraction rest then Outside
          else if (n <=? max_safe)%N then Done (JNumber (sign * Z.of_N n)) rest
          else Outside
      end
  end.

Definition parse_number (l : list ascii) : parsed json :=
  match l with
  | c :: l' => if decide (c = "-"%char) then parse_digits (-1) l' else parse_digits 1 l
  | [] => Syntax
  end.

(** The four hexadecimal digits of an escape. *)
Definition hex4 (a b c d : ascii) : option nat :=
  a ← hex_value a; b ← hex_value b; c ← hex_value c; d ← hex_value d;
  Some (((a * 16 + b) * 16 + c) * 16 + d).

Definition push (c : ascii) (r : parsed string) : parsed string :=
  pmap (String c) r.

(** The characters of a string after its opening quote, to the closing
    quote. *)
Fixpoint parse_string (l : list ascii) : parsed string :=
  match l with
  | [] => Syntax
  | c :: l' =>
      if decide (c = c_quot) then Done EmptyString l'
      else if decide (c = c_backslash) then
        match l' with
        | [] => Syntax
        | e :: l'' =>
            match escaped_char e with
            | Some x => push x (parse_string l'')
            | None =>
                if decide (e = "u"%char) then
                  match l'' with
                  | h1 :: h2 :: h3 :: h4 :: l3 =>
                      match hex4 h1 h2 h3 h4 with
                      | Some n =>
                          if n <? 128 then push (ascii_of_nat n) (parse_string l3)
                          else Outside
                      | None => Syntax
                      end
                  | _ => Syntax
                  end
                else Syntax
            end
        end
      else if nat_of_ascii c <? 32 then Syntax
      else push c (parse_string l')
  end.

(** A literal name. *)
Definition keyword (word : string) (v : json) (l : list ascii) : parsed json :=
  match strip (chars word) l with
  | Some rest => Done v rest
  | None => Syntax
  end.

(** The assignment of a property: an own property keeps its place. *)
Fixpoint set_field (k : string) (v : json) (fields : list (string * json))
    : list (string * json) :=
  match fields with
  | [] => [(k, v)]
  | (k', v') :: fields' =>
      if String.eqb k' k then (k', v) :: fields' else (k', v') :: set_field k v fields'
  end.

(** A name an object lists among its indices: a sequence of digits. *)
Definition all_digits (k : string) : bool :=
  negb (bool_decide (k = EmptyString)) &&
  forallb (λ c, bool_decide (is_Some (digit_value c))) (chars k).

(** What the parser reads next: a value, the items of an array after
    the ones in [acc], the members of an object after the ones in
    [acc]. *)
Inductive mode : Set :=
| Value
| Items (acc : list json)
| Members (acc : list (string * json)).

(** The end of an item or a member: a comma goes on with [next],
    [close] ends the array or object [v]. *)
Definition separator (close : ascii) (v : json) (next : list ascii → parsed json)
    (l : list ascii) : parsed json :=
  match skip_ws l with
  | c :: rest =>
      if decide (c = ","%char) then next rest
      else if decide (c = close) then Done v rest
      else Syntax
  | [] => Syntax
  end.

(** After the bracket [open]: the empty array or object, or its items
    or members. *)
Definition opened (close : ascii) (empty : json) (next : list ascii → parsed json)
    (l : list ascii) : parsed json :=
  match skip_ws l with
  | c :: rest => if decide (c = close) then Done empty rest else next l
  | [] => Syntax
  end.

(** The name of a member and its colon. *)
Definition parse_key (l : list ascii) : parsed string :=
  match skip_ws l with
  | c :: l1 =>
      if decide (c = c_quot) then
        match parse_string l1 with
        | Done k l2 =>
            if all_digits k then Outside
            else
              match skip_ws l2 with
              | c' :: l3 => if decide (c' = ":"%char) then Done k l3 else Syntax
              | [] => Syntax
              end
        | r => r
        end
      else Syntax
  | [] => Syntax
  end.

Fixpoint parse_json (fuel : nat) (m : mode) (l : list ascii) : parsed json :=
  match fuel with
  | 0 => Fuel
  | S fuel =>
      match m with
      | Value =>
          match skip_ws l with
          | [] => Syntax
          | c :: l' =>
              if decide (c = "["%char) then
                opened "]" (JArray []) (parse_json fuel (Items [])) l'
              else if decide (c = "{"%char) then
                opened "}" (JObject []) (parse_json fuel (Members [])) l'
              else if decide (c = c_quot) then pmap JString (parse_string l')
              else if decide (c = "n"%char) then keyword "null" JNull (c :: l')
              else if decide (c = "t"%char) then keyword "true" (JBool true) (c :: l')
              else if decide (c = "f"%char) then keyword "false" (JBool false) (c :: l')
              else parse_number (c :: l')
          end
      | Items acc =>
          match parse_json fuel Value l with
          | Done v rest =>
              separator "]" (JArray (acc ++ [v])) (parse_json fuel (Items (acc ++ [v]))) rest
          | r => r
          end
      | Members acc =>
          match parse_key l with
          | Done k l' =>
              match parse_json fuel Value l' with
              | Done v rest =>
                  separator "}" (JObject (set_field k v acc))
                    (parse_json fuel (Members (set_field k v acc))) rest
              | r => r
              end
          | Syntax => Syntax
          | Outside => Outside
          | Fuel => Fuel
          end
      end
  end.

(** [JSON.parse(text)]: the value, the exception, or [None] for a text
    outside the model.  Two calls for every character and two more are
    enough fuel ([parse_json_fuel]). *)
Definition JSON_parse (text : string) : option (outcome json) :=
  match parse_json (2 * String.length text + 2) Value (chars text) with
  | Done v rest =>
      match skip_ws rest with
      | [] => Some (Ok v)
      | _ :: _ => Some (Throw SyntaxError)
      end
  | Syntax => Some (Throw SyntaxError)
  | Outside | Fuel => None
  end.

(** ** The values that are texts

    A value that [JSON.parse] returns and [JSON.stringify] writes back
    as it was: its numbers are integers a number holds exactly, and the
    names of the properties of an object are distinct and no indices. *)
Fixpoint json_wf (v : json) : bool :=
  match v with
  | JNull | JBool _ | JString _ => true
  | JNumber n => (Z.abs n <=? Z.of_N max_safe)%Z
  | JArray items => forallb json_wf items
  | JObject fields =>
      bool_decide (NoDup fields.*1) &&
      forallb (λ f, negb (all_digits f.1)) fields &&
      forallb (λ '(_, x), json_wf x) fields
  end.

(** ** Strings *)

(** The parser reads the escape of a character as the character. *)
Lemma parse_string_char c w :
  parse_string (escape_json_char c ++ w) = push c (parse_string w).
Proof. by destruct c as [[] [] [] [] [] [] [] []]. Qed.

Lemma parse_string_escaped s rest :
  parse_string ((chars s ≫= escape_json_char) ++ c_quot :: rest) = Done s rest.
Proof.
  induction s as [|c s IH]; [done|].
  cbn [chars list_ascii_of_string]. rewrite bind_cons, <- app_assoc, parse_string_char.
  fold (chars s). by rewrite IH.
Qed.

(** ** Numbers *)

(** The input after a value the writer wrote: its end, or the comma or
    the bracket that follows an item or a member. *)
Definition delimited (rest : list ascii) : Prop :=
  match rest with
  | [] => True
  | c :: _ => c ∈ [","; "]"; "}"]%char
  end.

Definition is_digit (c : ascii) : Prop := is_Some (digit_value c).

Definition add_digit (acc : N) (c : ascii) : N := (acc * 10 + default 0 (digit_value c))%N.

Lemma delimited_stops rest :
  delimited rest →
  starts_fraction rest = false ∧ skip_ws rest = rest ∧ ∀ acc, read_digits acc rest = (acc, rest).
Proof.
  destruct rest as [|c rest]; [done|]. simpl.
  intros [->|[->|[->|[]%elem_of_nil]%elem_of_cons]%elem_of_cons]%elem_of_cons; done.
Qed.

Lemma read_digits_app ds acc rest :
  Forall is_digit ds → delimited rest →
  read_digits acc (ds ++ rest) = (foldl add_digit acc ds, rest).
Proof.
  intros Hds Hrest. revert acc. induction Hds as [|c ds [d Hd] _ IH]; intros acc; simpl.
  - by apply delimited_stops.
  - assert (add_digit acc c = acc * 10 + d)%N as -> by (unfold add_digit; by rewrite Hd).
    by rewrite Hd, IH.
Qed.

Lemma digit_value_pretty y : (y < 10)%N → digit_value (pretty_N_char y) = Some y.
Proof.
  intros Hy.
  assert (y ∈ [0; 1; 2; 3; 4; 5; 6; 7; 8; 9]%N) as Hin
    by (rewrite !elem_of_cons; lia).
  repeat (apply elem_of_cons in Hin as [->|Hin]; [done|]). by apply elem_of_nil in Hin.
Qed.

(** The decimal text of a positive number: a digit other than zero,
    then digits, which [read_digits] adds up to the number. *)
Lemma pretty_N_go_digits x s :
  (0 < x)%N →
  ∃ c d ds, chars (pretty_N_go x s) = c :: ds ++ chars s ∧
            digit_value c = Some d ∧ d ≠ 0%N ∧ Forall is_digit ds ∧
            foldl add_digit d ds = x.
Proof.
  revert s. induction (N.lt_wf_0 x) as [x _ IH]; intros s Hx.
  rewrite pretty_N_go_step by done.
  pose proof (digit_value_pretty (x `mod` 10)%N (N.mod_lt x 10 ltac:(done))) as Hd.
  destruct (decide (x `div` 10 = 0)%N) as [Hz|Hnz].
  - rewrite Hz, pretty_N_go_0. pose proof (N.div_mod x 10 ltac:(done)).
    exists (pretty_N_char (x `mod` 10)), (x `mod` 10)%N, [].
    split_and!; [done..|lia|constructor|simpl; lia].
  - destruct (IH (x `div` 10)%N) with (s := String (pretty_N_char (x `mod` 10)) s)
      as (c & d & ds & Hc & Hcd & Hd0 & Hds & Hv);
      [by apply N.div_lt|by apply N.neq_0_lt_0|].
    exists c, d, (ds ++ [pretty_N_char (x `mod` 10)]).
    split_and!; [by rewrite Hc, <- app_assoc|done..| |].
    + apply Forall_app. split; [done|]. constructor; [by eexists|constructor].
    + rewrite foldl_app. simpl. rewrite Hv. unfold add_digit. rewrite Hd. simpl.
      pose proof (N.div_mod x 10 ltac:(done)). lia.
Qed.

Lemma parse_digits_pretty sign x rest :
  (0 < x ≤ max_safe)%N → delimited rest →
  ∃ c w, chars (pretty_N_go x "") = c :: w ∧ is_digit c ∧
         parse_digits sign (c :: w ++ rest) = Done (JNumber (sign * Z.of_N x)) rest.
Proof.
  intros [Hx Hmax] Hrest.
  destruct (pretty_N_go_digits x "" Hx) as (c & d & ds & Hc & Hcd & Hd0 & Hds & Hv).
  rewrite app_nil_r in Hc. exists c, ds. split_and!; [done|by eexists|].
  unfold parse_digits. rewrite Hcd, decide_False, read_digits_app, Hv by done.
  rewrite (proj1 (delimited_stops rest Hrest)). by apply N.leb_le in Hmax as ->.
Qed.

(** The parser reads the decimal text of an integer a number holds. *)
Lemma parse_number_pretty n rest :
  json_wf (JNumber n) = true → delimited rest →
  parse_number (chars (pretty n) ++ rest) = Done (JNumber n) rest.
Proof.
  cbn [json_wf]. intros Hn%Z.leb_le Hrest. destruct n as [|p|p].
  - simpl. unfold parse_digits. simpl.
    by rewrite (proj1 (delimited_stops rest Hrest)).
  - destruct (parse_digits_pretty 1 (Npos p) rest) as (c & w & Hc & [d Hd] & Hp);
      [lia|done|].
    change (pretty (Zpos p)) with (pretty_N_go (Npos p) ""). rewrite Hc.
    change ((c :: w) ++ rest) with (c :: w ++ rest). unfold parse_number.
    by rewrite decide_False by (by intros ->).
  - destruct (parse_digits_pretty (-1) (Npos p) rest) as (c & w & Hc & _ & Hp);
      [lia|done|].
    change (pretty (Zneg p)) with ("-" +:+ pretty_N_go (Npos p) "")%string.
    rewrite chars_app, Hc. exact Hp.
Qed.

(** ** What the writer wrote is read *)

(** The characters a value starts with. *)
Definition starts : list ascii := c_quot :: chars "-0123456789[{ntf".

Definition member (f : string * json) : list ascii :=
  quote f.1 ++ ":"%char :: write f.2.

Lemma write_object fields :
  write (JObject fields) = "{"%char :: commas (map member fields) ++ ["}"%char].
Proof. simpl. do 3 f_equal. apply map_ext. by intros []. Qed.

Lemma commas_cons l l' ls : commas (l :: l' :: ls) = l ++ ","%char :: commas (l' :: ls).
Proof. done. Qed.

Lemma text_length l : String.length (text l) = length l.
Proof. by rewrite <- chars_length, chars_text. Qed.

Lemma digit_cases c : is_digit c → c ∈ chars "0123456789".
Proof.
  intros [d Hd]. apply (bool_decide_unpack _).
  by destruct c as [[] [] [] [] [] [] [] []]; try (by vm_compute in Hd).
Qed.

Lemma number_head (n : Z) : ∃ c w, chars (pretty n) = c :: w ∧ c ∈ chars "-0123456789".
Proof.
  destruct n as [|p|p].
  - exists "0"%char, []. split; [done|]. apply (bool_decide_unpack _). by vm_compute.
  - destruct (pretty_N_go_digits (Npos p) "") as (c & d & ds & Hc & Hd & _); [done|].
    exists c, (ds ++ []). split; [done|]. right. apply digit_cases. by eexists.
  - exists "-"%char, (chars (pretty_N_go (Npos p) "")). split; [done|]. by left.
Qed.

(** A value starts with one of these characters, which is no white
    space and closes nothing. *)
Lemma write_head v : ∃ c w, write v = c :: w ∧ c ∈ starts.
Proof.
  destruct v as [|[]|n|s|items|fields].
  4: { destruct (number_head n) as (c & w & Hc & Hin). exists c, w. split; [done|].
       unfold starts. change (chars "-0123456789[{ntf")
         with (chars "-0123456789" ++ chars "[{ntf"). set_solver. }
  all: (eexists _, _; split; [reflexivity|]); apply (bool_decide_unpack _); by vm_compute.
Qed.

Ltac start_cases H :=
  unfold starts in H; simpl in H;
  repeat (apply elem_of_cons in H as [->|H]; [try done|]); try (by apply elem_of_nil in H).

Lemma skip_ws_start c l : c ∈ starts → skip_ws (c :: l) = c :: l.
Proof. intros Hc. start_cases Hc. Qed.

Lemma opened_start close empty next c l :
  c ∈ starts → close ∈ ["]"; "}"]%char → opened close empty next (c :: l) = next (c :: l).
Proof.
  intros Hc Hcl. unfold opened. rewrite skip_ws_start by done.
  apply decide_False. intros ->. start_cases Hc; set_solver.
Qed.

Lemma parse_value_number fuel c l :
  c ∈ chars "-0123456789" → parse_json (S fuel) Value (c :: l) = parse_number (c :: l).
Proof.
  intros Hc. simpl in Hc.
  repeat (apply elem_of_cons in Hc as [->|Hc]; [done|]). by apply elem_of_nil in Hc.
Qed.

Lemma separator_comma close v next l :
  separator close v next (","%char :: l) = next l.
Proof. done. Qed.

Lemma separator_close close v next l :
  close ∈ ["]"; "}"]%char → separator close v next (close :: l) = Done v l.
Proof.
  intros Hc. unfold separator.
  repeat (apply elem_of_cons in Hc as [->|Hc]; [done|]). by apply elem_of_nil in Hc.
Qed.

Lemma parse_key_written k w :
  all_digits k = false → parse_key (quote k ++ ":"%char :: w) = Done k w.
Proof.
  intros Hk. unfold parse_key, quote. cbn [app].
  rewrite skip_ws_start, decide_True by (done || by left).
  rewrite <- app_assoc. cbn [app]. by rewrite parse_string_escaped, Hk.
Qed.

Lemma set_field_fresh k v fields :
  k ∉ fields.*1 → set_field k v fields = fields ++ [(k, v)].
Proof.
  induction fields as [|[k' v'] fields IH]; [done|]. cbn [set_field]. rewrite fmap_cons.
  intros [Hne Hk]%not_elem_of_cons.
  destruct (String.eqb_spec k' k) as [->|_]; [done|]. by rewrite IH.
Qed.

(** The value [v] is read from its text, which two calls for each of
    its characters are enough for. *)
Definition reads (v : json) : Prop :=
  ∀ fuel rest, json_wf v = true → delimited rest → 2 * length (write v) < fuel →
  parse_json fuel Value (write v ++ rest) = Done v rest.

Lemma parse_items_written items :
  Forall reads items →
  ∀ fuel acc rest, items ≠ [] → forallb json_wf items = true →
  2 * length (commas (map write items)) + 2 ≤ fuel →
  parse_json fuel (Items acc) (commas (map write items) ++ "]"%char :: rest) =
  Done (JArray (acc ++ items)) rest.
Proof.
  induction 1 as [|v items Hv _ IH]; intros fuel acc rest Hne Hwf Hfuel; [done|].
  apply andb_true_iff in Hwf as [Hwf Hwfs].
  destruct fuel as [|fuel]; [lia|]. cbn [parse_json].
  destruct items as [|v' items].
  - simpl in *. rewrite Hv by (done || (simpl; set_solver) || lia).
    by rewrite separator_close by set_solver.
  - cbn [map] in *. rewrite commas_cons, length_app in *. cbn [length] in Hfuel.
    rewrite <- app_assoc. cbn [app]. rewrite Hv by (done || (simpl; set_solver) || lia).
    rewrite separator_comma, IH by (done || lia). by rewrite <- app_assoc.
Qed.

Lemma parse_members_written fields :
  Forall (λ f, reads f.2) fields →
  ∀ fuel acc rest, fields ≠ [] → NoDup (acc ++ fields).*1 →
  forallb (λ f, negb (all_digits f.1)) fields = true →
  forallb (λ '(_, x), json_wf x) fields = true →
  2 * length (commas (map member fields)) + 2 ≤ fuel →
  parse_json fuel (Members acc) (commas (map member fields) ++ "}"%char :: rest) =
  Done (JObject (acc ++ fields)) rest.
Proof.
  induction 1 as [|[k v] fields Hv _ IH]; intros fuel acc rest Hne Hdup Hkeys Hwf Hfuel;
    [done|].
  apply andb_true_iff in Hwf as [Hwf Hwfs], Hkeys as [Hk%negb_true_iff Hks].
  assert (set_field k v acc = acc ++ [(k, v)]) as Hset.
  { apply set_field_fresh. rewrite fmap_app in Hdup.
    apply NoDup_app in Hdup as (_ & Hdup & _). intros Hin. apply (Hdup k Hin). by left. }
  destruct fuel as [|fuel]; [lia|]. cbn [parse_json]. simpl in Hv.
  destruct fields as [|f fields]; cbn [map] in *;
    change (member (k, v)) with (quote k ++ ":"%char :: write v) in *.
  - cbn [commas] in *. rewrite length_app in Hfuel. cbn [length] in Hfuel.
    rewrite <- app_assoc. cbn [app]. rewrite parse_key_written by done.
    rewrite Hv by (done || (simpl; set_solver) || lia).
    rewrite separator_close by set_solver. by rewrite Hset.
  - rewrite commas_cons, !length_app in *. cbn [length] in Hfuel.
    rewrite <- !app_assoc. cbn [app]. rewrite parse_key_written by done.
    rewrite Hv by (done || (simpl; set_solver) || lia).
    rewrite separator_comma, Hset, IH; [by rewrite <- app_assoc|done| |done..|lia].
    by rewrite <- app_assoc.
Qed.

Lemma commas_start c w ls : ∃ w', commas ((c :: w) :: ls) = c :: w'.
Proof. destruct ls; simpl; eauto. Qed.

(** After the opening bracket: the items or members, when there are
    some. *)
Lemma opened_written close empty next l ls rest :
  close ∈ ["]"; "}"]%char → (∃ c w, l = c :: w ∧ c ∈ starts) →
  opened close empty next (commas (l :: ls) ++ close :: rest) =
  next (commas (l :: ls) ++ close :: rest).
Proof.
  intros Hcl (c & w & -> & Hc). destruct (commas_start c w ls) as [w' ->].
  by apply opened_start.
Qed.

Lemma parse_value_array fuel l :
  parse_json (S fuel) Value ("["%char :: l) =
  opened "]" (JArray []) (parse_json fuel (Items [])) l.
Proof. done. Qed.

Lemma parse_value_object fuel l :
  parse_json (S fuel) Value ("{"%char :: l) =
  opened "}" (JObject []) (parse_json fuel (Members [])) l.
Proof. done. Qed.

Lemma reads_all v : reads v.
Proof.
  induction v as [|b|n|s|items IH|fields IH] using json_ind';
    intros fuel rest Hwf Hrest Hfuel; (destruct fuel as [|fuel]; [lia|]).
  - done.
  - by destruct b.
  - destruct (number_head n) as (c & w & Hc & Hin). cbn [write] in *.
    rewrite <- (parse_number_pretty n rest Hwf Hrest), Hc.
    by apply parse_value_number.
  - cbn [write quote app parse_json]. rewrite skip_ws_start by (by left).
    rewrite <- app_assoc. cbn [app]. simpl. by rewrite parse_string_escaped.
  - cbn [write app length] in *. rewrite length_app in Hfuel. cbn [length] in Hfuel.
    rewrite <- app_assoc. cbn [app]. rewrite parse_value_array.
    destruct items as [|v items]; [done|]. cbn [map] in *.
    rewrite opened_written by (set_solver || apply write_head).
    apply (parse_items_written (v :: items) IH fuel []); [done|done|cbn [map]; lia].
  - rewrite write_object in *. cbn [app length] in *.
    rewrite length_app in Hfuel. cbn [length] in Hfuel.
    rewrite <- app_assoc. cbn [app json_wf] in *. rewrite parse_value_object.
    destruct fields as [|[k x] fields]; [done|].
    apply andb_true_iff in Hwf as [[Hdup%bool_decide_eq_true Hkeys]%andb_true_iff Hwf].
    cbn [map] in *.
    rewrite opened_written by (set_solver || by eexists _, _; split; [|by left]).
    apply (parse_members_written ((k, x) :: fields) IH fuel []); [done..|cbn [map]; lia].
Qed.

Lemma reads_all_text v :
  json_wf v = true → JSON_parse (JSON_stringify v) = Some (Ok v).
Proof.
  intros Hwf. unfold JSON_parse, JSON_stringify. rewrite chars_text, text_length.
  rewrite <- (app_nil_r (write v)) at 2. by rewrite reads_all by (done || lia).
Qed.

(** ** Fuel

    Every step of the parser passes over a character of the input or
    goes from the items of an array to the first of them: two calls for
    every character are enough. *)

(** The parser has returned, and what it left is shorter than [n]. *)
Definition shorter {A} (n : nat) (r : parsed A) : Prop :=
  match r with
  | Done _ rest => length rest < n
  | Fuel => False
  | Syntax | Outside => True
  end.

Lemma shorter_mono {A} n n' (r : parsed A) : shorter n r → n ≤ n' → shorter n' r.
Proof. destruct r; simpl; [lia|done..]. Qed.

Lemma shorter_pmap {A B} (f : A → B) n r : shorter n r → shorter n (pmap f r).
Proof. by destruct r. Qed.

Lemma skip_ws_length l : length (skip_ws l) ≤ length l.
Proof. induction l as [|c l IH]; simpl; [done|]. destruct (is_ws c); simpl; lia. Qed.

Lemma skip_ws_cons l c l' : skip_ws l = c :: l' → length l' < length l.
Proof. intros H. pose proof (skip_ws_length l) as Hl. rewrite H in Hl. simpl in Hl. lia. Qed.

Lemma strip_length p l rest : strip p l = Some rest → length l = length p + length rest.
Proof.
  revert l. induction p as [|a p IH]; intros l; simpl; [by intros [= ->]|].
  destruct l as [|b l]; [done|]. case_decide; [|done]. intros Hl%IH. simpl. lia.
Qed.

Lemma read_digits_length acc l : length (read_digits acc l).2 ≤ length l.
Proof.
  revert acc. induction l as [|c l IH]; intros acc; simpl; [done|].
  destruct (digit_value c); simpl; [|done]. specialize (IH (acc * 10 + n)%N). lia.
Qed.

Lemma parse_string_shorter l : shorter (length l) (parse_string l).
Proof.
  assert (∀ n l, length l ≤ n → shorter (length l) (parse_string l)) as H; [|by apply (H (length l))].
  clear l. induction n as [|n IH]; intros [|c l] Hl; simpl in *; try done; [lia|].
  repeat (case_decide || case_match); simpl; try done; try lia; subst;
    (apply shorter_pmap; eapply shorter_mono; [apply IH|]; simpl in *; lia).
Qed.

Lemma parse_digits_shorter sign l : shorter (length l) (parse_digits sign l).
Proof.
  destruct l as [|c l]; simpl; [done|]. destruct (digit_value c) as [d|]; [|done].
  pose proof (read_digits_length d l).
  destruct (decide (d = 0%N)), (read_digits d l) as [m rest]; simpl in *;
    repeat case_match; simpl; try done; lia.
Qed.

Lemma parse_number_shorter l : shorter (length l) (parse_number l).
Proof.
  destruct l as [|c l]; [done|]. cbn [parse_number].
  case_decide; [|apply parse_digits_shorter].
  eapply shorter_mono; [apply parse_digits_shorter|simpl; lia].
Qed.

Lemma keyword_shorter word v l : word ≠ EmptyString → shorter (length l) (keyword word v l).
Proof.
  intros Hw. unfold keyword. destruct (strip _ _) as [rest|] eqn:Hs; [|done].
  apply strip_length in Hs. simpl. rewrite chars_length in Hs. destruct word; [done|].
  simpl in Hs. lia.
Qed.

Lemma parse_key_shorter l : shorter (length l) (parse_key l).
Proof.
  unfold parse_key. destruct (skip_ws l) as [|c l1] eqn:Hl; [done|].
  apply skip_ws_cons in Hl. case_decide; [|done].
  pose proof (parse_string_shorter l1) as Hs. destruct (parse_string l1) as [k l2| | |]; try done.
  destruct (all_digits k); [done|]. destruct (skip_ws l2) as [|c' l3] eqn:Hl2; [done|].
  apply skip_ws_cons in Hl2. case_decide; [|done]. simpl in *. lia.
Qed.

Lemma separator_shorter n close v next l :
  length l ≤ n → (∀ l', length l' < length l → shorter n (next l')) →
  shorter n (separator close v next l).
Proof.
  intros Hl Hnext. unfold separator. destruct (skip_ws l) as [|c rest] eqn:Hs; [done|].
  apply skip_ws_cons in Hs. repeat case_decide; [by apply Hnext|simpl; lia|done].
Qed.

Lemma opened_shorter n close empty next l :
  length l ≤ n → shorter n (next l) → shorter n (opened close empty next l).
Proof.
  intros Hl Hnext. unfold opened. destruct (skip_ws l) as [|c rest] eqn:Hs; [done|].
  apply skip_ws_cons in Hs. case_decide; [simpl; lia|done].
Qed.

(** The calls a mode needs for an input. *)
Definition need (m : mode) (l : list ascii) : nat :=
  match m with
  | Value => 2 * length l
  | Items _ | Members _ => 2 * length l + 1
  end.

Lemma parse_json_shorter fuel m l :
  need m l < fuel → shorter (length l) (parse_json fuel m l).
Proof.
  revert m l. induction fuel as [|fuel IH]; intros m l Hfuel; [lia|].
  destruct m as [|acc|acc]; cbn [parse_json need] in *.
  - destruct (skip_ws l) as [|c l'] eqn:Hl; [done|]. apply skip_ws_cons in Hl.
    repeat case_decide; try apply opened_shorter; try apply shorter_pmap; try lia;
      first
        [ apply (shorter_mono (length l'));
            [first [apply IH; simpl; lia|apply parse_string_shorter]|lia]
        | apply (shorter_mono (length (c :: l')));
            [first [by apply keyword_shorter|apply parse_number_shorter]|simpl; lia] ].
  - pose proof (IH Value l ltac:(simpl; lia)) as Hv.
    destruct (parse_json fuel Value l) as [v rest| | |]; try done. simpl in Hv.
    apply separator_shorter; [lia|]. intros l' Hl'.
    eapply shorter_mono; [apply IH; simpl; lia|lia].
  - pose proof (parse_key_shorter l) as Hk.
    destruct (parse_key l) as [k l'| | |]; try done. simpl in Hk.
    pose proof (IH Value l' ltac:(simpl; lia)) as Hv.
    destruct (parse_json fuel Value l') as [v rest| | |]; try done. simpl in Hv.
    apply separator_shorter; [lia|]. intros l'' Hl''.
    eapply shorter_mono; [apply IH; simpl; lia|lia].
Qed.

(** More fuel does not change what the parser returns. *)
Lemma opened_more close empty (next next' : list ascii → parsed json) l :
  (next l ≠ Fuel → next' l = next l) →
  opened close empty next l ≠ Fuel → opened close empty next' l = opened close empty next l.
Proof. unfold opened. destruct (skip_ws l); [done|]. case_decide; auto. Qed.

Lemma separator_more close v (next next' : list ascii → parsed json) l :
  (∀ l', next l' ≠ Fuel → next' l' = next l') →
  separator close v next l ≠ Fuel → separator close v next' l = separator close v next l.
Proof. unfold separator. destruct (skip_ws l); [done|]. repeat case_decide; auto. Qed.

Lemma parse_json_more fuel fuel' m l :
  parse_json fuel m l ≠ Fuel → fuel ≤ fuel' → parse_json fuel' m l = parse_json fuel m l.
Proof.
  revert fuel' m l. induction fuel as [|fuel IH]; intros [|fuel'] m l Hr Hle;
    [done|done|lia|].
  assert (∀ m l, parse_json fuel m l ≠ Fuel → parse_json fuel' m l = parse_json fuel m l)
    as IH' by (intros; apply IH; [done|lia]).
  destruct m as [|acc|acc]; cbn [parse_json] in *.
  - destruct (skip_ws l) as [|c l']; [done|].
    repeat case_decide; try done; apply opened_more; auto.
  - destruct (parse_json fuel Value l) as [v rest| | |] eqn:Hv; try done;
      rewrite IH' by (by rewrite Hv); rewrite Hv; [|done..].
    apply separator_more; auto.
  - destruct (parse_key l) as [k l'| | |]; try done.
    destruct (parse_json fuel Value l') as [v rest| | |] eqn:Hv; try done;
      rewrite IH' by (by rewrite Hv); rewrite Hv; [|done..].
    apply separator_more; auto.
Qed.

(** C18: [JSON.parse] terminates.  The fuel [JSON_parse] gives the
    parser, two calls for every character of the text and two more,
    is enough: the parser returns a value, the exception or that the
    text is outside the model, never that the fuel ran out, what it
    leaves of the text is shorter than the text, and with more fuel it
    returns the same. *)
Theorem parse_json_fuel (text : string) (fuel : nat) :
  2 * String.length text + 2 ≤ fuel →
  shorter (String.length text) (parse_json (2 * String.length text + 2) Value (chars text)) ∧
  parse_json fuel Value (chars text) =
  parse_json (2 * String.length text + 2) Value (chars text).
Proof.
  rewrite <- chars_length. intros Hfuel.
  pose proof (parse_json_shorter (2 * length (chars text) + 2) Value (chars text)
                ltac:(simpl; lia)) as Hs.
  split; [done|]. apply parse_json_more; [|done]. intros Hf. by rewrite Hf in Hs.
Qed.

(** ** What the parser returns *)

Lemma forallb_Forall {A} (f : A → bool) l :
  forallb f l = true ↔ Forall (λ x, f x = true) l.
Proof.
  induction l as [|x l IH]; simpl; [by split; [constructor|]|].
  rewrite andb_true_iff, Forall_cons. naive_solver.
Qed.

Lemma json_wf_object fields :
  json_wf (JObject fields) = true ↔
  NoDup fields.*1 ∧ Forall (λ f, all_digits f.1 = false ∧ json_wf f.2 = true) fields.
Proof.
  cbn [json_wf]. rewrite !andb_true_iff, bool_decide_eq_true, !forallb_Forall, Forall_and.
  split; [intros [[Hd Hk] Hv]|intros (Hd & Hk & Hv)];
    (split_and!; [done|apply (Forall_impl _ _ _ Hk)|apply (Forall_impl _ _ _ Hv)]);
    intros [k x]; simpl; try done; by destruct (all_digits k).
Qed.

Lemma set_field_keys k v fields :
  (set_field k v fields).*1 = if decide (k ∈ fields.*1) then fields.*1 else fields.*1 ++ [k].
Proof.
  induction fields as [|[k' v'] fields IH]; [done|]. cbn [set_field].
  destruct (String.eqb_spec k' k) as [->|Hne]; rewrite !fmap_cons; cbn [fst].
  - by rewrite decide_True by (by left).
  - rewrite IH. destruct (decide (k ∈ fields.*1)) as [Hin|Hin].
    + by rewrite decide_True by (by right).
    + rewrite decide_False; [done|]. by intros [?|?]%elem_of_cons.
Qed.

Lemma set_field_Forall (P : string * json → Prop) k v fields :
  Forall P fields → P (k, v) → Forall P (set_field k v fields).
Proof.
  intros Hfs Hkv. induction Hfs as [|[k' v'] fields Hf Hfs IH]; cbn [set_field];
    [by constructor|].
  destruct (String.eqb_spec k' k) as [->|_]; by constructor.
Qed.

(** The assignment of a property keeps an object one that is a text. *)
Lemma set_field_wf k v fields :
  json_wf (JObject fields) = true → all_digits k = false → json_wf v = true →
  json_wf (JObject (set_field k v fields)) = true.
Proof.
  rewrite !json_wf_object. intros [Hdup Hfs] Hk Hv. split.
  - rewrite set_field_keys. case_decide; [done|].
    apply NoDup_app. split_and!; [done| |apply NoDup_singleton].
    by intros x Hx ->%list_elem_of_singleton.
  - by apply set_field_Forall.
Qed.

Lemma parse_number_wf l v rest : parse_number l = Done v rest → json_wf v = true.
Proof.
  assert (∀ sign l, Z.abs sign = 1%Z → parse_digits sign l = Done v rest → json_wf v = true)
    as Hd.
  { intros sign [|c l'] Hsign; simpl; [done|]. destruct (digit_value c) as [d|]; [|done].
    destruct (if decide (d = 0%N) then _ else _) as [n r].
    destruct (starts_fraction r); [done|].
    destruct (n <=? max_safe)%N eqn:Hn; [|done]. intros [= <- _].
    apply N.leb_le in Hn. cbn [json_wf]. apply Z.leb_le. lia. }
  destruct l as [|c l]; [done|]. cbn [parse_number]. case_decide; by apply Hd.
Qed.

Lemma parse_key_Done l k rest : parse_key l = Done k rest → all_digits k = false.
Proof.
  unfold parse_key. destruct (skip_ws l) as [|c l1]; [done|]. case_decide; [|done].
  destruct (parse_string l1) as [k' l2| | |]; try done.
  destruct (all_digits k') eqn:Hk; [done|]. destruct (skip_ws l2); [done|].
  case_decide; [|done]. by intros [= <- _].
Qed.

Lemma keyword_Done word v0 l v rest : keyword word v0 l = Done v rest → v = v0.
Proof. unfold keyword. destruct (strip _ _); [|done]. by intros [= <- _]. Qed.

Lemma opened_Done close empty next l v rest :
  opened close empty next l = Done v rest → v = empty ∨ next l = Done v rest.
Proof.
  unfold opened. destruct (skip_ws l); [done|]. case_decide; [|by right].
  intros [= <- _]. by left.
Qed.

Lemma separator_Done close v0 next l v rest :
  separator close v0 next l = Done v rest → v = v0 ∨ ∃ l', next l' = Done v rest.
Proof.
  unfold separator. destruct (skip_ws l); [done|]. repeat case_decide; [by eauto| |done].
  intros [= <- _]. by left.
Qed.

(** What is in the accumulator of a mode is a text. *)
Definition mode_wf (m : mode) : bool :=
  match m with
  | Value => true
  | Items acc => json_wf (JArray acc)
  | Members acc => json_wf (JObject acc)
  end.

Lemma parse_json_wf fuel m l v rest :
  parse_json fuel m l = Done v rest → mode_wf m = true → json_wf v = true.
Proof.
  revert m l v rest. induction fuel as [|fuel IH]; intros m l v rest; [done|].
  destruct m as [|acc|acc]; cbn [parse_json mode_wf]; intros Hv Hm.
  - destruct (skip_ws l) as [|c l']; [done|].
    repeat case_decide; try (by apply parse_number_wf in Hv);
      try (by apply opened_Done in Hv as [->|Hv%IH]);
      try (by apply keyword_Done in Hv as ->).
    destruct (parse_string l'); simpl in Hv; [|done..]. by injection Hv as <- _.
  - destruct (parse_json fuel Value l) as [v0 rest0| | |] eqn:Hv0; try done.
    apply IH in Hv0; [|done].
    assert (json_wf (JArray (acc ++ [v0])) = true) as Hacc
      by (cbn [json_wf] in *; rewrite forallb_app, Hm; simpl; by rewrite Hv0).
    apply separator_Done in Hv as [->|[l' Hv%IH]]; done.
  - destruct (parse_key l) as [k l'| | |] eqn:Hk; try done. apply parse_key_Done in Hk.
    destruct (parse_json fuel Value l') as [v0 rest0| | |] eqn:Hv0; try done.
    apply IH in Hv0; [|done]. pose proof (set_field_wf k v0 acc Hm Hk Hv0) as Hacc.
    apply separator_Done in Hv as [->|[l'' Hv%IH]]; done.
Qed.

(** C19: what [JSON.parse] returns is a value [JSON.stringify] writes
    back.  The value of a text that [JSON.parse] accepts has integers
    that a number holds exactly and objects with distinct property
    names, none of them an index, and the text [JSON.stringify] gives
    for it is parsed to the same value: parsing and writing a text
    once more changes nothing. *)
Theorem JSON_parse_wf (text : string) (v : json) :
  JSON_parse text = Some (Ok v) →
  json_wf v = true ∧ JSON_parse (JSON_stringify v) = Some (Ok v).
Proof.
  unfold JSON_parse at 1.
  destruct (parse_json _ Value (chars text)) as [v' rest| | |] eqn:Hv; try done.
  destruct (skip_ws rest); [|done]. intros [= <-]. apply parse_json_wf in Hv; [|done].
  split; [done|]. by apply reads_all_text.
Qed.

(** C17: what [JSON.stringify] writes [JSON.parse] reads.  For a value
    whose numbers are integers that a number holds exactly and whose
    objects have distinct property names that are no indices, the text
    [JSON.stringify] gives is accepted by [JSON.parse], which returns
    the value: the strings with the characters that were escaped, the
    properties in their order.  Two such values with the same text are
    the same value. *)
Theorem JSON_parse_stringify (v : json) :
  json_wf v = true →
  JSON_parse (JSON_stringify v) = Some (Ok v) ∧
  ∀ v', json_wf v' = true → JSON_stringify v' = JSON_stringify v → v' = v.
Proof.
  intros Hwf. split; [by apply reads_all_text|]. intros v' Hwf' Heq.
  apply reads_all_text in Hwf, Hwf'. rewrite Heq, Hwf in Hwf'. by injection Hwf'.
Qed.

(** ** Examples *)

Definition dq : string := String c_quot EmptyString.
Definition bs : string := String c_backslash EmptyString.

(** A string between quotes in a text. *)
Definition quoted (s : string) : string := dq +:+ s +:+ dq.

(** A value with a quote, a backslash, a line break and a control
    character in a string, a negative number, and an empty array and
    object. *)
Definition sample_value : json :=
  JObject [("content", JString ("<p class=" +:+ dq +:+ "a" +:+ dq +:+ ">" +:+
                        String c_backslash (String (ascii_of_nat 10)
                          (String (ascii_of_nat 1) "</p>"))));
           ("path", JArray [JNumber 0; JNumber (-12)]);
           ("none", JNull); ("flag", JBool true);
           ("items", JArray []); ("object", JObject [])]%string.

Example stringify_sample :
  JSON_stringify sample_value =
  ("{" +:+ quoted "content" +:+ ":" +:+
     quoted ("<p class=" +:+ bs +:+ dq +:+ "a" +:+ bs +:+ dq +:+ ">" +:+ bs +:+ bs +:+
             bs +:+ "n" +:+ bs +:+ "u0001</p>") +:+ "," +:+
   quoted "path" +:+ ":[0,-12]," +:+ quoted "none" +:+ ":null," +:+
   quoted "flag" +:+ ":true," +:+ quoted "items" +:+ ":[]," +:+
   quoted "object" +:+ ":{}}")%string.
Proof. by vm_compute. Qed.

(** White space between the tokens, an escaped slash and the escape
    of the letter A; the second [a] replaces the value of the first. *)
Definition sample_text : string :=
  (" { " +:+ quoted "a" +:+ " : 1 ,  " +:+ quoted ("b" +:+ bs +:+ "/" +:+ bs +:+ "u0041") +:+
   ":[ true , null ], " +:+
   quoted "a" +:+ ": -2 } ")%string.

Example parse_sample :
  JSON_parse sample_text =
  Some (Ok (JObject [("a", JNumber (-2)); ("b/A", JArray [JBool true; JNull])]%string)).
Proof. by vm_compute. Qed.

(** Texts [JSON.parse] refuses: the empty text, a comma before the
    bracket, a zero before a digit, a name cut short, a string without
    its end, a line break in a string, two values. *)
Example parse_refused :
  Forall (λ text, JSON_parse text = Some (Throw SyntaxError))
    ["";  "[1,]"; "01"; "nul"; dq +:+ "abc"; quoted (String (ascii_of_nat 10) ""); "1 2";
     "{" +:+ quoted "a" +:+ "}"; "-"; "[1 2]"]%string.
Proof. repeat constructor. Qed.

(** Texts outside the model: a fraction, an exponent, an integer a
    number rounds, a character outside ASCII written as an escape, a
    property an object lists as an index. *)
Example parse_outside :
  Forall (λ text, JSON_parse text = None)
    ["1.5"; "[1e3]"; "9007199254740993"; quoted (bs +:+ "u00e9");
     "{" +:+ quoted "0" +:+ ":1}"]%string.
Proof. repeat constructor. Qed.

Lemma JSON_parse_stringify_witness :
  JSON_parse (JSON_stringify sample_value) = Some (Ok sample_value) ∧
  ∀ v', json_wf v' = true → JSON_stringify v' = JSON_stringify sample_value →
        v' = sample_value.
Proof. apply JSON_parse_stringify. by vm_compute. Defined.

Lemma parse_json_fuel_witness :
  shorter (String.length sample_text)
    (parse_json (2 * String.length sample_text + 2) Value (chars sample_text)) ∧
  parse_json 1000 Value (chars sample_text) =
  parse_json (2 * String.length sample_text + 2) Value (chars sample_text).
Proof. apply parse_json_fuel. vm_compute. lia. Defined.

Lemma JSON_parse_wf_witness :
  let v := JObject [("a", JNumber (-2)); ("b/A", JArray [JBool true; JNull])]%string in
  json_wf v = true ∧ JSON_parse (JSON_stringify v) = Some (Ok v).
Proof. apply (JSON_parse_wf sample_text). by vm_compute. Defined.
