(* ===== verification/Channel.v ===== *)
(** * The channel: the socket and the messages on it

    editor.js opens one socket per document (36-37) and never closes it.
    What it sends is the object of the [input] listener (84-89), what it
    receives is whatever the server relays; the handler destructures it
    (49) and uses the three properties as a string, a string and a
    position (52-63).

    This file holds the state of the socket and [socket.send], the
    address of the socket, the message as the handlers use it and its two
    directions: [edit_message], the object that is sent, and [decode], the
    reading of a value that was received.  The shapes of section 6 of the
    specification are types of JSON values ([ty], [has_type]): what is
    sent has the type of a message, and a value of that type is read
    without loss. *)

From stdpp Require Import base option list numbers strings.
From S2P Require Import Prelude Position Json.

Local Open Scope Z_scope.

(** ** The socket *)

(** [socket.readyState] *)
Inductive ready_state : Set :=
| CONNECTING
| OPEN
| CLOSING
| CLOSED.

#[export] Instance ready_state_eq_dec : EqDecision ready_state.
Proof. solve_decision. Defined.

(** Lines 36-37: the address of the socket, from [window.location]. *)
Definition socket_protocol (protocol : string) : string :=
  if decide (protocol = "https:"%string) then "wss:" else "ws:".

Definition socket_url (protocol host docId : string) : string :=
  socket_protocol protocol +:+ "//" +:+ host +:+ "/ws/documents/" +:+ docId +:+ "/".

(** [socket.send(data)], on the list of what has been handed to the
    network: an exception while the socket is connecting; once the
    socket is closing or closed the data is discarded. *)
Definition send (rs : ready_state) (data : json) (sent : list json)
    : outcome (list json) :=
  match rs with
  | CONNECTING => Throw InvalidStateError
  | OPEN => Ok (sent ++ [data])
  | CLOSING | CLOSED => Ok sent
  end.

(** ** Messages *)

(** The message as the handler uses it:
    [{ action, content, cursorPosition, user }]. *)
Record message : Set := {
  msg_action : string;
  msg_content : string;
  msg_cursorPosition : option position;
  msg_user : string;
}.

#[export] Instance message_eq_dec : EqDecision message.
Proof. solve_decision. Defined.

(** The value of [getCursorPosition()] (121, 127): [null], or
    [{ path, offset }]. *)
Definition position_json (p : option position) : json :=
  match p with
  | None => JNull
  | Some p => JObject [("path", JArray (JNumber <$> path p));
                       ("offset", JNumber (offset p))]%string
  end.

(** Lines 84-89: the object of the [input] listener. *)
Definition edit_message (content : string) (cursorPosition : option position)
    (user : string) : json :=
  JObject [("action", JString "edit"); ("content", JString content);
           ("cursorPosition", position_json cursorPosition);
           ("user", JString user)]%string.

Definition encode (m : message) : json :=
  edit_message (msg_content m) (msg_cursorPosition m) (msg_user m).

(** ** Reading a message

    The handler uses [content] and [user] as strings and, when
    [cursorPosition] is truthy, its [path] as a list of indices and its
    [offset] as a number.  [None] is a value the model does not follow the
    handler on: a content or a user that is no string, a position that
    is truthy and not of that shape. *)
Definition as_string (v : option json) : option string :=
  match v with
  | Some (JString s) => Some s
  | _ => None
  end.

Definition as_number (v : json) : option Z :=
  match v with
  | JNumber n => Some n
  | _ => None
  end.

Definition as_path (v : option json) : option (list Z) :=
  match v with
  | Some (JArray items) => mapM as_number items
  | _ => None
  end.

(** Line 59, [if (cursorPosition)], and the reads of [updateCursor]
    (166, 170). *)
Definition decode_position (v : option json) : option (option position) :=
  match v with
  | None => Some None
  | Some j =>
      if truthy j then
        match j with
        | JObject fields =>
            p ← as_path (field "path" fields);
            o ← field "offset" fields ≫= as_number;
            Some (Some {| path := p; offset := o |})
        | _ => None
        end
      else Some None
  end.

(** Line 49: [const { content, user, cursorPosition } = data], for an
    object whose [action] is [edit]. *)
Definition decode (data : json) : option message :=
  match data with
  | JObject fields =>
      content ← as_string (field "content" fields);
      user ← as_string (field "user" fields);
      pos ← decode_position (field "cursorPosition" fields);
      Some {| msg_action := "edit"; msg_content := content;
              msg_cursorPosition := pos; msg_user := user |}
  | _ => None
  end.

(** Lines 46-48: the value is an object whose [action] is the string
    [edit]. *)
Definition is_edit (data : json) : bool :=
  match get data "action" with
  | Ok action => is_string action "edit"
  | Throw _ => false
  end.

(** What the model follows the handler on: the text is not JSON, the
    value is no [edit], or it is one that [decode] reads. *)
Definition understood (data : outcome json) : Prop :=
  match data with
  | Ok j => is_edit j = true → is_Some (decode j)
  | Throw _ => True
  end.

(** ** The types of the interfaces *)

(** A type of JSON values.  An object of type [TObject fields] has at
    least the properties of [fields], each of its type; a property of
    type [TOption t] may be absent or [null]. *)
Inductive ty : Set :=
| TBool
| TNumber
| TString
| TLiteral (s : string)
| TArray (t : ty)
| TObject (fields : list (string * ty))
| TOption (t : ty).

Definition optional (t : ty) : bool :=
  match t with
  | TOption _ => true
  | _ => false
  end.

Fixpoint has_type (t : ty) (v : json) {struct t} : bool :=
  match t, v with
  | TBool, JBool _ | TNumber, JNumber _ | TString, JString _ => true
  | TLiteral s, JString s' => bool_decide (s' = s)
  | TArray t, JArray items => forallb (has_type t) items
  | TObject fts, JObject fields =>
      forallb (λ '(k, t), match field k fields with
                          | Some v => has_type t v
                          | None => optional t
                          end) fts
  | TOption t, v =>
      match v with
      | JNull => true
      | _ => has_type t v
      end
  | _, _ => false
  end.

(** Position: [{ path, offset }]. *)
Definition position_ty : ty :=
  TObject [("path", TArray TNumber); ("offset", TNumber)]%string.

(** The message of the live channel:
    [{ action: "edit", content, user, cursorPosition? }]. *)
Definition message_ty : ty :=
  TObject [("action", TLiteral "edit"); ("content", TString); ("user", TString);
           ("cursorPosition", TOption position_ty)]%string.

(** The body of the document fetch: [{ content }]. *)
Definition document_ty : ty := TObject [("content", TString)]%string.

(** ** Typing *)

(** An object has a type when each property of the type has its type
    in the object. *)
Definition field_typed (fields : list (string * json)) (kt : string * ty) : bool :=
  match field kt.1 fields with
  | Some v => has_type kt.2 v
  | None => optional kt.2
  end.

Lemma has_type_fields fts fields :
  has_type (TObject fts) (JObject fields) ↔ Forall (field_typed fields) fts.
Proof.
  simpl. rewrite forallb_True. apply Forall_proper; [|done]. by intros [k t].
Qed.

Lemma has_type_object fts v : has_type (TObject fts) v → ∃ fields, v = JObject fields.
Proof. destruct v; try done. by eexists. Qed.

Lemma has_type_option t v : has_type (TOption t) v → v = JNull ∨ has_type t v.
Proof. destruct v; simpl; auto. Qed.

Lemma has_type_string v : has_type TString v → ∃ s, v = JString s.
Proof. destruct v; try done. by eexists. Qed.

Lemma has_type_literal s v : has_type (TLiteral s) v → v = JString s.
Proof. destruct v; try done. simpl. by intros ->%bool_decide_unpack. Qed.

Lemma has_type_numbers items :
  has_type (TArray TNumber) (JArray items) → ∃ l, items = JNumber <$> l.
Proof.
  simpl. induction items as [|[] items IH]; simpl; try done; [by exists []|].
  intros [l ->]%IH. by exists (n :: l).
Qed.

Lemma has_type_position v :
  has_type position_ty v → ∃ p, decode_position (Some v) = Some (Some p).
Proof.
  intros Hv. destruct (has_type_object _ _ Hv) as [fields ->]. simpl in Hv.
  destruct (field "path" fields) as [[| | | |items|]|] eqn:Hpath; try done.
  apply andb_True in Hv as [Hp Ho].
  destruct (field "offset" fields) as [[| |o| | |]|] eqn:Hoff; try done.
  destruct (has_type_numbers items Hp) as [l ->].
  exists {| path := l; offset := o |}. simpl. rewrite Hpath, Hoff. simpl.
  by rewrite mapM_fmap_Some.
Qed.

(** ** The two directions *)

Lemma decode_position_json p : decode_position (Some (position_json p)) = Some p.
Proof.
  destruct p as [[p o]|]; [|done]. simpl. by rewrite mapM_fmap_Some.
Qed.

Lemma has_type_path l : has_type (TArray TNumber) (JArray (JNumber <$> l)).
Proof. simpl. by induction l. Qed.

Lemma position_json_typed p : has_type (TOption position_ty) (position_json p).
Proof.
  destruct p as [[p o]|]; [|done].
  apply (has_type_fields [("path", TArray TNumber); ("offset", TNumber)]%string).
  repeat apply Forall_cons_2; [exact (has_type_path p)|done|done].
Qed.

Lemma edit_message_typed content pos user :
  has_type message_ty (edit_message content pos user).
Proof.
  apply has_type_fields. repeat apply Forall_cons_2; [done..|idtac|done].
  exact (position_json_typed pos).
Qed.

Lemma decode_edit_message content pos user :
  decode (edit_message content pos user) =
  Some {| msg_action := "edit"; msg_content := content; msg_cursorPosition := pos;
          msg_user := user |}.
Proof.
  pose proof (decode_position_json pos) as Hp. unfold edit_message, decode.
  cbn -[decode_position]. by rewrite Hp.
Qed.

(** The position of a typed message is read. *)
Lemma decode_position_typed fields :
  has_type message_ty (JObject fields) →
  is_Some (decode_position (field "cursorPosition" fields)).
Proof.
  intros Hv%has_type_fields. do 3 apply Forall_cons_1 in Hv as [_ Hv].
  apply Forall_cons_1 in Hv as [Hv _]. unfold field_typed in Hv. cbn [fst snd] in Hv.
  destruct (field "cursorPosition" fields) as [v|]; [|by eexists].
  apply has_type_option in Hv as [->|[p ->]%has_type_position]; by eexists.
Qed.

(** The handler reads a value that has the type of a message. *)
Lemma has_type_decode data :
  has_type message_ty data →
  is_edit data = true ∧
  ∃ m, decode data = Some m ∧ msg_action m = "edit"%string ∧
       get data "content" = Ok (Some (JString (msg_content m))) ∧
       get data "user" = Ok (Some (JString (msg_user m))).
Proof.
  intros Hv. destruct (has_type_object _ _ Hv) as [fields ->].
  destruct (decode_position_typed fields Hv) as [pos Hpos].
  apply has_type_fields in Hv. unfold is_edit, decode. simpl. rewrite Hpos.
  apply Forall_cons_1 in Hv as [Ha Hv]. apply Forall_cons_1 in Hv as [Hc Hv].
  apply Forall_cons_1 in Hv as [Hu _]. unfold field_typed in *. cbn [fst snd] in *.
  destruct (field "action" fields) as [a|]; [|done].
  apply has_type_literal in Ha as ->.
  destruct (field "content" fields) as [c|]; [|done].
  apply has_type_string in Hc as [c' ->].
  destruct (field "user" fields) as [u|]; [|done].
  apply has_type_string in Hu as [u' ->]. split; [done|]. by eexists.
Qed.

(** The messages are typed, two ways.  The object the [input]
    listener sends has the type of a message of the live channel, and the
    handler reads in it the content, the position and the user it was
    built from.  The handler reads every value of that type, whoever sent
    it: the value is an object whose [action] is [edit], and the content
    and the user that are read are the strings it holds. *)
Theorem message_ty_sound :
  (∀ content pos user,
     has_type message_ty (edit_message content pos user) ∧
     decode (edit_message content pos user) =
     Some {| msg_action := "edit"; msg_content := content;
             msg_cursorPosition := pos; msg_user := user |}) ∧
  (∀ data, has_type message_ty data →
     is_edit data = true ∧
     ∃ m, decode data = Some m ∧ msg_action m = "edit"%string ∧
          get data "content" = Ok (Some (JString (msg_content m))) ∧
          get data "user" = Ok (Some (JString (msg_user m)))).
Proof.
  split; [intros; split; [apply edit_message_typed|apply decode_edit_message]|].
  apply has_type_decode.
Qed.

Lemma message_ty_sound_witness :
  let pos := Some {| path := [0; 0]; offset := 3 |} in
  has_type message_ty (edit_message "<p>bye</p>" pos "bob") ∧
  decode (edit_message "<p>bye</p>" pos "bob") =
  Some {| msg_action := "edit"; msg_content := "<p>bye</p>";
          msg_cursorPosition := pos; msg_user := "bob" |}.
Proof. destruct message_ty_sound as [Hsent _]. apply Hsent. Defined.

(** ** The socket *)

Lemma send_cases rs data sent r :
  send rs data sent = Ok r → r = sent ∨ (rs = OPEN ∧ r = sent ++ [data]).
Proof. destruct rs; simpl; intros [= <-]; auto. Qed.

(** A page that was fetched over TLS opens its socket over TLS, and no
    other page does. *)
Lemma socket_url_secure protocol host docId :
  String.prefix "wss:" (socket_url protocol host docId) = true ↔ protocol = "https:"%string.
Proof. unfold socket_url, socket_protocol. case_decide; simpl; naive_solver. Qed.
