(* ===== verification/Editor.v ===== *)
(** * The editor: the socket, remote edits, local input, autosave

    The closure of editor.js reacts to the events of the browser.  The
    socket opens, and closes with or without an error ([socket.onopen],
    [onerror], [onclose], 40-42 and 69-77).  A message on the socket
    ([socket.onmessage], 45-66) is parsed; when it is an [edit] it
    replaces the content of the editor when that differs, moves the
    sender's cursor and shows the sender's typing badge.  An [input]
    event runs the listener that sends the content and the cursor
    position (80-91) and, once the document has been loaded, the listener
    that re-arms the autosave timer (280-283).  The answer to the fetch
    of [loadDocumentContent] (17-33) sets the content and calls
    [setupAutosave] (276-284), or is logged.  A timer runs
    [autosaveDocument] (250-273) or removes a typing badge (106-111).

    One event is handled at a time and runs to its end: the state below
    is the state between two events.  The flag [isUpdating] is set and
    cleared inside one handler.

    The HTML parser and serialiser of the browser are the methods of the
    class [Html], the geometry those of [Cursor.Layout]; the theorems
    hold for every instance.  The string [document.cookie] is a parameter,
    fixed for the session; [Cookie.getCSRFToken] reads the token in it.
    The values on the socket and in the answer of the server are those
    of [Json]; [Channel.decode] reads a message. *)

From stdpp Require Import base option list numbers strings gmap.
From S2P Require Import Prelude Dom Markup Position Timers Typing Cursor Cookie Json Channel.

Local Open Scope Z_scope.

(** ** The browser's HTML *)

(** [parse] is the fragment parser behind the setter of [innerHTML],
    [serialize] the getter on a node. *)
Class Html : Type := {
  parse : string → list tree;
  serialize : dom → nat → string;
}.

(** ** Data *)

(** The POST of [autosaveDocument]: the content of the body and the
    value of the [X-CSRFToken] header. *)
Record save_request : Set := {
  save_content : string;
  save_token : option string;
}.

(** The variables of the closure, the page, the socket, and what has
    left the page. *)
Record state : Type := {
  page : overlay;                  (* the document and [cursors] *)
  isUpdating : bool;
  ui : typing;                     (* the badges and the timer table *)
  selection : option range;        (* [window.getSelection()] *)
  readyState : ready_state;        (* [socket.readyState] *)
  sent : list json;                (* what [socket.send] handed to the network *)
  saves : list save_request;       (* the calls of [fetch] in [autosaveDocument] *)
  loading : bool;                  (* the fetch of [loadDocumentContent] is pending *)
  autosave_ready : bool;           (* [setupAutosave] has run *)
  autosaveTimeout : option nat;    (* the variable of [setupAutosave]; [None] is [undefined] *)
  alerted : list string;           (* the calls of [alert] *)
}.

Definition timers_of (s : state) : timers callback := typing_timers (ui s).

(** ** Assignments *)

Definition with_page (pg : overlay) (s : state) : state :=
  {| page := pg; isUpdating := isUpdating s; ui := ui s; selection := selection s;
     readyState := readyState s; sent := sent s; saves := saves s;
     loading := loading s; autosave_ready := autosave_ready s;
     autosaveTimeout := autosaveTimeout s; alerted := alerted s |}.

Definition with_isUpdating (b : bool) (s : state) : state :=
  {| page := page s; isUpdating := b; ui := ui s; selection := selection s;
     readyState := readyState s; sent := sent s; saves := saves s;
     loading := loading s; autosave_ready := autosave_ready s;
     autosaveTimeout := autosaveTimeout s; alerted := alerted s |}.

Definition with_ui (t : typing) (s : state) : state :=
  {| page := page s; isUpdating := isUpdating s; ui := t; selection := selection s;
     readyState := readyState s; sent := sent s; saves := saves s;
     loading := loading s; autosave_ready := autosave_ready s;
     autosaveTimeout := autosaveTimeout s; alerted := alerted s |}.

Definition with_timers (ts : timers callback) (s : state) : state :=
  with_ui {| indicators := indicators (ui s); typing_timers := ts |} s.

Definition with_selection (sel : option range) (s : state) : state :=
  {| page := page s; isUpdating := isUpdating s; ui := ui s; selection := sel;
     readyState := readyState s; sent := sent s; saves := saves s;
     loading := loading s; autosave_ready := autosave_ready s;
     autosaveTimeout := autosaveTimeout s; alerted := alerted s |}.

Definition with_readyState (rs : ready_state) (s : state) : state :=
  {| page := page s; isUpdating := isUpdating s; ui := ui s; selection := selection s;
     readyState := rs; sent := sent s; saves := saves s; loading := loading s;
     autosave_ready := autosave_ready s; autosaveTimeout := autosaveTimeout s;
     alerted := alerted s |}.

Definition with_sent (l : list json) (s : state) : state :=
  {| page := page s; isUpdating := isUpdating s; ui := ui s; selection := selection s;
     readyState := readyState s; sent := l; saves := saves s; loading := loading s;
     autosave_ready := autosave_ready s; autosaveTimeout := autosaveTimeout s;
     alerted := alerted s |}.

Definition with_saves (l : list save_request) (s : state) : state :=
  {| page := page s; isUpdating := isUpdating s; ui := ui s; selection := selection s;
     readyState := readyState s; sent := sent s; saves := l; loading := loading s;
     autosave_ready := autosave_ready s; autosaveTimeout := autosaveTimeout s;
     alerted := alerted s |}.

Definition with_loading (b : bool) (s : state) : state :=
  {| page := page s; isUpdating := isUpdating s; ui := ui s; selection := selection s;
     readyState := readyState s; sent := sent s; saves := saves s; loading := b;
     autosave_ready := autosave_ready s; autosaveTimeout := autosaveTimeout s;
     alerted := alerted s |}.

Definition with_autosave (ready : bool) (id : option nat) (s : state) : state :=
  {| page := page s; isUpdating := isUpdating s; ui := ui s; selection := selection s;
     readyState := readyState s; sent := sent s; saves := saves s;
     loading := loading s; autosave_ready := ready; autosaveTimeout := id;
     alerted := alerted s |}.

Definition with_alerted (l : list string) (s : state) : state :=
  {| page := page s; isUpdating := isUpdating s; ui := ui s; selection := selection s;
     readyState := readyState s; sent := sent s; saves := saves s;
     loading := loading s; autosave_ready := autosave_ready s;
     autosaveTimeout := autosaveTimeout s; alerted := l |}.

(** The delays of [setupAutosave]. *)
Definition autosave_interval : Z := 10000.
Definition autosave_delay : Z := 5000.

(** ** The handlers *)

Section handlers.
Context `{Html} `{Layout} `{RegExp}.
Context (editor : nat) (currentUser : string) (cookie : string).

(** [editor.innerHTML] and [editor.innerHTML = content] *)
Definition innerHTML (s : state) : string := serialize (doc (page s)) editor.

Definition set_innerHTML (content : string) (s : state) : state :=
  with_page {| doc := replace_children editor (parse content) (doc (page s));
               cursors := cursors (page s) |} s.

(** Lines 52-56: the content of a message replaces that of the editor
    when it differs and no update is under way. *)
Definition apply_content (content : string) (s : state) : state :=
  if negb (isUpdating s) && bool_decide (innerHTML s ≠ content) then
    let s := with_isUpdating true s in
    let s := set_innerHTML content s in
    with_isUpdating false s
  else s.

(** Lines 59-61: [if (cursorPosition) updateCursor(user, cursorPosition)] *)
Definition apply_cursor (m : message) (s : state) : outcome unit * state :=
  match msg_cursorPosition m with
  | Some pos =>
      let '(r, pg) := updateCursor editor (msg_user m) pos (page s) in
      (r, with_page pg s)
  | None => (Ok (), s)
  end.

(** The body of [socket.onmessage] for the message [m] at time [now].
    An exception of [updateCursor] ends the handler. *)
Definition onmessage (now : Z) (m : message) (s : state) : outcome unit * state :=
  if decide (msg_action m = "edit"%string) then
    let s := apply_content (msg_content m) s in
    let '(r, s) := apply_cursor m s in
    match r with
    | Ok _ => (Ok (), with_ui (showUserTypingIndicator (msg_user m) now (ui s)) s)
    | Throw err => (Throw err, s)
    end
  else (Ok (), s).

(** [socket.onmessage] for the data of the event, parsed (45-49):
    [JSON.parse] throws on a text that is not JSON, reading [action]
    throws on [null], a value whose [action] is not [edit] is passed
    over.  [None] is a value [decode] does not read. *)
Definition receive (now : Z) (data : outcome json) (s : state)
    : option (outcome unit * state) :=
  match data with
  | Throw err => Some (Throw err, s)
  | Ok data =>
      match get data "action" with
      | Throw err => Some (Throw err, s)
      | Ok action =>
          if is_string action "edit" then
            m ← decode data; Some (onmessage now m s)
          else Some (Ok (), s)
      end
  end.

(** The socket is open: the browser sets the state and calls
    [socket.onopen] (40-42), which logs. *)
Definition onopen (s : state) : state := with_readyState OPEN s.

(** [socket.onerror] (69-72) *)
Definition onerror (s : state) : state :=
  with_alerted
    (alerted s ++ ["WebSocket connection failed. Please try refreshing the page."%string]) s.

(** The socket is closed: the browser sets the state, calls
    [socket.onerror] when the connection has failed, and calls
    [socket.onclose] (75-77), which logs. *)
Definition onclose (failed : bool) (s : state) : state :=
  let s := with_readyState CLOSED s in
  if failed then onerror s else s.

(** The first [input] listener (80-91).  [None] is the model of
    [getNodePath] running out of fuel. *)
Definition send_edit (s : state) : option (outcome unit * state) :=
  if isUpdating s then Some (Ok (), s)
  else
    let content := innerHTML s in
    r ← getCursorPosition (doc (page s)) editor (selection s);
    Some match r with
         | Ok cursorPosition =>
             match send (readyState s) (edit_message content cursorPosition currentUser)
                     (sent s) with
             | Ok l => (Ok (), with_sent l s)
             | Throw err => (Throw err, s)
             end
         | Throw err => (Throw err, s)
         end.

(** [autosaveDocument]: the token is read while the request is built, so
    an exception of [getCSRFToken] means no request. *)
Definition autosaveDocument (s : state) : outcome unit * state :=
  let content := innerHTML s in
  match getCSRFToken cookie with
  | Ok token =>
      (Ok (), with_saves (saves s ++ [{| save_content := content; save_token := token |}]) s)
  | Throw err => (Throw err, s)
  end.

(** The second [input] listener (280-283). *)
Definition debounce (now : Z) (s : state) : state :=
  let ts := clearTimeout (autosaveTimeout s) (timers_of s) in
  let '(id, ts) := setTimeout AutosaveDocument autosave_delay now ts in
  with_autosave (autosave_ready s) (Some id) (with_timers ts s).

(** [setupAutosave] *)
Definition setupAutosave (now : Z) (s : state) : state :=
  let '(_, ts) := setInterval AutosaveDocument autosave_interval now (timers_of s) in
  with_autosave true None (with_timers ts s).

(** The body [data] of the answer to the fetch (25-28):
    [editor.innerHTML = data.content || ''; setupAutosave()]. *)
Definition loaded (now : Z) (data : json) (s : state) : outcome unit * state :=
  match get data "content" with
  | Ok content =>
      (Ok (), setupAutosave now (set_innerHTML (to_string (or_else content (JString ""))) s))
  | Throw err => (Throw err, s)
  end.

(** [loadDocumentContent] (17-33), given the answer to the fetch: a
    rejected promise, a status that is not [ok], a body that is not JSON
    and an exception of the last callback are logged. *)
Definition loadDocumentContent (now : Z) (a : answer) (s : state) : state :=
  let s := with_loading false s in
  match a with
  | Response true (Some data) => (loaded now data s).2
  | _ => s
  end.

(** [duplicateLine] (245-247) *)
Definition duplicateLine (s : state) : state :=
  with_alerted
    (alerted s ++ ["Duplicate line functionality is not implemented yet."%string]) s.

(** [searchAndReplace()] (193-203), given the values of the two inputs:
    the markup of the editor is rewritten and assigned back. *)
Definition searchAndReplace (searchText replaceText : string) (s : state)
    : outcome unit * state :=
  if decide (searchText = ""%string) then (Ok (), s)
  else
    let content := innerHTML s in
    match replace_all searchText replaceText content with
    | Ok newContent => (Ok (), set_innerHTML newContent s)
    | Throw err => (Throw err, s)
    end.

(** An [input] event: the listeners run in the order they were added; an
    exception in the first does not keep the second from running. *)
Definition oninput (now : Z) (s : state) : option state :=
  r ← send_edit s;
  Some (if autosave_ready r.2 then debounce now r.2 else r.2).

(** The callback of a timer. *)
Definition run_timer (c : callback) (s : state) : state :=
  match c with
  | RemoveIndicator _ => with_ui (run_callback c (ui s)) s
  | AutosaveDocument => (autosaveDocument s).2
  end.

(** The browser running the next timer that is due. *)
Definition fire_timer (now : Z) (s : state) : option state :=
  match fire_next now (timers_of s) with
  | Some (_, tm, ts) => Some (run_timer (action tm) (with_timers ts s))
  | None => None
  end.

(** The browser running the timers that are due at time [now], one
    after the other.  A timer fires once at a given time: one that
    repeats is due again a period later.  So the number of pending
    timers is fuel enough. *)
Definition fire_all (fuel : nat) (now : Z) (s : state) : state :=
  iterate (fire_timer now) fuel s.

Definition elapse (now : Z) (s : state) : state :=
  fire_all (length (pending (timers_of s))) now s.

(** ** Events *)

(** A message arrives; the user edits the document, which leaves the
    document [d] and the selection [sel] and raises [input]; the user
    moves the caret; the fetch of the document is answered; a timer
    fires; the user presses the button of search and replace; the socket
    opens; the socket closes; the user asks for a line to be duplicated. *)
Inductive event : Type :=
| Receive (now : Z) (data : outcome json)
| Edit (now : Z) (d : dom) (sel : option range)
| Select (sel : option range)
| Loaded (now : Z) (a : answer)
| Fire (now : Z)
| Replace (searchText replaceText : string)
| SocketOpen
| SocketClose (failed : bool)
| DuplicateLine.

Definition handle (ev : event) (s : state) : option state :=
  match ev with
  | Receive now data => r ← receive now data s; Some r.2
  | Edit now d sel =>
      oninput now
        (with_selection sel (with_page {| doc := d; cursors := cursors (page s) |} s))
  | Select sel => Some (with_selection sel s)
  | Loaded now a => Some (loadDocumentContent now a s)
  | Fire now => fire_timer now s
  | Replace searchText replaceText => Some (searchAndReplace searchText replaceText s).2
  | SocketOpen => Some (onopen s)
  | SocketClose failed => Some (onclose failed s)
  | DuplicateLine => Some (duplicateLine s)
  end.

(** What the model assumes of the events: the user's edit leaves a
    well-formed document in which the editor and the markers still are
    elements and no identifier is reused, the selection is in the
    document, the fetch is answered once; a message arrives on an open
    socket and is one the model reads; a socket opens once and closes
    once. *)
Definition selection_ok (d : dom) (sel : option range) : Prop :=
  ∀ r, sel = Some r → is_Some (nodes d !! startContainer r).

Definition allowed (ev : event) (s : state) : Prop :=
  match ev with
  | Fire _ | Replace _ _ | DuplicateLine => True
  | Receive _ data => readyState s = OPEN ∧ understood data
  | Edit _ d sel =>
      overlay_inv editor {| doc := d; cursors := cursors (page s) |} ∧ selection_ok d sel
  | Select sel => selection_ok (doc (page s)) sel
  | Loaded _ _ => loading s = true
  | SocketOpen => readyState s = CONNECTING
  | SocketClose _ => readyState s ≠ CLOSED
  end.

(** The state when the script has run: the page [d], the socket is
    connecting, the fetch of the document is pending, nothing sent. *)
Definition init (d : dom) : state :=
  {| page := {| doc := d; cursors := ∅ |}; isUpdating := false; ui := typing_init;
     selection := None; readyState := CONNECTING; sent := []; saves := [];
     loading := true; autosave_ready := false; autosaveTimeout := None; alerted := [] |}.

Inductive reachable (d : dom) : state → Prop :=
| reachable_init : reachable d (init d)
| reachable_step s ev s' :
    reachable d s → allowed ev s → handle ev s = Some s' → reachable d s'.

(** ** The invariant

    Between two events the flag is down, the overlay satisfies its
    invariant and the selection is in the document. *)
Record editor_inv (s : state) : Prop := {
  ei_flag : isUpdating s = false;
  ei_page : overlay_inv editor (page s);
  ei_selection : selection_ok (doc (page s)) (selection s);
}.

(** The one-shot [autosaveDocument] timers that are pending are the one
    [autosaveTimeout] names, none is pending before [setupAutosave] has
    run, which it has not while the fetch is pending, and the timers that
    repeat have a positive period. *)
Record debounce_inv (s : state) : Prop := {
  di_timers : timers_wf (timers_of s);
  di_named : ∀ e, e ∈ pending (timers_of s) →
    action e.2 = AutosaveDocument → period e.2 = None → autosaveTimeout s = Some e.1;
  di_owner : ∀ e, e ∈ pending (timers_of s) →
    autosaveTimeout s = Some e.1 → action e.2 = AutosaveDocument;
  di_fresh : ∀ i, autosaveTimeout s = Some i → (i < next_timer (timers_of s))%nat;
  di_ready : autosave_ready s = false →
    autosaveTimeout s = None ∧
    ∀ e, e ∈ pending (timers_of s) → action e.2 ≠ AutosaveDocument;
  di_steady : steady_timers (ui s);
  di_loading : loading s = true → autosave_ready s = false;
}.

(** The invariant of the timer table: the autosave timers as above, and
    the badges and their timers as in [Typing]. *)
Definition timers_inv (s : state) : Prop :=
  debounce_inv s ∧ ∃ deadline, typing_inv deadline (ui s).

(** ** The content of a message *)

Implicit Types (s : state) (m : message).

Lemma apply_content_same content s : innerHTML s = content → apply_content content s = s.
Proof.
  intros Heq. unfold apply_content.
  by rewrite (bool_decide_eq_false_2 _ (λ Hne, Hne Heq)), andb_false_r.
Qed.

Lemma apply_content_differs content s :
  isUpdating s = false → innerHTML s ≠ content →
  apply_content content s = set_innerHTML content s.
Proof.
  intros Hflag Hne. unfold apply_content.
  rewrite Hflag, (bool_decide_eq_true_2 _ Hne). destruct s; simpl in *. by subst.
Qed.

Lemma apply_content_busy content s : isUpdating s = true → apply_content content s = s.
Proof. intros Hflag. unfold apply_content. by rewrite Hflag. Qed.

(** The content step is one of two: nothing, or the assignment. *)
Lemma apply_content_cases content s :
  apply_content content s = s ∨
  (isUpdating s = false ∧ innerHTML s ≠ content ∧
   apply_content content s = set_innerHTML content s).
Proof.
  destruct (isUpdating s) eqn:Hflag; [left; by apply apply_content_busy|].
  destruct (decide (innerHTML s = content)); [left; by apply apply_content_same|].
  right. by rewrite apply_content_differs.
Qed.

Lemma set_innerHTML_overlay content s :
  overlay_inv editor (page s) → overlay_inv editor (page (set_innerHTML content s)).
Proof.
  intros [Hwf He Hm Hinj]. split; simpl; [|by apply replace_children_frame| |done].
  - by apply replace_children_dom_wf.
  - intros u c [? [el Hel]]%Hm. split; [done|]. exists el.
    by destruct (replace_children_frame editor (parse content) _ c Hwf He
                   (content_of_node _ _ _ Hel)) as [_ ->].
Qed.

Lemma set_innerHTML_selection content s :
  overlay_inv editor (page s) → selection_ok (doc (page s)) (selection s) →
  selection_ok (doc (page (set_innerHTML content s))) (selection (set_innerHTML content s)).
Proof.
  intros [Hwf He _ _] Hsel r Hr. simpl. by apply replace_children_frame, Hsel.
Qed.

Lemma set_innerHTML_inv content s : editor_inv s → editor_inv (set_innerHTML content s).
Proof.
  intros [Hflag Hpg Hsel]. split;
    [done|by apply set_innerHTML_overlay|by apply set_innerHTML_selection].
Qed.

Lemma apply_content_inv content s : editor_inv s → editor_inv (apply_content content s).
Proof.
  intros Hinv. destruct (apply_content_cases content s) as [->|(_ & _ & ->)]; [done|].
  by apply set_innerHTML_inv.
Qed.

Lemma with_page_same s : with_page (page s) s = s.
Proof. by destruct s. Qed.

(** Only the page changes, and the markers recorded are the same. *)
Lemma apply_content_frame content s :
  ∃ pg, apply_content content s = with_page pg s ∧ cursors pg = cursors (page s).
Proof.
  destruct (apply_content_cases content s) as [->|(Hflag & _ & ->)].
  - exists (page s). by rewrite with_page_same.
  - by eexists.
Qed.

(** ** The invariant of the page *)

(** The invariant reads the page, the flag and the selection only. *)
Lemma editor_inv_ext s s' :
  page s' = page s → isUpdating s' = isUpdating s → selection s' = selection s →
  editor_inv s → editor_inv s'.
Proof. intros Hp Hf Hs [? ? ?]. split; by rewrite ?Hp, ?Hf, ?Hs. Qed.

(** [H] is the invariant of a state that differs from the goal's in
    other fields. *)
Ltac inv_ext H := eapply editor_inv_ext; [| | |exact H]; reflexivity.

Lemma apply_cursor_state m s :
  apply_cursor m s = (Ok (), s) ∨
  ∃ pos, msg_cursorPosition m = Some pos ∧
         apply_cursor m s =
         ((updateCursor editor (msg_user m) pos (page s)).1,
          with_page (updateCursor editor (msg_user m) pos (page s)).2 s).
Proof.
  unfold apply_cursor. destruct (msg_cursorPosition m) as [pos|]; [right|by left].
  exists pos. by destruct (updateCursor _ _ _ _).
Qed.

(** Only the page changes. *)
Lemma apply_cursor_frame m s : ∃ pg, (apply_cursor m s).2 = with_page pg s.
Proof.
  destruct (apply_cursor_state m s) as [->|(pos & _ & ->)]; [|by eexists].
  exists (page s). by rewrite with_page_same.
Qed.

Lemma apply_cursor_inv m s : editor_inv s → editor_inv (apply_cursor m s).2.
Proof.
  intros Hinv. destruct (apply_cursor_state m s) as [->|(pos & _ & ->)]; [done|].
  destruct Hinv as [Hflag Hpg Hsel]. split; simpl; [done|by apply updateCursor_overlay|].
  intros r Hr. by apply updateCursor_nodes, Hsel.
Qed.

(** The state after a message: the content step, the cursor step, and
    the badge when the cursor step returns. *)
Lemma onmessage_state now m s :
  let s1 := (apply_cursor m (apply_content (msg_content m) s)).2 in
  (onmessage now m s).2 = s ∨ (onmessage now m s).2 = s1 ∨
  (onmessage now m s).2 = with_ui (showUserTypingIndicator (msg_user m) now (ui s1)) s1.
Proof.
  unfold onmessage. case_decide; [|by left].
  destruct (apply_cursor m _) as [[[]|err] s1]; simpl; auto.
Qed.

(** A message changes the page and, when it is handled to its end, the
    badges. *)
Lemma onmessage_frame now m s :
  onmessage now m s = (Ok (), s) ∧ msg_action m ≠ "edit"%string ∨
  msg_action m = "edit"%string ∧
  ∃ pg, (∃ err, onmessage now m s = (Throw err, with_page pg s)) ∨
        onmessage now m s =
        (Ok (), with_ui (showUserTypingIndicator (msg_user m) now (ui s)) (with_page pg s)).
Proof.
  unfold onmessage. case_decide as Ha; [right; split; [done|]|by left].
  destruct (apply_content_frame (msg_content m) s) as (pg & -> & _).
  destruct (apply_cursor_frame m (with_page pg s)) as [pg' Hpg].
  destruct (apply_cursor m _) as [[[]|err] s1]; simpl in Hpg; subst s1; exists pg'; eauto.
Qed.

Lemma onmessage_inv now m s : editor_inv s → editor_inv (onmessage now m s).2.
Proof.
  intros Hinv.
  pose proof (apply_cursor_inv m _ (apply_content_inv (msg_content m) _ Hinv)) as Hinv'.
  destruct (onmessage_state now m s) as [->|[->| ->]]; [done..|]. inv_ext Hinv'.
Qed.

(** A message that is handled leaves the state, or is read by [decode]
    and handled by [onmessage]. *)
Lemma receive_state now data s r :
  receive now data s = Some r →
  r = (r.1, s) ∧ r.1 ≠ Ok () ∨ r = (Ok (), s) ∧ (∀ j, data = Ok j → is_edit j = false) ∨
  ∃ j m, data = Ok j ∧ is_edit j = true ∧ decode j = Some m ∧ r = onmessage now m s.
Proof.
  unfold receive. destruct data as [j|err]; [|intros [= <-]; by left].
  pose proof (eq_refl (is_edit j)) as He. unfold is_edit at 2 in He.
  destruct (get j "action") as [action|err]; [|intros [= <-]; by left].
  destruct (is_string action "edit").
  - destruct (decode j) as [m|] eqn:Hm; [|done]. intros [= <-]. right. right.
    by exists j, m.
  - intros [= <-]. right. left. split; [done|]. by intros ? [= <-].
Qed.

Lemma receive_inv now data s r : editor_inv s → receive now data s = Some r → editor_inv r.2.
Proof.
  intros Hinv [[-> _]|[[-> _]|(j & m & _ & _ & _ & ->)]]%receive_state; [done..|].
  by apply onmessage_inv.
Qed.

(** A message the model reads is handled. *)
Lemma receive_total now data s : understood data → is_Some (receive now data s).
Proof.
  unfold receive, understood, is_edit. destruct data as [j|err]; [|by eexists].
  destruct (get j "action") as [action|err]; [|by eexists].
  destruct (is_string action "edit"); [|by eexists].
  intros [m ->]; [done|]. by eexists.
Qed.

(** The answer to the fetch ends the loading; it sets the content and
    starts the autosave, or does no more. *)
Lemma loadDocumentContent_state now a s :
  loadDocumentContent now a s = with_loading false s ∨
  ∃ content, loadDocumentContent now a s =
             setupAutosave now (set_innerHTML content (with_loading false s)).
Proof.
  unfold loadDocumentContent, loaded. destruct a as [|[] [data|]]; auto.
  destruct (get data "content"); simpl; eauto.
Qed.

Lemma onclose_state failed s :
  onclose failed s = with_readyState CLOSED s ∨
  onclose failed s = onerror (with_readyState CLOSED s).
Proof. destruct failed; auto. Qed.

(** The first listener returns or throws, given the fuel of
    [getNodePath]. *)
Lemma send_edit_total s : editor_inv s → is_Some (send_edit s).
Proof.
  intros [Hflag [Hwf _ _ _] Hsel]. unfold send_edit. rewrite Hflag.
  destruct (getCursorPosition_total (doc (page s)) editor (selection s) Hwf Hsel)
    as [r ->]. by eauto.
Qed.

Lemma with_sent_same s : with_sent (sent s) s = s.
Proof. by destruct s. Qed.

(** The first listener leaves the state, or sends one message on the
    open socket. *)
Lemma send_edit_state s r :
  send_edit s = Some r →
  r.2 = s ∨
  ∃ pos, readyState s = OPEN ∧
         r.2 = with_sent (sent s ++ [edit_message (innerHTML s) pos currentUser]) s.
Proof.
  unfold send_edit. destruct (isUpdating s); [intros [= <-]; by left|].
  destruct (getCursorPosition _ _ _) as [[pos|err]|]; simpl; intros [= <-]; [|by left].
  destruct (send _ _ _) as [l|err] eqn:Hs; [|by left].
  apply send_cases in Hs as [->|[? ->]]; [left; apply with_sent_same|right; by exists pos].
Qed.

Lemma autosaveDocument_state s :
  (autosaveDocument s).2 = s ∨ ∃ req, (autosaveDocument s).2 = with_saves (saves s ++ [req]) s.
Proof. unfold autosaveDocument. destruct (getCSRFToken cookie); eauto. Qed.

(** An [input] event changes what was sent and the timers. *)
Lemma oninput_frame now s s' :
  oninput now s = Some s' →
  s' = with_autosave (autosave_ready s) (autosaveTimeout s')
         (with_ui (ui s') (with_sent (sent s') s)).
Proof.
  unfold oninput. destruct (send_edit s) as [r|] eqn:Hr; [|done]. simpl. intros [= <-].
  assert (∃ l, r.2 = with_sent l s) as [l ->]
    by (destruct (send_edit_state s r Hr) as [->|(pos & _ & ->)];
        [exists (sent s); by rewrite with_sent_same|by eexists]).
  simpl. destruct (autosave_ready s) eqn:Hready; unfold debounce.
  - destruct (setTimeout _ _ _ _) as [id ts]. simpl. by rewrite Hready.
  - destruct s. simpl in *. by subst.
Qed.

(** A timer changes the badges, the table and the requests to save. *)
Lemma fire_timer_frame now s s' :
  fire_timer now s = Some s' → s' = with_saves (saves s') (with_ui (ui s') s).
Proof.
  unfold fire_timer. destruct (fire_next now (timers_of s)) as [[[i tm] ts]|]; [|done].
  intros [= <-]. destruct (action tm); simpl; [done|].
  by destruct (autosaveDocument_state (with_timers ts s)) as [->|[req ->]].
Qed.

Lemma oninput_inv now s s' : editor_inv s → oninput now s = Some s' → editor_inv s'.
Proof.
  intros Hinv. unfold oninput. destruct (send_edit s) as [r|] eqn:Hr; [|done].
  simpl. intros [= <-].
  assert (editor_inv r.2) as Hinv'
    by (destruct (send_edit_state s r Hr) as [->|(pos & _ & ->)]; [done|inv_ext Hinv]).
  destruct (autosave_ready r.2); [|done]. unfold debounce.
  destruct (setTimeout _ _ _ _) as [id ts]. inv_ext Hinv'.
Qed.

Lemma fire_timer_inv now s s' : editor_inv s → fire_timer now s = Some s' → editor_inv s'.
Proof.
  intros Hinv. unfold fire_timer.
  destruct (fire_next now (timers_of s)) as [[[i tm] ts]|]; [|done]. intros [= <-].
  assert (editor_inv (with_timers ts s)) as Hinv' by inv_ext Hinv.
  destruct (action tm); simpl; [inv_ext Hinv'|].
  destruct (autosaveDocument_state (with_timers ts s)) as [->|[req ->]];
    [done|inv_ext Hinv'].
Qed.

(** Search and replace assigns to [innerHTML], or does nothing. *)
Lemma searchAndReplace_state a b s :
  (searchAndReplace a b s).2 = s ∨ ∃ content, (searchAndReplace a b s).2 = set_innerHTML content s.
Proof.
  unfold searchAndReplace. case_decide; [by left|].
  destruct (replace_all a b (innerHTML s)) as [content|err]; simpl; eauto.
Qed.

Lemma searchAndReplace_inv a b s : editor_inv s → editor_inv (searchAndReplace a b s).2.
Proof.
  intros Hinv. destruct (searchAndReplace_state a b s) as [->|[content ->]]; [done|].
  by apply set_innerHTML_inv.
Qed.

Lemma handle_editor_inv ev s s' :
  editor_inv s → allowed ev s → handle ev s = Some s' → editor_inv s'.
Proof.
  intros Hinv Hal. destruct ev as [now data|now d sel|sel|now a|now|a b| |failed|]; simpl.
  - destruct (receive now data s) as [r|] eqn:Hr; [|done]. intros [= <-].
    by apply (receive_inv now data s).
  - apply oninput_inv. destruct Hinv as [Hflag _ _], Hal as [Hpg Hsel]. by split.
  - intros [= <-]. destruct Hinv as [Hflag Hpg _]. by split.
  - intros [= <-]. assert (editor_inv (with_loading false s)) as Hinv0 by inv_ext Hinv.
    destruct (loadDocumentContent_state now a s) as [->|[content ->]]; [done|].
    pose proof (set_innerHTML_inv content _ Hinv0) as Hinv'.
    unfold setupAutosave. destruct (setInterval _ _ _ _) as [id ts]. inv_ext Hinv'.
  - by apply fire_timer_inv.
  - intros [= <-]. by apply searchAndReplace_inv.
  - intros [= <-]. inv_ext Hinv.
  - intros [= <-]. destruct (onclose_state failed s) as [->| ->]; inv_ext Hinv.
  - intros [= <-]. inv_ext Hinv.
Qed.

(** ** The invariant of the timer table *)

(** The invariant reads the badges, the table, the two variables of
    [setupAutosave] and the flag of the fetch only. *)
Lemma timers_inv_ext s s' :
  ui s' = ui s → autosave_ready s' = autosave_ready s →
  autosaveTimeout s' = autosaveTimeout s → (loading s' = true → loading s = true) →
  timers_inv s → timers_inv s'.
Proof.
  intros Hu Hr Ht Hl [[? ? ? ? ? ? ?] [deadline ?]]. unfold timers_inv, timers_of.
  split; [split|exists deadline]; unfold timers_of; rewrite ?Hu, ?Hr, ?Ht; auto.
Qed.

Ltac timers_ext H :=
  eapply timers_inv_ext; [| | | |exact H]; [reflexivity|reflexivity|reflexivity|by simpl].

(** The badge of a message. *)
Lemma show_timers_inv u now s :
  timers_inv s → timers_inv (with_ui (showUserTypingIndicator u now (ui s)) s).
Proof.
  intros [[Hwf Hnamed Hown Hfresh Hready Hst Hld] [deadline Hty]].
  split; [split; [| | | | |by apply show_steady|done]|eexists; by apply show_inv];
    unfold timers_of; simpl.
  - rewrite typing_timers_show. auto with js.
  - intros e [[He _]| ->]%pending_show; [by apply Hnamed|done].
  - intros e [[He _]| ->]%pending_show Ht; [by apply Hown|].
    apply Hfresh in Ht. simpl in Ht. unfold timers_of in Ht. lia.
  - intros i Hi%Hfresh. rewrite next_timer_show. unfold timers_of in Hi. lia.
  - intros [Ht Hno]%Hready. split; [done|].
    intros e [[He _]| ->]%pending_show; [by apply Hno|done].
Qed.

(** The second listener cancels and arms autosave timers: the badges
    keep theirs. *)
Lemma debounce_typing_inv now s deadline :
  debounce_inv s → typing_inv deadline (ui s) → typing_inv deadline (ui (debounce now s)).
Proof.
  intros Hdi Hty. unfold debounce.
  rewrite (surjective_pairing (setTimeout _ _ _ _)), setTimeout_arm. simpl.
  apply (typing_inv_arm _ {| indicators := _; typing_timers := _ |}).
  apply typing_inv_clear; [done|]. intros e u He Ht Ha.
  apply (di_owner s Hdi) in Ht; [|done]. congruence.
Qed.

Lemma setupAutosave_typing_inv now s deadline :
  typing_inv deadline (ui s) → typing_inv deadline (ui (setupAutosave now s)).
Proof.
  intros Hty. unfold setupAutosave.
  rewrite (surjective_pairing (setInterval _ _ _ _)), setInterval_arm.
  by apply (typing_inv_arm _ (ui s)).
Qed.

(** The second listener. *)
Lemma debounce_timers_inv now s :
  autosave_ready s = true → timers_inv s → timers_inv (debounce now s).
Proof.
  intros Hr [Hdi [deadline Hty]].
  split; [|exists deadline; by apply debounce_typing_inv].
  destruct Hdi as [Hwf Hnamed Hown Hfresh Hready Hst Hld].
  unfold debounce. rewrite (surjective_pairing (setTimeout _ _ _ _)), setTimeout_arm.
  split; unfold timers_of, steady_timers; simpl.
  - by apply arm_wf, clearTimeout_wf.
  - intros e [[He Hne]%clearTimeout_elem| ->]%pending_arm Ha Hp;
      [|by rewrite next_timer_clearTimeout].
    destruct Hne. by apply Hnamed.
  - intros e [[He _]%clearTimeout_elem| ->]%pending_arm Hi; [|done].
    injection Hi as Hi. rewrite next_timer_clearTimeout in Hi.
    apply (pending_fresh _ _ Hwf) in He. unfold timers_of in *. lia.
  - intros i [= <-]. lia.
  - by rewrite Hr.
  - intros e every [[He _]%clearTimeout_elem| ->]%pending_arm; [by apply Hst|done].
  - exact Hld.
Qed.

(** [setupAutosave], when it has not run before and the fetch has been
    answered. *)
Lemma setupAutosave_timers_inv now s :
  autosave_ready s = false → loading s = false → timers_inv s →
  timers_inv (setupAutosave now s).
Proof.
  intros Hr Hl [[Hwf Hnamed Hown Hfresh Hready Hst Hld] [deadline Hty]].
  split; [|exists deadline; by apply setupAutosave_typing_inv].
  destruct (Hready Hr) as [_ Hno].
  unfold setupAutosave. rewrite (surjective_pairing (setInterval _ _ _ _)), setInterval_arm.
  split; unfold timers_of, steady_timers; simpl; try done.
  - by apply arm_wf.
  - intros e [He| ->]%pending_arm Ha; [by apply Hno in He|done].
  - intros e every [He| ->]%pending_arm; [by apply Hst|]. by intros [= <-].
  - by rewrite Hl.
Qed.

(** The badges and the table after a timer has fired are those of
    [Typing.fire]. *)
Lemma ui_fire_timer now s s' : fire_timer now s = Some s' → fire now (ui s) = Some (ui s').
Proof.
  unfold fire_timer, fire, timers_of.
  destruct (fire_next now (typing_timers (ui s))) as [[[i tm] ts]|]; [|done].
  intros [= <-]. f_equal. destruct (action tm); simpl; [done|].
  by destruct (autosaveDocument_state (with_timers ts s)) as [->|[req ->]].
Qed.

Lemma autosave_fire_timer now s s' :
  fire_timer now s = Some s' →
  autosave_ready s' = autosave_ready s ∧ autosaveTimeout s' = autosaveTimeout s ∧
  loading s' = loading s.
Proof.
  unfold fire_timer. destruct (fire_next now (timers_of s)) as [[[i tm] ts]|]; [|done].
  intros [= <-]. destruct (action tm); simpl; [done|].
  by destruct (autosaveDocument_state (with_timers ts s)) as [->|[req ->]].
Qed.

Lemma fire_timers_inv now s s' : timers_inv s → fire_timer now s = Some s' → timers_inv s'.
Proof.
  intros [[Hwf Hnamed Hown Hfresh Hready Hst Hld] [deadline Hty]] Hf.
  destruct (autosave_fire_timer _ _ _ Hf) as (Hr & Ht & Hl).
  apply ui_fire_timer in Hf. pose proof (fire_inv _ _ _ _ Hty Hf) as Hty'.
  pose proof (fire_steady _ _ _ Hst Hf) as Hst'.
  apply fire_Some in Hf as (e & He & _ & _ & Hui).
  assert (typing_timers (ui s') =
          Timers (rearm now e (pending (timers_of s))) (next_timer (timers_of s))) as Hts
    by (by rewrite Hui, typing_timers_run_callback).
  split; [split; [| | | | |done|by rewrite Hl, Hr]|by exists deadline];
    unfold timers_of; rewrite ?Hts, ?Hr, ?Ht; simpl.
  - by apply rearm_wf.
  - intros e' (e0 & He0 & <- & <- & <-)%rearm_elem. by apply Hnamed.
  - intros e' (e0 & He0 & <- & <- & _)%rearm_elem. by apply Hown.
  - done.
  - intros [? Hno]%Hready. split; [done|].
    intros e' (e0 & He0 & _ & <- & _)%rearm_elem. by apply Hno.
Qed.

Lemma onmessage_timers_inv now m s : timers_inv s → timers_inv (onmessage now m s).2.
Proof.
  intros Hinv.
  destruct (onmessage_frame now m s) as [[-> _]|(_ & pg & [[err ->]| ->])]; simpl;
    [done|timers_ext Hinv|].
  apply (show_timers_inv _ _ (with_page pg s)). timers_ext Hinv.
Qed.

Lemma oninput_timers_inv now s s' : timers_inv s → oninput now s = Some s' → timers_inv s'.
Proof.
  intros Hinv. unfold oninput. destruct (send_edit s) as [r|] eqn:Hr; [|done].
  simpl. intros [= <-].
  assert (timers_inv r.2) as Hinv'
    by (destruct (send_edit_state s r Hr) as [->|(pos & _ & ->)]; [done|timers_ext Hinv]).
  destruct (autosave_ready r.2) eqn:Hready; [|done]. by apply debounce_timers_inv.
Qed.

Lemma receive_timers_inv now data s r :
  timers_inv s → receive now data s = Some r → timers_inv r.2.
Proof.
  intros Hinv [[-> _]|[[-> _]|(j & m & _ & _ & _ & ->)]]%receive_state; [done..|].
  by apply onmessage_timers_inv.
Qed.

Lemma handle_timers_inv ev s s' :
  timers_inv s → allowed ev s → handle ev s = Some s' → timers_inv s'.
Proof.
  intros Hinv Hal. destruct ev as [now data|now d sel|sel|now a|now|a b| |failed|]; simpl.
  - destruct (receive now data s) as [r|] eqn:Hr; [|done]. intros [= <-].
    by apply (receive_timers_inv now data s).
  - apply oninput_timers_inv. timers_ext Hinv.
  - intros [= <-]. timers_ext Hinv.
  - intros [= <-]. destruct (loadDocumentContent_state now a s) as [->|[content ->]];
      [timers_ext Hinv|].
    apply setupAutosave_timers_inv; [|done|timers_ext Hinv].
    exact (di_loading s (proj1 Hinv) Hal).
  - by apply fire_timers_inv.
  - intros [= <-]. destruct (searchAndReplace_state a b s) as [->|[content ->]]; [done|].
    timers_ext Hinv.
  - intros [= <-]. timers_ext Hinv.
  - intros [= <-]. destruct (onclose_state failed s) as [->| ->]; timers_ext Hinv.
  - intros [= <-]. timers_ext Hinv.
Qed.

(** ** Time passes *)

Lemma fire_timer_None now s : fire_timer now s = None ↔ fire now (ui s) = None.
Proof.
  unfold fire_timer, fire, timers_of.
  by destruct (fire_next now (typing_timers (ui s))) as [[[i tm] ts]|].
Qed.

(** The badges and the table after the due timers have fired are those
    of [Typing.fire_due]. *)
Lemma ui_fire_all fuel now s : ui (fire_all fuel now s) = fire_due fuel now (ui s).
Proof.
  apply (iterate_fmap (fire_timer now) (fire now) ui). clear s. intros s.
  destruct (fire_timer now s) as [s'|] eqn:Hf; simpl.
  - by apply ui_fire_timer.
  - by apply fire_timer_None.
Qed.

Lemma ui_elapse now s : ui (elapse now s) = advance now (ui s).
Proof. apply ui_fire_all. Qed.

Lemma elapse_inv now s :
  editor_inv s ∧ timers_inv s → editor_inv (elapse now s) ∧ timers_inv (elapse now s).
Proof.
  apply (iterate_ind (fire_timer now) (λ s, editor_inv s ∧ timers_inv s)).
  intros s0 s' [? ?] Hf. eauto using fire_timer_inv, fire_timers_inv.
Qed.

(** No timer is due once the due timers have fired. *)
Lemma elapse_done now s : timers_inv s → fire_timer now (elapse now s) = None.
Proof.
  intros [[_ _ _ _ _ Hst] _]. apply fire_timer_None. rewrite ui_elapse.
  by apply advance_done.
Qed.

(** ** Reachable states *)

Lemma init_inv d :
  dom_wf d → is_Some (nodes d !! editor) → editor_inv (init d) ∧ timers_inv (init d).
Proof.
  intros Hwf He. split; [split; [done|by split|done]|].
  split; [split; simpl|exists 0; apply typing_init_inv].
  - apply no_timers_wf.
  - by intros e ?%elem_of_nil.
  - by intros e ?%elem_of_nil.
  - done.
  - intros _. split; [done|]. by intros e ?%elem_of_nil.
  - apply typing_init_steady.
  - done.
Qed.

(** Induction on the reachable states, with the invariants at hand: a
    property of the first state that every event keeps in the states
    that satisfy the invariants holds, with them, in every state the
    editor reaches. *)
Lemma reachable_ind_inv (d : dom) (P : state → Prop) :
  dom_wf d → is_Some (nodes d !! editor) → P (init d) →
  (∀ s ev s', editor_inv s → timers_inv s → P s →
              allowed ev s → handle ev s = Some s' → P s') →
  ∀ s, reachable d s → editor_inv s ∧ timers_inv s ∧ P s.
Proof.
  intros Hwf He Hinit Hstep s.
  induction 1 as [|s ev s' _ (IH1 & IH2 & IH3) Hal Hh].
  - destruct (init_inv d Hwf He). by split_and!.
  - split_and!; eauto using handle_editor_inv, handle_timers_inv.
Qed.

(** C1: the invariants hold in every state the editor reaches from a
    well-formed page that has the editor element: between two events
    the flag [isUpdating] is down, the document is well formed, the
    markers are distinct elements of it, the selection is in the
    document; the pending one-shot autosave timer is the one
    [autosaveTimeout] names, and no autosave timer is pending while the
    fetch of the document is; there is one typing badge per user and
    each has a pending timer of its own. *)
Theorem reachable_inv (d : dom) (s : state) :
  dom_wf d → is_Some (nodes d !! editor) → reachable d s →
  editor_inv s ∧ timers_inv s.
Proof.
  intros Hwf He Hr.
  destruct (reachable_ind_inv d (λ _, True) Hwf He I (λ _ _ _ _ _ _ _ _, I) s Hr)
    as (? & ? & _).
  done.
Qed.

(** C33: every event is handled: on a state that satisfies the
    invariant the handler of an allowed event returns a state, the fuel
    of [getNodePath] being enough, unless the event is a timer firing
    when none is due. *)
Theorem handle_total (ev : event) (s : state) :
  editor_inv s → allowed ev s →
  is_Some (handle ev s) ∨ ∃ now, ev = Fire now ∧ fire_next now (timers_of s) = None.
Proof.
  intros Hinv Hal. destruct ev as [now data|now d sel|sel|now a|now|a b| |failed|]; simpl;
    try by left.
  - left. destruct Hal as [_ Hu]. by destruct (receive_total now data s Hu) as [r ->].
  - left. destruct Hinv as [Hflag _ _], Hal as [Hpg Hsel]. unfold oninput.
    destruct (send_edit_total
                (with_selection sel (with_page {| doc := d; cursors := cursors (page s) |} s)))
      as [r ->]; [by split|done].
  - unfold fire_timer.
    destruct (fire_next now (timers_of s)) as [[[i tm] ts]|] eqn:Hf; [by left|right].
    by exists now.
Qed.

(** ** The life of a typing badge *)

Lemma elapse_timers_inv now s : timers_inv s → timers_inv (elapse now s).
Proof. apply (iterate_ind (fire_timer now)). intros s0 s'. apply fire_timers_inv. Qed.

(** The badge of a message that is handled to its end. *)
Lemma onmessage_ui now m s :
  msg_action m = "edit"%string → (onmessage now m s).1 = Ok () →
  ui (onmessage now m s).2 = showUserTypingIndicator (msg_user m) now (ui s).
Proof.
  intros Ha.
  by destruct (onmessage_frame now m s) as [[_ ?]|(_ & pg & [[err ->]| ->])].
Qed.

(** C10: every badge expires in the editor.  In a state that satisfies
    the invariant of the timers, whose badges have timers due by
    [deadline], once that time has come and the due timers have fired,
    the autosave interval among them, no badge is left, no timer is due,
    and the invariant holds. *)
Theorem elapse_expires (now : Z) (s : state) (deadline : Z) :
  timers_inv s → typing_inv deadline (ui s) → deadline ≤ now →
  indicators (ui (elapse now s)) = [] ∧ fire_timer now (elapse now s) = None ∧
  timers_inv (elapse now s).
Proof.
  intros Hinv Hty Hle. split_and!; [|by apply elapse_done|by apply elapse_timers_inv].
  rewrite ui_elapse. destruct Hinv as [[_ _ _ _ _ Hst] _].
  by apply (advance_expires now (ui s) deadline).
Qed.

(** The badge of a message stays 2000 ms.  When a message of a user
    who has no pending timer is handled to its end at time [now], the
    badge of the user is there as long as fewer than 2000 ms have passed,
    whatever other timers fire, and is gone once 2000 ms have passed and
    the due timers have fired. *)
Theorem onmessage_badge (now t : Z) (m : message) (s : state) :
  timers_inv s → msg_action m = "edit"%string → (onmessage now m s).1 = Ok () →
  (∀ e, e ∈ pending (timers_of s) → action e.2 ≠ RemoveIndicator (msg_user m)) →
  (t < now + typing_delay → msg_user m ∈ users_of (ui (elapse t (onmessage now m s).2))) ∧
  (now + typing_delay ≤ t → msg_user m ∉ users_of (ui (elapse t (onmessage now m s).2))).
Proof.
  intros [[_ _ _ _ _ Hst] [deadline Hty]] Ha Hok Hnone.
  rewrite ui_elapse, onmessage_ui by done.
  destruct (show_inv (msg_user m) now (ui s) deadline Hty) as [Hwf Hnd _ _ _].
  split; intros Ht.
  - apply advance_keeps; [by apply show_steady| |apply users_of_show_elem; by left].
    intros e [[He _]| ->]%pending_show Hact; [by apply Hnone in He|done].
  - apply (advance_removes _ (next_timer (typing_timers (ui s)),
                              Timer (now + typing_delay) None (RemoveIndicator (msg_user m))));
      [done|done|by apply show_steady| |done..].
    apply pending_show. by right.
Qed.

(** ** What a message does *)

(** A message changes the page and the badges; nothing is sent or saved,
    and the flag is as before. *)
Lemma onmessage_rest now m s :
  let s' := (onmessage now m s).2 in
  isUpdating s' = isUpdating s ∧ selection s' = selection s ∧ sent s' = sent s ∧
  saves s' = saves s ∧ autosave_ready s' = autosave_ready s ∧
  autosaveTimeout s' = autosaveTimeout s.
Proof.
  by destruct (onmessage_frame now m s) as [[-> _]|(_ & pg & [[err ->]| ->])].
Qed.

(** The content of a message.  With the flag down, a message
    without cursor position leaves the page as it is when its content is
    the content of the editor, and otherwise replaces the children of
    the editor by the parsed content; the markers recorded in [cursors]
    are the same. *)
Theorem onmessage_content (now : Z) (m : message) (s : state) :
  isUpdating s = false → msg_action m = "edit"%string → msg_cursorPosition m = None →
  page (onmessage now m s).2 =
  if decide (innerHTML s = msg_content m) then page s
  else {| doc := replace_children editor (parse (msg_content m)) (doc (page s));
          cursors := cursors (page s) |}.
Proof.
  intros Hflag Ha Hpos. unfold onmessage, apply_cursor. rewrite decide_True, Hpos by done.
  simpl. case_decide as Hc.
  - by rewrite apply_content_same.
  - by rewrite apply_content_differs.
Qed.

Lemma onmessage_edit_page now m s :
  msg_action m = "edit"%string →
  page (onmessage now m s).2 = page (apply_cursor m (apply_content (msg_content m) s)).2.
Proof.
  intros Ha. unfold onmessage. rewrite decide_True by done.
  by destruct (apply_cursor m _) as [[[]|err] s1].
Qed.

(** C36: new content detaches the markers.  A marker is a child of the
    editor, so a message whose content differs from the editor's removes
    it from the document with the other children.  [cursors] still
    holds the marker, [updateCursor] finds it there and does not append
    it again: after the message the marker of every user that had one,
    the sender included, has no parent. *)
Theorem onmessage_detaches_markers (now : Z) (m : message) (s : state)
    (u : string) (c : nat) :
  editor_inv s → msg_action m = "edit"%string → innerHTML s ≠ msg_content m →
  cursors (page s) !! u = Some c → c ∈ children_of (doc (page s)) editor →
  let s' := (onmessage now m s).2 in
  cursors (page s') !! u = Some c ∧ parent_of (doc (page s')) c = None.
Proof.
  intros Hinv Ha Hne Hu Hc. cbv zeta. rewrite onmessage_edit_page by done.
  pose proof (set_innerHTML_overlay (msg_content m) s (ei_page _ Hinv)) as Hov.
  destruct Hinv as [Hflag [Hwf He Hm _] _]. rewrite apply_content_differs by done.
  destruct (Hm u c Hu) as [_ [el Hel%content_of_node]].
  assert (parent_of (doc (page (set_innerHTML (msg_content m) s))) c = None) as Hdet
    by (by apply replace_children_detaches).
  assert (is_Some (nodes (doc (page (set_innerHTML (msg_content m) s))) !! c)) as Hn
    by (by apply replace_children_frame).
  destruct (apply_cursor_state m (set_innerHTML (msg_content m) s))
    as [->|(pos & _ & ->)]; [done|]. simpl.
  split; [by apply updateCursor_cursors|]. by rewrite updateCursor_parent.
Qed.

(** C37: an offset out of range ends the handler.  When the position
    of a message resolves to a node whose length is smaller than the
    offset, [updateCursor] throws; [onmessage] does not catch the
    exception, so the badge of the sender is not shown and no timer is
    armed, although the content of the message has been applied. *)
Theorem onmessage_stale_offset (now : Z) (m : message) (s : state)
    (pos : position) (n : nat) :
  msg_action m = "edit"%string → msg_cursorPosition m = Some pos →
  let s1 := apply_content (msg_content m) s in
  let pg := (find_cursor editor (msg_user m) (page s1)).2 in
  getNodeFromPath (doc pg) editor (path pos) = JNode n →
  Z.of_nat (node_length (doc pg) n) < offset pos `mod` 2 ^ 32 →
  onmessage now m s = (Throw IndexSizeError, with_page pg s1) ∧
  ui (with_page pg s1) = ui s.
Proof.
  intros Ha Hpos s1 pg Hn Hlen.
  split; [|subst s1; by destruct (apply_content_frame (msg_content m) s) as (pg0 & -> & _)].
  unfold onmessage, apply_cursor, updateCursor. rewrite decide_True, Hpos by done.
  fold s1. destruct (find_cursor editor (msg_user m) (page s1)) as [cursor pg'].
  simpl in pg. subst pg. rewrite Hn.
  by rewrite (proj2 (setStart_Throw _ _ _ IndexSizeError)).
Qed.

(** ** What an input event does *)

Lemma debounce_rest now s :
  page (debounce now s) = page s ∧ sent (debounce now s) = sent s ∧
  saves (debounce now s) = saves s ∧ isUpdating (debounce now s) = isUpdating s.
Proof. unfold debounce. by destruct (setTimeout _ _ _ _). Qed.

Lemma timers_of_debounce now s :
  timers_of (debounce now s) =
  arm (Timer (now + autosave_delay) None AutosaveDocument)
      (clearTimeout (autosaveTimeout s) (timers_of s)).
Proof. done. Qed.

(** A local edit is sent.  With the flag down and the socket
    open, when the position of the caret is captured, an [input] event
    sends exactly one message: the object with the action [edit], the
    content of the editor, the position and the name of the user. *)
Theorem oninput_sends (now : Z) (s : state) (pos : option position) :
  isUpdating s = false → readyState s = OPEN →
  getCursorPosition (doc (page s)) editor (selection s) = Some (Ok pos) →
  ∃ s', oninput now s = Some s' ∧
        sent s' = sent s ++ [edit_message (innerHTML s) pos currentUser].
Proof.
  intros Hflag Hopen Hpos. unfold oninput, send_edit. rewrite Hflag, Hpos, Hopen. simpl.
  eexists. split; [done|]. destruct (autosave_ready s); [|done].
  match goal with
  | |- sent (debounce now ?x) = _ => by destruct (debounce_rest now x) as (_ & -> & _)
  end.
Qed.

(** C38: search and replace stays local.  The replacement rewrites the
    markup of the editor and assigns it back: the children of the editor
    are the parsed result and the children it had, the markers among
    them, have no parent.  No [input] event is raised for the
    assignment: nothing is sent, no save is queued and no timer is
    armed, so the other users and the server do not see the replacement
    until the user edits the document.  An empty search text and a
    pattern the engine refuses change nothing. *)
Theorem searchAndReplace_local (searchText replaceText : string) (s : state) :
  editor_inv s →
  let r := searchAndReplace searchText replaceText s in
  editor_inv r.2 ∧ sent r.2 = sent s ∧ saves r.2 = saves s ∧ ui r.2 = ui s ∧
  autosaveTimeout r.2 = autosaveTimeout s ∧
  match replace_all searchText replaceText (innerHTML s) with
  | Ok content =>
      searchText ≠ ""%string →
      r.1 = Ok () ∧
      children_of (doc (page r.2)) editor = roots_from (next_id (doc (page s))) (parse content) ∧
      ∀ c, c ∈ children_of (doc (page s)) editor → parent_of (doc (page r.2)) c = None
  | Throw err => r = if decide (searchText = ""%string) then (Ok (), s) else (Throw err, s)
  end.
Proof.
  intros Hinv r. subst r. split; [by apply searchAndReplace_inv|].
  split_and!; try by destruct (searchAndReplace_state searchText replaceText s) as [->|[? ->]].
  unfold searchAndReplace. destruct Hinv as [_ [Hwf He _ _] _].
  destruct (replace_all _ _ _) as [content|err]; [|by case_decide].
  cbv beta iota. intros Hne. rewrite decide_False by done. simpl. split_and!; [done| |].
  - by apply replace_children_spec.
  - intros c Hc. by apply replace_children_detaches.
Qed.

(** An event sends nothing, or it is an edit on the open socket and
    sends the message of the edit. *)
Lemma handle_sends ev s s' :
  handle ev s = Some s' →
  sent s' = sent s ∨
  ∃ now d sel pos, ev = Edit now d sel ∧ readyState s = OPEN ∧
                   sent s' = sent s ++ [edit_message (serialize d editor) pos currentUser].
Proof.
  destruct ev as [now data|now d sel|sel|now a|now|a b| |failed|]; simpl;
    try (intros [= <-]; by left).
  - destruct (receive now data s) as [r|] eqn:Hr; [|done]. intros [= <-]. left.
    apply receive_state in Hr as [[-> _]|[[-> _]|(j & m & _ & _ & _ & ->)]]; [done..|].
    apply onmessage_rest.
  - unfold oninput. destruct (send_edit _) as [r|] eqn:Hr; [|done]. simpl.
    assert (sent (if autosave_ready r.2 then debounce now r.2 else r.2) = sent r.2) as Hd
      by (destruct (autosave_ready r.2); [apply debounce_rest|done]).
    intros [= <-]. rewrite Hd.
    apply send_edit_state in Hr as [->|(pos & Hopen & ->)]; [by left|right].
    by exists now, d, sel, pos.
  - intros [= <-]. left.
    destruct (loadDocumentContent_state now a s) as [->|[content ->]]; [done|].
    unfold setupAutosave. by destruct (setInterval _ _ _ _).
  - unfold fire_timer. destruct (fire_next _ _) as [[[i tm] ts]|]; [|done].
    intros [= <-]. left. destruct (action tm); simpl; [done|].
    by destruct (autosaveDocument_state (with_timers ts s)) as [->|[req ->]].
  - intros [= <-]. left.
    by destruct (searchAndReplace_state a b s) as [->|[content ->]].
  - intros [= <-]. left. by destruct failed.
Qed.

(** C8: only a local edit sends.  Whatever the event, the messages
    sent are those sent before, and one more when the event is an edit
    of the user and the socket is open: the object with the action
    [edit], the markup of the document the edit left, a position and the
    name of the user, which has the type of a message of the channel.  A
    message received, the answer to the fetch, a timer firing, a search
    and replace, the socket opening or closing send nothing. *)
Theorem handle_sent (ev : event) (s s' : state) :
  handle ev s = Some s' →
  sent s' = sent s ∨
  ∃ now d sel msg, ev = Edit now d sel ∧ readyState s = OPEN ∧ sent s' = sent s ++ [msg] ∧
                   has_type message_ty msg ∧
                   ∃ pos, msg = edit_message (serialize d editor) pos currentUser.
Proof.
  intros [?|(now & d & sel & pos & -> & Hopen & ->)]%handle_sends; [by left|right].
  eexists now, d, sel, _. split_and!; [done..|apply edit_message_typed|by exists pos].
Qed.

(** C13: the autosave is debounced.  Once [setupAutosave] has run,
    after an [input] event at time [now] one one-shot
    [autosaveDocument] timer is pending, and it is due 5000 ms after
    [now]: the timer of the input before it has been cancelled. *)
Theorem oninput_debounce (now : Z) (s s' : state) :
  timers_inv s → autosave_ready s = true → oninput now s = Some s' →
  let t := (next_timer (timers_of s), Timer (now + autosave_delay) None AutosaveDocument) in
  t ∈ pending (timers_of s') ∧
  ∀ e, e ∈ pending (timers_of s') →
       action e.2 = AutosaveDocument → period e.2 = None → e = t.
Proof.
  intros [[Hwf Hnamed _ _ _] _] Hready. unfold oninput.
  destruct (send_edit s) as [r|] eqn:Hr; [|done]. simpl.
  assert (ui r.2 = ui s ∧ autosave_ready r.2 = true ∧ autosaveTimeout r.2 = autosaveTimeout s)
    as (Hu & -> & Ht)
    by (by destruct (send_edit_state s r Hr) as [->|(pos & _ & ->)]).
  intros [= <-]. rewrite timers_of_debounce, Ht. unfold timers_of in *. rewrite Hu.
  cbv zeta. rewrite <- (next_timer_clearTimeout (autosaveTimeout s)). split.
  - apply pending_arm. by right.
  - intros e [[He Hne]%clearTimeout_elem|He]%pending_arm Ha Hp; [|done].
    destruct Hne. by apply Hnamed.
Qed.

End handlers.

(** ** The scenarios

    The codec of the examples is the one of [Markup]: elements with a
    class, and text. *)

Definition bye_forest : list tree := [TNode (elem "p") [TNode (PText "bye") []]].

Definition dquote : string := String (Ascii.ascii_of_nat 34) EmptyString.

Definition sample_html : Html :=
  {| parse := parse_markup; serialize := serialize_children |}.

(** The engine on a pattern and a replacement of letters: every
    occurrence of the pattern, from the left and without overlap, is
    replaced.  [skip] counts the characters of an occurrence that are
    still to be passed over. *)
Fixpoint replace_literal (skip : nat) (pattern replacement content : string) : string :=
  match content with
  | EmptyString => EmptyString
  | String a rest =>
      match skip with
      | S skip' => replace_literal skip' pattern replacement rest
      | 0%nat =>
          if String.prefix pattern content
          then replacement +:+
               replace_literal (String.length pattern - 1) pattern replacement rest
          else String a (replace_literal 0 pattern replacement rest)
      end
  end.

Definition sample_regexp : RegExp :=
  {| replace_all := λ pattern replacement content,
       Ok (replace_literal 0 pattern replacement content) |}.

#[local] Existing Instance sample_html.
#[local] Existing Instance grid_layout.
#[local] Existing Instance sample_regexp.

(** The session of the scenarios: the page has the editor, node 0; the
    user is alice and her cookie holds a token. *)
Definition run (ev : event) (s : state) : option state :=
  handle 0 "alice" "csrftoken=token" ev s.

(** Scenario 7: the socket opens and the document is fetched. *)
Definition hi_answer : answer :=
  Response true (Some (JObject [("content", JString "<p>hi</p>")]%string)).

Definition s_open : state := onopen (init editor_dom).

Definition s_hi : state := loadDocumentContent 0 0 hi_answer s_open.

(** Scenario 8: bob's edit arrives. *)
Definition m_bye : message :=
  {| msg_action := "edit"; msg_content := "<p>bye</p>";
     msg_cursorPosition := Some {| path := [0; 0]; offset := 3 |};
     msg_user := "bob" |}.

Definition s_bye : state := (onmessage 0 100 m_bye s_hi).2.

(** The position of scenario 8 with the content of scenario 7: offset 3
    in the text [hi]. *)
Definition m_stale : message :=
  {| msg_action := "edit"; msg_content := "<p>hi</p>";
     msg_cursorPosition := Some {| path := [0; 0]; offset := 3 |};
     msg_user := "bob" |}.

Example scenario_7 :
  run SocketOpen (init editor_dom) = Some s_open ∧
  run (Loaded 0 hi_answer) s_open = Some s_hi ∧
  innerHTML 0 s_hi = "<p>hi</p>"%string ∧
  autosave_ready s_hi = true ∧ loading s_hi = false ∧ readyState s_hi = OPEN ∧
  pending (timers_of s_hi) = [(1%nat, Timer 10000 (Some 10000) AutosaveDocument)].
Proof. by vm_compute. Qed.

(** The content is replaced and bob's marker is placed after the [e] of
    [bye]; the marker is a child of the editor, so it is part of the
    content the editor reports. *)
Example scenario_8 :
  run (Receive 100 (Ok (encode m_bye))) s_hi = Some s_bye ∧
  (onmessage 0 100 m_bye s_hi).1 = Ok () ∧
  children_of (doc (page s_bye)) 0 = [3; 5]%nat ∧
  content_of (doc (page s_bye)) 4 = Some (PText "bye") ∧
  cursors (page s_bye) !! "bob"%string = Some 5%nat ∧
  style_of (doc (page s_bye)) 5 "left" = Some "24px"%string ∧
  users_of (ui s_bye) = ["bob"%string] ∧
  sent s_bye = [] ∧ isUpdating s_bye = false ∧
  innerHTML 0 s_bye =
    ("<p>bye</p><div class=" +:+ dquote +:+ "user-cursor" +:+ dquote +:+ "></div>")%string.
Proof. by vm_compute. Qed.

(** ** The theorems on the scenarios *)

Lemma s_hi_reachable : reachable 0 "alice" "csrftoken=token" editor_dom s_hi.
Proof.
  apply (reachable_step _ _ _ _ _ (Loaded 0 hi_answer) _
           (reachable_step _ _ _ _ _ SocketOpen _ (reachable_init _ _ _ _) eq_refl eq_refl));
    done.
Qed.

(** The invariants after a step of a scenario. *)
Lemma run_inv ev s s' :
  editor_inv 0 s ∧ timers_inv s → allowed 0 ev s → run ev s = Some s' →
  editor_inv 0 s' ∧ timers_inv s'.
Proof.
  intros [Hinv Ht] Hal Hrun.
  split; [by apply (handle_editor_inv 0 "alice" "csrftoken=token" ev s)|].
  by apply (handle_timers_inv 0 "alice" "csrftoken=token" ev s).
Qed.

Lemma s_hi_inv : editor_inv 0 s_hi ∧ timers_inv s_hi.
Proof.
  apply (run_inv (Loaded 0 hi_answer) s_open); [|done..].
  apply (run_inv SocketOpen (init editor_dom)); [|done..].
  apply init_inv; [apply editor_dom_wf|apply editor_dom_node].
Qed.

Lemma s_bye_inv : editor_inv 0 s_bye ∧ timers_inv s_bye.
Proof.
  destruct s_hi_inv. split; [by apply onmessage_inv|by apply onmessage_timers_inv].
Qed.

Lemma reachable_inv_witness : editor_inv 0 s_hi ∧ timers_inv s_hi.
Proof.
  apply (reachable_inv 0 "alice" "csrftoken=token" editor_dom);
    [apply editor_dom_wf|apply editor_dom_node|apply s_hi_reachable].
Defined.

Lemma handle_total_witness :
  is_Some (run (Edit 200 (doc (page s_hi)) None) s_hi) ∨
  ∃ now, Edit 200 (doc (page s_hi)) None = Fire now ∧
         fire_next now (timers_of s_hi) = None.
Proof.
  apply handle_total; [apply s_hi_inv|]. split; [|done].
  destruct s_hi_inv as [[_ Hpg _] _]. by destruct (page s_hi).
Defined.

Lemma onmessage_content_witness :
  page (onmessage 0 100 {| msg_action := "edit"; msg_content := "<p>bye</p>";
                           msg_cursorPosition := None; msg_user := "bob" |} s_hi).2 =
  if decide (innerHTML 0 s_hi = "<p>bye</p>"%string) then page s_hi
  else {| doc := replace_children 0 (parse "<p>bye</p>") (doc (page s_hi));
          cursors := cursors (page s_hi) |}.
Proof. by apply onmessage_content. Defined.

(** Carol's edit arrives after bob's: bob's marker leaves the document. *)
Lemma onmessage_detaches_markers_witness :
  let s' := (onmessage 0 300 {| msg_action := "edit"; msg_content := "<p>hi</p>";
                                msg_cursorPosition := None; msg_user := "carol" |}
               s_bye).2 in
  cursors (page s') !! "bob"%string = Some 5%nat ∧ parent_of (doc (page s')) 5 = None.
Proof.
  apply onmessage_detaches_markers;
    [apply s_bye_inv|done|by vm_compute|by vm_compute|].
  apply (list_elem_of_lookup_2 _ 1%nat). by vm_compute.
Defined.

Lemma onmessage_stale_offset_witness :
  let s1 := apply_content 0 (msg_content m_stale) s_hi in
  let pg := (find_cursor 0 (msg_user m_stale) (page s1)).2 in
  onmessage 0 100 m_stale s_hi = (Throw IndexSizeError, with_page pg s1) ∧
  ui (with_page pg s1) = ui s_hi.
Proof.
  apply (onmessage_stale_offset 0 100 m_stale s_hi {| path := [0; 0]; offset := 3 |} 2);
    by vm_compute.
Defined.

Lemma oninput_sends_witness :
  ∃ s', oninput 0 "alice" 200 s_hi = Some s' ∧
        sent s' = sent s_hi ++ [edit_message (innerHTML 0 s_hi) None "alice"].
Proof. by apply oninput_sends. Defined.

Lemma handle_sent_witness :
  sent s_bye = sent s_hi ∨
  ∃ now d sel msg, Receive 100 (Ok (encode m_bye)) = Edit now d sel ∧
                   readyState s_hi = OPEN ∧ sent s_bye = sent s_hi ++ [msg] ∧
                   has_type message_ty msg ∧
                   ∃ pos, msg = edit_message (serialize d 0) pos "alice".
Proof.
  by apply (handle_sent 0 "alice" "csrftoken=token" (Receive 100 (Ok (encode m_bye)))
              s_hi s_bye).
Defined.

(** The request of an autosave.  With the cookies of a jar whose
    names and values have no separator, escape or white space,
    [autosaveDocument] queues one request, which holds the markup of the
    editor and the value of the first cookie named [csrftoken], [null]
    when the jar has none; nothing else of the state changes. *)
Theorem autosaveDocument_token `{Html} (editor : nat) (jar : list (string * string))
    (s : state) :
  plain_jar jar →
  autosaveDocument editor (document_cookie jar) s =
  (Ok (), with_saves (saves s ++ [{| save_content := innerHTML editor s;
                                     save_token := jar_lookup "csrftoken" jar |}]) s).
Proof.
  intros Hjar. unfold autosaveDocument. by rewrite getCSRFToken_roundtrip_jar.
Qed.

Lemma autosaveDocument_token_witness :
  autosaveDocument 0 (document_cookie [("csrftoken", "token")]%string) s_bye =
  (Ok (), with_saves [{| save_content := innerHTML 0 s_bye;
                         save_token := jar_lookup "csrftoken" [("csrftoken", "token")]%string |}]
            s_bye).
Proof.
  apply (autosaveDocument_token 0 [("csrftoken", "token")]%string s_bye).
  apply (bool_decide_unpack _). by vm_compute.
Defined.

(** A token with a malformed escape: the autosave throws before the
    request is made. *)
Example autosaveDocument_throws :
  autosaveDocument 0 "csrftoken=%zz" s_bye = (Throw URIError, s_bye).
Proof. reflexivity. Qed.

(** The user replaces hi by bye in the document of scenario 7: the
    editor shows the result, and nothing is sent. *)
Example searchAndReplace_hi :
  let r := searchAndReplace 0 "hi" "bye" s_hi in
  r.1 = Ok () ∧ innerHTML 0 r.2 = "<p>bye</p>"%string ∧ sent r.2 = [] ∧
  timers_of r.2 = timers_of s_hi.
Proof. by vm_compute. Qed.

Lemma searchAndReplace_local_witness :
  let r := searchAndReplace 0 "hi" "bye" s_bye in
  editor_inv 0 r.2 ∧ sent r.2 = sent s_bye ∧ saves r.2 = saves s_bye ∧ ui r.2 = ui s_bye ∧
  autosaveTimeout r.2 = autosaveTimeout s_bye ∧
  match replace_all "hi" "bye" (innerHTML 0 s_bye) with
  | Ok content =>
      "hi"%string ≠ ""%string →
      r.1 = Ok () ∧
      children_of (doc (page r.2)) 0 = roots_from (next_id (doc (page s_bye))) (parse content) ∧
      ∀ c, c ∈ children_of (doc (page s_bye)) 0 → parent_of (doc (page r.2)) c = None
  | Throw err => r = if decide ("hi"%string = ""%string) then (Ok (), s_bye) else (Throw err, s_bye)
  end.
Proof. apply (searchAndReplace_local 0 "hi" "bye" s_bye), s_bye_inv. Defined.

(** The badge of bob, shown at 100, is gone at 2100. *)
Lemma elapse_expires_witness :
  indicators (ui (elapse 0 "csrftoken=token" 2100 s_bye)) = [] ∧
  fire_timer 0 "csrftoken=token" 2100 (elapse 0 "csrftoken=token" 2100 s_bye)
    = None ∧
  timers_inv (elapse 0 "csrftoken=token" 2100 s_bye).
Proof.
  apply (elapse_expires 0 "csrftoken=token" 2100 s_bye (Z.max 0 (100 + typing_delay)));
    [apply s_bye_inv| |by vm_compute].
  apply (show_inv "bob" 100 (ui s_hi) 0), (typing_inv_arm 0 typing_init), typing_init_inv.
Defined.

Lemma onmessage_badge_witness :
  (2099 < 100 + typing_delay →
   msg_user m_bye ∈ users_of (ui (elapse 0 "csrftoken=token" 2099
                                     (onmessage 0 100 m_bye s_hi).2))) ∧
  (100 + typing_delay ≤ 2099 →
   msg_user m_bye ∉ users_of (ui (elapse 0 "csrftoken=token" 2099
                                     (onmessage 0 100 m_bye s_hi).2))).
Proof.
  apply (onmessage_badge 0 "csrftoken=token" 100 2099 m_bye s_hi);
    [apply s_hi_inv|done|done|].
  intros e ->%list_elem_of_singleton. done.
Defined.

(** The interval fires every 10000 ms after the load at 0, once however
    late the browser runs it, and then counts from that time. *)
Example elapse_interval :
  let at_ t s := elapse 0 "csrftoken=token" t s in
  length (saves (at_ 9999 s_hi)) = 0%nat ∧
  length (saves (at_ 10000 s_hi)) = 1%nat ∧
  length (saves (at_ 20000 (at_ 10000 s_hi))) = 2%nat ∧
  length (saves (at_ 35000 s_hi)) = 1%nat ∧
  length (saves (at_ 44999 (at_ 35000 s_hi))) = 1%nat ∧
  length (saves (at_ 45000 (at_ 35000 s_hi))) = 2%nat.
Proof. by vm_compute. Qed.

(** Two inputs 1000 ms apart: the timer of the first is cancelled. *)
Lemma oninput_debounce_witness :
  let s1 := default s_hi (oninput 0 "alice" 200 s_hi) in
  let s2 := default s1 (oninput 0 "alice" 1200 s1) in
  let t := (next_timer (timers_of s1), Timer (1200 + autosave_delay) None AutosaveDocument) in
  t ∈ pending (timers_of s2) ∧
  ∀ e, e ∈ pending (timers_of s2) →
       action e.2 = AutosaveDocument → period e.2 = None → e = t.
Proof.
  apply (oninput_debounce 0 "alice" 1200); [|done..].
  eapply oninput_timers_inv; [apply s_hi_inv|]. reflexivity.
Defined.
