(* ===== verification/Session.v ===== *)
(** * Sessions: the editor along a run of events

    [Editor] handles one event.  This file follows the editor along a
    run: the socket from connecting to closed, the fetch of the document
    and the autosave that depends on it, the values handed to the socket
    and their reading by a peer.

    - [steps]: a run of allowed events, from a state to a state; the
      reachable states of [Editor] are the ends of the runs from [init].
    - [channel_inv]: what is sent has the type [Channel.message_ty] and
      names the user, nothing is sent before the socket opens, and the
      socket is never closing: the script never calls [close].
    - Once closed the socket stays closed and nothing more is sent.
    - When the fetch has failed, [setupAutosave] never runs: no request
      to save is made in the rest of the session. *)

From stdpp Require Import base option list numbers strings gmap.
From S2P Require Import Prelude Dom Position Timers Typing Cursor Cookie Json Channel Editor.

Local Open Scope Z_scope.

Section session.
Context `{Html} `{Layout} `{RegExp}.
Context (editor : nat) (currentUser : string) (cookie : string).

Local Notation handle := (handle editor currentUser cookie).
Local Notation allowed := (allowed editor).
Local Notation reachable := (reachable editor currentUser cookie).
Local Notation receive := (receive editor).
Local Notation onmessage := (onmessage editor).
Local Notation oninput := (oninput editor currentUser).
Local Notation send_edit := (send_edit editor currentUser).
Local Notation innerHTML := (innerHTML editor).
Local Notation loadDocumentContent := (loadDocumentContent editor).

Implicit Types (s : state) (ev : event) (evs : list event).

(** ** Runs *)

(** The events of [evs] are handled one after the other, each allowed in
    the state it finds. *)
Inductive steps : state → list event → state → Prop :=
| steps_nil s : steps s [] s
| steps_cons s ev s' evs s'' :
    allowed ev s → handle ev s = Some s' → steps s' evs s'' → steps s (ev :: evs) s''.

(** ** The socket from connecting to closed *)

(** The states of the socket in the order it passes through them. *)
Definition rank (rs : ready_state) : nat :=
  match rs with
  | CONNECTING => 0
  | OPEN => 1
  | CLOSING => 2
  | CLOSED => 3
  end.

(** What is sent is a message of this user; nothing is sent before the
    socket opens; the socket is not closing. *)
Record channel_inv (s : state) : Prop := {
  ci_typed : Forall (λ j, has_type message_ty j ∧
                          get j "user" = Ok (Some (JString currentUser))) (sent s);
  ci_connecting : readyState s = CONNECTING → sent s = [];
  ci_state : readyState s ≠ CLOSING;
}.

(** ** Runs and reachable states *)

Lemma steps_app s evs s' evs' s'' :
  steps s evs s' → steps s' evs' s'' → steps s (evs ++ evs') s''.
Proof. induction 1; simpl; eauto using steps. Qed.

Lemma steps_snoc s evs s' ev s'' :
  steps s evs s' → allowed ev s' → handle ev s' = Some s'' → steps s (evs ++ [ev]) s''.
Proof. intros Hs Hal Hh. eapply steps_app; eauto using steps. Qed.

(** A property that every allowed event keeps holds along a run. *)
Lemma steps_ind_inv (P : state → Prop) s evs s' :
  (∀ s ev s', P s → allowed ev s → handle ev s = Some s' → P s') →
  P s → steps s evs s' → P s'.
Proof. intros Hstep HP Hs. induction Hs; eauto. Qed.

Lemma reachable_steps d s : reachable d s ↔ ∃ evs, steps (init d) evs s.
Proof.
  split.
  - induction 1 as [|s ev s' _ [evs IH] Hal Hh]; [exists []; constructor|].
    exists (evs ++ [ev]). by eapply steps_snoc.
  - intros [evs Hs]. apply (steps_ind_inv (reachable d) _ _ _) in Hs; [done| |constructor].
    intros s0 ev s1 Hr Hal Hh. by eapply reachable_step.
Qed.

(** ** The events, by what they change *)

(** An event other than an edit leaves what was sent; an event other
    than the socket opening or closing leaves the state of the socket. *)
Lemma handle_readyState ev s s' :
  handle ev s = Some s' →
  readyState s' = readyState s ∨
  ev = SocketOpen ∧ readyState s' = OPEN ∨
  (∃ failed, ev = SocketClose failed) ∧ readyState s' = CLOSED.
Proof.
  destruct ev as [now data|now d sel|sel|now a|now|a b| |failed|]; simpl.
  - destruct (Editor.receive editor now data s) as [r|] eqn:Hr; [|done]. intros [= <-].
    left. apply receive_state in Hr as [[-> _]|[[-> _]|(j & m & _ & _ & _ & ->)]]; [done..|].
    by destruct (onmessage_frame editor now m s) as [[-> _]|(_ & pg & [[err ->]| ->])].
  - intros Hi. left. by rewrite (oninput_frame _ _ _ _ _ Hi).
  - intros [= <-]. by left.
  - intros [= <-]. left.
    destruct (loadDocumentContent_state editor now a s) as [->|[content ->]]; [done|].
    unfold setupAutosave. by destruct (setInterval _ _ _ _).
  - intros Hf. left. by rewrite (fire_timer_frame _ _ _ _ _ Hf).
  - intros [= <-]. left.
    by destruct (searchAndReplace_state editor a b s) as [->|[content ->]].
  - intros [= <-]. right. by left.
  - intros [= <-]. right. right. split; [by eexists|]. by destruct failed.
  - intros [= <-]. by left.
Qed.

(** ** What is sent is typed *)

Lemma edit_message_user content pos user :
  get (edit_message content pos user) "user" = Ok (Some (JString user)).
Proof. done. Qed.

Lemma init_channel_inv d : channel_inv (init d).
Proof. split; [apply Forall_nil_2|done..]. Qed.

Lemma handle_channel_inv ev s s' :
  channel_inv s → allowed ev s → handle ev s = Some s' → channel_inv s'.
Proof.
  intros [Hty Hc Hst] Hal Hh. pose proof (handle_readyState _ _ _ Hh) as Hrs.
  pose proof (handle_sends _ _ _ _ _ _ Hh) as Hs. split.
  - destruct Hs as [->|(now & d & sel & pos & _ & _ & ->)]; [done|].
    apply Forall_app. split; [done|]. apply Forall_singleton.
    split; [apply edit_message_typed|apply edit_message_user].
  - intros Hcon. destruct Hs as [->|(now & d & sel & pos & -> & Hopen & _)].
    + destruct Hrs as [Heq|[[_ ?]|[_ ?]]]; [|congruence..]. apply Hc. congruence.
    + destruct Hrs as [Heq|[[[=] _]|[[? [=]] _]]]. congruence.
  - destruct Hrs as [->|[[_ ->]|[_ ->]]]; done.
Qed.


(** ** A closed socket *)

Lemma steps_closed_inv s evs s' :
  readyState s = CLOSED → steps s evs s' → readyState s' = CLOSED ∧ sent s' = sent s.
Proof.
  intros Hc. apply (steps_ind_inv (λ s', readyState s' = CLOSED ∧ sent s' = sent s));
    [|done]. clear s' evs. intros s1 ev s2 [Hc1 Hs1] Hal Hh. split.
  - destruct (handle_readyState _ _ _ Hh) as [->|[[-> _]|[_ ->]]]; [done| |done].
    simpl in Hal. congruence.
  - destruct (handle_sends _ _ _ _ _ _ Hh) as [->|(now & d & sel & pos & _ & Hopen & _)];
      [done|congruence].
Qed.

(** The socket moves forward: connecting, open, closed. *)
Lemma handle_rank ev s s' :
  allowed ev s → handle ev s = Some s' → (rank (readyState s) ≤ rank (readyState s'))%nat.
Proof.
  intros Hal Hh. destruct (handle_readyState _ _ _ Hh) as [->|[[-> ->]|[_ ->]]]; [done| |].
  - simpl in Hal. rewrite Hal. simpl. lia.
  - destruct (readyState s); simpl; lia.
Qed.

Lemma steps_rank s evs s' : steps s evs s' → (rank (readyState s) ≤ rank (readyState s'))%nat.
Proof.
  induction 1 as [|s ev s1 evs s' Hal Hh _ IH]; [done|].
  pose proof (handle_rank _ _ _ Hal Hh). lia.
Qed.

(** C30: the socket moves forward, and sends while it is open.  Along
    a run the socket goes from connecting to open to closed and never
    back.  From a state whose socket is closed, whatever the events of
    the rest of the session, the edits of the user among them, the
    socket is closed and nothing more is sent: the script does not open
    a socket again.  A run that ends with the socket connecting has sent
    nothing. *)
Theorem steps_socket (s s' : state) (evs : list event) :
  steps s evs s' →
  (rank (readyState s) ≤ rank (readyState s'))%nat ∧
  (readyState s = CLOSED → readyState s' = CLOSED ∧ sent s' = sent s) ∧
  (readyState s' = CONNECTING → sent s' = sent s).
Proof.
  intros Hs. split_and!; [by apply (steps_rank s evs)|intros Hc; by apply (steps_closed_inv s evs)|].
  induction Hs as [|s ev s1 evs s' Hal Hh Hs IH]; [done|]. intros Hc.
  rewrite (IH Hc). clear IH. apply steps_rank in Hs. rewrite Hc in Hs.
  pose proof (handle_rank _ _ _ Hal Hh) as Hle.
  destruct (handle_sends _ _ _ _ _ _ Hh) as [->|(now & d & sel & pos & _ & Hopen & _)];
    [done|]. rewrite Hopen in Hle. simpl in *. lia.
Qed.

(** ** Edits while the socket is not open *)

(** C31: an edit off line is lost.  With the flag down and the
    position captured, an [input] event on a socket that is not open
    sends nothing.  While the socket is connecting [socket.send] throws
    and the first listener ends with [InvalidStateError]; once the socket
    is closed the listener returns as if the message had been sent.
    Either way the second listener runs: when the document has been
    loaded the autosave timer is armed for 5000 ms later. *)
Theorem oninput_offline (now : Z) (s : state) (pos : option position) :
  isUpdating s = false → readyState s ≠ OPEN →
  getCursorPosition (doc (page s)) editor (selection s) = Some (Ok pos) →
  send_edit s =
    Some (if decide (readyState s = CONNECTING) then Throw InvalidStateError else Ok (), s) ∧
  ∃ s', oninput now s = Some s' ∧ sent s' = sent s ∧
        (autosave_ready s = true →
         (next_timer (timers_of s), Timer (now + autosave_delay) None AutosaveDocument)
           ∈ pending (timers_of s')).
Proof.
  intros Hflag Hrs Hpos.
  assert (send_edit s =
    Some (if decide (readyState s = CONNECTING) then Throw InvalidStateError else Ok (), s))
    as Hsend.
  { unfold Editor.send_edit. rewrite Hflag, Hpos. simpl.
    destruct (readyState s); simpl; rewrite ?with_sent_same; done. }
  split; [done|]. unfold Editor.oninput. rewrite Hsend. simpl. eexists. split; [done|].
  destruct (autosave_ready s); [|done]. split; [apply debounce_rest|]. intros _.
  rewrite timers_of_debounce, <- (next_timer_clearTimeout (autosaveTimeout s)).
  apply pending_arm. by right.
Qed.

(** ** The document and the autosave *)

(** The markup the answer to the fetch gives the editor: the text of
    [data.content || ''] when the answer is [ok] and its body is a value
    that is not [null]. *)
Definition load_content (a : answer) : option string :=
  match a with
  | Response true (Some data) =>
      match get data "content" with
      | Ok content => Some (to_string (or_else content (JString "")))
      | Throw _ => None
      end
  | _ => None
  end.

Lemma loadDocumentContent_content now a s :
  loadDocumentContent now a s =
  match load_content a with
  | Some content => setupAutosave now (set_innerHTML editor content (with_loading false s))
  | None => with_loading false s
  end.
Proof.
  unfold Editor.loadDocumentContent, loaded, load_content.
  destruct a as [|[] [data|]]; try done. by destruct (get data "content").
Qed.

(** An event other than the answer to the fetch leaves [setupAutosave]
    as it is; with no autosave timer pending no request is made. *)
Lemma handle_autosave_ready ev s s' :
  handle ev s = Some s' → (∀ now a, ev ≠ Loaded now a) →
  autosave_ready s' = autosave_ready s ∧ loading s' = loading s.
Proof.
  destruct ev as [now data|now d sel|sel|now a|now|a b| |failed|]; simpl;
    try (intros [= <-]; by intros _).
  - destruct (Editor.receive editor now data s) as [r|] eqn:Hr; [|done]. intros [= <-] _.
    apply receive_state in Hr as [[-> _]|[[-> _]|(j & m & _ & _ & _ & ->)]]; [done..|].
    by destruct (onmessage_frame editor now m s) as [[-> _]|(_ & pg & [[err ->]| ->])].
  - intros Hi _. by rewrite (oninput_frame _ _ _ _ _ Hi).
  - by intros _ Hne; destruct (Hne now a).
  - intros Hf _. by rewrite (fire_timer_frame _ _ _ _ _ Hf).
  - intros [= <-] _. by destruct (searchAndReplace_state editor a b s) as [->|[content ->]].
  - intros [= <-] _. by destruct failed.
Qed.

Lemma handle_saves ev s s' :
  timers_inv s → autosave_ready s = false → handle ev s = Some s' → saves s' = saves s.
Proof.
  intros [Hdi _] Hready.
  destruct ev as [now data|now d sel|sel|now a|now|a b| |failed|]; simpl;
    try (by intros [= <-]).
  - destruct (Editor.receive editor now data s) as [r|] eqn:Hr; [|done]. intros [= <-].
    apply receive_state in Hr as [[-> _]|[[-> _]|(j & m & _ & _ & _ & ->)]]; [done..|].
    apply onmessage_rest.
  - intros Hi. by rewrite (oninput_frame _ _ _ _ _ Hi).
  - intros [= <-]. rewrite loadDocumentContent_content. destruct (load_content a); [|done].
    unfold setupAutosave. by destruct (setInterval _ _ _ _).
  - unfold fire_timer. destruct (fire_next now (timers_of s)) as [[[i tm] ts]|] eqn:Hf; [|done].
    apply fire_next_Some in Hf as (He & _). intros [= <-].
    destruct (di_ready s Hdi Hready) as [_ Hno]. specialize (Hno _ He). simpl in Hno.
    by destruct (action tm).
  - intros [= <-]. by destruct (searchAndReplace_state editor a b s) as [->|[content ->]].
  - intros [= <-]. by destruct failed.
Qed.

(** C32: the answer to the fetch.  [loadDocumentContent] takes the
    markup of the editor from the answer when the answer is [ok] and its
    body is a value other than [null]: the text of its [content], the
    empty text when [content] is missing or falsy; the children of the
    editor are then the parsed markup and [setupAutosave] has run.  A
    body of the type [{ content: string }] gives the string.  A rejected
    promise, a status that is not [ok], a body that is not JSON and the
    body [null] are the four answers after which the editor is as it was
    and [setupAutosave] has not run. *)
Theorem loadDocumentContent_spec (now : Z) (a : answer) (s : state) :
  editor_inv editor s → autosave_ready s = false →
  let s' := loadDocumentContent now a s in
  loading s' = false ∧
  match load_content a with
  | Some content =>
      autosave_ready s' = true ∧
      children_of (doc (page s')) editor =
        roots_from (next_id (doc (page s))) (parse content) ∧
      (∀ data c, a = Response true (Some data) → has_type document_ty data →
                 get data "content" = Ok (Some (JString c)) → content = c)
  | None =>
      s' = with_loading false s ∧
      (a = Rejected ∨ (∃ body, a = Response false body) ∨ a = Response true None ∨
       a = Response true (Some JNull))
  end.
Proof.
  intros [_ [Hwf He _ _] _] Hready s'. subst s'. rewrite loadDocumentContent_content.
  destruct (load_content a) as [content|] eqn:Ha.
  - unfold setupAutosave. destruct (setInterval _ _ _ _) as [id ts]. simpl.
    split_and!; [done..|by apply replace_children_spec|].
    intros data c -> _ Hc. simpl in Ha. rewrite Hc in Ha. simpl in Ha.
    destruct (bool_decide (c = ""%string)) eqn:Hempty; simpl in Ha; [|congruence].
    apply bool_decide_eq_true in Hempty. congruence.
  - split_and!; [done..|]. destruct a as [|[] [data|]]; eauto. simpl in Ha.
    destruct (get data "content") eqn:Hg; [done|]. apply get_Throw in Hg as [-> _]. auto.
Qed.

(** C29: a failed fetch disables the autosave.  [setupAutosave] is
    called by the callback of the fetch only.  In a session that has
    reached a state whose fetch has been answered without
    [setupAutosave] having run, no request to save is made in the rest
    of the session, whatever the user edits and however long the session
    lasts: no autosave timer is pending, and none had been made
    before. *)
Theorem steps_unsaved (d : dom) (s s' : state) (evs : list event) :
  dom_wf d → is_Some (nodes d !! editor) → reachable d s →
  loading s = false → autosave_ready s = false → steps s evs s' →
  saves s' = [] ∧ autosave_ready s' = false ∧
  ∀ e, e ∈ pending (timers_of s') → action e.2 ≠ AutosaveDocument.
Proof.
  intros Hwf He Hr Hl Hready Hs.
  destruct (reachable_ind_inv editor currentUser cookie d
              (λ s, autosave_ready s = false → saves s = []) Hwf He) with (s := s)
    as (_ & Ht & Hsaves); [done| |done|].
  { intros s0 ev s1 _ Ht0 IH Hal Hh Hready1.
    destruct (decide (autosave_ready s0 = false)) as [Hr0|Hr0%not_false_is_true].
    - rewrite (handle_saves ev s0 s1); auto.
    - destruct ev; try (destruct (handle_autosave_ready _ _ _ Hh); [done|congruence]).
      simpl in Hal. apply (di_loading s0 (proj1 Ht0)) in Hal. congruence. }
  assert (timers_inv s' ∧ loading s' = false ∧ autosave_ready s' = false ∧ saves s' = [])
    as ([Hdi _] & _ & Hready' & Hsaves').
  { apply (steps_ind_inv
             (λ s', timers_inv s' ∧ loading s' = false ∧ autosave_ready s' = false ∧
                    saves s' = []) s evs s'); [|by auto|done].
    intros s0 ev s1 (Ht0 & Hl0 & Hr0 & Hs0) Hal Hh.
    assert (∀ now a, ev ≠ Loaded now a) as Hne
      by (intros now a ->; simpl in Hal; congruence).
    destruct (handle_autosave_ready _ _ _ Hh Hne) as [-> ->].
    rewrite (handle_saves ev s0 s1) by done.
    split_and!; [by apply (handle_timers_inv editor currentUser cookie ev s0)|done..]. }
  split_and!; [done..|]. by apply (di_ready s' Hdi Hready').
Qed.

(** ** The badges along a run *)

(** An event keeps the deadline of the badges, when a message that
    arrives does so 2000 ms before it or earlier. *)
Lemma handle_typing_inv ev s s' deadline :
  timers_inv s → typing_inv deadline (ui s) → handle ev s = Some s' →
  (∀ now data, ev = Receive now data → now + typing_delay ≤ deadline) →
  typing_inv deadline (ui s').
Proof.
  intros Ht Hty. destruct ev as [now data|now d sel|sel|now a|now|a b| |failed|]; simpl;
    try (by intros [= <-]).
  - destruct (Editor.receive editor now data s) as [r|] eqn:Hr; [|done]. intros [= <-] Hnow.
    apply receive_state in Hr as [[-> _]|[[-> _]|(j & m & _ & _ & _ & ->)]]; [done..|].
    destruct (onmessage_frame editor now m s) as [[-> _]|(_ & pg & [[err ->]| ->])];
      [done..|]. simpl.
    apply (typing_inv_mono (Z.max deadline (now + typing_delay)));
      [specialize (Hnow now data eq_refl); lia|by apply show_inv].
  - unfold Editor.oninput. destruct (Editor.send_edit _ _ _) as [r|] eqn:Hr; [|done].
    simpl. intros [= <-] _.
    assert (timers_inv r.2 ∧ ui r.2 = ui s) as [[Hdi _] Hui]
      by (destruct (send_edit_state _ _ _ _ Hr) as [->|(pos & _ & ->)];
          (split; [eapply timers_inv_ext; [| | | |exact Ht]; by simpl|done])).
    destruct (autosave_ready r.2); [|by rewrite Hui].
    apply debounce_typing_inv; [done|by rewrite Hui].
  - intros [= <-] _.
    destruct (loadDocumentContent_state editor now a s) as [->|[content ->]]; [done|].
    by apply setupAutosave_typing_inv.
  - intros Hf%ui_fire_timer _. by apply (fire_inv now (ui s)).
  - intros [= <-] _. by destruct (searchAndReplace_state editor a b s) as [->|[content ->]].
  - intros [= <-] _. by destruct failed.
Qed.

Lemma steps_typing_inv deadline s evs s' :
  timers_inv s → typing_inv deadline (ui s) → steps s evs s' →
  (∀ now data, Receive now data ∈ evs → now + typing_delay ≤ deadline) →
  timers_inv s' ∧ typing_inv deadline (ui s').
Proof.
  intros Ht Hty Hs. revert Ht Hty.
  induction Hs as [|s ev s1 evs s' Hal Hh _ IH]; [done|]. intros Ht Hty Hev.
  apply IH.
  - by apply (handle_timers_inv editor currentUser cookie ev s).
  - apply (handle_typing_inv ev s); [done..|]. intros now data ->.
    apply (Hev now data), elem_of_cons. by left.
  - intros now data Hin. apply (Hev now data), elem_of_cons. by right.
Qed.

(** C28: the badges expire in every session.  Whatever the events of a
    session from its start, when no message has arrived after the time
    [last], then 2000 ms after [last], once the timers that are due have
    fired, no typing badge is left and no timer is due: a user who has
    stopped sending is shown as typing for 2000 ms and no longer,
    whatever the autosave and the other users do. *)
Theorem steps_badges_expire (d : dom) (evs : list event) (s : state) (last t : Z) :
  dom_wf d → is_Some (nodes d !! editor) → steps (init d) evs s →
  (∀ now data, Receive now data ∈ evs → now ≤ last) → last + typing_delay ≤ t →
  indicators (ui (elapse editor cookie t s)) = [] ∧
  fire_timer editor cookie t (elapse editor cookie t s) = None.
Proof.
  intros Hwf He Hs Hlast Ht. destruct (init_inv editor d Hwf He) as [_ Hti].
  destruct (steps_typing_inv (last + typing_delay) (init d) evs s) as [Hinv Hty];
    [done|apply typing_init_inv|done| |].
  { intros now data Hin%Hlast. lia. }
  split; [|by apply elapse_done]. rewrite ui_elapse.
  apply (advance_expires t (ui s) (last + typing_delay)); [done| |done].
  by destruct Hinv as [[] _].
Qed.

(** ** Reading what was received *)

Lemma receive_decoded now data m s :
  is_edit data = true → decode data = Some m →
  receive now (Ok data) s = Some (onmessage now m s).
Proof.
  unfold Editor.receive, is_edit. destruct (get data "action") as [action|err]; [|done].
  by intros -> ->.
Qed.

(** The handler on what is not a message.  A text that is not
    JSON ends the handler with the exception of [JSON.parse], the value
    [null] with a [TypeError]; a value whose [action] is not the string
    [edit], an array or a number among them, is passed over.  In each
    case the state is as before: the content is not applied and no badge
    is shown. *)
Theorem receive_other (now : Z) (s : state) :
  (∀ err, receive now (Throw err) s = Some (Throw err, s)) ∧
  receive now (Ok JNull) s = Some (Throw TypeError, s) ∧
  (∀ data, data ≠ JNull → is_edit data = false → receive now (Ok data) s = Some (Ok (), s)).
Proof.
  split_and!; [done..|]. intros data Hne. unfold Editor.receive, is_edit.
  destruct (get data "action") as [action|err] eqn:Hg; [by intros ->|].
  by apply get_Throw in Hg as [-> _].
Qed.

(** ** Formatting

    [formatText(command)] (editor.js, 188-190) is one call of
    [document.execCommand].  The browser runs the command on the
    selection: it changes the document, moves the selection and raises
    [input], or it returns false and does nothing when the command is
    not supported or not enabled.  What a command does to the document
    is the parameter [Commands]. *)

Class Commands : Type := {
  execCommand : string → dom → option range → option (dom * option range);
}.

Context `{Commands}.

Definition formatText (now : Z) (command : string) (s : state) : option state :=
  match execCommand command (doc (page s)) (selection s) with
  | Some (d, sel) => handle (Edit now d sel) s
  | None => Some s
  end.

(** What is asked of the browser: a command leaves a document and a
    selection that an edit of the user may leave. *)
Definition command_ok (command : string) (s : state) : Prop :=
  ∀ now d sel, execCommand command (doc (page s)) (selection s) = Some (d, sel) →
  allowed (Edit now d sel) s.

(** A command is an edit of the user or nothing: it is handled, the
    fuel of [getNodePath] being enough, the invariants hold after it,
    and it sends at most the markup it left, on the open socket. *)
Lemma formatText_spec now command s :
  editor_inv editor s → timers_inv s → command_ok command s →
  ∃ s', formatText now command s = Some s' ∧ editor_inv editor s' ∧ timers_inv s' ∧
        (sent s' = sent s ∨
         ∃ pos, readyState s = OPEN ∧
                sent s' = sent s ++ [edit_message (innerHTML s') pos currentUser]).
Proof.
  intros Hinv Ht Hok. unfold formatText.
  destruct (execCommand _ _ _) as [[d sel]|] eqn:Hc; [|exists s; by auto].
  specialize (Hok now d sel Hc). pose proof Hok as [Hpg Hsel].
  destruct (send_edit_total editor currentUser
              (with_selection sel (with_page {| doc := d; cursors := cursors (page s) |} s)))
    as [r Hr]; [split; [apply Hinv|done..]|].
  assert (is_Some (handle (Edit now d sel) s)) as [s' Hh]
    by (simpl; unfold Editor.oninput; by rewrite Hr).
  exists s'. split_and!;
    [done|by apply (handle_editor_inv editor currentUser cookie (Edit now d sel) s)|
     by apply (handle_timers_inv editor currentUser cookie (Edit now d sel) s)|].
  destruct (handle_sends _ _ _ _ _ _ Hh) as [?|(t & d' & sel' & pos & [= _ <- _] & ? & Hs)];
    [by left|right].
  exists pos. split; [done|]. rewrite Hs. do 3 f_equal. unfold Editor.innerHTML.
  simpl in Hh. by rewrite (oninput_frame _ _ _ _ _ Hh).
Qed.

(** A run may hold commands: the state after one is reachable. *)
Lemma formatText_reachable now command d0 s s' :
  reachable d0 s → command_ok command s → formatText now command s = Some s' →
  reachable d0 s'.
Proof.
  intros Hr Hok. unfold formatText.
  destruct (execCommand _ _ _) as [[d sel]|] eqn:Hc; [|by intros [= <-]].
  intros Hh. by apply (reachable_step _ _ _ _ s (Edit now d sel)); [|apply Hok|].
Qed.

End session.

(** C26: an editor reads what a peer sends.  Every value the editor of
    a user [peer] has handed to the socket, in any state it reaches, is
    handled by the editor of another session as the message it reads in
    it, whose action is [edit] and whose user is [peer]: between two
    editors the handler never stops on [JSON.parse] or on a property that
    is missing. *)
Theorem receive_peer `{Html} `{Layout} `{RegExp} (editor editor' : nat)
    (peer cookie : string) (d : dom) (s_peer : state) (data : json) (now : Z) (s : state) :
  reachable editor' peer cookie d s_peer → data ∈ sent s_peer →
  ∃ m, msg_action m = "edit"%string ∧ msg_user m = peer ∧
       get data "content" = Ok (Some (JString (msg_content m))) ∧
       receive editor now (Ok data) s = Some (onmessage editor now m s).
Proof.
  intros Hr Hin. induction Hr as [|s0 ev s1 _ IH Hal Hh]; [by apply elem_of_nil in Hin|].
  destruct (handle_sends _ _ _ _ _ _ Hh) as [Hs|(t & d' & sel & pos & _ & _ & Hs)];
    rewrite Hs in Hin; [by apply IH|].
  apply elem_of_app in Hin as [Hin| ->%list_elem_of_singleton]; [by apply IH|].
  eexists. split_and!; [| | |apply receive_decoded; [done|apply decode_edit_message]]; done.
Qed.

(** ** The scenarios

    The sessions of [Editor], continued: alice edits the document of
    scenario 7; the socket fails; the fetch is rejected. *)

#[local] Existing Instance sample_html.
#[local] Existing Instance grid_layout.
#[local] Existing Instance sample_regexp.

(** The user types, which leaves the document as it is here. *)
Definition typing_at (now : Z) (s : state) : event := Edit now (doc (page s)) None.

(** The state after an event of the scenarios. *)
Definition after (ev : event) (s : state) : state := default s (run ev s).

Definition s_edit : state := after (typing_at 200 s_hi) s_hi.
(** The socket fails after the edit. *)
Definition s_closed : state := after (SocketClose true) s_edit.
(** The fetch is rejected. *)
Definition s_rejected : state := after (Loaded 0 Rejected) s_open.

(** The commands of the examples: [bold] on the document of scenario 7
    leaves its text in a [b] element and no selection; the browser has
    no other command. *)
Definition sample_commands : Commands :=
  {| execCommand := λ command d sel,
       if decide (command = "bold"%string)
       then Some (replace_children 0 (parse "<p><b>hi</b></p>") d, None)
       else None |}.

#[local] Existing Instance sample_commands.

Lemma allowed_typing now s : editor_inv 0 s → allowed 0 (typing_at now s) s.
Proof. intros [_ Hpg _]. split; [by destruct (page s)|done]. Qed.


Lemma s_edit_reachable : reachable 0 "alice" "csrftoken=token" editor_dom s_edit.
Proof.
  apply (reachable_step _ _ _ _ _ (typing_at 200 s_hi) _ s_hi_reachable).
  - apply allowed_typing, s_hi_inv.
  - by vm_compute.
Qed.

Lemma s_closed_inv : editor_inv 0 s_closed.
Proof.
  apply (handle_editor_inv 0 "alice" "csrftoken=token" (SocketClose true) s_edit);
    [|by vm_compute..].
  apply (handle_editor_inv 0 "alice" "csrftoken=token" (typing_at 200 s_hi) s_hi);
    [apply s_hi_inv|apply allowed_typing, s_hi_inv|by vm_compute].
Qed.

Lemma s_open_inv : editor_inv 0 s_open.
Proof.
  apply (handle_editor_inv 0 "alice" "csrftoken=token" SocketOpen (init editor_dom));
    [|by vm_compute..].
  apply init_inv; [apply editor_dom_wf|apply editor_dom_node].
Qed.

(** Alice has typed; the socket fails, and what she types then is not
    sent.  When the fetch is rejected no timer is armed and a minute of
    typing later nothing has been saved. *)
Example scenario_offline :
  sent s_edit = [edit_message "<p>hi</p>" None "alice"] ∧
  alerted s_closed = ["WebSocket connection failed. Please try refreshing the page."%string] ∧
  sent (after (typing_at 300 s_closed) s_closed) = sent s_edit ∧
  length (pending (timers_of s_rejected)) = 0%nat ∧
  saves (elapse 0 "csrftoken=token" 60000 (after (typing_at 300 s_rejected) s_rejected)) = [].
Proof. by vm_compute. Qed.


Lemma steps_socket_witness :
  let s' := after (typing_at 300 s_closed) s_closed in
  (rank (readyState s_closed) ≤ rank (readyState s'))%nat ∧
  (readyState s_closed = CLOSED → readyState s' = CLOSED ∧ sent s' = sent s_closed) ∧
  (readyState s' = CONNECTING → sent s' = sent s_closed).
Proof.
  apply (steps_socket 0 "alice" "csrftoken=token" s_closed _ [typing_at 300 s_closed]).
  eapply steps_cons; [apply allowed_typing, s_closed_inv| |apply steps_nil].
  by vm_compute.
Defined.

Lemma oninput_offline_witness :
  let s := init editor_dom in
  send_edit 0 "alice" s =
    Some (if decide (readyState s = CONNECTING) then Throw InvalidStateError else Ok (), s) ∧
  ∃ s', oninput 0 "alice" 50 s = Some s' ∧ sent s' = sent s ∧
        (autosave_ready s = true →
         (next_timer (timers_of s), Timer (50 + autosave_delay) None AutosaveDocument)
           ∈ pending (timers_of s')).
Proof. apply (oninput_offline 0 "alice" 50 (init editor_dom) None); by vm_compute. Defined.

Lemma loadDocumentContent_spec_witness :
  let s' := loadDocumentContent 0 0 hi_answer s_open in
  loading s' = false ∧
  match load_content hi_answer with
  | Some content =>
      autosave_ready s' = true ∧
      children_of (doc (page s')) 0 = roots_from (next_id (doc (page s_open))) (parse content) ∧
      (∀ data c, hi_answer = Response true (Some data) → has_type document_ty data →
                 get data "content" = Ok (Some (JString c)) → content = c)
  | None =>
      s' = with_loading false s_open ∧
      (hi_answer = Rejected ∨ (∃ body, hi_answer = Response false body) ∨
       hi_answer = Response true None ∨ hi_answer = Response true (Some JNull))
  end.
Proof.
  apply (loadDocumentContent_spec 0 0 hi_answer s_open); [apply s_open_inv|by vm_compute].
Defined.
Lemma s_rejected_reachable : reachable 0 "alice" "csrftoken=token" editor_dom s_rejected.
Proof.
  apply (reachable_step _ _ _ _ s_open (Loaded 0 Rejected)); [|by vm_compute..].
  apply (reachable_step _ _ _ _ (init editor_dom) SocketOpen); [|by vm_compute..].
  apply reachable_init.
Qed.

Lemma steps_unsaved_witness :
  let s' := after (typing_at 300 s_rejected) s_rejected in
  saves s' = [] ∧ autosave_ready s' = false ∧
  ∀ e, e ∈ pending (timers_of s') → action e.2 ≠ AutosaveDocument.
Proof.
  apply (steps_unsaved 0 "alice" "csrftoken=token" editor_dom s_rejected _
           [typing_at 300 s_rejected]);
    [apply editor_dom_wf|apply editor_dom_node|apply s_rejected_reachable
    |by vm_compute|by vm_compute|].
  eapply steps_cons; [apply allowed_typing| |apply steps_nil]; [|by vm_compute].
  apply (handle_editor_inv 0 "alice" "csrftoken=token" (Loaded 0 Rejected) s_open);
    [apply s_open_inv|by vm_compute..].
Defined.

Lemma steps_badges_expire_witness :
  indicators (ui (elapse 0 "csrftoken=token" 2100 s_bye)) = [] ∧
  fire_timer 0 "csrftoken=token" 2100 (elapse 0 "csrftoken=token" 2100 s_bye) = None.
Proof.
  apply (steps_badges_expire 0 "alice" "csrftoken=token" editor_dom
           [SocketOpen; Loaded 0 hi_answer; Receive 100 (Ok (encode m_bye))] s_bye 100);
    [apply editor_dom_wf|apply editor_dom_node| | |by vm_compute].
  - apply (steps_cons _ _ _ _ _ s_open); [by vm_compute..|].
    apply (steps_cons _ _ _ _ _ s_hi); [by vm_compute..|].
    apply (steps_cons _ _ _ _ _ s_bye); [|by vm_compute|apply steps_nil].
    split; [by vm_compute|]. intros _. by eexists.
  - intros now data Hin. repeat (apply elem_of_cons in Hin as [[=]|Hin]); subst; try done.
    by apply elem_of_nil in Hin.
Defined.

Lemma receive_other_witness :
  receive 0 100 (Ok (JArray [])) s_hi = Some (Ok (), s_hi).
Proof.
  destruct (receive_other 0 100 s_hi) as (_ & _ & Hother). by apply Hother.
Defined.

Lemma receive_peer_witness :
  ∃ m, msg_action m = "edit"%string ∧ msg_user m = "alice"%string ∧
       get (edit_message "<p>hi</p>" None "alice") "content"
         = Ok (Some (JString (msg_content m))) ∧
       receive 0 400 (Ok (edit_message "<p>hi</p>" None "alice")) s_bye
         = Some (onmessage 0 400 m s_bye).
Proof.
  apply (receive_peer 0 0 "alice" "csrftoken=token" editor_dom s_edit);
    [apply s_edit_reachable|]. apply elem_of_cons. left. by vm_compute.
Defined.

(** Alice presses the button of bold: the markup the command left is
    sent.  A command the browser does not have changes nothing. *)
Example formatText_bold :
  ∃ s', formatText 0 "alice" "csrftoken=token" 300 "bold" s_hi = Some s' ∧
        sent s' = [edit_message "<p><b>hi</b></p>" None "alice"].
Proof. eexists. split; by vm_compute. Qed.

Example formatText_unsupported :
  formatText 0 "alice" "csrftoken=token" 300 "blink" s_hi = Some s_hi.
Proof. by vm_compute. Qed.

Lemma formatText_spec_witness :
  ∃ s', formatText 0 "alice" "csrftoken=token" 300 "bold" s_hi = Some s' ∧
        editor_inv 0 s' ∧ timers_inv s' ∧
        (sent s' = sent s_hi ∨
         ∃ pos, readyState s_hi = OPEN ∧
                sent s' = sent s_hi ++ [edit_message (innerHTML 0 s') pos "alice"]).
Proof.
  apply formatText_spec; [apply s_hi_inv..|]. intros now d sel [= <- <-]. split; [|done].
  exact (set_innerHTML_overlay 0 "<p><b>hi</b></p>" s_hi (ei_page _ _ (proj1 s_hi_inv))).
Defined.
