(* ===== verification/Converge.v ===== *)
(** * Convergence: what a peer shows after a message

    An edit is sent as the markup of the document ([Editor.send_edit]),
    and the peer that receives it assigns the markup to its editor
    ([Editor.apply_content]).  Whether the peer then shows what the
    author shows depends on the browser: on what [innerHTML] writes and
    on what the parser builds from it.  [HtmlLaws] states what is asked
    of the two, [Markup] has a serialiser and a parser that satisfy it,
    and the theorems here hold of every browser that does.

    - A message without position, or from a user whose marker the peer
      has, leaves the peer with the markup of the author.
    - The first message with a position of a user does not: the marker
      of the user is appended to the editor after the fragment of the
      message and is part of its markup ([edit_first_sighting]).  The
      next edit of the peer sends the marker with the document, and
      the author receives its own marker as content
      ([marker_returns]). *)

From stdpp Require Import base option list numbers strings gmap.
From S2P Require Import Prelude Color Dom Markup Position Timers Typing Cursor Cookie Json Channel.
From S2P Require Import Editor Session.

Local Open Scope Z_scope.

(** ** What is asked of the browser *)

(** [innerHTML] is a function [markup_of] of the trees of the children,
    the markup of the children one after the other, and markup that it
    wrote is parsed into a fragment with the same markup: the fragment
    may differ from the trees that were written, two text nodes in a
    row are read back as one. *)
Class HtmlLaws `{Html} := {
  markup_of : list tree → string;
  serialize_read d e : dom_wf d → serialize d e = markup_of (read_children d e);
  markup_parse ts : markup_of (parse (markup_of ts)) = markup_of ts;
  markup_app ts us : markup_of (ts ++ us) = markup_of ts +:+ markup_of us;
}.

Section converge.
Context `{HtmlLaws} `{Layout} `{RegExp}.
Context (editor : nat).

Local Notation innerHTML := (innerHTML editor).
Local Notation set_innerHTML := (set_innerHTML editor).
Local Notation apply_content := (apply_content editor).
Local Notation apply_cursor := (apply_cursor editor).
Local Notation onmessage := (onmessage editor).
Local Notation receive := (receive editor).
Local Notation editor_inv := (editor_inv editor).

Implicit Types (s : state) (m : message) (content : string).

(** Markup that [innerHTML] wrote, of some document. *)
Definition written (content : string) : Prop := ∃ ts, content = markup_of ts.

Lemma serialize_written d e : dom_wf d → written (serialize d e).
Proof. intros Hwf. eexists. by apply serialize_read. Qed.

(** The markup of the editor after an assignment, also when the
    payloads of nodes the document had before have changed since. *)
Lemma serialize_built d ts d' :
  dom_wf d → is_Some (nodes d !! editor) →
  same_shape (replace_children editor ts d) d' →
  (∀ j, (next_id d ≤ j)%nat → content_of d' j = content_of (replace_children editor ts d) j) →
  serialize d' editor = markup_of ts.
Proof.
  intros Hwf He Hs Hc. rewrite serialize_read.
  - by rewrite (read_children_built editor ts d d').
  - rewrite <- Hs. by apply replace_children_dom_wf.
Qed.

Lemma set_innerHTML_written content s :
  editor_inv s → written content → innerHTML (set_innerHTML content s) = content.
Proof.
  intros [_ [Hwf He _ _] _] [ts ->]. unfold Editor.innerHTML. simpl.
  by rewrite (serialize_built (doc (page s)) (parse (markup_of ts)) _ Hwf He), markup_parse.
Qed.

Lemma apply_content_written content s :
  editor_inv s → written content → innerHTML (apply_content content s) = content.
Proof.
  intros Hinv Hw. destruct (decide (innerHTML s = content)) as [Heq|Hne].
  - by rewrite apply_content_same.
  - rewrite apply_content_differs; [by apply set_innerHTML_written|apply Hinv|done].
Qed.

(** The marker of a user the peer knows is a node the document had
    before the assignment: placing it leaves the markup of the editor. *)
Lemma apply_cursor_known m content s c :
  editor_inv s → written content → innerHTML s ≠ content →
  cursors (page s) !! msg_user m = Some c →
  innerHTML (apply_cursor m (apply_content content s)).2 = content.
Proof.
  intros Hinv [ts ->] Hne Hc. pose proof Hinv as [Hflag [Hwf He Hm _] _].
  rewrite apply_content_differs by done.
  destruct (apply_cursor_state editor m (set_innerHTML (markup_of ts) s))
    as [->|(pos & _ & ->)]; [by apply set_innerHTML_written; [|eexists]|].
  destruct (updateCursor_known editor (msg_user m) pos
              (page (set_innerHTML (markup_of ts) s)) c Hc) as [Hs Hcont].
  unfold Editor.innerHTML. simpl in *.
  rewrite (serialize_built (doc (page s)) (parse (markup_of ts)) _ Hwf He Hs); [apply markup_parse|].
  intros j Hj. apply Hcont. destruct (Hm _ _ Hc) as [_ [el Hel%content_of_node]].
  apply (wf_fresh _ Hwf) in Hel. lia.
Qed.

(** The peer shows the markup of the message: when the message has no
    position, and when the peer has the marker of its user and shows
    something else. *)
Lemma onmessage_converges now m s :
  editor_inv s → msg_action m = "edit"%string → written (msg_content m) →
  msg_cursorPosition m = None ∨
    (is_Some (cursors (page s) !! msg_user m) ∧ innerHTML s ≠ msg_content m) →
  innerHTML (onmessage now m s).2 = msg_content m.
Proof.
  intros Hinv Ha Hw Hcase. unfold Editor.onmessage. rewrite decide_True by done.
  assert (innerHTML (apply_cursor m (apply_content (msg_content m) s)).2 = msg_content m)
    as Hpage.
  { destruct Hcase as [Hp|[[c Hc] Hne]]; [|by apply (apply_cursor_known _ _ _ c)].
    unfold Editor.apply_cursor. rewrite Hp. by apply apply_content_written. }
  by destruct (apply_cursor m _) as [[[]|err] s1].
Qed.

(** The handler on the value a peer has sent: the message is read,
    and the editor shows its markup. *)
Lemma receive_converges now content pos user s :
  editor_inv s → written content →
  pos = None ∨ (is_Some (cursors (page s) !! user) ∧ innerHTML s ≠ content) →
  ∃ r, receive now (Ok (edit_message content pos user)) s = Some r ∧
       innerHTML r.2 = content.
Proof.
  intros Hinv Hw Hcase. eexists. split.
  - apply receive_decoded; [done|apply decode_edit_message].
  - by apply (onmessage_converges now
      {| msg_action := "edit"; msg_content := content; msg_cursorPosition := pos;
         msg_user := user |}).
Qed.

(** The first message with a position of a user: the marker of the
    user is appended after the fragment of the message, whether the
    position resolves or not. *)
Lemma apply_cursor_created m content pos s :
  editor_inv s → innerHTML s ≠ content → msg_cursorPosition m = Some pos →
  get_cursor (cursors (page s)) (msg_user m) = Missing →
  let s' := (apply_cursor m (apply_content content s)).2 in
  dom_wf (doc (page s')) ∧
  ∃ el, is_marker (msg_user m) el ∧
        read_children (doc (page s')) editor = parse content ++ [TNode (PElement el) []].
Proof.
  intros [Hflag Hpg _] Hne Hpos Hg. pose proof Hpg as [Hwf He _ _]. cbv zeta.
  rewrite apply_content_differs by done.
  pose proof (set_innerHTML_overlay editor content s Hpg) as Hpg'.
  pose proof (updateCursor_overlay editor (msg_user m) pos _ Hpg') as [Hwf' _ _ _].
  destruct (updateCursor_created editor (msg_user m) pos _ Hpg' Hg)
    as (_ & Hext & Hn & Hch & Hleaf & el & Hel & Hm).
  unfold Editor.apply_cursor. rewrite Hpos.
  destruct (updateCursor _ _ _ _) as [r pg]. simpl in *. split; [done|].
  exists el. split; [done|].
  apply (read_children_appended editor (parse content) _ (doc (page s))); try done. lia.
Qed.

Lemma onmessage_first_sighting now m pos s :
  editor_inv s → msg_action m = "edit"%string → written (msg_content m) →
  innerHTML s ≠ msg_content m → msg_cursorPosition m = Some pos →
  get_cursor (cursors (page s)) (msg_user m) = Missing →
  let s' := (onmessage now m s).2 in
  ∃ el, is_marker (msg_user m) el ∧
        read_children (doc (page s')) editor = parse (msg_content m) ++ [TNode (PElement el) []] ∧
        innerHTML s' = msg_content m +:+ markup_of [TNode (PElement el) []].
Proof.
  intros Hinv Ha [ts Hw] Hne Hpos Hg. cbv zeta.
  destruct (apply_cursor_created m _ pos s Hinv Hne Hpos Hg) as (Hwf & el & Hm & Hr).
  exists el. unfold Editor.onmessage, Editor.innerHTML. rewrite decide_True by done.
  destruct (apply_cursor m _) as [[[]|err] s1]; simpl in *;
    by rewrite serialize_read, Hr, markup_app, Hw, markup_parse.
Qed.

End converge.

(** ** The author *)

Section author.
Context `{Html} `{Layout} `{RegExp}.
Context (editor : nat) (currentUser cookie : string).

Local Notation handle := (handle editor currentUser cookie).
Local Notation innerHTML := (innerHTML editor).

Lemma snoc_ne {A} (l : list A) x : l ≠ l ++ [x].
Proof. intros Heq%(f_equal length). rewrite length_app in Heq. simpl in Heq. lia. Qed.

(** An edit that sends a message sends the markup of the document the
    edit left, which is what the author shows, with the position of the
    selection. *)
Lemma handle_edit_sent now d sel s s' msg :
  handle (Edit now d sel) s = Some s' → sent s' = sent s ++ [msg] →
  ∃ pos, getCursorPosition d editor sel = Some (Ok pos) ∧
         msg = edit_message (innerHTML s') pos currentUser ∧
         doc (page s') = d.
Proof.
  simpl. unfold oninput. destruct (send_edit _ _ _) as [r|] eqn:Hr; [|done]. simpl.
  assert (page (if autosave_ready r.2 then debounce now r.2 else r.2) = page r.2 ∧
          sent (if autosave_ready r.2 then debounce now r.2 else r.2) = sent r.2)
    as [Hpg Hsent] by (destruct (autosave_ready r.2); [split; apply debounce_rest|done]).
  intros [= <-]. unfold Editor.innerHTML. rewrite Hpg, Hsent. clear Hpg Hsent.
  revert Hr. unfold send_edit. simpl. destruct (isUpdating s).
  { intros [= <-]. simpl. by intros ?%snoc_ne. }
  destruct (getCursorPosition d editor sel) as [[pos|err]|]; simpl; [| |done].
  - destruct (send _ _ _) as [l|err] eqn:Hl; intros [= <-]; simpl;
      [|by intros ?%snoc_ne].
    apply send_cases in Hl as [->|[_ ->]]; [by intros ?%snoc_ne|].
    simpl. intros [_ <-]%app_inj_tail. by exists pos.
  - intros [= <-]. simpl. by intros ?%snoc_ne.
Qed.

(** An edit with no selection on an open socket is handled and sends
    the markup of the document it left, with no position. *)
Lemma handle_edit_open now d s :
  isUpdating s = false → readyState s = OPEN →
  ∃ s', handle (Edit now d None) s = Some s' ∧
        sent s' = sent s ++ [edit_message (innerHTML s') None currentUser] ∧
        doc (page s') = d ∧ readyState s' = OPEN.
Proof.
  intros Hflag Hopen.
  set (s1 := with_sent (sent s ++ [edit_message (serialize d editor) None currentUser])
               (with_selection None (with_page {| doc := d; cursors := cursors (page s) |} s))).
  exists (if autosave_ready s1 then debounce now s1 else s1). split.
  - simpl. unfold oninput, send_edit. simpl. by rewrite Hflag, Hopen.
  - destruct (autosave_ready s1); [|done].
    unfold debounce, Editor.innerHTML. by destruct (setTimeout _ _ _ _).
Qed.

End author.

(** ** The two editors *)

(** C2: the peer shows what the author shows.  The author handles an
    edit on an open socket and sends a message; a peer whose editor
    satisfies the invariant receives it.  When the author has no
    selection, or the peer already has the marker of the author and
    shows something else, the peer reads the message and its editor then
    has the markup of the editor of the author, whether the handler of
    the peer returns or throws on the position. *)
Theorem edit_converges `{HtmlLaws} `{Layout} `{RegExp}
    (editor editor' : nat) (author cookie : string) (now now' : Z) (d : dom)
    (sel : option range) (s_author s_author' s : state) (msg : json) :
  allowed editor' (Edit now d sel) s_author →
  handle editor' author cookie (Edit now d sel) s_author = Some s_author' →
  sent s_author' = sent s_author ++ [msg] →
  editor_inv editor s →
  sel = None ∨ (is_Some (cursors (page s) !! author) ∧
                innerHTML editor s ≠ innerHTML editor' s_author') →
  ∃ r, receive editor now' (Ok msg) s = Some r ∧
       innerHTML editor r.2 = innerHTML editor' s_author'.
Proof.
  intros [[Hwf _ _ _] _] Hh Hs Hinv Hcase.
  destruct (handle_edit_sent _ _ _ _ _ _ _ _ _ Hh Hs) as (pos & Hpos & -> & Hd).
  apply receive_converges; [done| |].
  - apply serialize_written. by rewrite Hd.
  - destruct Hcase as [->|?]; [left|by right]. by injection Hpos as <-.
Qed.

(** C5: the first message of an author with a selection leaves its
    marker in the document of the peer.  The author handles an edit
    with a selection on an open socket and sends a message; a peer
    whose editor satisfies the invariant, has no marker of the author
    and shows something else receives it.  The peer reads the message,
    and the children of its editor are then the fragment parsed from
    the markup of the author followed by one more element, a [div] of
    the class [user-cursor] in the colour of the author: the editor of
    the peer shows the markup of the author followed by the markup of
    the marker, whether the position resolves in it or not. *)
Theorem edit_first_sighting `{HtmlLaws} `{Layout} `{RegExp}
    (editor editor' : nat) (author cookie : string) (now now' : Z) (d : dom)
    (sel : range) (s_author s_author' s : state) (msg : json) :
  allowed editor' (Edit now d (Some sel)) s_author →
  handle editor' author cookie (Edit now d (Some sel)) s_author = Some s_author' →
  sent s_author' = sent s_author ++ [msg] →
  editor_inv editor s →
  get_cursor (cursors (page s)) author = Missing →
  innerHTML editor s ≠ innerHTML editor' s_author' →
  ∃ r el, receive editor now' (Ok msg) s = Some r ∧
    tagName el = "div"%string ∧ className el = "user-cursor"%string ∧
    style el !! "backgroundColor"%string = Some (getColorForUser author) ∧
    read_children (doc (page r.2)) editor =
      parse (innerHTML editor' s_author') ++ [TNode (PElement el) []] ∧
    innerHTML editor r.2 =
      innerHTML editor' s_author' +:+ markup_of [TNode (PElement el) []].
Proof.
  intros [[Hwf _ _ _] _] Hh Hs Hinv Hg Hne.
  destruct (handle_edit_sent _ _ _ _ _ _ _ _ _ Hh Hs) as (pos & Hpos & -> & Hd).
  destruct (getCursorPosition_selection _ _ _ _ Hpos) as [p ->].
  set (m := {| msg_action := "edit"; msg_content := innerHTML editor' s_author';
               msg_cursorPosition := Some p; msg_user := author |}).
  destruct (onmessage_first_sighting editor now' m p s) as (el & Hm & Hr & Hi);
    [done|done|apply serialize_written; by rewrite Hd|done|done|done|].
  exists (onmessage editor now' m s), el.
  split; [apply receive_decoded; [done|apply decode_edit_message]|].
  by destruct (is_marker_spec _ _ Hm) as (? & ? & ?).
Qed.

(** C6: the marker of an author comes back to the author as content.
    A peer that has no marker of the author and shows something else
    handles the first message of the author with a position, and then
    an input event of its own user with the document as the message
    left it, which sends a message.  The author receives that message;
    when the peer had no selection, or the author has the marker of
    the peer and shows something else, the editor of the author then
    shows the content it had sent followed by the markup of an
    element that is its own marker. *)
Theorem marker_returns `{HtmlLaws} `{Layout} `{RegExp}
    (editor editor' : nat) (author peer cookie content : string) (pos : position)
    (now now' now'' : Z) (sel : option range) (s_peer s_peer' s_author : state)
    (msg : json) :
  let m := {| msg_action := "edit"; msg_content := content;
              msg_cursorPosition := Some pos; msg_user := author |} in
  let s1 := (onmessage editor now m s_peer).2 in
  editor_inv editor s_peer → written content →
  get_cursor (cursors (page s_peer)) author = Missing →
  innerHTML editor s_peer ≠ content →
  handle editor peer cookie (Edit now' (doc (page s1)) sel) s1 = Some s_peer' →
  sent s_peer' = sent s1 ++ [msg] →
  editor_inv editor' s_author →
  sel = None ∨ (is_Some (cursors (page s_author) !! peer) ∧
                innerHTML editor' s_author ≠ innerHTML editor s_peer') →
  ∃ el r, is_marker author el ∧
    receive editor' now'' (Ok msg) s_author = Some r ∧
    innerHTML editor' r.2 = content +:+ markup_of [TNode (PElement el) []].
Proof.
  intros m s1 Hinv Hw Hg Hne Hh Hs Hinv' Hcase.
  destruct (onmessage_first_sighting editor now m pos s_peer) as (el & Hm & _ & Hi);
    [done..|].
  destruct (handle_edit_sent _ _ _ _ _ _ _ _ _ Hh Hs) as (pos' & Hpos & -> & Hd).
  assert (innerHTML editor s_peer' = content +:+ markup_of [TNode (PElement el) []])
    as Heq by (unfold Editor.innerHTML in *; rewrite Hd; exact Hi).
  rewrite Heq in *. exists el.
  destruct (receive_converges editor' now''
    (content +:+ markup_of [TNode (PElement el) []]) pos' peer s_author Hinv')
    as (r & Hr & Hshow);
    [rewrite <- Heq; apply serialize_written; rewrite Hd;
     apply (onmessage_inv editor now m s_peer Hinv)| |by eauto].
  destruct Hcase as [->|?]; [left|by right]. by injection Hpos as <-.
Qed.

(** ** The scenarios

    The codec of [Markup] satisfies the laws, so the theorems hold of
    the sessions of [Editor] and [Session]. *)

#[export] Instance markup_laws : @HtmlLaws sample_html.
Proof.
  refine {| markup_of := markup |}; [reflexivity|exact markup_parse_markup|exact Markup.markup_app].
Defined.

#[local] Existing Instance sample_html.
#[local] Existing Instance grid_layout.
#[local] Existing Instance sample_regexp.

(** Alice types with no selection in the document of scenario 7; the
    peer shows the document of scenario 8 with the marker of bob. *)
Lemma edit_converges_witness :
  ∃ r, receive 0 300 (Ok (edit_message "<p>hi</p>" None "alice")) s_bye = Some r ∧
       innerHTML 0 r.2 = innerHTML 0 s_edit.
Proof.
  apply (edit_converges 0 0 "alice" "csrftoken=token" 200 300 (doc (page s_hi)) None
           s_hi s_edit s_bye).
  - apply allowed_typing, s_hi_inv.
  - by vm_compute.
  - by vm_compute.
  - apply s_bye_inv.
  - by left.
Defined.

(** Alice types with the caret after the [h] of scenario 7, and her
    message is the first of hers the peer of scenario 8 receives: it
    has the marker of bob and none of alice. *)
Definition caret : range := {| startContainer := 2; startOffset := 1 |}.

Definition s_caret : state := after (Edit 200 (doc (page s_hi)) (Some caret)) s_hi.

Lemma edit_first_sighting_witness :
  ∃ r el,
    receive 0 300
      (Ok (edit_message "<p>hi</p>" (Some {| path := [0; 0]; offset := 1 |}) "alice"))
      s_bye = Some r ∧
    tagName el = "div"%string ∧ className el = "user-cursor"%string ∧
    style el !! "backgroundColor"%string = Some (getColorForUser "alice") ∧
    read_children (doc (page r.2)) 0 =
      parse (innerHTML 0 s_caret) ++ [TNode (PElement el) []] ∧
    innerHTML 0 r.2 = innerHTML 0 s_caret +:+ markup_of [TNode (PElement el) []].
Proof.
  apply (edit_first_sighting 0 0 "alice" "csrftoken=token" 200 300 (doc (page s_hi)) caret
           s_hi s_caret s_bye).
  - destruct s_hi_inv as [[_ Hpg _] _]. split; [by destruct (page s_hi)|].
    intros r [= <-]. apply (bool_decide_unpack _). by vm_compute.
  - by vm_compute.
  - by vm_compute.
  - apply s_bye_inv.
  - by vm_compute.
  - by vm_compute.
Defined.

(** The editor of the peer then has the paragraph of alice and her
    marker, and bob's marker has left it. *)
Example first_sighting_children :
  (λ r, read_children (doc (page r.2)) 0) <$>
    receive 0 300
      (Ok (edit_message "<p>hi</p>" (Some {| path := [0; 0]; offset := 1 |}) "alice")) s_bye
  = Some (hi_forest ++
      [TNode (PElement (placed "alice" {| rect_left := 18; rect_top := 20 |}
                          {| rect_left := 10; rect_top := 20 |} (marker_element "alice"))) []]).
Proof. by vm_compute. Qed.

(** The peer of scenario 8 handles that message of alice and then an
    input event of bob with no selection; alice, in the state of her
    edit, receives what bob sent and shows her own marker. *)
Definition m_caret : message :=
  {| msg_action := "edit"; msg_content := "<p>hi</p>";
     msg_cursorPosition := Some {| path := [0; 0]; offset := 1 |}; msg_user := "alice" |}.

Definition s_marked : state := (onmessage 0 300 m_caret s_bye).2.

Definition s_echo : state :=
  default s_marked (handle 0 "bob" "csrftoken=token" (typing_at 400 s_marked) s_marked).

Lemma marker_returns_witness :
  ∃ el r, is_marker "alice" el ∧
    receive 0 500 (Ok (edit_message (innerHTML 0 s_echo) None "bob")) s_caret = Some r ∧
    innerHTML 0 r.2 = ("<p>hi</p>" +:+ markup_of [TNode (PElement el) []])%string.
Proof.
  apply (marker_returns 0 0 "alice" "bob" "csrftoken=token" "<p>hi</p>"
           {| path := [0; 0]; offset := 1 |} 300 400 500 None s_bye s_echo s_caret).
  - apply s_bye_inv.
  - exists hi_forest. by vm_compute.
  - by vm_compute.
  - by vm_compute.
  - by vm_compute.
  - by vm_compute.
  - apply (handle_editor_inv 0 "alice" "csrftoken=token"
             (Edit 200 (doc (page s_hi)) (Some caret)) s_hi); [apply s_hi_inv| |by vm_compute].
    destruct s_hi_inv as [[_ Hpg _] _]. split; [by destruct (page s_hi)|].
    intros r [= <-]. apply (bool_decide_unpack _). by vm_compute.
  - by left.
Defined.

(** Bob's second message, with a position: alice has his marker and
    shows the document of scenario 8, and then shows his markup; the
    marker has left the editor. *)
Example known_marker_converges :
  ∃ r, receive 0 300 (Ok (encode m_stale)) s_bye = Some r ∧
       innerHTML 0 r.2 = "<p>hi</p>"%string.
Proof.
  apply (receive_converges 0 300 "<p>hi</p>" _ "bob" s_bye); [apply s_bye_inv| |right].
  - exists hi_forest. by vm_compute.
  - split; [eexists|]; by vm_compute.
Qed.

(** Bob's first message with a position: his marker is appended to the
    editor of alice, which then shows more than his markup. *)
Example first_sighting_differs :
  ∃ r, receive 0 100 (Ok (encode m_bye)) s_hi = Some r ∧
       innerHTML 0 r.2 ≠ msg_content m_bye.
Proof. eexists. split; [by vm_compute|]. by vm_compute. Qed.
