(* ===== verification/Relay.v ===== *)
(** * The relay: the editors of a document and the frames between them

    The server is not part of the sources; the specification assumes a
    reliable relay that delivers the frames of a socket in order.  This
    file puts the editors of the users of one document together with
    such a relay: every value an editor hands to its socket is put at
    the end of the inbox of every other editor whose socket is open, and
    the frames of an inbox are delivered to its editor one by one, first
    in, first out.

    In [Editor] a frame is an event of the environment, and the model
    assumes it is one the handler reads ([Channel.understood]).  Here
    the frames are those the editors send, and the assumption is shown:
    every frame in flight is a message of another user, and the handler
    reads it.  What is still assumed is what the users and the sockets
    do ([Editor.allowed] on the events that are no frames). *)

From stdpp Require Import base option list numbers strings gmap.
From S2P Require Import Prelude Dom Position Timers Typing Cursor Cookie Json Channel.
From S2P Require Import Editor Session Converge.

Local Open Scope Z_scope.

(** ** The system *)

(** An editor and the frames on their way to it. *)
Record client : Type := {
  local : state;
  inbox : list json;
}.

Notation system := (gmap string client).

(** A user opens the page; something happens at the editor of a user
    that is no frame arriving; the relay delivers the first frame of
    the inbox of a user. *)
Inductive sys_event : Type :=
| Join (user : string)
| Local (user : string) (ev : event)
| Deliver (user : string) (now : Z).

Definition is_local (ev : event) : Prop :=
  match ev with
  | Receive _ _ => False
  | _ => True
  end.

(** The values handed to the socket between two states of an editor. *)
Definition new_frames (s s' : state) : list json := drop (length (sent s)) (sent s').

Definition with_local (s : state) (c : client) : client :=
  {| local := s; inbox := inbox c |}.

Definition with_inbox (l : list json) (c : client) : client :=
  {| local := local c; inbox := l |}.

(** The relay: the frames of [user] go to the others whose socket is
    open. *)
Definition relay (user : string) (frames : list json) (σ : system) : system :=
  map_imap (λ v c,
    Some (if decide (v ≠ user ∧ readyState (local c) = OPEN)
          then with_inbox (inbox c ++ frames) c else c)) σ.

Section relay.
Context `{Html} `{Layout} `{RegExp}.
Context (editor : nat) (cookie : string → string) (page : dom).

Definition sys_handle (ev : sys_event) (σ : system) : option system :=
  match ev with
  | Join u =>
      match σ !! u with
      | None => Some (<[u := {| local := init page; inbox := [] |}]> σ)
      | Some _ => None
      end
  | Local u ev =>
      c ← σ !! u;
      s' ← handle editor u (cookie u) ev (local c);
      Some (relay u (new_frames (local c) s') (<[u := with_local s' c]> σ))
  | Deliver u now =>
      c ← σ !! u;
      match inbox c with
      | frame :: frames =>
          s' ← handle editor u (cookie u) (Receive now (Ok frame)) (local c);
          Some (<[u := {| local := s'; inbox := frames |}]> σ)
      | [] => None
      end
  end.

(** What is assumed of the events: of the users and the sockets what
    [Editor.allowed] says, and of the relay that it delivers to an open
    socket.  Nothing is assumed of the frames. *)
Definition sys_allowed (ev : sys_event) (σ : system) : Prop :=
  match ev with
  | Join u => σ !! u = None
  | Local u ev => is_local ev ∧ ∃ c, σ !! u = Some c ∧ allowed editor ev (local c)
  | Deliver u now => ∃ c, σ !! u = Some c ∧ readyState (local c) = OPEN
  end.

Inductive sys_reachable : system → Prop :=
| sys_reachable_init : sys_reachable ∅
| sys_reachable_step σ ev σ' :
    sys_reachable σ → sys_allowed ev σ → sys_handle ev σ = Some σ' → sys_reachable σ'.

(** ** The invariant *)

(** A frame to [user] is a message of another user. *)
Definition frame_ok (user : string) (frame : json) : Prop :=
  has_type message_ty frame ∧
  ∃ author, author ≠ user ∧ get frame "user" = Ok (Some (JString author)).

(** The editor of a user satisfies the invariants of [Editor] and of
    [Session], and the frames on their way to it are messages of the
    others. *)
Record client_inv (user : string) (c : client) : Prop := {
  ci_editor : editor_inv editor (local c);
  ci_timers : timers_inv (local c);
  ci_channel : channel_inv user (local c);
  ci_inbox : Forall (frame_ok user) (inbox c);
}.

Definition sys_inv (σ : system) : Prop := ∀ u c, σ !! u = Some c → client_inv u c.

(** ** The steps *)

Lemma relay_lookup u frames σ v :
  relay u frames σ !! v =
  (λ c, if decide (v ≠ u ∧ readyState (local c) = OPEN)
        then with_inbox (inbox c ++ frames) c else c) <$> σ !! v.
Proof. unfold relay. rewrite map_lookup_imap. by destruct (σ !! v). Qed.

(** A step of the editor of [u]: its state changes, and what it has
    sent is at the end of the inboxes of the others that are open. *)
Lemma sys_handle_local u ev σ σ' :
  sys_handle (Local u ev) σ = Some σ' →
  ∃ c s', σ !! u = Some c ∧ handle editor u (cookie u) ev (local c) = Some s' ∧
          σ' !! u = Some (with_local s' c) ∧
          ∀ v, v ≠ u →
            σ' !! v =
            (λ c0, if decide (readyState (local c0) = OPEN)
                   then with_inbox (inbox c0 ++ new_frames (local c) s') c0 else c0)
              <$> σ !! v.
Proof.
  unfold sys_handle. destruct (σ !! u) as [c|] eqn:Hu; [|done]. cbn [mbind option_bind].
  destruct (handle editor u (cookie u) ev (local c)) as [s'|] eqn:Hh; [|done].
  intros [= <-]. exists c, s'. split_and!; [done..| |].
  - rewrite relay_lookup, lookup_insert_eq. simpl. by rewrite decide_False by naive_solver.
  - intros v Hv. rewrite relay_lookup, lookup_insert_ne by done.
    destruct (σ !! v) as [c0|]; [simpl|done]. f_equal.
    destruct (decide (readyState (local c0) = OPEN));
      [by rewrite decide_True|by rewrite decide_False by naive_solver].
Qed.

(** A delivery: the editor of [u] handles the first frame of its inbox;
    the others are as before. *)
Lemma sys_handle_deliver u now σ σ' :
  sys_handle (Deliver u now) σ = Some σ' →
  ∃ c frame frames s',
    σ !! u = Some c ∧ inbox c = frame :: frames ∧
    handle editor u (cookie u) (Receive now (Ok frame)) (local c) = Some s' ∧
    σ' = <[u := {| local := s'; inbox := frames |}]> σ.
Proof.
  unfold sys_handle. destruct (σ !! u) as [c|] eqn:Hu; [|done]. cbn [mbind option_bind].
  destruct (inbox c) as [|frame frames] eqn:Hi; [done|].
  destruct (handle editor u (cookie u) (Receive now (Ok frame)) (local c)) as [s'|] eqn:Hh;
    [|done].
  intros [= <-]. by exists c, frame, frames, s'.
Qed.

(** What an editor sends in a step is at the end of what it has sent. *)
Lemma handle_new_frames u ev s s' :
  handle editor u (cookie u) ev s = Some s' → sent s' = sent s ++ new_frames s s'.
Proof.
  intros Hh. unfold new_frames.
  destruct (handle_sends _ _ _ _ _ _ Hh) as [->|(now & d & sel & pos & _ & _ & ->)].
  - by rewrite drop_all, app_nil_r.
  - by rewrite drop_app_length.
Qed.

(** The relay hands the handler what the handler reads. *)
Lemma frame_ok_understood u frame : frame_ok u frame → understood (Ok frame).
Proof. intros [Hty _] _. destruct (has_type_decode frame Hty) as (_ & m & -> & _). by eexists. Qed.

Context (Hwf : dom_wf page) (He : is_Some (nodes page !! editor)).

Lemma sys_handle_inv ev σ σ' :
  sys_inv σ → sys_allowed ev σ → sys_handle ev σ = Some σ' → sys_inv σ'.
Proof using Hwf He.
  intros Hinv Hal Hh v c' Hv. destruct ev as [u|u ev|u now].
  - simpl in *. rewrite Hal in Hh. injection Hh as <-.
    apply lookup_insert_Some in Hv as [[<- <-]|[_ Hv]]; [|by apply Hinv].
    destruct (init_inv editor page Hwf He).
    split; [done..|apply init_channel_inv|constructor].
  - destruct Hal as (Hloc & c1 & Hc1 & Hal).
    destruct (sys_handle_local _ _ _ _ Hh) as (c & s' & Hu & Hs' & Hu' & Hother).
    rewrite Hc1 in Hu. injection Hu as ->. destruct (Hinv u c Hc1) as [Hed Htm Hch Hin].
    pose proof (handle_channel_inv editor u (cookie u) ev _ _ Hch Hal Hs') as Hch'.
    destruct (decide (v = u)) as [->|Hne].
    + rewrite Hu' in Hv. injection Hv as <-. split; simpl; [| |done..].
      * by apply (handle_editor_inv editor u (cookie u) ev (local c)).
      * by apply (handle_timers_inv editor u (cookie u) ev (local c)).
    + rewrite (Hother v Hne) in Hv. destruct (σ !! v) as [c0|] eqn:Hc0; [|done].
      injection Hv as <-. destruct (Hinv v c0 Hc0) as [Hed0 Htm0 Hch0 Hin0].
      case_decide; [|done]. split; simpl; [done..|]. apply Forall_app. split; [done|].
      pose proof (ci_typed _ _ Hch') as Hty.
      rewrite (handle_new_frames _ _ _ _ Hs') in Hty. apply Forall_app in Hty as [_ Hty].
      eapply Forall_impl; [done|]. intros f [? ?]. split; [done|]. by exists u.
  - destruct Hal as (c1 & Hc1 & Hopen).
    destruct (sys_handle_deliver _ _ _ _ Hh) as (c & frame & frames & s' & Hu & Hi & Hs' & ->).
    rewrite Hc1 in Hu. injection Hu as ->.
    apply lookup_insert_Some in Hv as [[<- <-]|[_ Hv]]; [|by apply Hinv].
    destruct (Hinv u c Hc1) as [Hed Htm Hch Hin]. rewrite Hi in Hin.
    apply Forall_cons_1 in Hin as [Hf Hin].
    assert (allowed editor (Receive now (Ok frame)) (local c)) as Hal
      by (split; [done|by apply (frame_ok_understood u)]).
    split; simpl; [| | |done].
    + by apply (handle_editor_inv editor u (cookie u) (Receive now (Ok frame)) (local c)).
    + by apply (handle_timers_inv editor u (cookie u) (Receive now (Ok frame)) (local c)).
    + by apply (handle_channel_inv editor u (cookie u) (Receive now (Ok frame)) (local c)).
Qed.

Lemma sys_reachable_inv σ : sys_reachable σ → sys_inv σ.
Proof using Hwf He.
  induction 1 as [|σ ev σ' _ IH Hal Hh]; [by intros u c ?|]. by apply (sys_handle_inv ev σ).
Qed.

(** A frame in flight is read by the handler as an edit of another
    user. *)
Lemma frame_ok_decode u frame :
  frame_ok u frame →
  is_edit frame = true ∧
  ∃ m, decode frame = Some m ∧ msg_action m = "edit"%string ∧ msg_user m ≠ u.
Proof.
  intros [Hty (author & Hne & Hu)].
  destruct (has_type_decode frame Hty) as (Hedit & m & Hm & Ha & _ & Hu').
  split; [done|]. exists m. split_and!; [done..|]. congruence.
Qed.

(** C3: the editors of a document keep their invariants, and the
    frames between them are messages.  In every state the system
    reaches from the empty one, whatever the users do and in whatever
    order the relay delivers, the editor of each user satisfies the
    invariants of the page, of the timers and of the channel, and every
    frame on its way to it is one the handler reads: an edit of another
    user.  No editor receives a frame of its own. *)
Theorem relay_inv (σ : system) (u : string) (c : client) :
  sys_reachable σ → σ !! u = Some c →
  editor_inv editor (local c) ∧ timers_inv (local c) ∧ channel_inv u (local c) ∧
  Forall (λ frame, is_edit frame = true ∧
                   ∃ m, decode frame = Some m ∧ msg_action m = "edit"%string ∧
                        msg_user m ≠ u) (inbox c).
Proof using Hwf He.
  intros Hr Hu. destruct (sys_reachable_inv σ Hr u c Hu) as [? ? ? Hin].
  split_and!; [done..|]. eapply Forall_impl; [done|]. apply frame_ok_decode.
Qed.

(** The delivery of the first frame of an inbox. *)
Lemma sys_deliver σ u c frame frames now :
  sys_reachable σ → σ !! u = Some c → readyState (local c) = OPEN →
  inbox c = frame :: frames →
  ∃ m, decode frame = Some m ∧ msg_user m ≠ u ∧
       let s' := (onmessage editor now m (local c)).2 in
       let σ' := <[u := {| local := s'; inbox := frames |}]> σ in
       sys_handle (Deliver u now) σ = Some σ' ∧ sys_reachable σ' ∧ readyState s' = OPEN.
Proof using Hwf He.
  intros Hr Hu Hopen Hi. destruct (sys_reachable_inv σ Hr u c Hu) as [_ _ _ Hin].
  rewrite Hi in Hin. apply Forall_cons_1 in Hin as [Hf _].
  destruct (frame_ok_decode u frame Hf) as (Hedit & m & Hm & _ & Hne).
  exists m. split_and!; [done..|]. cbv zeta.
  pose proof (receive_decoded editor now frame m (local c) Hedit Hm) as Hrec.
  assert (sys_handle (Deliver u now) σ =
          Some (<[u := {| local := (onmessage editor now m (local c)).2;
                          inbox := frames |}]> σ)) as Hh
    by (unfold sys_handle; rewrite Hu; cbn [mbind option_bind handle]; by rewrite Hi, Hrec).
  split_and!; [done| |].
  - apply (sys_reachable_step σ (Deliver u now)); [done|by exists c|done].
  - destruct (handle_readyState editor u (cookie u) (Receive now (Ok frame)) (local c)
                (onmessage editor now m (local c)).2) as [->|[[[=] _]|[[? [=]] _]]]; [|done].
    cbn [handle]. by rewrite Hrec.
Qed.

(** C27: a frame in flight is delivered.  In a reachable state of the
    system, the first frame of the inbox of an editor whose socket is
    open holds a message of another user, the handler of the editor
    returns on it, and the state after the delivery is the one
    [socket.onmessage] leaves for that message, with the rest of the
    inbox; it is a reachable state of the system, in which the editor
    has sent nothing more and its socket is open. *)
Theorem deliver_total (σ : system) (u : string) (c : client) (frame : json)
    (frames : list json) (now : Z) :
  sys_reachable σ → σ !! u = Some c → readyState (local c) = OPEN →
  inbox c = frame :: frames →
  ∃ m, decode frame = Some m ∧ msg_user m ≠ u ∧
       let s' := (onmessage editor now m (local c)).2 in
       let σ' := <[u := {| local := s'; inbox := frames |}]> σ in
       sys_handle (Deliver u now) σ = Some σ' ∧ sys_reachable σ' ∧
       readyState s' = OPEN ∧ sent s' = sent (local c).
Proof using Hwf He.
  intros Hr Hu Hopen Hi.
  destruct (sys_deliver σ u c frame frames now Hr Hu Hopen Hi) as (m & Hm & Hne & Hrest).
  exists m. cbv zeta in *. destruct Hrest as (Hh & Hr' & Ho).
  split_and!; [done..|apply onmessage_rest].
Qed.

End relay.

(** ** Runs *)

Section runs.
Context `{Html} `{Layout} `{RegExp}.
Context (editor : nat) (cookie : string → string) (page : dom).

Local Notation sys_handle := (sys_handle editor cookie page).
Local Notation sys_allowed := (sys_allowed editor).
Local Notation sys_reachable := (sys_reachable editor cookie page).

(** Every event of the run is allowed in the state it finds. *)
Fixpoint run_allowed (evs : list sys_event) (σ : system) : Prop :=
  match evs with
  | [] => True
  | ev :: evs =>
      sys_allowed ev σ ∧
      match sys_handle ev σ with
      | Some σ' => run_allowed evs σ'
      | None => True
      end
  end.

(** The events of a list, one after the other. *)
Fixpoint sys_run (evs : list sys_event) (σ : system) : option system :=
  match evs with
  | [] => Some σ
  | ev :: evs => σ' ← sys_handle ev σ; sys_run evs σ'
  end.

Lemma sys_run_cons ev evs σ σ' :
  sys_handle ev σ = Some σ' → sys_run (ev :: evs) σ = sys_run evs σ'.
Proof. intros Hh. simpl. by rewrite Hh. Qed.

Lemma sys_run_reachable evs σ σ' :
  sys_reachable σ → run_allowed evs σ → sys_run evs σ = Some σ' → sys_reachable σ'.
Proof.
  revert σ. induction evs as [|ev evs IH]; intros σ Hr; simpl; [by intros _ [= <-]|].
  intros [Hal Hrest]. destruct (sys_handle ev σ) as [σ1|] eqn:Hh; [|done]. simpl.
  apply IH; [|done]. by apply (sys_reachable_step _ _ _ σ ev).
Qed.

End runs.

(** ** Crossing edits *)

Section crossing.
Context `{HtmlLaws} `{Layout} `{RegExp}.
Context (editor : nat) (cookie : string → string) (page : dom).
Context (Hwf : dom_wf page) (He : is_Some (nodes page !! editor)).

Local Notation sys_handle := (sys_handle editor cookie page).
Local Notation sys_reachable := (sys_reachable editor cookie page).
Local Notation sys_run := (sys_run editor cookie page).
Local Notation innerHTML := (innerHTML editor).

Lemma sys_handle_local_eq u ev σ c s' :
  σ !! u = Some c → handle editor u (cookie u) ev (local c) = Some s' →
  sys_handle (Local u ev) σ
  = Some (relay u (new_frames (local c) s') (<[u := with_local s' c]> σ)).
Proof. intros Hu Hh. unfold Relay.sys_handle. rewrite Hu. cbn [mbind option_bind]. by rewrite Hh. Qed.

Lemma sys_handle_deliver_eq u now σ c frame frames r :
  σ !! u = Some c → inbox c = frame :: frames →
  receive editor now (Ok frame) (local c) = Some r →
  sys_handle (Deliver u now) σ = Some (<[u := {| local := r.2; inbox := frames |}]> σ).
Proof.
  intros Hu Hi Hr. unfold Relay.sys_handle. rewrite Hu. cbn [mbind option_bind handle].
  by rewrite Hi, Hr.
Qed.

(** The edit of [u], with no selection, in a system where the socket of
    [u] is open: the editor of [u] shows the document the edit left, and
    the message is at the end of the inbox of every other editor that is
    open. *)
Lemma sys_edit u now d σ c :
  σ !! u = Some c → isUpdating (local c) = false → readyState (local c) = OPEN →
  ∃ s' σ', sys_handle (Local u (Edit now d None)) σ = Some σ' ∧
           handle editor u (cookie u) (Edit now d None) (local c) = Some s' ∧
           doc (Editor.page s') = d ∧ readyState s' = OPEN ∧
           σ' !! u = Some (with_local s' c) ∧
           ∀ v c0, v ≠ u → σ !! v = Some c0 → readyState (local c0) = OPEN →
             σ' !! v = Some (with_inbox (inbox c0 ++ [edit_message (innerHTML s') None u]) c0).
Proof.
  intros Hu Hflag Hopen.
  destruct (handle_edit_open editor u (cookie u) now d (local c) Hflag Hopen)
    as (s' & Hh & Hs & Hd & Ho).
  exists s'. eexists. split; [by apply (sys_handle_local_eq u _ σ c s')|].
  assert (new_frames (local c) s' = [edit_message (innerHTML s') None u]) as ->
    by (unfold new_frames; by rewrite Hs, drop_app_length).
  split_and!; [done..| |].
  - rewrite relay_lookup, lookup_insert_eq. simpl. by rewrite decide_False by naive_solver.
  - intros v c0 Hv Hc0 Ho0. rewrite relay_lookup, lookup_insert_ne, Hc0 by done. simpl.
    by rewrite decide_True.
Qed.

(** The delivery of a message without position: the editor then shows
    the markup of the message. *)
Lemma sys_deliver_converges u now σ c content author frames :
  σ !! u = Some c → editor_inv editor (local c) → written content →
  inbox c = edit_message content None author :: frames →
  ∃ s', sys_handle (Deliver u now) σ = Some (<[u := {| local := s'; inbox := frames |}]> σ) ∧
        innerHTML s' = content.
Proof.
  intros Hu Hinv Hw Hi.
  destruct (receive_converges editor now content None author (local c) Hinv Hw) as (r & Hr & Hc);
    [by left|].
  exists r.2. split; [|done].
  by apply (sys_handle_deliver_eq u now σ c (edit_message content None author) frames r).
Qed.

(** The relay empties the inbox of [u], whose last frame is a message
    without position: the editor handles every frame and then shows
    the markup of the last; the other editors are as before. *)
Lemma drain_converges u content author frames :
  written content →
  ∀ times σ c,
    sys_reachable σ → σ !! u = Some c → readyState (local c) = OPEN →
    inbox c = frames ++ [edit_message content None author] →
    length times = S (length frames) →
    ∃ σ' s', sys_run (Deliver u <$> times) σ = Some σ' ∧ sys_reachable σ' ∧
             σ' !! u = Some {| local := s'; inbox := [] |} ∧ innerHTML s' = content ∧
             ∀ v, v ≠ u → σ' !! v = σ !! v.
Proof using All.
  intros Hw. induction frames as [|frame frames IH]; intros [|now times] σ c Hr Hu Ho Hi Hlen;
    try done; simpl in Hlen.
  - destruct times; [|done].
    destruct (sys_reachable_inv editor cookie page Hwf He σ Hr u c Hu) as [Hinv _ _ _].
    destruct (sys_deliver_converges u now σ c content author [] Hu Hinv Hw Hi) as (s' & Hh & Hc).
    eexists _, s'. rewrite fmap_cons, (sys_run_cons _ _ _ _ _ _ _ Hh).
    split_and!; [done| |by rewrite lookup_insert_eq|done|].
    + apply (sys_reachable_step _ _ _ σ (Deliver u now)); [done|by exists c|done].
    + intros v Hv. by rewrite lookup_insert_ne.
  - destruct (sys_deliver editor cookie page Hwf He σ u c frame _ now Hr Hu Ho Hi)
      as (m & _ & _ & Hrest). cbv zeta in Hrest. destruct Hrest as (Hh & Hr' & Ho').
    destruct (IH times _ _ Hr' (lookup_insert_eq _ _ _) Ho' eq_refl)
      as (σ' & s' & Hrun & Hr'' & Hu' & Hc & Hv); [lia|].
    exists σ', s'. rewrite fmap_cons, (sys_run_cons _ _ _ _ _ _ _ Hh).
    split_and!; [done..|]. intros v Hne. by rewrite Hv, lookup_insert_ne.
Qed.

(** C4: an edit reaches the peers.  In a reachable state of the system
    a user whose socket is open edits the document, with no selection,
    and the relay then delivers to a peer whose socket is open, one by
    one, the frames on their way to it, the message of the edit last.
    The peer handles every frame, whatever the frames before the last
    hold, and then shows what the author shows; its inbox is empty and
    the state of the system is reachable. *)
Theorem edit_reaches_peer (a b : string) (σ : system) (ca cb : client)
    (now : Z) (d : dom) (times : list Z) :
  sys_reachable σ → a ≠ b → σ !! a = Some ca → σ !! b = Some cb →
  readyState (local ca) = OPEN → readyState (local cb) = OPEN →
  allowed editor (Edit now d None) (local ca) →
  length times = S (length (inbox cb)) →
  ∃ σ' sa sb,
    sys_run (Local a (Edit now d None) :: (Deliver b <$> times)) σ = Some σ' ∧
    sys_reachable σ' ∧
    local <$> σ' !! a = Some sa ∧ σ' !! b = Some {| local := sb; inbox := [] |} ∧
    innerHTML sb = innerHTML sa ∧ doc (Editor.page sa) = d.
Proof using All.
  intros Hr Hab Ha Hb Hoa Hob Hal Hlen.
  destruct (sys_reachable_inv editor cookie page Hwf He σ Hr a ca Ha) as [Hea _ _ _].
  destruct (sys_edit a now d σ ca Ha (ei_flag _ _ Hea) Hoa)
    as (s1 & σ1 & Hs1 & Hh1 & Hd1 & Ho1 & Ha1 & Hv1).
  pose proof (handle_editor_inv editor a (cookie a) _ _ _ Hea Hal Hh1) as [_ [Hwf1 _ _ _] _].
  assert (sys_reachable σ1) as Hr1
    by (apply (sys_reachable_step _ _ _ σ (Local a (Edit now d None)));
        [done|split; [done|by exists ca]|done]).
  destruct (drain_converges b (innerHTML s1) a (inbox cb) (serialize_written _ _ Hwf1)
              times σ1 _ Hr1 (Hv1 b cb (not_eq_sym Hab) Hb Hob) Hob eq_refl Hlen)
    as (σ' & sb & Hrun & Hr' & Hb' & Hc & Hv).
  exists σ', s1, sb. rewrite (sys_run_cons _ _ _ _ _ _ _ Hs1).
  split_and!; [done..| |done|done|done]. by rewrite (Hv a Hab), Ha1.
Qed.

(** C9: crossing edits swap the documents.  Two users whose sockets
    are open and whose inboxes are empty edit the document, each before
    the message of the other has arrived, and then the relay delivers
    the two messages.  Each editor handles the message of the other and
    then shows what the other wrote: the two editors do not show the
    same document, unless the two edits left the same markup, and no
    frame is left that would reconcile them. *)
Theorem crossing_edits_swap (a b : string) (σ : system) (ca cb : client)
    (t1 t2 t3 t4 : Z) (da db : dom) :
  sys_reachable σ → a ≠ b → σ !! a = Some ca → σ !! b = Some cb →
  readyState (local ca) = OPEN → readyState (local cb) = OPEN →
  inbox ca = [] → inbox cb = [] →
  allowed editor (Edit t1 da None) (local ca) →
  allowed editor (Edit t2 db None) (local cb) →
  ∃ σ' sa sb,
    sys_run [Local a (Edit t1 da None); Local b (Edit t2 db None);
             Deliver a t3; Deliver b t4] σ = Some σ' ∧
    σ' !! a = Some {| local := sa; inbox := [] |} ∧
    σ' !! b = Some {| local := sb; inbox := [] |} ∧
    innerHTML sa = serialize db editor ∧ innerHTML sb = serialize da editor.
Proof using All.
  intros Hr Hab Ha Hb Hoa Hob Hia Hib Hala Halb.
  pose proof (sys_reachable_inv editor cookie page Hwf He σ Hr) as Hinv.
  destruct (Hinv a ca Ha) as [Hea _ _ _], (Hinv b cb Hb) as [Heb _ _ _].
  destruct (sys_edit a t1 da σ ca Ha (ei_flag _ _ Hea) Hoa)
    as (s1 & σ1 & Hs1 & Hh1 & Hd1 & Ho1 & Ha1 & Hv1).
  pose proof (handle_editor_inv editor a (cookie a) _ _ _ Hea Hala Hh1) as He1.
  specialize (Hv1 b cb (not_eq_sym Hab) Hb Hob). rewrite Hib in Hv1. simpl in Hv1.
  destruct (sys_edit b t2 db σ1 _ Hv1 (ei_flag _ _ Heb) Hob)
    as (s2 & σ2 & Hs2 & Hh2 & Hd2 & Ho2 & Hb2 & Hv2).
  pose proof (handle_editor_inv editor b (cookie b) _ _ _ Heb Halb Hh2) as He2.
  specialize (Hv2 a _ Hab Ha1 Ho1). unfold with_inbox, with_local in Hv2. simpl in Hv2.
  rewrite Hia in Hv2. simpl in Hv2.
  destruct (sys_deliver_converges a t3 σ2 _ (innerHTML s2) b [] Hv2 He1) as (s3 & Hs3 & Hc3);
    [apply serialize_written, He2|done|].
  destruct (sys_deliver_converges b t4 (<[a := {| local := s3; inbox := [] |}]> σ2) _
              (innerHTML s1) a [] (eq_trans (lookup_insert_ne _ _ _ _ Hab) Hb2) He2)
    as (s4 & Hs4 & Hc4); [apply serialize_written, He1|done|].
  eexists _, s3, s4.
  rewrite (sys_run_cons _ _ _ _ _ _ _ Hs1), (sys_run_cons _ _ _ _ _ _ _ Hs2),
    (sys_run_cons _ _ _ _ _ _ _ Hs3), (sys_run_cons _ _ _ _ _ _ _ Hs4). split_and!; [done| | |..].
  - by rewrite lookup_insert_ne, lookup_insert_eq by done.
  - by rewrite lookup_insert_eq.
  - rewrite Hc3. unfold Editor.innerHTML. by rewrite Hd2.
  - rewrite Hc4. unfold Editor.innerHTML. by rewrite Hd1.
Qed.

End crossing.

(** ** The scenarios

    Alice and bob open the document of scenario 7: each joins, the
    socket opens and the fetch is answered.  Then alice types, and bob
    types before her message has arrived. *)

#[local] Existing Instance sample_html.
#[local] Existing Instance grid_layout.
#[local] Existing Instance sample_regexp.

Definition sample_cookie (user : string) : string := "csrftoken=token".

Definition opening : list sys_event :=
  [Join "alice"; Join "bob"; Local "alice" SocketOpen; Local "bob" SocketOpen;
   Local "alice" (Loaded 0 hi_answer); Local "bob" (Loaded 0 hi_answer)]%string.

Definition run_sample (evs : list sys_event) (σ : system) : system :=
  default ∅ (sys_run 0 sample_cookie editor_dom evs σ).

Definition sys_hi : system := run_sample opening ∅.

(** The document after an edit that replaces the paragraph. *)
Definition edited (content : string) (u : string) (σ : system) : dom :=
  match σ !! u with
  | Some c => replace_children 0 (parse content) (doc (page (local c)))
  | None => empty_dom
  end.

Definition alice_types : sys_event :=
  Local "alice" (Edit 100 (edited "<p>alice</p>" "alice" sys_hi) None).

Definition bob_types : sys_event :=
  Local "bob" (Edit 110 (edited "<p>bob</p>" "bob" sys_hi) None).

Definition sys_typed : system := run_sample [alice_types] sys_hi.

(** The client of a user in a state of the scenarios. *)
Definition client_of (u : string) (σ : system) : client :=
  default {| local := init editor_dom; inbox := [] |} (σ !! u).

(** The side conditions of a run of the scenarios, by computation. *)
Ltac run_ok :=
  vm_compute;
  repeat match goal with
         | |- _ ∧ _ => split
         | |- True => exact I
         | |- ∃ _, _ => eexists
         | |- _ = _ => reflexivity
         end.

Lemma sys_hi_reachable : sys_reachable 0 sample_cookie editor_dom sys_hi.
Proof.
  apply (sys_run_reachable 0 sample_cookie editor_dom opening ∅);
    [constructor|run_ok|by vm_compute].
Qed.

Lemma sys_hi_alice : sys_hi !! "alice" = Some (client_of "alice" sys_hi).
Proof. by vm_compute. Qed.

Lemma sys_hi_bob : sys_hi !! "bob" = Some (client_of "bob" sys_hi).
Proof. by vm_compute. Qed.

(** An edit that assigns markup to the editor is allowed. *)
Lemma allowed_edited now content u σ c :
  sys_reachable 0 sample_cookie editor_dom σ → σ !! u = Some c →
  allowed 0 (Edit now (edited content u σ) None) (local c).
Proof.
  intros Hr Hu. unfold edited. rewrite Hu. split; [|done].
  apply (set_innerHTML_overlay 0 content (local c)).
  by destruct (sys_reachable_inv 0 sample_cookie editor_dom editor_dom_wf editor_dom_node
                 σ Hr u c Hu) as [[_ ? _] _ _ _].
Qed.

Lemma sys_typed_reachable : sys_reachable 0 sample_cookie editor_dom sys_typed.
Proof.
  apply (sys_reachable_step 0 sample_cookie editor_dom sys_hi alice_types);
    [apply sys_hi_reachable| |by vm_compute].
  split; [exact I|]. exists (client_of "alice" sys_hi). split; [apply sys_hi_alice|].
  apply (allowed_edited 100 "<p>alice</p>" "alice" sys_hi);
    [apply sys_hi_reachable|apply sys_hi_alice].
Qed.

Lemma sys_typed_bob : sys_typed !! "bob" = Some (client_of "bob" sys_typed).
Proof. by vm_compute. Qed.

(** The message of alice is on its way to bob, and to nobody else. *)
Example sys_typed_inboxes :
  inbox (client_of "bob" sys_typed) = [edit_message "<p>alice</p>" None "alice"] ∧
  inbox (client_of "alice" sys_typed) = [].
Proof. split; by vm_compute. Qed.

Lemma relay_inv_witness :
  let c := client_of "bob" sys_typed in
  editor_inv 0 (local c) ∧ timers_inv (local c) ∧ channel_inv "bob" (local c) ∧
  Forall (λ frame, is_edit frame = true ∧
                   ∃ m, decode frame = Some m ∧ msg_action m = "edit"%string ∧
                        msg_user m ≠ "bob"%string) (inbox c).
Proof.
  apply (relay_inv 0 sample_cookie editor_dom editor_dom_wf editor_dom_node sys_typed "bob");
    [apply sys_typed_reachable|apply sys_typed_bob].
Defined.

Lemma deliver_total_witness :
  ∃ m, decode (edit_message "<p>alice</p>" None "alice") = Some m ∧
       msg_user m ≠ "bob"%string ∧
       let s' := (onmessage 0 200 m (local (client_of "bob" sys_typed))).2 in
       let σ' := <["bob"%string := {| local := s'; inbox := [] |}]> sys_typed in
       sys_handle 0 sample_cookie editor_dom (Deliver "bob" 200) sys_typed = Some σ' ∧
       sys_reachable 0 sample_cookie editor_dom σ' ∧
       readyState s' = OPEN ∧ sent s' = sent (local (client_of "bob" sys_typed)).
Proof.
  apply (deliver_total 0 sample_cookie editor_dom editor_dom_wf editor_dom_node
           sys_typed "bob" (client_of "bob" sys_typed));
    [apply sys_typed_reachable|apply sys_typed_bob|by vm_compute..].
Defined.

Lemma crossing_edits_swap_witness :
  ∃ σ' sa sb,
    sys_run 0 sample_cookie editor_dom
      [alice_types; bob_types; Deliver "alice" 200; Deliver "bob" 210] sys_hi = Some σ' ∧
    σ' !! "alice" = Some {| local := sa; inbox := [] |} ∧
    σ' !! "bob" = Some {| local := sb; inbox := [] |} ∧
    innerHTML 0 sa = serialize (edited "<p>bob</p>" "bob" sys_hi) 0 ∧
    innerHTML 0 sb = serialize (edited "<p>alice</p>" "alice" sys_hi) 0.
Proof.
  apply (crossing_edits_swap 0 sample_cookie editor_dom editor_dom_wf editor_dom_node
           "alice" "bob" sys_hi (client_of "alice" sys_hi) (client_of "bob" sys_hi));
    [apply sys_hi_reachable|done|apply sys_hi_alice|apply sys_hi_bob|by vm_compute..| |].
  - apply (allowed_edited 100 "<p>alice</p>" "alice" sys_hi);
      [apply sys_hi_reachable|apply sys_hi_alice].
  - apply (allowed_edited 110 "<p>bob</p>" "bob" sys_hi);
      [apply sys_hi_reachable|apply sys_hi_bob].
Defined.

(** Alice types again while her first message is on its way to bob:
    the relay delivers the two frames, and bob shows her document. *)
Definition alice_again : dom := edited "<p>again</p>" "alice" sys_typed.

Lemma sys_typed_alice : sys_typed !! "alice" = Some (client_of "alice" sys_typed).
Proof. by vm_compute. Qed.

Lemma edit_reaches_peer_witness :
  ∃ σ' sa sb,
    sys_run 0 sample_cookie editor_dom
      (Local "alice" (Edit 120 alice_again None) :: (Deliver "bob" <$> [200; 210]))
      sys_typed = Some σ' ∧
    sys_reachable 0 sample_cookie editor_dom σ' ∧
    local <$> σ' !! "alice" = Some sa ∧ σ' !! "bob" = Some {| local := sb; inbox := [] |} ∧
    innerHTML 0 sb = innerHTML 0 sa ∧ doc (page sa) = alice_again.
Proof.
  apply (edit_reaches_peer 0 sample_cookie editor_dom editor_dom_wf editor_dom_node
           "alice" "bob" sys_typed (client_of "alice" sys_typed) (client_of "bob" sys_typed));
    [apply sys_typed_reachable|done|apply sys_typed_alice|apply sys_typed_bob|
     by vm_compute..| |by vm_compute].
  apply (allowed_edited 120 "<p>again</p>" "alice" sys_typed);
    [apply sys_typed_reachable|apply sys_typed_alice].
Defined.

Example edit_reaches_bob :
  let σ' := run_sample (Local "alice" (Edit 120 alice_again None)
                          :: (Deliver "bob" <$> [200; 210])) sys_typed in
  innerHTML 0 (local (client_of "bob" σ')) = "<p>again</p>"%string.
Proof. by vm_compute. Qed.

(** The two editors after the exchange: each shows what the other
    wrote. *)
Example crossing_edits :
  let σ' := run_sample [alice_types; bob_types; Deliver "alice" 200; Deliver "bob" 210] sys_hi in
  innerHTML 0 (local (client_of "alice" σ')) = "<p>bob</p>"%string ∧
  innerHTML 0 (local (client_of "bob" σ')) = "<p>alice</p>"%string.
Proof. split; by vm_compute. Qed.
