(* ===== verification/Wire.v ===== *)
(** * The texts on the wire

    The socket carries texts: the input listener sends the text
    [JSON.stringify] gives for the object of an edit (editor.js 84-89),
    and [socket.onmessage] parses the data of the event (46).  The body
    of the autosave request is the text of [{ content }] (260), and the
    answer to the fetch of the document is read with [response.json()]
    (23).  [Editor] and [Session] start at the values; this file puts
    [JsonText] under them.

    - [socket_onmessage] is the handler on the text of an event, and
      on the text an editor has sent it is the handler of [Editor] on
      the message: nothing is lost in the text.
    - [save_body] is the body of the autosave request and [response]
      the answer [loadDocumentContent] is given for the text of a
      response.  The server is not part of the sources: [store] and
      [document_body] are what section 6 of the specification says of
      it, the save resource keeps the content of the body and the
      document resource answers with it.  An editor that loads what
      another has saved shows what that one showed.

    The numbers of a position are sent as numbers: the theorems are
    about documents with at most 2^53 nodes and offsets up to 2^53,
    which the text holds exactly. *)

From stdpp Require Import base option list numbers strings gmap.
From S2P Require Import Prelude Dom Markup Position Timers Typing Cursor Cookie Json JsonText.
From S2P Require Import Channel Editor Session Converge.

Local Open Scope Z_scope.

(** ** The texts *)

Section wire.
Context `{Html} `{Layout} `{RegExp}.
Context (editor : nat).

(** [socket.onmessage] on the data of an event (45-46): the text is
    parsed, and the exception of [JSON.parse] ends the handler. *)
Definition socket_onmessage (now : Z) (data : string) (s : state)
    : option (outcome unit * state) :=
  parsed ← JSON_parse data; receive editor now parsed s.

(** The texts [socket.send] was called with (84). *)
Definition frames (s : state) : list string := JSON_stringify <$> sent s.

(** The body of the request of [autosaveDocument] (260). *)
Definition save_body (r : save_request) : string :=
  JSON_stringify (JObject [("content"%string, JString (save_content r))]).

(** The answer [loadDocumentContent] handles (20-23), for the flag
    [response.ok] and the text of the body: [response.json()] is not
    called when the flag is down, and rejects a text that is not JSON. *)
Definition response (ok : bool) (body : string) : option answer :=
  if ok then
    match JSON_parse body with
    | Some (Ok data) => Some (Response true (Some data))
    | Some (Throw _) => Some (Response true None)
    | None => None
    end
  else Some (Response false None).

End wire.

(** ** The store

    The save resource keeps the content of the body it is sent; the
    document resource answers with the content it has. *)
Definition store (body : string) : option string :=
  match JSON_parse body with
  | Some (Ok data) =>
      match get data "content" with
      | Ok (Some (JString content)) => Some content
      | _ => None
      end
  | _ => None
  end.

Definition document_body (content : string) : string :=
  JSON_stringify (JObject [("content"%string, JString content)]).

(** ** Documents and selections whose numbers the text holds *)

Definition small_document (d : dom) : Prop := Z.of_nat (next_id d) ≤ Z.of_N max_safe.

Definition small_selection (sel : option range) : Prop :=
  ∀ r, sel = Some r → Z.abs (startOffset r) ≤ Z.of_N max_safe.

Lemma json_wf_numbers (l : list Z) :
  Forall (λ i, Z.abs i ≤ Z.of_N max_safe) l → json_wf (JArray (JNumber <$> l)) = true.
Proof.
  cbn [json_wf]. induction 1 as [|i l Hi _ IH]; [done|]. rewrite fmap_cons.
  cbn [forallb json_wf]. rewrite IH. by apply Z.leb_le in Hi as ->.
Qed.

(** The position of a selection in a small document is a text. *)
Lemma position_json_wf d e sel pos :
  dom_wf d → small_document d → small_selection sel →
  getCursorPosition d e sel = Some (Ok pos) → json_wf (position_json pos) = true.
Proof.
  intros Hwf Hd Hsel. destruct sel as [r|]; simpl; [|by intros [= <-]].
  destruct (getNodePath d e (startContainer r)) as [[p|err]|] eqn:Hp; [|done..].
  intros [= <-]. apply (getNodePath_small d Hwf) in Hp. specialize (Hsel r eq_refl).
  apply json_wf_object. split; [by apply (bool_decide_unpack _)|].
  repeat constructor; simpl; [|by apply Z.leb_le].
  apply json_wf_numbers, (Forall_impl _ _ _ Hp). unfold small_document in Hd. lia.
Qed.

Lemma edit_message_wf content pos user :
  json_wf (position_json pos) = true → json_wf (edit_message content pos user) = true.
Proof.
  intros Hp. apply json_wf_object. split; [by apply (bool_decide_unpack _)|].
  by repeat constructor.
Qed.

(** ** The socket *)

Section socket.
Context `{Html} `{Layout} `{RegExp}.
Context (editor : nat).

Local Notation socket_onmessage := (socket_onmessage editor).
Local Notation receive := (receive editor).

(** On the text of a value the handler is the handler on the value. *)
Lemma socket_onmessage_value now v s :
  json_wf v = true → socket_onmessage now (JSON_stringify v) s = receive now (Ok v) s.
Proof. intros Hv. unfold Wire.socket_onmessage. by rewrite reads_all_text. Qed.

(** A text that is not JSON ends the handler with the exception and
    leaves the state. *)
Lemma socket_onmessage_refused now text s :
  JSON_parse text = Some (Throw SyntaxError) →
  socket_onmessage now text s = Some (Throw SyntaxError, s).
Proof. intros Hp. unfold Wire.socket_onmessage. by rewrite Hp. Qed.

End socket.

(** C21: nothing is lost in the text of a message.  The author handles
    an edit of a document with at most 2^53 nodes and an offset up to
    2^53 and sends a message; the text [JSON.stringify] gives for it is
    what the socket carries.  [socket.onmessage] of a peer parses that
    text to the value that was sent and handles the message it holds:
    an edit of the author with the markup the author shows. *)
Theorem socket_onmessage_edit `{Html} `{Layout} `{RegExp}
    (editor editor' : nat) (author cookie : string) (now now' : Z) (d : dom)
    (sel : option range) (s_author s_author' s : state) (msg : json) :
  allowed editor' (Edit now d sel) s_author →
  handle editor' author cookie (Edit now d sel) s_author = Some s_author' →
  sent s_author' = sent s_author ++ [msg] →
  small_document d → small_selection sel →
  ∃ text m,
    frames s_author' = frames s_author ++ [text] ∧
    JSON_parse text = Some (Ok msg) ∧
    socket_onmessage editor now' text s = Some (onmessage editor now' m s) ∧
    msg_action m = "edit"%string ∧ msg_user m = author ∧
    msg_content m = innerHTML editor' s_author'.
Proof.
  intros [[Hwf _ _ _] _] Hh Hs Hd Hsel. unfold frames. rewrite Hs, fmap_app.
  destruct (handle_edit_sent _ _ _ _ _ _ _ _ _ Hh Hs) as (pos & Hpos & -> & _).
  pose proof (edit_message_wf (innerHTML editor' s_author') pos author
                (position_json_wf d editor' sel pos Hwf Hd Hsel Hpos)) as Hmsg.
  exists (JSON_stringify (edit_message (innerHTML editor' s_author') pos author)).
  exists {| msg_action := "edit"; msg_content := innerHTML editor' s_author';
            msg_cursorPosition := pos; msg_user := author |}.
  rewrite socket_onmessage_value by done.
  split_and!; [done|by apply reads_all_text| |done..].
  apply receive_decoded; [done|apply decode_edit_message].
Qed.

(** ** Saving and loading *)

(** The content of a body the writer wrote is kept by the store and
    given to the editor that loads the document. *)
Lemma store_document_body content : store (document_body content) = Some content.
Proof.
  unfold store, document_body. rewrite reads_all_text; [done|].
  apply json_wf_object. split; [by apply (bool_decide_unpack _)|]. by repeat constructor.
Qed.

Lemma response_document_body content :
  ∃ a, response true (document_body content) = Some a ∧ load_content a = Some content.
Proof.
  unfold response, document_body. rewrite reads_all_text.
  - eexists. split; [done|]. simpl. unfold or_else, truthy.
    case_bool_decide; simpl; by subst.
  - apply json_wf_object. split; [by apply (bool_decide_unpack _)|]. by repeat constructor.
Qed.

(** C22: an editor that loads what another has saved shows what that
    one showed.  [autosaveDocument] makes a request in a state that
    satisfies the invariant; the store reads in the body of the
    request the markup the editor had, whatever its characters, and
    the answer of the document resource with that content makes
    [loadDocumentContent] of an editor that satisfies the invariant
    set it: the editor then has the markup the first had when it
    saved. *)
Theorem save_load `{HtmlLaws} `{Layout} `{RegExp}
    (editor editor' : nat) (cookie : string) (now : Z) (s s' s0 : state)
    (r : save_request) :
  editor_inv editor s → editor_inv editor' s0 →
  autosaveDocument editor cookie s = (Ok (), s') → saves s' = saves s ++ [r] →
  store (save_body r) = Some (innerHTML editor s) ∧
  ∃ a, response true (document_body (innerHTML editor s)) = Some a ∧
       innerHTML editor' (loadDocumentContent editor' now a s0) = innerHTML editor s.
Proof.
  intros [_ [Hwf _ _ _] _] Hinv0 Hsave Hr.
  assert (save_content r = innerHTML editor s) as Hc.
  { revert Hsave Hr. unfold autosaveDocument. destruct (getCSRFToken cookie); [|done].
    intros [= <-]. simpl. by intros [_ <-]%app_inj_tail. }
  split; [unfold save_body; rewrite Hc; apply store_document_body|].
  destruct (response_document_body (innerHTML editor s)) as (a & Ha & Hl).
  exists a. split; [done|]. rewrite loadDocumentContent_content, Hl.
  unfold setupAutosave. destruct (setInterval _ _ _ _) as [id ts].
  apply (set_innerHTML_written editor'); [|by apply serialize_written].
  eapply editor_inv_ext; [| | |exact Hinv0]; reflexivity.
Qed.

(** ** The scenarios *)

#[local] Existing Instance sample_html.
#[local] Existing Instance grid_layout.
#[local] Existing Instance sample_regexp.

(** The text of the message alice sends with the caret after the [h]
    of scenario 7. *)
Example frames_caret :
  frames s_caret =
  [("{" +:+ quoted "action" +:+ ":" +:+ quoted "edit" +:+ "," +:+
    quoted "content" +:+ ":" +:+ quoted "<p>hi</p>" +:+ "," +:+
    quoted "cursorPosition" +:+ ":{" +:+ quoted "path" +:+ ":[0,0]," +:+
    quoted "offset" +:+ ":1}," +:+ quoted "user" +:+ ":" +:+ quoted "alice" +:+ "}")%string].
Proof. by vm_compute. Qed.

(** A text that is not JSON, and the text of a number: the first ends
    the handler with the exception, the second is passed over. *)
Example socket_onmessage_garbage :
  socket_onmessage 0 100 "<p>hi</p>" s_hi = Some (Throw SyntaxError, s_hi) ∧
  socket_onmessage 0 100 "42" s_hi = Some (Ok (), s_hi).
Proof. split; by vm_compute. Qed.

Lemma socket_onmessage_edit_witness :
  ∃ text m,
    frames s_caret = frames s_hi ++ [text] ∧
    JSON_parse text =
      Some (Ok (edit_message "<p>hi</p>" (Some {| path := [0; 0]; offset := 1 |}) "alice")) ∧
    socket_onmessage 0 300 text s_bye = Some (onmessage 0 300 m s_bye) ∧
    msg_action m = "edit"%string ∧ msg_user m = "alice"%string ∧
    msg_content m = innerHTML 0 s_caret.
Proof.
  apply (socket_onmessage_edit 0 0 "alice" "csrftoken=token" 200 300 (doc (page s_hi))
           (Some caret) s_hi s_caret s_bye).
  - destruct s_hi_inv as [[_ Hpg _] _]. split; [by destruct (page s_hi)|].
    intros r [= <-]. apply (bool_decide_unpack _). by vm_compute.
  - by vm_compute.
  - by vm_compute.
  - by vm_compute.
  - intros r [= <-]. by vm_compute.
Defined.

(** The autosave of the peer of scenario 8, which shows the paragraph
    of bob and his marker, and an editor that loads what the store
    has. *)
Definition s_saved : state := (autosaveDocument 0 "csrftoken=token" s_bye).2.

Definition bye_request : save_request :=
  {| save_content := innerHTML 0 s_bye; save_token := Some "token"%string |}.

Example save_body_bye :
  save_body bye_request =
  ("{" +:+ quoted "content" +:+ ":" +:+
   quoted ("<p>bye</p><div class=" +:+ bs +:+ dq +:+ "user-cursor" +:+ bs +:+ dq +:+
           "></div>") +:+ "}")%string.
Proof. by vm_compute. Qed.

Lemma save_load_witness :
  store (save_body bye_request) = Some (innerHTML 0 s_bye) ∧
  ∃ a, response true (document_body (innerHTML 0 s_bye)) = Some a ∧
       innerHTML 0 (loadDocumentContent 0 900 a s_hi) = innerHTML 0 s_bye.
Proof.
  apply (save_load 0 0 "csrftoken=token" 900 s_bye s_saved s_hi bye_request).
  - apply s_bye_inv.
  - apply s_hi_inv.
  - by vm_compute.
  - by vm_compute.
Defined.
