(* ===== verification/Net.v ===== *)
(** * The network: the texts between the editors

    [Relay] puts the editors of a document together with the relay of
    the specification, and what travels between them are the values
    the editors have handed to [JSON.stringify].  A socket carries
    texts.  This file has the same system with the texts: what an
    editor sends is the text of [Wire.frames], the relay puts the
    texts at the end of the wire of every other editor whose socket is
    open, and a delivery is [Wire.socket_onmessage] on the first text
    of a wire, which parses it.

    The system of [Relay] is the specification and the network its
    implementation: a state of the network that is reached by the
    events of users whose documents and offsets stay below [2^53] is
    the image of a state the system of values reaches by the same
    events, so [JSON.parse] never fails between editors and what
    [Relay] shows of the values holds of the texts. *)

From stdpp Require Import base option list numbers strings gmap.
From S2P Require Import Prelude Dom Position Timers Typing Cursor Cookie Json JsonText Channel.
From S2P Require Import Editor Session Converge Relay Wire.

Local Open Scope Z_scope.

(** ** The network *)

(** An editor and the texts on their way to it. *)
Record endpoint : Type := {
  editor_of : state;
  wire : list string;
}.

Notation network := (gmap string endpoint).

Definition with_editor (s : state) (n : endpoint) : endpoint :=
  {| editor_of := s; wire := wire n |}.

Definition with_wire (l : list string) (n : endpoint) : endpoint :=
  {| editor_of := editor_of n; wire := l |}.

(** The relay: the texts of [user] go to the others whose socket is
    open. *)
Definition broadcast (user : string) (texts : list string) (ν : network) : network :=
  map_imap (λ v n,
    Some (if decide (v ≠ user ∧ readyState (editor_of n) = OPEN)
          then with_wire (wire n ++ texts) n else n)) ν.

(** The texts handed to the socket between two states of an editor. *)
Definition new_texts (s s' : state) : list string :=
  drop (length (frames s)) (frames s').

Section net.
Context `{Html} `{Layout} `{RegExp}.
Context (editor : nat) (cookie : string → string) (page : dom).

(** The events are those of [Relay]: a user opens the page, something
    happens at an editor, the relay delivers the first text of a
    wire. *)
Definition net_handle (ev : sys_event) (ν : network) : option network :=
  match ev with
  | Join u =>
      match ν !! u with
      | None => Some (<[u := {| editor_of := init page; wire := [] |}]> ν)
      | Some _ => None
      end
  | Local u ev =>
      n ← ν !! u;
      s' ← handle editor u (cookie u) ev (editor_of n);
      Some (broadcast u (new_texts (editor_of n) s') (<[u := with_editor s' n]> ν))
  | Deliver u now =>
      n ← ν !! u;
      match wire n with
      | text :: texts =>
          r ← socket_onmessage editor now text (editor_of n);
          Some (<[u := {| editor_of := r.2; wire := texts |}]> ν)
      | [] => None
      end
  end.

(** An edit whose numbers a text holds. *)
Definition small_edit (ev : event) : Prop :=
  match ev with
  | Edit _ d sel => small_document d ∧ small_selection sel
  | _ => True
  end.

Definition small (ev : sys_event) : Prop :=
  match ev with
  | Local _ ev => small_edit ev
  | _ => True
  end.

(** What is assumed of the events: what [Relay.sys_allowed] assumes,
    and that the documents and the offsets of the users are small. *)
Definition net_allowed (ev : sys_event) (ν : network) : Prop :=
  match ev with
  | Join u => ν !! u = None
  | Local u ev =>
      is_local ev ∧ small_edit ev ∧
      ∃ n, ν !! u = Some n ∧ allowed editor ev (editor_of n)
  | Deliver u now => ∃ n, ν !! u = Some n ∧ readyState (editor_of n) = OPEN
  end.

Inductive net_reachable : network → Prop :=
| net_reachable_init : net_reachable ∅
| net_reachable_step ν ev ν' :
    net_reachable ν → net_allowed ev ν → net_handle ev ν = Some ν' → net_reachable ν'.

(** Every event of a run is allowed in the state it finds. *)
Fixpoint net_run_allowed (evs : list sys_event) (ν : network) : Prop :=
  match evs with
  | [] => True
  | ev :: evs =>
      net_allowed ev ν ∧
      match net_handle ev ν with
      | Some ν' => net_run_allowed evs ν'
      | None => True
      end
  end.

(** The events of a list, one after the other. *)
Fixpoint net_run (evs : list sys_event) (ν : network) : option network :=
  match evs with
  | [] => Some ν
  | ev :: evs => ν' ← net_handle ev ν; net_run evs ν'
  end.

End net.

(** ** The network of a system of values *)

(** The texts of the frames of a client, and of every client. *)
Definition texts (c : client) : endpoint :=
  {| editor_of := local c; wire := JSON_stringify <$> inbox c |}.

Definition on_wire (σ : system) : network := texts <$> σ.

(** The frames in flight are values a text holds. *)
Definition wire_inv (σ : system) : Prop :=
  ∀ u c, σ !! u = Some c → Forall (λ frame, json_wf frame = true) (inbox c).

(** ** The image of a system *)

Lemma on_wire_lookup σ u : on_wire σ !! u = texts <$> σ !! u.
Proof. apply lookup_fmap. Qed.

Lemma on_wire_insert σ u c : on_wire (<[u := c]> σ) = <[u := texts c]> (on_wire σ).
Proof. apply fmap_insert. Qed.

(** The relay of the texts is the relay of the values. *)
Lemma on_wire_relay u frames σ :
  on_wire (relay u frames σ) = broadcast u (JSON_stringify <$> frames) (on_wire σ).
Proof.
  apply map_eq. intros v. unfold broadcast.
  rewrite on_wire_lookup, relay_lookup, map_lookup_imap, on_wire_lookup.
  destruct (σ !! v) as [c|]; [simpl|done]. f_equal.
  case_decide; [|done]. unfold texts, with_wire. simpl. by rewrite fmap_app.
Qed.

Lemma new_texts_frames s s' : new_texts s s' = JSON_stringify <$> new_frames s s'.
Proof. unfold new_texts, new_frames, frames. by rewrite length_fmap, fmap_drop. Qed.

Section refinement.
Context `{Html} `{Layout} `{RegExp}.
Context (editor : nat) (cookie : string → string) (page : dom).

Local Notation sys_handle := (sys_handle editor cookie page).
Local Notation sys_reachable := (sys_reachable editor cookie page).
Local Notation net_handle := (net_handle editor cookie page).
Local Notation net_reachable := (net_reachable editor cookie page).

(** A step of the network from the image of a system whose frames are
    values a text holds is the step of the system. *)
Lemma net_handle_on_wire ev σ :
  wire_inv σ → net_handle ev (on_wire σ) = on_wire <$> sys_handle ev σ.
Proof.
  intros Hinv.
  destruct ev as [u|u ev|u now]; cbn [Relay.sys_handle Net.net_handle];
    rewrite on_wire_lookup; destruct (σ !! u) as [c|] eqn:Hu;
    cbn [fmap option_fmap option_map mbind option_bind texts editor_of wire]; try done.
  - by rewrite on_wire_insert.
  - destruct (handle editor u (cookie u) ev (local c)) as [s'|];
      cbn [fmap option_fmap option_map mbind option_bind]; [|done].
    by rewrite on_wire_relay, on_wire_insert, new_texts_frames.
  - specialize (Hinv u c Hu). destruct (inbox c) as [|frame frames]; [done|].
    apply Forall_cons_1 in Hinv as [Hf _]. rewrite fmap_cons.
    rewrite socket_onmessage_value by done. cbn [handle].
    destruct (receive editor now (Ok frame) (local c)) as [r|];
      cbn [fmap option_fmap option_map mbind option_bind]; [|done].
    by rewrite on_wire_insert.
Qed.

(** What an editor sends in a step of an edit that is small is a
    value a text holds. *)
Lemma handle_new_frames_wf u ev s s' :
  allowed editor ev s → small_edit ev → handle editor u (cookie u) ev s = Some s' →
  Forall (λ frame, json_wf frame = true) (new_frames s s').
Proof.
  intros Hal Hsmall Hh. pose proof (handle_new_frames editor cookie u ev s s' Hh) as Hs.
  destruct (handle_sends _ _ _ _ _ _ Hh) as [Heq|(now & d & sel & pos & -> & _ & Hsent)].
  { rewrite Heq in Hs. apply (f_equal length) in Hs. rewrite length_app in Hs.
    destruct (new_frames s s'); [done|simpl in Hs; lia]. }
  rewrite Hsent in Hs. apply app_inv_head in Hs as <-.
  destruct (handle_edit_sent _ _ _ _ _ _ _ _ _ Hh Hsent) as (pos' & Hpos & -> & _).
  destruct Hal as [[Hwf _ _ _] _], Hsmall as [Hd Hsel].
  repeat constructor. by apply edit_message_wf, (position_json_wf d editor sel).
Qed.

Lemma net_allowed_on_wire ev σ :
  net_allowed editor ev (on_wire σ) ↔ sys_allowed editor ev σ ∧ small ev.
Proof.
  destruct ev as [u|u ev|u now]; simpl; rewrite on_wire_lookup.
  - rewrite fmap_None. naive_solver.
  - split.
    + intros (? & ? & n & (c & Hc & ->)%fmap_Some & ?). split_and!; [done| |done]. by exists c.
    + intros [(? & c & Hc & ?) ?]. split_and!; [done..|]. exists (texts c). by rewrite Hc.
  - split.
    + intros (n & (c & Hc & ->)%fmap_Some & ?). split; [|done]. by exists c.
    + intros [(c & Hc & ?) _]. exists (texts c). by rewrite Hc.
Qed.

(** The frames in flight stay values a text holds. *)
Lemma sys_handle_wire_inv ev σ σ' :
  wire_inv σ → sys_allowed editor ev σ → small ev → sys_handle ev σ = Some σ' → wire_inv σ'.
Proof.
  intros Hinv Hal Hsmall Hh v c' Hv. destruct ev as [u|u ev|u now].
  - simpl in *. rewrite Hal in Hh. injection Hh as <-.
    apply lookup_insert_Some in Hv as [[_ <-]|[_ Hv]]; [constructor|by apply (Hinv v)].
  - destruct Hal as (_ & c1 & Hc1 & Hal).
    destruct (sys_handle_local _ _ _ _ _ _ _ Hh) as (c & s' & Hu & Hs' & Hu' & Hother).
    rewrite Hc1 in Hu. injection Hu as ->.
    destruct (decide (v = u)) as [->|Hne].
    + rewrite Hu' in Hv. injection Hv as <-. by apply (Hinv u c).
    + rewrite (Hother v Hne) in Hv. destruct (σ !! v) as [c0|] eqn:Hc0; [|done].
      injection Hv as <-. case_decide; [|by apply (Hinv v)]. apply Forall_app.
      split; [by apply (Hinv v c0)|by apply (handle_new_frames_wf u ev)].
  - destruct (sys_handle_deliver _ _ _ _ _ _ _ Hh)
      as (c & frame & frames & s' & Hu & Hi & _ & ->).
    apply lookup_insert_Some in Hv as [[_ <-]|[_ Hv]]; [|by apply (Hinv v)].
    specialize (Hinv u c Hu). rewrite Hi in Hinv. by apply Forall_cons_1 in Hinv as [_ ?].
Qed.

(** A state the network reaches is the image of a state the system
    reaches, whose frames are values a text holds. *)
Lemma net_reachable_image ν :
  net_reachable ν → ∃ σ, sys_reachable σ ∧ wire_inv σ ∧ ν = on_wire σ.
Proof.
  induction 1 as [|ν ev ν' _ (σ & Hr & Hw & ->) Hal Hh].
  - exists ∅. split_and!; [constructor|by intros u c|done].
  - rewrite net_handle_on_wire in Hh by done.
    destruct (sys_handle ev σ) as [σ'|] eqn:Hs; [|done]. injection Hh as <-.
    apply net_allowed_on_wire in Hal as [Hal Hsmall]. exists σ'.
    split_and!; [by apply (sys_reachable_step _ _ _ σ ev)|by apply (sys_handle_wire_inv ev σ)|done].
Qed.

(** The state of a run of the network whose events are allowed. *)
Lemma net_run_reachable evs ν ν' :
  net_reachable ν → net_run_allowed editor cookie page evs ν →
  net_run editor cookie page evs ν = Some ν' → net_reachable ν'.
Proof.
  revert ν. induction evs as [|ev evs IH]; intros ν Hr; simpl; [by intros _ [= <-]|].
  intros [Hal Hrest]. destruct (net_handle ev ν) as [ν1|] eqn:Hh; [simpl|done].
  apply IH; [|done]. by apply (net_reachable_step _ _ _ ν ev).
Qed.

Context (Hwf : dom_wf page) (He : is_Some (nodes page !! editor)).

(** The first text of a wire is the text of an edit of another user,
    and [socket.onmessage] handles the message. *)
Lemma net_deliver ν u n text rest now :
  net_reachable ν → ν !! u = Some n → wire n = text :: rest →
  ∃ frame m, JSON_parse text = Some (Ok frame) ∧ decode frame = Some m ∧
             msg_action m = "edit"%string ∧ msg_user m ≠ u ∧
             socket_onmessage editor now text (editor_of n)
             = Some (onmessage editor now m (editor_of n)).
Proof using Hwf He.
  intros (σ & Hr & Hw & ->)%net_reachable_image. rewrite on_wire_lookup.
  intros (c & Hc & ->)%fmap_Some. simpl.
  destruct (inbox c) as [|frame frames] eqn:Hi; [done|]. intros [= <- <-].
  destruct (sys_reachable_inv editor cookie page Hwf He σ Hr u c Hc) as [_ _ _ Hin].
  specialize (Hw u c Hc). rewrite Hi in Hin, Hw.
  apply Forall_cons_1 in Hin as [Hf _]. apply Forall_cons_1 in Hw as [Hv _].
  destruct (frame_ok_decode u frame Hf) as (Hedit & m & Hm & Ha & Hne).
  exists frame, m. rewrite socket_onmessage_value by done.
  split_and!; [by apply reads_all_text|done..|by apply receive_decoded].
Qed.

End refinement.

(** C23: the network of texts implements the system of values.  A
    state the network reaches, by the events of users whose documents
    have at most 2^53 nodes and whose offsets are at most 2^53 and by
    deliveries in any order, is the image of a state the system of
    [Relay] reaches: the editors are in the same states and the wires
    hold the texts of the frames.  Every step the network takes from
    it is the step of the system, so a text that is delivered is
    parsed to the value that was sent. *)
Theorem net_refines `{Html} `{Layout} `{RegExp}
    (editor : nat) (cookie : string → string) (page : dom) (ν : network) :
  net_reachable editor cookie page ν →
  ∃ σ, sys_reachable editor cookie page σ ∧ ν = on_wire σ ∧
       ∀ ev, net_handle editor cookie page ev ν
             = on_wire <$> sys_handle editor cookie page ev σ.
Proof.
  intros (σ & Hr & Hw & ->)%net_reachable_image. exists σ.
  split_and!; [done..|]. intros ev. by apply net_handle_on_wire.
Qed.

(** C24: no text between editors is refused.  In a state the network
    reaches, the first text on the wire of an editor whose socket is
    open is read by [JSON.parse] as an edit of another user,
    [socket.onmessage] handles that message without running out, and
    the delivery leaves a state the network reaches, with the rest of
    the wire. *)
Theorem net_deliver_total `{Html} `{Layout} `{RegExp}
    (editor : nat) (cookie : string → string) (page : dom) (ν : network)
    (u : string) (n : endpoint) (text : string) (rest : list string) (now : Z) :
  dom_wf page → is_Some (nodes page !! editor) →
  net_reachable editor cookie page ν → ν !! u = Some n →
  readyState (editor_of n) = OPEN → wire n = text :: rest →
  ∃ frame m,
    JSON_parse text = Some (Ok frame) ∧ decode frame = Some m ∧
    msg_action m = "edit"%string ∧ msg_user m ≠ u ∧
    let r := onmessage editor now m (editor_of n) in
    let ν' := <[u := {| editor_of := r.2; wire := rest |}]> ν in
    socket_onmessage editor now text (editor_of n) = Some r ∧
    net_handle editor cookie page (Deliver u now) ν = Some ν' ∧
    net_reachable editor cookie page ν'.
Proof.
  intros Hwf He Hr Hn Hopen Hwire.
  destruct (net_deliver editor cookie page Hwf He ν u n text rest now Hr Hn Hwire)
    as (frame & m & Hp & Hm & Ha & Hne & Hs).
  exists frame, m. split_and!; [done..|]. cbv zeta.
  assert (net_handle editor cookie page (Deliver u now) ν
          = Some (<[u := {| editor_of := (onmessage editor now m (editor_of n)).2;
                            wire := rest |}]> ν)) as Hh
    by (simpl; rewrite Hn; simpl; by rewrite Hwire, Hs).
  split_and!; [done..|].
  apply (net_reachable_step _ _ _ ν (Deliver u now)); [done|by exists n|done].
Qed.

(** ** The scenarios

    Alice and bob open the document of scenario 7 and alice types, as
    in [Relay]; the wire of bob then holds the text of her message. *)

#[local] Existing Instance sample_html.
#[local] Existing Instance grid_layout.
#[local] Existing Instance sample_regexp.

Definition net_sample (evs : list sys_event) (ν : network) : network :=
  default ∅ (net_run 0 sample_cookie editor_dom evs ν).

Definition net_hi : network := net_sample opening ∅.

Definition net_typed : network := net_sample [alice_types] net_hi.

Definition endpoint_of (u : string) (ν : network) : endpoint :=
  default {| editor_of := init editor_dom; wire := [] |} (ν !! u).

Definition alice_text : string :=
  ("{" +:+ quoted "action" +:+ ":" +:+ quoted "edit" +:+ "," +:+
   quoted "content" +:+ ":" +:+ quoted "<p>alice</p>" +:+ "," +:+
   quoted "cursorPosition" +:+ ":null," +:+ quoted "user" +:+ ":" +:+ quoted "alice" +:+ "}")%string.

Lemma net_hi_reachable : net_reachable 0 sample_cookie editor_dom net_hi.
Proof.
  apply (net_run_reachable 0 sample_cookie editor_dom opening ∅);
    [constructor|run_ok|by vm_compute].
Qed.

Lemma net_typed_reachable : net_reachable 0 sample_cookie editor_dom net_typed.
Proof.
  apply (net_reachable_step 0 sample_cookie editor_dom net_hi alice_types);
    [apply net_hi_reachable| |by vm_compute].
  split; [exact I|]. split; [split; [by vm_compute|by intros r [=]]|].
  exists (endpoint_of "alice" net_hi). split; [by vm_compute|].
  assert (editor_of (endpoint_of "alice" net_hi) = local (client_of "alice" sys_hi)) as ->
    by (by vm_compute).
  apply (allowed_edited 100 "<p>alice</p>" "alice" sys_hi);
    [apply sys_hi_reachable|apply sys_hi_alice].
Qed.

(** The network is the image of the system of [Relay], and the text
    of alice is on the wire of bob. *)
Example net_typed_wire :
  net_typed = on_wire sys_typed ∧
  wire (endpoint_of "bob" net_typed) = [alice_text] ∧ wire (endpoint_of "alice" net_typed) = [].
Proof. split_and!; by vm_compute. Qed.

(** A text that is no message, put on the wire of bob by something
    that is no editor, ends his handler with the exception: the
    editors never send one. *)
Example net_garbage :
  let ν := <["bob"%string := with_wire ["<p>hi</p>"%string] (endpoint_of "bob" net_hi)]> net_hi in
  (endpoint_of "bob" <$> net_handle 0 sample_cookie editor_dom (Deliver "bob" 200) ν)
  = Some (endpoint_of "bob" net_hi).
Proof. by vm_compute. Qed.

Lemma net_refines_witness :
  ∃ σ, sys_reachable 0 sample_cookie editor_dom σ ∧ net_typed = on_wire σ ∧
       ∀ ev, net_handle 0 sample_cookie editor_dom ev net_typed
             = on_wire <$> sys_handle 0 sample_cookie editor_dom ev σ.
Proof. apply net_refines, net_typed_reachable. Defined.

Lemma net_deliver_total_witness :
  ∃ frame m,
    JSON_parse alice_text = Some (Ok frame) ∧ decode frame = Some m ∧
    msg_action m = "edit"%string ∧ msg_user m ≠ "bob"%string ∧
    let r := onmessage 0 200 m (editor_of (endpoint_of "bob" net_typed)) in
    let ν' := <["bob"%string := {| editor_of := r.2; wire := [] |}]> net_typed in
    socket_onmessage 0 200 alice_text (editor_of (endpoint_of "bob" net_typed)) = Some r ∧
    net_handle 0 sample_cookie editor_dom (Deliver "bob" 200) net_typed = Some ν' ∧
    net_reachable 0 sample_cookie editor_dom ν'.
Proof.
  apply (net_deliver_total 0 sample_cookie editor_dom net_typed "bob"
           (endpoint_of "bob" net_typed) alice_text [] 200 editor_dom_wf editor_dom_node);
    [apply net_typed_reachable|by vm_compute..].
Defined.
