(* ===== verification/Export.v ===== *)
(** * Export of the document

    The page offers the content of the editor as a file in two places:
    [downloadFile] of editor.js (218-242), exposed on [window], and
    [downloadFileAs] of scripts.js (134-169), behind the download button
    (172-180).  Both build a [Blob] from the content, give it to a link
    and click the link; they differ in what the blob holds.

    A function of this file returns what the call does: the link that is
    clicked, an alert, or a line on the console.  The blob is the list of
    its parts and its type. *)

From stdpp Require Import base option list strings sets.
From S2P Require Import Prelude.

(** ** Data *)

(** [new Blob(parts, { type })] *)
Record blob : Set := {
  parts : list string;
  blob_type : string;
}.

(** The link: [href] is the URL of the blob, [download] the file name. *)
Record link : Set := {
  href : blob;
  download : string;
}.

Inductive effect : Set :=
| Click (a : link)
| Alert (msg : string)
| ConsoleError (msg : string).

#[export] Instance blob_eq_dec : EqDecision blob.
Proof. solve_decision. Defined.
#[export] Instance link_eq_dec : EqDecision link.
Proof. solve_decision. Defined.
#[export] Instance effect_eq_dec : EqDecision effect.
Proof. solve_decision. Defined.

(** ** Characters the literals of the sources contain *)

Definition nl : string := String (Ascii.ascii_of_nat 10) EmptyString.
Definition quot : string := String (Ascii.ascii_of_nat 34) EmptyString.

(** The byte order mark, as the three bytes a blob holds for it. *)
Definition bom : string :=
  String (Ascii.ascii_of_nat 239)
    (String (Ascii.ascii_of_nat 187) (String (Ascii.ascii_of_nat 191) EmptyString)).

(** The indentation of the lines of the template literal. *)
Definition indent : string := "                ".

(** ** editor.js *)

(** [downloadFile()], given [editor.innerHTML], [editor.innerText] and
    the value of the [downloadType] select. *)
Definition downloadFile (content innerText downloadType : string) : effect :=
  let filename := "document." +:+ downloadType in
  let blob :=
    if decide (downloadType = "html") then
      Some {| parts := [content]; blob_type := "text/html" |}
    else if decide (downloadType = "txt") then
      let textContent := innerText in
      Some {| parts := [textContent]; blob_type := "text/plain" |}
    else if decide (downloadType = "doc") then
      Some {| parts := [content]; blob_type := "application/msword" |}
    else None in
  match blob with
  | Some blob => Click {| href := blob; download := filename |}
  | None => Alert "Unsupported download type."
  end.

(** ** scripts.js *)

(** The template literal of the [doc] case. *)
Definition docContent (editorContent : string) : string :=
  nl +:+ indent +:+ "<!DOCTYPE html>" +:+
  nl +:+ indent +:+ "<html>" +:+
  nl +:+ indent +:+ "<head><meta charset=" +:+ quot +:+ "utf-8" +:+ quot +:+
                    "><title>Document</title></head>" +:+
  nl +:+ indent +:+ "<body>" +:+ editorContent +:+ "</body>" +:+
  nl +:+ indent +:+ "</html>".

(** [downloadFileAs(type)]; [editor] is the [innerHTML] of the element
    [#editor], [None] when the page has no such element. *)
Definition downloadFileAs (editor : option string) (type : string) : outcome effect :=
  match editor with
  | None => Throw TypeError
  | Some editorContent =>
      let file :=
        if decide (type = "html") then
          Some ({| parts := [editorContent]; blob_type := "text/html" |}, "html")
        else if decide (type = "txt") then
          Some ({| parts := [editorContent]; blob_type := "text/plain" |}, "txt")
        else if decide (type = "doc") then
          Some ({| parts := [bom; docContent editorContent];
                   blob_type := "application/msword" |}, "doc")
        else None in
      match file with
      | Some (blob, extension) =>
          Ok (Click {| href := blob; download := "document." +:+ extension |})
      | None => Ok (ConsoleError "Unsupported file type")
      end
  end%string.

(** The click listener of the download button (175-178). *)
Definition download_button (editor : option string) (downloadType : string)
    : outcome effect :=
  downloadFileAs editor downloadType.

(** ** Specification *)

(** The three formats. *)
Definition supported (type : string) : Prop := type ∈ ["html"; "txt"; "doc"]%string.

#[export] Instance supported_dec type : Decision (supported type).
Proof. unfold supported. apply _. Defined.

(** A file is produced, under the given name. *)
Definition produces (e : effect) (name : string) : Prop :=
  ∃ b, e = Click {| href := b; download := name |}.

(** ** Theorems *)

Lemma supported_cases type :
  supported type ↔ type = "html"%string ∨ type = "txt"%string ∨ type = "doc"%string.
Proof. unfold supported. set_solver. Qed.

Lemma string_app_inj_l (p s1 s2 : string) : p +:+ s1 = p +:+ s2 → s1 = s2.
Proof. induction p as [|a p IH]; simpl; [done|]. intros [= ?]. auto. Qed.

(** [downloadFile] produces a file exactly for the three formats,
    named [document.<type>]; every other value of the select gives the
    alert and no file. *)
Theorem downloadFile_supported (content innerText type : string) :
  (supported type → produces (downloadFile content innerText type) ("document." +:+ type)) ∧
  (¬ supported type → downloadFile content innerText type = Alert "Unsupported download type.").
Proof.
  rewrite supported_cases. unfold downloadFile, produces.
  repeat case_decide; subst; naive_solver.
Qed.

(** [downloadFileAs] produces a file exactly for the three formats,
    named [document.<type>]; every other type writes to the console,
    shows nothing to the user and produces no file; without an editor
    element the call throws. *)
Theorem downloadFileAs_supported (editor : option string) (type : string) :
  match editor with
  | None => downloadFileAs editor type = Throw TypeError
  | Some _ =>
      (supported type →
       ∃ e, downloadFileAs editor type = Ok e ∧ produces e ("document." +:+ type)) ∧
      (¬ supported type →
       downloadFileAs editor type = Ok (ConsoleError "Unsupported file type"))
  end.
Proof.
  destruct editor as [c|]; [|done]. rewrite supported_cases.
  unfold downloadFileAs, produces. repeat case_decide; subst; naive_solver.
Qed.

(** The two exports agree on [html] only.  For [txt] the function
    of editor.js saves the text of the editor and that of scripts.js its
    markup; for [doc] the former saves the bare markup and the latter a
    document with a byte order mark around it. *)
Theorem exports_differ (content innerText : string) :
  downloadFileAs (Some content) "html" = Ok (downloadFile content innerText "html") ∧
  (downloadFileAs (Some content) "txt" = Ok (downloadFile content innerText "txt") ↔
   innerText = content) ∧
  downloadFileAs (Some content) "doc" ≠ Ok (downloadFile content innerText "doc").
Proof.
  split_and!; [done| |done].
  split; [intros [= ->]|intros ->]; done.
Qed.

(** The document of the [doc] case determines the content: nothing of
    the content is lost or merged by the wrapper. *)
Lemma docContent_inj c1 c2 : docContent c1 = docContent c2 → c1 = c2.
Proof.
  unfold docContent. intros H.
  repeat (apply string_app_inj_l in H). by apply string_app_inj_r in H.
Qed.

Example downloadFile_txt :
  downloadFile "<p>hi</p>" "hi" "txt" =
  Click {| href := {| parts := ["hi"%string]; blob_type := "text/plain" |};
           download := "document.txt" |}.
Proof. reflexivity. Qed.

Example downloadFileAs_txt :
  downloadFileAs (Some "<p>hi</p>"%string) "txt" =
  Ok (Click {| href := {| parts := ["<p>hi</p>"%string]; blob_type := "text/plain" |};
               download := "document.txt" |}).
Proof. reflexivity. Qed.

(** The select of the editor page may hold any string: the file name
    follows it. *)
Example downloadFile_pdf :
  downloadFile "<p>hi</p>" "hi" "pdf" = Alert "Unsupported download type." ∧
  downloadFileAs (Some "<p>hi</p>"%string) "pdf" = Ok (ConsoleError "Unsupported file type").
Proof. split; reflexivity. Qed.
