(* ===== verification/Page.v ===== *)
(** * The page around the editor

    scripts.js is loaded by every page of the application.  This file
    models its theme switch (2-42), the deletion of a document (70-102)
    and its search and replace (123-131).

    The theme is the class [light-theme] of [body]; the choice is kept in
    [localStorage] under the key [theme] and shown by the icon and the
    title of the button [#theme-toggle].  The state of the model is what
    the listeners read and write: the class list of [body], the button
    (when the page has one) with the class list of its icon (when it has
    one), the stored item, and whether the click listener is registered.

    [deleteDocument] asks for confirmation, posts the request through
    [sendRequest] and reports to the user.  The functions are [async];
    the model is given the answer of the server and returns what the
    call does, in order.  A rejected promise is [Throw].  The body of
    a request is the text [JsonText.JSON_stringify] writes.  The buttons
    of [setupDeleteButtons] (105-116) carry the address of the request in
    their [dataset]. *)

From stdpp Require Import base option list numbers strings sets.
From S2P Require Import Prelude Cookie Json JsonText.

(** ** [DOMTokenList] *)

(** The tokens of a [class] attribute, in order. *)
Definition classList : Type := list string.

Definition contains (c : string) (l : classList) : bool := bool_decide (c ∈ l).

Definition add (c : string) (l : classList) : classList :=
  if decide (c ∈ l) then l else l ++ [c].

Definition remove (c : string) (l : classList) : classList :=
  filter (λ x, x ≠ c) l.

Definition toggle (c : string) (l : classList) : classList :=
  if decide (c ∈ l) then remove c l else l ++ [c].

(** ** The theme *)

(** The button: [icon] is the class list of its first [i] element. *)
Record button : Set := {
  icon : option (list string);
  title : string;
}.

Record theme_page : Set := {
  themeToggle : option button;
  body : list string;
  storage : option string;
  listening : bool;
}.

Definition with_toggle (b : button) (p : theme_page) : theme_page :=
  {| themeToggle := Some b; body := body p; storage := storage p;
     listening := listening p |}.
Definition with_body (l : classList) (p : theme_page) : theme_page :=
  {| themeToggle := themeToggle p; body := l; storage := storage p;
     listening := listening p |}.
Definition with_storage (v : string) (p : theme_page) : theme_page :=
  {| themeToggle := themeToggle p; body := body p; storage := Some v;
     listening := listening p |}.
Definition with_listening (p : theme_page) : theme_page :=
  {| themeToggle := themeToggle p; body := body p; storage := storage p;
     listening := true |}.

(** [updateToggleIcon(theme)] (30-41): [themeToggle.querySelector] of a
    page without the button, and [icon.classList] of a button without an
    [i], are a [TypeError]. *)
Definition updateToggleIcon (theme : string) (p : theme_page) : outcome theme_page :=
  match themeToggle p with
  | None => Throw TypeError
  | Some b =>
      match icon b with
      | None => Throw TypeError
      | Some cl =>
          if decide (theme = "light"%string) then
            Ok (with_toggle {| icon := Some (add "bi-sun" (remove "bi-moon-stars" cl));
                               title := "Switch to Dark Theme" |} p)
          else
            Ok (with_toggle {| icon := Some (add "bi-moon-stars" (remove "bi-sun" cl));
                               title := "Switch to Light Theme" |} p)
      end
  end.

(** [localStorage.getItem('theme') || 'dark']: no item and the empty
    string give the default. *)
Definition currentTheme (p : theme_page) : string :=
  match storage p with
  | Some v => if decide (v = ""%string) then "dark"%string else v
  | None => "dark"%string
  end.

(** The listener of [DOMContentLoaded] (2-27).  The class of [body] is
    set before the icon is updated, so it stays when the update throws;
    the click listener is registered after it. *)
Definition onload (p : theme_page) : outcome unit * theme_page :=
  let '(p1, theme) :=
    if decide (currentTheme p = "light"%string)
    then (with_body (add "light-theme" (body p)) p, "light"%string)
    else (with_body (remove "light-theme" (body p)) p, "dark"%string) in
  match updateToggleIcon theme p1 with
  | Throw err => (Throw err, p1)
  | Ok p2 =>
      match themeToggle p2 with
      | Some _ => (Ok (), with_listening p2)
      | None => (Ok (), p2)
      end
  end.

(** The click listener (18-26). *)
Definition onclick (p : theme_page) : outcome unit * theme_page :=
  let p1 := with_body (toggle "light-theme" (body p)) p in
  let theme := if contains "light-theme" (body p1) then "light"%string else "dark"%string in
  let p2 := with_storage theme p1 in
  match updateToggleIcon theme p2 with
  | Throw err => (Throw err, p2)
  | Ok p3 => (Ok (), p3)
  end.

(** A click on the button: nothing happens unless the listener is
    registered. *)
Definition click (p : theme_page) : outcome unit * theme_page :=
  if listening p then onclick p else (Ok (), p).

(** ** Search and replace *)

(** [searchAndReplace()] of scripts.js (123-131), given the values of
    the two inputs and the markup of the editor, [None] when the page has
    no editor: the markup assigned to the editor, if any.  Unlike the
    function of editor.js it does not test for an empty search text. *)
Definition searchAndReplace_page `{RegExp} (searchText replaceText : string)
    (editor : option string) : outcome (option string) :=
  match editor with
  | Some content =>
      newContent ← replace_all searchText replaceText content; Ok (Some newContent)
  | None => Ok None
  end.

(** ** Specification of the theme *)

Inductive theme : Set := Light | Dark.

#[export] Instance theme_eq_dec : EqDecision theme.
Proof. solve_decision. Defined.

Definition flip (t : theme) : theme :=
  match t with Light => Dark | Dark => Light end.

Definition theme_name (t : theme) : string :=
  match t with Light => "light" | Dark => "dark" end.

(** The theme the page shows. *)
Definition shown (p : theme_page) : theme :=
  if contains "light-theme" (body p) then Light else Dark.

(** The theme the stored item stands for. *)
Definition stored (p : theme_page) : theme :=
  if decide (storage p = Some "light"%string) then Light else Dark.

(** The button shows the theme [t]: the icon of the theme and not that
    of the other, and the title that offers the other. *)
Definition button_shows (t : theme) (b : button) : Prop :=
  ∃ cl, icon b = Some cl ∧
    match t with
    | Light => "bi-sun"%string ∈ cl ∧ "bi-moon-stars"%string ∉ cl ∧
               title b = "Switch to Dark Theme"%string
    | Dark => "bi-moon-stars"%string ∈ cl ∧ "bi-sun"%string ∉ cl ∧
              title b = "Switch to Light Theme"%string
    end.

(** The page after a successful load: the button shows the theme of
    [body], and it listens. *)
Record theme_inv (p : theme_page) : Prop := {
  ti_button : ∃ b, themeToggle p = Some b ∧ button_shows (shown p) b;
  ti_listening : listening p = true;
}.

(** A page as the server renders it: a button with an icon. *)
Definition rendered (p : theme_page) : Prop :=
  ∃ b cl, themeToggle p = Some b ∧ icon b = Some cl.

(** ** Deleting a document *)

(** The request of [sendRequest]: the headers hold the token and the
    content type. *)
Record request : Set := {
  req_url : string;
  req_method : string;
  req_token : option string;
  req_body : option string;
}.

(** What the user and the network see of a call. *)
Inductive output : Set :=
| Fetch (r : request)
| Logged (msg : string)
| Notify (msg : string)
| Reload.

#[export] Instance request_eq_dec : EqDecision request.
Proof. solve_decision. Defined.
#[export] Instance output_eq_dec : EqDecision output.
Proof. solve_decision. Defined.

(** [sendRequest(url, method, body)] (70-89): the value the promise
    resolves to ([None] is [undefined]) and what the call did.  The
    headers are built before the [try]: an exception of [getCSRFToken]
    rejects the promise and nothing is fetched.  Every failure inside
    the [try] is logged and gives [undefined]. *)
Definition sendRequest (cookie : string) (server : request → answer)
    (url method : string) (body : json)
    : outcome (option json) * list output :=
  match getCSRFToken cookie with
  | Throw err => (Throw err, [])
  | Ok token =>
      let options :=
        {| req_url := url; req_method := method; req_token := token;
           req_body := if truthy body then Some (JSON_stringify body) else None |} in
      match server options with
      | Response true (Some v) => (Ok (Some v), [Fetch options])
      | _ => (Ok None, [Fetch options; Logged "Error with AJAX request:"])
      end
  end.

(** Line 95: [response && response.status === 'success'] *)
Definition status_success (response : option json) : bool :=
  match response with
  | Some v =>
      truthy v &&
      match get v "status" with
      | Ok status => is_string status "success"
      | Throw _ => false
      end
  | None => false
  end.

(** [deleteDocument(docId, deleteUrl)] (92-102); [confirmed] is the
    answer of the user to [confirm].  The body of the request is the
    default of [sendRequest], [null]. *)
Definition deleteDocument (cookie : string) (server : request → answer)
    (confirmed : bool) (deleteUrl : string) : outcome unit * list output :=
  if confirmed then
    match sendRequest cookie server deleteUrl "POST" JNull with
    | (Throw err, out) => (Throw err, out)
    | (Ok response, out) =>
        if status_success response
        then (Ok (), out ++ [Notify "Document deleted successfully."; Reload])
        else (Ok (), out ++ [Notify "An error occurred while deleting the document."])
    end
  else (Ok (), []).

(** A button of the list of documents: [data-doc-id] and
    [data-delete-url], [None] when the attribute is missing. *)
Record delete_button : Set := {
  data_docId : option string;
  data_deleteUrl : option string;
}.

(** The click listener of a button (108-112).  A missing attribute is
    [undefined], which [fetch] takes as the address [undefined]. *)
Definition delete_listener (cookie : string) (server : request → answer)
    (b : delete_button) (confirmed : bool) : outcome unit * list output :=
  deleteDocument cookie server confirmed (default "undefined"%string (data_deleteUrl b)).

(** [setupDeleteButtons] (105-116): the listeners, one per button of the
    class [delete-document-btn], in the order of the document. *)
Definition setupDeleteButtons (cookie : string) (server : request → answer)
    (buttons : list delete_button) : list (bool → outcome unit * list output) :=
  delete_listener cookie server <$> buttons.

(** The server deleted the document: the response is [ok] and its body
    is a truthy value whose [status] is the string [success]. *)
Definition succeeded (a : answer) : bool :=
  match a with
  | Response true (Some v) => status_success (Some v)
  | _ => false
  end.

(** The request of a deletion. *)
Definition delete_request (token : option string) (deleteUrl : string) : request :=
  {| req_url := deleteUrl; req_method := "POST"; req_token := token; req_body := None |}.

(** ** Class lists *)

Lemma elem_of_add c x l : x ∈ add c l ↔ x = c ∨ x ∈ l.
Proof. unfold add. case_decide; set_solver. Qed.

Lemma elem_of_remove c x l : x ∈ remove c l ↔ x ≠ c ∧ x ∈ l.
Proof. unfold remove. by rewrite list_elem_of_filter. Qed.

Lemma elem_of_toggle c l : c ∈ toggle c l ↔ c ∉ l.
Proof. unfold toggle. case_decide; [rewrite elem_of_remove|]; set_solver. Qed.

Lemma elem_of_toggle_ne c x l : x ≠ c → x ∈ toggle c l ↔ x ∈ l.
Proof. intros. unfold toggle. case_decide; [rewrite elem_of_remove|]; set_solver. Qed.

Lemma add_NoDup c l : NoDup l → NoDup (add c l).
Proof.
  intros Hl. unfold add. case_decide; [done|].
  apply NoDup_app. split_and!; [done|set_solver|apply NoDup_singleton].
Qed.

Lemma remove_NoDup c l : NoDup l → NoDup (remove c l).
Proof. apply NoDup_filter. Qed.

Lemma toggle_NoDup c l : NoDup l → NoDup (toggle c l).
Proof.
  intros Hl. unfold toggle. case_decide; [by apply remove_NoDup|].
  apply NoDup_app. split_and!; [done|set_solver|apply NoDup_singleton].
Qed.

(** ** The theme *)

Lemma shown_Light p : shown p = Light ↔ "light-theme"%string ∈ body p.
Proof. unfold shown, contains. case_bool_decide; naive_solver. Qed.

Lemma shown_add p : shown (with_body (add "light-theme" (body p)) p) = Light.
Proof. apply shown_Light. simpl. apply elem_of_add. by left. Qed.

Lemma shown_remove p : shown (with_body (remove "light-theme" (body p)) p) = Dark.
Proof.
  destruct (shown _) eqn:Hs; [|done]. apply shown_Light in Hs. simpl in Hs.
  apply elem_of_remove in Hs. naive_solver.
Qed.

Lemma shown_toggle p : shown (with_body (toggle "light-theme" (body p)) p) = flip (shown p).
Proof.
  destruct (shown p) eqn:Hp; simpl.
  - apply shown_Light in Hp. destruct (shown _) eqn:Hs; [|done].
    apply shown_Light in Hs. simpl in Hs. by apply elem_of_toggle in Hs.
  - apply shown_Light. simpl. apply elem_of_toggle. intros Hin%shown_Light. congruence.
Qed.

(** [updateToggleIcon] on a rendered page: the button shows the theme. *)
Lemma updateToggleIcon_rendered t p :
  rendered p →
  ∃ b, updateToggleIcon (theme_name t) p = Ok (with_toggle b p) ∧ button_shows t b.
Proof.
  intros (b & cl & Hb & Hcl). unfold updateToggleIcon. rewrite Hb, Hcl.
  destruct t; [rewrite decide_True by done|rewrite decide_False by done];
    (eexists; split; [reflexivity|]); (eexists; split; [reflexivity|]);
    rewrite !elem_of_add, elem_of_remove; (split_and!; [by left| |done]);
    by intros [?|[? _]%elem_of_remove].
Qed.

Lemma updateToggleIcon_missing name p :
  ¬ rendered p → updateToggleIcon name p = Throw TypeError.
Proof.
  intros Hr. unfold updateToggleIcon.
  destruct (themeToggle p) as [b|] eqn:Hb; [|done].
  destruct (icon b) as [cl|] eqn:Hcl; [|done]. destruct Hr. by exists b, cl.
Qed.

Lemma rendered_with_body l p : rendered (with_body l p) ↔ rendered p.
Proof. done. Qed.

Lemma rendered_with_storage v p : rendered (with_storage v p) ↔ rendered p.
Proof. done. Qed.

Lemma theme_inv_rendered p : theme_inv p → rendered p.
Proof. intros [(b & Hb & cl & Hcl & _) _]. by exists b, cl. Qed.

Lemma currentTheme_light p : currentTheme p = "light"%string ↔ stored p = Light.
Proof.
  unfold currentTheme, stored. destruct (storage p) as [v|]; [|done].
  repeat case_decide; naive_solver.
Qed.

(** The state after a load of a rendered page. *)
Lemma onload_rendered p :
  rendered p →
  ∃ b, onload p =
       (Ok (), with_listening (with_toggle b
                 (with_body ((if stored p is Light then add else remove)
                               "light-theme"%string (body p)) p))) ∧
       button_shows (stored p) b.
Proof.
  intros Hr. unfold onload. pose proof (currentTheme_light p) as Hc.
  case_decide as Hl.
  - apply Hc in Hl. rewrite Hl.
    destruct (updateToggleIcon_rendered Light (with_body (add "light-theme" (body p)) p))
      as (b & Hu & Hb); [done|].
    simpl in Hu. rewrite Hu. by exists b.
  - destruct (stored p); [naive_solver|].
    destruct (updateToggleIcon_rendered Dark (with_body (remove "light-theme" (body p)) p))
      as (b & Hu & Hb); [done|].
    simpl in Hu. rewrite Hu. by exists b.
Qed.

(** The state after a click on a listening, rendered page. *)
Lemma onclick_rendered p :
  rendered p →
  ∃ b, onclick p =
       (Ok (), with_toggle b (with_storage (theme_name (flip (shown p)))
                 (with_body (toggle "light-theme" (body p)) p))) ∧
       button_shows (flip (shown p)) b.
Proof.
  intros Hr. unfold onclick. cbv zeta.
  pose proof (shown_toggle p) as Hs. unfold shown in Hs at 1.
  set (p1 := with_body _ p) in *.
  assert ((if contains "light-theme" (body p1) then "light" else "dark")%string
          = theme_name (flip (shown p))) as -> by (rewrite <-Hs; by destruct (contains _ _)).
  destruct (updateToggleIcon_rendered (flip (shown p))
              (with_storage (theme_name (flip (shown p))) p1)) as (b & Hu & Hb); [done|].
  rewrite Hu. by exists b.
Qed.

Lemma theme_inv_intro b p :
  button_shows (shown p) b → theme_inv (with_listening (with_toggle b p)).
Proof. intros Hb. split; [by exists b|done]. Qed.

Lemma stored_theme_name t p : stored (with_storage (theme_name t) p) = t.
Proof. by destruct t. Qed.

(** The load applies the stored theme.  On a page that has the
    button with its icon, the listener of [DOMContentLoaded] ends
    normally, [body] shows the light theme exactly when the stored item
    is [light], the button shows the same theme, and the click listener
    is registered. *)
Theorem onload_theme (p : theme_page) :
  rendered p →
  (onload p).1 = Ok () ∧ theme_inv (onload p).2 ∧ shown (onload p).2 = stored p ∧
  storage (onload p).2 = storage p.
Proof.
  intros Hr. destruct (onload_rendered p Hr) as (b & -> & Hb). cbn [fst snd].
  assert (shown (with_body ((if stored p is Light then add else remove)
                              "light-theme"%string (body p)) p) = stored p) as Hs.
  { destruct (stored p); [apply shown_add|apply shown_remove]. }
  split_and!; [done| |done..]. apply theme_inv_intro. by rewrite Hs.
Qed.

(** A page without the button.  When the page has no element
    [#theme-toggle], or the button has no icon, the listener of
    [DOMContentLoaded] throws a [TypeError] after it has set the class of
    [body]: the test of the button at line 17 is not reached, and no
    click listener is registered by this call. *)
Theorem onload_unrendered (p : theme_page) :
  ¬ rendered p →
  (onload p).1 = Throw TypeError ∧ shown (onload p).2 = stored p ∧
  listening (onload p).2 = listening p ∧ themeToggle (onload p).2 = themeToggle p.
Proof.
  intros Hr. unfold onload. pose proof (currentTheme_light p) as Hc.
  case_decide as Hl; rewrite updateToggleIcon_missing by done; cbn [fst snd].
  - apply Hc in Hl. rewrite Hl. by rewrite shown_add.
  - rewrite shown_remove. destruct (stored p); naive_solver.
Qed.

(** A click switches the theme.  On a page that shows a theme
    consistently, a click ends normally and flips the theme of [body];
    the button shows the new theme, the stored item names it, and the
    page is consistent again. *)
Theorem click_inv (p : theme_page) :
  theme_inv p →
  (click p).1 = Ok () ∧ theme_inv (click p).2 ∧
  shown (click p).2 = flip (shown p) ∧
  storage (click p).2 = Some (theme_name (shown (click p).2)).
Proof.
  intros Hp. pose proof (theme_inv_rendered p Hp) as Hr. destruct Hp as [_ Hl].
  unfold click. rewrite Hl. destruct (onclick_rendered p Hr) as (b & -> & Hb).
  cbn [fst snd]. pose proof (shown_toggle p) as Hs.
  change (shown (with_toggle b (with_storage (theme_name (flip (shown p)))
            (with_body (toggle "light-theme" (body p)) p))))
    with (shown (with_body (toggle "light-theme" (body p)) p)).
  rewrite Hs. split_and!; [done| |done..].
  split; [exists b; split; [done|]|done].
  by change (shown _) with (shown (with_body (toggle "light-theme" (body p)) p)); rewrite Hs.
Qed.

(** The choice survives a reload.  After a click, the load of any
    page that has the button and the stored item of the first page shows
    the theme the click chose, whatever classes its [body] is rendered
    with. *)
Theorem click_reload (p q : theme_page) :
  theme_inv p → rendered q → storage q = storage (click p).2 →
  shown (onload q).2 = shown (click p).2.
Proof.
  intros Hp Hq Hst. pose proof (theme_inv_rendered p Hp) as Hr.
  destruct (onload_rendered q Hq) as (b & -> & _). cbn [snd].
  destruct Hp as [_ Hl]. unfold click in *. rewrite Hl in *.
  destruct (onclick_rendered p Hr) as (b' & Hc & _). rewrite Hc in *. cbn [snd] in *.
  change (shown (with_toggle b' _)) with (shown (with_body (toggle "light-theme" (body p)) p)).
  rewrite shown_toggle.
  assert (stored q = flip (shown p)) as ->.
  { unfold stored. rewrite Hst. simpl. by destruct (shown p). }
  change (shown (with_listening (with_toggle b ?x))) with (shown x).
  destruct (flip (shown p)); [apply shown_add|apply shown_remove].
Qed.

Lemma onload_theme_inv p : rendered p → theme_inv (onload p).2.
Proof.
  intros Hr. destruct (onload_rendered p Hr) as (b & -> & Hb). cbn [snd].
  apply theme_inv_intro.
  by destruct (stored p); [rewrite shown_add|rewrite shown_remove].
Qed.

(** ** Deleting a document *)

Section delete.
Context (cookie : string) (server : request → answer) (deleteUrl : string).

Notation sendRequest := (sendRequest cookie server).
Notation deleteDocument := (deleteDocument cookie server).

(** [sendRequest] without a body. *)
Lemma sendRequest_post token :
  getCSRFToken cookie = Ok token →
  sendRequest deleteUrl "POST" JNull =
  match server (delete_request token deleteUrl) with
  | Response true (Some v) => (Ok (Some v), [Fetch (delete_request token deleteUrl)])
  | _ => (Ok None, [Fetch (delete_request token deleteUrl); Logged "Error with AJAX request:"])
  end.
Proof. intros Ht. unfold sendRequest. by rewrite Ht. Qed.

(** A confirmed deletion, by the answer of the server. *)
Lemma deleteDocument_confirmed token :
  getCSRFToken cookie = Ok token →
  ∃ log, log `sublist_of` [Logged "Error with AJAX request:"] ∧
    deleteDocument true deleteUrl =
    (Ok (), Fetch (delete_request token deleteUrl) :: log ++
            if succeeded (server (delete_request token deleteUrl))
            then [Notify "Document deleted successfully."; Reload]
            else [Notify "An error occurred while deleting the document."]).
Proof.
  intros Ht. unfold deleteDocument. rewrite (sendRequest_post token Ht).
  unfold succeeded. destruct (server _) as [|[] [v|]];
    try (by exists [Logged "Error with AJAX request:"]).
  exists []. split; [apply sublist_nil_l|]. by destruct (status_success (Some v)).
Qed.

(** The page reloads exactly after a deletion the server confirms.
    [deleteDocument] reloads the page if and only if the user confirmed,
    the token could be read, and the response was [ok] with a body whose
    [status] is [success]. *)
Theorem deleteDocument_reloads (confirmed : bool) :
  Reload ∈ (deleteDocument confirmed deleteUrl).2 ↔
  confirmed = true ∧
  ∃ token, getCSRFToken cookie = Ok token ∧
           succeeded (server (delete_request token deleteUrl)) = true.
Proof.
  destruct confirmed; [|split; [by intros ?%elem_of_nil|naive_solver]].
  destruct (getCSRFToken cookie) as [token|err] eqn:Ht.
  - destruct (deleteDocument_confirmed token Ht) as (log & Hlog & ->). cbn [snd].
    assert (Reload ∉ log) as Hn.
    { intros Hin. eapply elem_of_sublist in Hin; [|exact Hlog]. set_solver. }
    destruct (succeeded _) eqn:Hs.
    + split; [intros _; split; [done|]; by exists token|set_solver].
    + split; [set_solver|]. intros (_ & ? & [= <-] & ?). congruence.
  - unfold deleteDocument, Page.sendRequest. rewrite Ht. cbn [snd].
    split; [by intros ?%elem_of_nil|naive_solver].
Qed.

(** One request and one notification.  A confirmed deletion whose
    token can be read sends exactly one request, the [POST] to the URL of
    the button with the token and no body, and ends with exactly one
    notification; without confirmation nothing is sent or shown. *)
Theorem deleteDocument_notifies (token : option string) :
  getCSRFToken cookie = Ok token →
  (∃ log msg,
     (deleteDocument true deleteUrl).2 =
       Fetch (delete_request token deleteUrl) :: log ++ Notify msg ::
       (if succeeded (server (delete_request token deleteUrl)) then [Reload] else []) ∧
     log `sublist_of` [Logged "Error with AJAX request:"]) ∧
  deleteDocument false deleteUrl = (Ok (), []).
Proof.
  intros Ht. split; [|done].
  destruct (deleteDocument_confirmed token Ht) as (log & Hlog & ->). cbn [snd].
  exists log. destruct (succeeded _); eauto.
Qed.

(** A cookie that cannot be decoded.  When [getCSRFToken] throws,
    a confirmed deletion sends no request and shows no notification: the
    promise of [deleteDocument] is rejected and nothing handles it. *)
Theorem deleteDocument_silent (err : js_error) :
  getCSRFToken cookie = Throw err →
  deleteDocument true deleteUrl = (Throw err, []).
Proof. intros Ht. unfold deleteDocument, Page.sendRequest. by rewrite Ht. Qed.

(** The answers that count as a deletion: the body is an object, or
    another truthy value of JSON, whose own property [status] is the
    string [success]; an array, a string and a number have no such
    property. *)
Lemma succeeded_object a :
  succeeded a = true ↔
  ∃ fields, a = Response true (Some (JObject fields)) ∧
            field "status" fields = Some (JString "success").
Proof.
  unfold succeeded, status_success. destruct a as [|[] [v|]]; try (split; [done|]; by intros (? & [=] & _)).
  destruct v as [| | | | |fields]; simpl;
    rewrite ?andb_false_r; try (split; [done|]; by intros (? & [=] & _)).
  rewrite is_string_true. split; [by eexists|]. by intros (? & [= <-] & ?).
Qed.

(** The listener of a button posts to the address of that button. *)
Lemma setupDeleteButtons_lookup buttons (i : nat) b :
  buttons !! i = Some b →
  setupDeleteButtons cookie server buttons !! i =
  Some (λ confirmed,
          deleteDocument confirmed (default "undefined"%string (data_deleteUrl b))).
Proof. intros Hb. unfold setupDeleteButtons. by rewrite list_lookup_fmap, Hb. Qed.
End delete.

(** ** Scenarios *)

(** A page with the button, rendered dark, whose user chose the light
    theme before. *)
Definition light_page : theme_page :=
  {| themeToggle := Some {| icon := Some ["bi"; "bi-moon-stars"]%string; title := "" |};
     body := ["container"%string]; storage := Some "light"%string; listening := false |}.

(** A page without the button. *)
Definition bare_page : theme_page :=
  {| themeToggle := None; body := ["light-theme"%string]; storage := None;
     listening := false |}.

(** A server that deletes the document at [/delete/7/] for the holder of
    the token, and answers 403 otherwise. *)
Definition sample_server (r : request) : answer :=
  if decide (r = delete_request (Some "t0k3n"%string) "/delete/7/")
  then Response true (Some (JObject [("status", JString "success")]%string))
  else Response false None.

Lemma light_page_rendered : rendered light_page.
Proof. by eexists _, _. Qed.

Lemma bare_page_unrendered : ¬ rendered bare_page.
Proof. by intros (? & ? & ? & ?). Qed.

Example onload_light_page :
  onload light_page =
  (Ok (), {| themeToggle := Some {| icon := Some ["bi"; "bi-sun"]%string;
                                    title := "Switch to Dark Theme" |};
             body := ["container"; "light-theme"]%string;
             storage := Some "light"%string; listening := true |}).
Proof. reflexivity. Qed.

Example click_light_page :
  click (onload light_page).2 =
  (Ok (), {| themeToggle := Some {| icon := Some ["bi"; "bi-moon-stars"]%string;
                                    title := "Switch to Light Theme" |};
             body := ["container"%string];
             storage := Some "dark"%string; listening := true |}).
Proof. reflexivity. Qed.

Lemma onload_theme_witness :
  (onload light_page).1 = Ok () ∧ theme_inv (onload light_page).2 ∧
  shown (onload light_page).2 = stored light_page ∧
  storage (onload light_page).2 = storage light_page.
Proof. apply onload_theme, light_page_rendered. Defined.

Lemma onload_unrendered_witness :
  (onload bare_page).1 = Throw TypeError ∧ shown (onload bare_page).2 = stored bare_page ∧
  listening (onload bare_page).2 = listening bare_page ∧
  themeToggle (onload bare_page).2 = themeToggle bare_page.
Proof. apply onload_unrendered, bare_page_unrendered. Defined.

Lemma click_inv_witness :
  let p := (onload light_page).2 in
  (click p).1 = Ok () ∧ theme_inv (click p).2 ∧
  shown (click p).2 = flip (shown p) ∧
  storage (click p).2 = Some (theme_name (shown (click p).2)).
Proof. apply click_inv, onload_theme_inv, light_page_rendered. Defined.

Lemma click_reload_witness :
  let p := (onload light_page).2 in
  let q := with_storage "dark" light_page in
  shown (onload q).2 = shown (click p).2.
Proof.
  apply click_reload; [apply onload_theme_inv, light_page_rendered| |reflexivity].
  by eexists _, _.
Defined.

Lemma deleteDocument_notifies_witness :
  (∃ log msg,
     (deleteDocument "csrftoken=t0k3n" sample_server true
        "/delete/7/").2 =
       Fetch (delete_request (Some "t0k3n"%string) "/delete/7/") :: log ++ Notify msg ::
       (if succeeded (sample_server (delete_request (Some "t0k3n"%string) "/delete/7/"))
        then [Reload] else []) ∧
     log `sublist_of` [Logged "Error with AJAX request:"]) ∧
  deleteDocument "csrftoken=t0k3n" sample_server false "/delete/7/" =
  (Ok (), []).
Proof. by apply deleteDocument_notifies. Defined.

Lemma deleteDocument_silent_witness :
  deleteDocument "csrftoken=%zz" sample_server true "/delete/7/" =
  (Throw URIError, []).
Proof. by apply deleteDocument_silent. Defined.

(** A request with a body carries its text; [0] is no body. *)
Example sendRequest_body :
  (sendRequest "csrftoken=t0k3n" sample_server "/rename/7/" "PUT"
     (JObject [("title", JString "Notes")]%string)).2 =
    [Fetch {| req_url := "/rename/7/"; req_method := "PUT"; req_token := Some "t0k3n"%string;
              req_body := Some (JSON_stringify (JObject [("title", JString "Notes")]%string)) |};
     Logged "Error with AJAX request:"] ∧
  String.length (JSON_stringify (JObject [("title", JString "Notes")]%string)) = 17%nat ∧
  (sendRequest "csrftoken=t0k3n" sample_server "/rename/7/" "PUT" (JNumber 0)).2 =
    [Fetch {| req_url := "/rename/7/"; req_method := "PUT"; req_token := Some "t0k3n"%string;
              req_body := None |};
     Logged "Error with AJAX request:"].
Proof. by vm_compute. Qed.

Example deleteDocument_cases :
  deleteDocument "csrftoken=t0k3n" sample_server true "/delete/7/" =
    (Ok (), [Fetch (delete_request (Some "t0k3n"%string) "/delete/7/");
             Notify "Document deleted successfully."; Reload]) ∧
  deleteDocument "sessionid=1" sample_server true "/delete/7/" =
    (Ok (), [Fetch (delete_request None "/delete/7/"); Logged "Error with AJAX request:";
             Notify "An error occurred while deleting the document."]).
Proof. split; reflexivity. Qed.
