(* ===== verification/Notices.v ===== *)
(** * Alerts and the typing banner of the page

    scripts.js gives every alert of the page five seconds, then fades it
    out and removes it ([setupAlertTimeout], 45-55), and shows a line
    "... is typing..." in the element [#typing-indicator] for two
    seconds ([showTypingIndicator], 182-191).  Both work through timers.

    The state is the text of the banner (when the page has the element),
    the alerts the selector found when the page was loaded, each with
    the two style properties the code writes and whether it is still in
    the document, and the table of pending timers.  A callback is a
    [task]; a task that runs may arm another. *)

From stdpp Require Import base option list numbers strings.
From S2P Require Import Prelude Timers.

Local Open Scope Z_scope.

(** ** Data *)

Record alert : Set := {
  transition : string;
  opacity : string;
  attached : bool;
}.

(** The callbacks: the banner is cleared (187-189); the alert number [i]
    of the list fades (48-52); it is removed (51). *)
Inductive task : Set :=
| ClearBanner
| Fade (i : nat)
| Remove (i : nat).

#[export] Instance task_eq_dec : EqDecision task.
Proof. solve_decision. Defined.

Record notices : Type := {
  banner : option string;
  alerts : list alert;
  tasks : timers task;
}.

Definition alert_delay : Z := 5000.
Definition fade_delay : Z := 500.
Definition banner_delay : Z := 2000.

(** ** scripts.js *)

(** [alerts.forEach(alert => setTimeout(..., 5000))] at time [now], over
    the indices [l] of the alerts. *)
Definition arm_fades (now : Z) (ts : timers task) (l : list nat) : timers task :=
  foldl (λ ts i, (setTimeout (Fade i) alert_delay now ts).2) ts l.

(** [setupAlertTimeout()] at time [now]: one timer for each alert, in
    the order of the list. *)
Definition setupAlertTimeout (now : Z) (s : notices) : notices :=
  {| banner := banner s; alerts := alerts s;
     tasks := arm_fades now (tasks s) (seq 0 (length (alerts s))) |}.

(** [showTypingIndicator(username)] at time [now]. *)
Definition showTypingIndicator (username : string) (now : Z) (s : notices) : notices :=
  match banner s with
  | Some _ =>
      {| banner := Some (username +:+ " is typing..."); alerts := alerts s;
         tasks := (setTimeout ClearBanner banner_delay now (tasks s)).2 |}
  | None => s
  end.

(** The style of an alert that fades, and an alert that has left the
    document. *)
Definition faded (a : alert) : alert :=
  {| transition := "opacity 0.5s ease"; opacity := "0"; attached := attached a |}.

Definition removed (a : alert) : alert :=
  {| transition := transition a; opacity := opacity a; attached := false |}.

(** The callback [c] running at time [now]. *)
Definition run_task (now : Z) (c : task) (s : notices) : notices :=
  match c with
  | ClearBanner => {| banner := Some ""%string; alerts := alerts s; tasks := tasks s |}
  | Fade i =>
      {| banner := banner s; alerts := alter faded i (alerts s);
         tasks := (setTimeout (Remove i) fade_delay now (tasks s)).2 |}
  | Remove i =>
      {| banner := banner s; alerts := alter removed i (alerts s); tasks := tasks s |}
  end.

(** The browser running the next timer that is due at time [now]. *)
Definition run_next (now : Z) (s : notices) : option notices :=
  match fire_next now (tasks s) with
  | Some (_, tm, ts) =>
      Some (run_task now (action tm) {| banner := banner s; alerts := alerts s; tasks := ts |})
  | None => None
  end.

(** The timers that are due at time [now] fire one after the other. *)
Definition pass (now : Z) (s : notices) : notices :=
  iterate (run_next now) (length (pending (tasks s))) s.

(** ** Specification *)

(** A page as it is loaded: alerts in the document, no timer. *)
Definition fresh (s : notices) : Prop :=
  tasks s = no_timers ∧ Forall (λ a, attached a = true) (alerts s).

(** The table is well formed and no timer repeats. *)
Definition tasks_ok (ts : timers task) : Prop :=
  timers_wf ts ∧ ∀ e, e ∈ pending ts → period e.2 = None.

(** Where an alert is on its way out: its timer is pending; or it has
    faded, and the timer that removes it is pending and due by [d2], or
    it has left the document. *)
Definition on_its_way (d2 : Z) (s : notices) (i : nat) (a : alert) : Prop :=
  (∃ e, e ∈ pending (tasks s) ∧ action e.2 = Fade i) ∨
  (opacity a = "0"%string ∧
   ((∃ e, e ∈ pending (tasks s) ∧ action e.2 = Remove i ∧ due e.2 ≤ d2) ∨
    attached a = false)).

(** The timers that fade an alert are due by [d1], and every alert is on
    its way out. *)
Record alerts_inv (d1 d2 : Z) (s : notices) : Prop := {
  ai_tasks : tasks_ok (tasks s);
  ai_fade : ∀ e i, e ∈ pending (tasks s) → action e.2 = Fade i → due e.2 ≤ d1;
  ai_alerts : ∀ i a, alerts s !! i = Some a → on_its_way d2 s i a;
}.

(** The banner will be cleared by [d]: a timer that clears it is pending
    and due by then, or it is empty. *)
Definition banner_inv (d : Z) (s : notices) : Prop :=
  (∃ e, e ∈ pending (tasks s) ∧ action e.2 = ClearBanner ∧ due e.2 ≤ d) ∨
  banner s = Some ""%string.

(** ** The table *)

Lemma tasks_ok_setTimeout c delay now ts :
  tasks_ok ts → tasks_ok (setTimeout c delay now ts).2.
Proof.
  intros [Hwf Hone]. split; [by apply setTimeout_wf|].
  intros e [He| ->]%pending_setTimeout; [by apply Hone|done].
Qed.

(** A timer that does not repeat leaves the table when it fires. *)
Lemma rearm_once now (e e' : nat * timer task) l :
  period e.2 = None → e' ∈ rearm now e l ↔ e' ∈ l ∧ e'.1 ≠ e.1.
Proof. intros Hp. unfold rearm. rewrite Hp, list_elem_of_filter. tauto. Qed.

(** The timer that fires, and the state its callback runs in. *)
Lemma run_next_Some now s s' :
  tasks_ok (tasks s) → run_next now s = Some s' →
  ∃ e ts, e ∈ pending (tasks s) ∧ due e.2 ≤ now ∧ timers_wf ts ∧
    next_timer ts = next_timer (tasks s) ∧
    (∀ e', e' ∈ pending ts ↔ e' ∈ pending (tasks s) ∧ e' ≠ e) ∧
    (due_at now (pending ts) < due_at now (pending (tasks s)))%nat ∧
    s' = run_task now (action e.2) {| banner := banner s; alerts := alerts s; tasks := ts |}.
Proof.
  intros [Hwf Hone]. unfold run_next.
  destruct (fire_next now (tasks s)) as [[[i tm] ts]|] eqn:Hf; [|done].
  apply fire_next_Some in Hf as (He & Hd & _ & ->). intros [= <-].
  exists (i, tm), (Timers (rearm now (i, tm) (pending (tasks s))) (next_timer (tasks s))).
  pose proof (Hone _ He) as Hp.
  split_and!; [done|done|by apply rearm_wf|done| | |done].
  2:{ apply due_at_rearm_lt; [|done..]. intros every. simpl in *. by rewrite Hp. }
  intros e'. simpl. rewrite rearm_once by done. split; intros [He' Hne]; (split; [done|]).
  - by intros ->.
  - intros Heq. by apply Hne, (pending_inj (tasks s)).
Qed.

Lemma run_next_None now s : run_next now s = None ↔ ∀ e, e ∈ pending (tasks s) → now < due e.2.
Proof.
  rewrite <- fire_next_None. unfold run_next.
  by destruct (fire_next now (tasks s)) as [[[i tm] ts]|].
Qed.

Lemma run_task_ok now c s : tasks_ok (tasks s) → tasks_ok (tasks (run_task now c s)).
Proof. destruct c; [done| |done]. apply tasks_ok_setTimeout. Qed.

Lemma run_next_ok now s s' :
  tasks_ok (tasks s) → run_next now s = Some s' → tasks_ok (tasks s').
Proof.
  intros Hok (e & ts & He & _ & Hwf & _ & Hts & _ & ->)%run_next_Some; [|done].
  apply run_task_ok. split; [done|]. intros e' [He' _]%Hts. by apply Hok.
Qed.

(** A task arms no timer that is due at once. *)
Lemma due_at_run_task now c s :
  due_at now (pending (tasks (run_task now c s))) = due_at now (pending (tasks s)).
Proof.
  destruct c; [done| |done]. unfold due_at. simpl.
  rewrite filter_app, length_app, filter_cons, decide_False; [simpl; lia|].
  simpl. unfold fade_delay. lia.
Qed.

(** No timer is due when time has passed. *)
Lemma pass_done now s : tasks_ok (tasks s) → run_next now (pass now s) = None.
Proof.
  intros Hok.
  apply (iterate_done (run_next now) (λ s, tasks_ok (tasks s))
           (λ s, due_at now (pending (tasks s))));
    [|done|apply due_at_length].
  intros s0 s' Hok0 Hs'. split; [by eapply run_next_ok|].
  apply run_next_Some in Hs' as (e & ts & _ & _ & _ & _ & _ & Hlt & ->); [|done].
  by rewrite due_at_run_task.
Qed.

Lemma pass_idle now s : (∀ e, e ∈ pending (tasks s) → now < due e.2) → pass now s = s.
Proof. intros Hq. by apply iterate_None, run_next_None. Qed.

(** ** The alerts *)

(** An alert stays on its way while its timers stay. *)
Lemma on_its_way_keep d2 s s' i a :
  (∀ e, e ∈ pending (tasks s) → action e.2 = Fade i ∨ action e.2 = Remove i →
        e ∈ pending (tasks s')) →
  on_its_way d2 s i a → on_its_way d2 s' i a.
Proof.
  intros Hkeep [(e & He & Ha)|[Ho [(e & He & Ha & Hd)|Hat]]].
  - left. exists e. auto.
  - right. split; [done|]. left. exists e. auto.
  - right. auto.
Qed.

(** The alert whose timer has fired. *)
Lemma on_its_way_faded d2 s i a e :
  e ∈ pending (tasks s) → action e.2 = Remove i → due e.2 ≤ d2 →
  on_its_way d2 s i (faded a).
Proof. intros He Ha Hd. right. split; [done|]. left. by exists e. Qed.

Lemma on_its_way_removed d2 s s' i a :
  (∀ e, e ∈ pending (tasks s) → action e.2 = Fade i → e ∈ pending (tasks s')) →
  on_its_way d2 s i a → on_its_way d2 s' i (removed a).
Proof.
  intros Hkeep [(e & He & Ha)|[Ho _]].
  - left. exists e. auto.
  - right. auto.
Qed.

(** A timer firing keeps the invariant, when the alerts that fade now
    are given until [d2]. *)
Lemma run_next_alerts_inv now s s' d1 d2 :
  alerts_inv d1 d2 s →
  (∀ e i, e ∈ pending (tasks s) → action e.2 = Fade i → now + fade_delay ≤ d2) →
  run_next now s = Some s' → alerts_inv d1 d2 s'.
Proof.
  intros [Hok Hfade Hal] Hd2 Hs'. pose proof (run_next_ok _ _ _ Hok Hs') as Hok'.
  apply run_next_Some in Hs' as (e & ts & He & _ & _ & _ & Hts & _ & ->); [|done].
  assert (∀ e1, e1 ∈ pending (tasks s) → action e1.2 ≠ action e.2 → e1 ∈ pending ts)
    as Hstay by (intros e1 ? ?; apply Hts; split; [done|congruence]).
  split; [done|..]; destruct (action e.2) as [|j|j] eqn:Ha; simpl in *.
  - intros e1 i [He1 _]%Hts. by apply Hfade.
  - intros e1 i [[He1 _]%Hts| ->%list_elem_of_singleton]%elem_of_app;
      [by apply Hfade|done].
  - intros e1 i [He1 _]%Hts. by apply Hfade.
  - intros i a Hi. apply (on_its_way_keep d2 s); [|by apply Hal].
    intros e1 He1 [H1|H1]; apply Hstay; [done|congruence|done|congruence].
  - intros i a'. destruct (decide (i = j)) as [->|Hne].
    + rewrite list_lookup_alter_eq. intros (a & Hi & ->)%fmap_Some.
      apply (on_its_way_faded _ _ _ _ (next_timer ts, Timer (now + fade_delay) None (Remove j)));
        [apply elem_of_app; right; by left|done|by apply (Hd2 e j)].
    + rewrite list_lookup_alter_ne by done. intros Hi.
      apply (on_its_way_keep d2 s); [|by apply Hal].
      intros e1 He1 [H1|H1]; apply elem_of_app; left; apply Hstay; congruence.
  - intros i a'. destruct (decide (i = j)) as [->|Hne].
    + rewrite list_lookup_alter_eq. intros (a & Hi & ->)%fmap_Some.
      apply (on_its_way_removed d2 s); [|by apply Hal].
      intros e1 He1 H1. apply Hstay; congruence.
    + rewrite list_lookup_alter_ne by done. intros Hi.
      apply (on_its_way_keep d2 s); [|by apply Hal].
      intros e1 He1 [H1|H1]; apply Hstay; congruence.
Qed.

(** The timers [setupAlertTimeout] arms. *)
Section arm.
Context (now : Z).
Implicit Types (l : list nat) (ts : timers task).

Lemma arm_fades_ok l ts : tasks_ok ts → tasks_ok (arm_fades now ts l).
Proof.
  revert ts. induction l as [|i l IH]; intros ts Hok; [done|].
  by apply IH, tasks_ok_setTimeout.
Qed.

Lemma arm_fades_pending l ts e :
  e ∈ pending (arm_fades now ts l) ↔
  e ∈ pending ts ∨
  ∃ i, i ∈ l ∧ action e.2 = Fade i ∧ due e.2 = now + alert_delay ∧ e ∈ pending (arm_fades now ts l).
Proof.
  split; [|by intros [He|(? & ? & ? & ? & ?)]; [|done];
            revert ts He; induction l as [|i l IH]; intros ts He; [done|];
            apply IH, elem_of_app; left].
  revert ts. induction l as [|i l IH]; intros ts; [by left|].
  intros He. destruct (IH _ He) as [[He'| ->%list_elem_of_singleton]%elem_of_app|Hr].
  - by left.
  - right. exists i. split_and!; [by left|done..].
  - right. destruct Hr as (j & ? & ? & ? & ?). exists j. split_and!; [by right|done..].
Qed.

Lemma arm_fades_armed l ts i :
  i ∈ l → ∃ e, e ∈ pending (arm_fades now ts l) ∧ action e.2 = Fade i.
Proof.
  revert ts. induction l as [|j l IH]; intros ts; [by intros ?%elem_of_nil|].
  intros [->|Hi]%elem_of_cons; [|by apply IH].
  exists (next_timer ts, Timer (now + alert_delay) None (Fade j)). split; [|done].
  change (arm_fades now ts (j :: l))
    with (arm_fades now (setTimeout (Fade j) alert_delay now ts).2 l).
  apply arm_fades_pending. left. apply pending_setTimeout. by right.
Qed.
End arm.

(** [setupAlertTimeout] on a page without timers: every alert has its
    timer, due in 5000 ms. *)
Lemma setupAlertTimeout_inv now s d2 :
  tasks s = no_timers → alerts_inv (now + alert_delay) d2 (setupAlertTimeout now s).
Proof.
  intros Hts. unfold setupAlertTimeout. rewrite Hts. split; simpl.
  - apply arm_fades_ok. split; [apply no_timers_wf|by intros e ?%elem_of_nil].
  - intros e i [?%elem_of_nil|(_ & _ & _ & -> & _)]%arm_fades_pending _; done.
  - intros i a Hi. left. apply arm_fades_armed, elem_of_seq.
    apply lookup_lt_Some in Hi. lia.
Qed.

(** The list of alerts is the one the selector returned: a timer changes
    the alerts, not their number. *)
Lemma length_alerts_pass now s : length (alerts (pass now s)) = length (alerts s).
Proof.
  apply (iterate_ind (run_next now) (λ s', length (alerts s') = length (alerts s))); [|done].
  intros s0 s' Hs0. unfold run_next.
  destruct (fire_next now (tasks s0)) as [[[i tm] ts]|]; [|done].
  intros [= <-]. destruct (action tm); simpl; by rewrite ?length_alter.
Qed.

(** A timer firing when no alert waits to fade. *)
Lemma run_next_alerts_fading now s s' d1 d2 :
  alerts_inv d1 d2 s ∧ (∀ e i, e ∈ pending (tasks s) → action e.2 ≠ Fade i) →
  run_next now s = Some s' →
  alerts_inv d1 d2 s' ∧ (∀ e i, e ∈ pending (tasks s') → action e.2 ≠ Fade i).
Proof.
  intros [Hinv Hno] Hs'. split.
  { apply (run_next_alerts_inv now s); [done| |done]. intros e i He Ha. by destruct (Hno e i). }
  apply run_next_Some in Hs' as (e & ts & He & _ & _ & _ & Hts & _ & ->); [|apply Hinv].
  destruct (action e.2) as [|j|j] eqn:Ha; simpl; [|by destruct (Hno e j)|];
    intros e1 i [He1 _]%Hts; by apply Hno.
Qed.

(** Nothing happens to the alerts during the first five seconds. *)
Lemma setupAlertTimeout_idle now t s :
  tasks s = no_timers → t < now + alert_delay →
  pass t (setupAlertTimeout now s) = setupAlertTimeout now s.
Proof.
  intros Hts Ht. apply pass_idle. simpl. rewrite Hts.
  intros e [?%elem_of_nil|(_ & _ & _ & -> & _)]%arm_fades_pending; [done|lia].
Qed.

(** Once the timers that were due by [d1] have fired, every alert has
    faded and waits to be removed. *)
Lemma pass_fades t s d1 :
  alerts_inv d1 (t + fade_delay) s → d1 ≤ t →
  alerts_inv d1 (t + fade_delay) (pass t s) ∧
  (∀ e i, e ∈ pending (tasks (pass t s)) → action e.2 ≠ Fade i) ∧
  Forall (λ a, opacity a = "0"%string) (alerts (pass t s)).
Proof.
  intros Hinv Hd1.
  assert (alerts_inv d1 (t + fade_delay) (pass t s)) as Hinv'.
  { apply (iterate_ind (run_next t) (alerts_inv d1 (t + fade_delay))); [|done].
    intros s0 s' H0. by apply run_next_alerts_inv. }
  pose proof (proj1 (run_next_None _ _) (pass_done t s (ai_tasks _ _ _ Hinv))) as Hdone.
  assert (∀ e i, e ∈ pending (tasks (pass t s)) → action e.2 ≠ Fade i) as Hno.
  { intros e i He Ha. pose proof (ai_fade _ _ _ Hinv' e i He Ha). specialize (Hdone e He). lia. }
  split_and!; [done..|]. apply Forall_lookup. intros i a Hi.
  destruct (ai_alerts _ _ _ Hinv' i a Hi) as [(e & He & Ha)|[Ho _]]; [|done].
  by destruct (Hno e i).
Qed.

(** Once the timers that remove the alerts, due by [d2], have fired,
    every alert has left the document. *)
Lemma pass_removes t s d1 d2 :
  alerts_inv d1 d2 s → (∀ e i, e ∈ pending (tasks s) → action e.2 ≠ Fade i) → d2 ≤ t →
  Forall (λ a, opacity a = "0"%string ∧ attached a = false) (alerts (pass t s)).
Proof.
  intros Hinv Hno Hd2.
  destruct (iterate_ind (run_next t)
              (λ s, alerts_inv d1 d2 s ∧ ∀ e i, e ∈ pending (tasks s) → action e.2 ≠ Fade i))
    with (fuel := length (pending (tasks s))) (s := s) as [Hinv' Hno']; [|done|].
  { intros s0 s'. apply run_next_alerts_fading. }
  pose proof (proj1 (run_next_None _ _) (pass_done t s (ai_tasks _ _ _ Hinv))) as Hdone.
  apply Forall_lookup. intros i a Hi.
  destruct (ai_alerts _ _ _ Hinv' i a Hi) as [(e & He & Ha)|[Ho [(e & He & Ha & Hd)|Hat]]].
  - by destruct (Hno' e i).
  - specialize (Hdone e He). lia.
  - done.
Qed.

(** The life of an alert.  On a page without pending timers,
    [setupAlertTimeout] leaves the alerts as they are for 5000 ms; when
    the browser runs the timers after that, at a time [t1], every alert
    gets opacity 0; and when it runs the timers again 500 ms or more
    after [t1], every alert has left the document.  The number of alerts
    in the list is the same throughout. *)
Theorem setupAlertTimeout_removes (now t t1 t2 : Z) (s : notices) :
  tasks s = no_timers → t < now + alert_delay → now + alert_delay ≤ t1 → t1 + fade_delay ≤ t2 →
  let s0 := setupAlertTimeout now s in
  alerts (pass t s0) = alerts s ∧
  Forall (λ a, opacity a = "0"%string) (alerts (pass t1 s0)) ∧
  Forall (λ a, opacity a = "0"%string ∧ attached a = false) (alerts (pass t2 (pass t1 s0))) ∧
  length (alerts (pass t2 (pass t1 s0))) = length (alerts s).
Proof.
  intros Hts Ht Ht1 Ht2 s0.
  destruct (pass_fades t1 s0 (now + alert_delay)) as (Hinv & Hno & Hfaded);
    [by apply setupAlertTimeout_inv|done|].
  split_and!; [by unfold s0; rewrite setupAlertTimeout_idle|done| |].
  - by apply (pass_removes t2 _ (now + alert_delay) (t1 + fade_delay)).
  - by rewrite !length_alerts_pass.
Qed.

(** ** The banner *)

(** A timer firing keeps the banner on its way to be cleared. *)
Lemma run_next_banner_inv now s s' d :
  tasks_ok (tasks s) ∧ banner_inv d s → run_next now s = Some s' →
  tasks_ok (tasks s') ∧ banner_inv d s'.
Proof.
  intros [Hok Hb] Hs'. split; [by eapply run_next_ok|].
  apply run_next_Some in Hs' as (e & ts & He & _ & _ & _ & Hts & _ & ->); [|done].
  destruct (action e.2) as [|j|j] eqn:Ha; [by right|..];
    (destruct Hb as [(e0 & He0 & Ha0 & Hd0)|Hb]; [left; exists e0|by right]);
    (split; [|done]); simpl; rewrite ?elem_of_app, Hts;
    [left|]; (split; [done|congruence]).
Qed.

(** Once the timer that clears the banner, due by [d], has fired, the
    banner is empty. *)
Lemma pass_clears t s d :
  tasks_ok (tasks s) → banner_inv d s → d ≤ t → banner (pass t s) = Some ""%string.
Proof.
  intros Hok Hb Hd.
  destruct (iterate_ind (run_next t) (λ s, tasks_ok (tasks s) ∧ banner_inv d s))
    with (fuel := length (pending (tasks s))) (s := s)
    as [_ [(e & He & _ & Hdue)|Hclear]]; [|done| |done].
  { intros s0 s'. apply run_next_banner_inv. }
  pose proof (proj1 (run_next_None _ _) (pass_done t s Hok) e He). lia.
Qed.

Lemma showTypingIndicator_ok username now s :
  tasks_ok (tasks s) → tasks_ok (tasks (showTypingIndicator username now s)).
Proof.
  unfold showTypingIndicator. destruct (banner s); [|done]. apply tasks_ok_setTimeout.
Qed.

(** The banner is cleared by the timer of an earlier call.  When
    the page has the banner and [showTypingIndicator] is called for one
    user at time [now] and for another at any later time [now'], the
    banner reads that the second user is typing, and it is empty once
    the browser has run the timers 2000 ms after the first call, however
    short a time the second line has been shown. *)
Theorem showTypingIndicator_cleared_early (u v : string) (now now' t : Z) (s : notices) :
  tasks_ok (tasks s) → is_Some (banner s) → now + banner_delay ≤ t →
  let s' := showTypingIndicator v now' (showTypingIndicator u now s) in
  banner s' = Some (v +:+ " is typing...") ∧ banner (pass t s') = Some ""%string.
Proof.
  intros Hok [txt Hb] Ht s'. split.
  - unfold s', showTypingIndicator. by rewrite Hb.
  - apply (pass_clears _ _ (now + banner_delay));
      [by do 2 apply showTypingIndicator_ok|left|done].
    exists (next_timer (tasks s), Timer (now + banner_delay) None ClearBanner).
    split; [|done]. unfold s', showTypingIndicator. rewrite Hb. simpl.
    rewrite !elem_of_app, !list_elem_of_singleton. auto.
Qed.

(** ** Scenarios *)

(** A page with the banner and two alerts. *)
Definition sample_notices : notices :=
  {| banner := Some ""%string;
     alerts := [ {| transition := ""; opacity := ""; attached := true |};
                 {| transition := ""; opacity := ""; attached := true |} ];
     tasks := no_timers |}.

Lemma sample_notices_ok : tasks_ok (tasks sample_notices).
Proof. split; [apply no_timers_wf|by intros e ?%elem_of_nil]. Qed.

Lemma setupAlertTimeout_removes_witness :
  let s0 := setupAlertTimeout 0 sample_notices in
  alerts (pass 4999 s0) = alerts sample_notices ∧
  Forall (λ a, opacity a = "0"%string) (alerts (pass 5000 s0)) ∧
  Forall (λ a, opacity a = "0"%string ∧ attached a = false)
         (alerts (pass 5500 (pass 5000 s0))) ∧
  length (alerts (pass 5500 (pass 5000 s0))) = length (alerts sample_notices).
Proof. by apply (setupAlertTimeout_removes 0 4999 5000 5500). Defined.

Lemma showTypingIndicator_cleared_early_witness :
  let s' := showTypingIndicator "bob" 1500 (showTypingIndicator "alice" 0 sample_notices) in
  banner s' = Some ("bob" +:+ " is typing...") ∧ banner (pass 2000 s') = Some ""%string.
Proof.
  apply (showTypingIndicator_cleared_early "alice" "bob" 0 1500 2000);
    [apply sample_notices_ok|by eexists|done].
Defined.

(** The alerts fade when the browser runs the timers, however late, and
    are removed 500 ms after that. *)
Example alerts_late :
  let s0 := setupAlertTimeout 0 sample_notices in
  attached <$> alerts (pass 5499 (pass 5000 s0)) = [true; true] ∧
  attached <$> alerts (pass 5500 (pass 5000 s0)) = [false; false] ∧
  attached <$> alerts (pass 5500 s0) = [true; true] ∧
  attached <$> alerts (pass 6000 (pass 5500 s0)) = [false; false].
Proof. by vm_compute. Qed.

(** The line of bob, shown at 1500, is there at 1999 and gone at 2000;
    alone it would stay until 3500. *)
Example banner_flicker :
  let s' := showTypingIndicator "bob" 1500 (showTypingIndicator "alice" 0 sample_notices) in
  banner (pass 1999 s') = Some "bob is typing..."%string ∧
  banner (pass 2000 s') = Some ""%string ∧
  banner (pass 3499 (showTypingIndicator "bob" 1500 sample_notices))
    = Some "bob is typing..."%string.
Proof. by vm_compute. Qed.
